(* ===== verification/_CoqProject ===== *)
-Q . S2P
Prelude.v
Bytes.v
Words.v
Config.v
Log.v
LogRep.v
LogOps.v
LogSpec.v
Kvs.v
State.v
Init.v
Hoare.v
Qp.v
QpSpec.v
Cq.v
RcOps.v
Frame.v
Replication.v
CqSpec.v
CommitSpec.v
Role.v
EpDb.v
Ud.v
Normal.v
Election.v
Server.v
PostSpec.v
RoleSpec.v
ElectionSpec.v
LeaderSpec.v
Moves.v
System.v
SystemSpec.v
ReplSpec.v
NormalSpec.v
ServerSpec.v
Ringbuf.v
Fifo.v
Tailq.v
RingbufSpec.v
ConManager.v
Uthash.v
UthashRep.v
UthashOps.v
UthashSpec.v
UthashMap.v
ConTables.v
Framing.v
Tpl.v
ConSpec.v
Segment.v
PacketBuffer.v
PacketSpec.v
PacketLocks.v
Proxy.v
ProxySpec.v
SubmitSpec.v
RawSpec.v
FramingSpec.v
TplSpec.v
Serve.v
Guest.v
Intercept.v
InterceptSpec.v
GuestSpec.v
Takeover.v
NetQueue.v
NetQueueSpec.v
Tap.v
TapSpec.v
WaitSpec.v
Rbtree.v
RbRep.v
RbInsert.v
RbErase.v
RbRemove.v
RbWalk.v
EpTree.v
EpTreeSpec.v
EpFree.v
