(* ===== verification/Prelude.v ===== *)
(** * Reliable-Socket: the replication of a guest's network connections

    Reliable-Socket keeps several copies of a virtual machine in step.  The
    packets of the clients are agreed on by a group of servers with DARE, a
    consensus protocol over RDMA; every server feeds the agreed packets to its
    own copy of the guest, through the network device of the emulator.  In
    the guest a preloaded library gives the backups the TCP connections of
    the leader.  This library models the C code of the servers, of the
    emulated device and of the guest and proves what makes it correct; where
    the code does not do what it means to, a theorem shows a run on which it
    goes wrong.

    ** The program and its model

    Integers of C are [Z] with the wrap-around of their type written out
    (below); memory is bytes; undefined behaviour (an access outside an
    object, a null pointer, a failed [assert]) is the value [Undef] and a loop
    that does not end is [Spin], so "the code returns" is part of every
    theorem that gives a result.

    - The replicated log, include/dare/dare_log.h.  [Bytes] is the memory,
      [Log] the operations on the circular buffer.  [LogRep] says which list
      of entries a buffer holds, [LogOps] specifies the traversals and the
      append on that list, [LogSpec] has the theorems: append, NC-buffers, log
      adjustment, the order of offsets, pruning.
    - Identifiers and configurations, dare_server.h, dare_ibv_rc.h,
      dare_config.h: [Words], [Config].
    - The state machine behind the log, dare/dare_kvs_sm.c: [Kvs], which
      refines a finite map.
    - The server.  [State] has the structures of a server as records and the
      monad [M] its code is written in; [Init] the initial state; [Hoare] the
      weakest preconditions; [Frame] what operations leave alone.
    - dare/dare_ibv_rc.c: [Qp] the queue pairs and the access to the log,
      [Cq] posting requests and waiting for completions, [RcOps] what a server
      does to the memory of others, [Replication] log adjustment, log update
      and the commit offset.  Theorems: [QpSpec], [CqSpec], [CommitSpec],
      [PostSpec].
    - dare/dare_server.c: [Role] (candidate, leader, follower), [Normal]
      (commit, apply, prune, remove servers), [Election], [Server] (start-up,
      recovery, heartbeats, polling).  Theorems: [RoleSpec], [ElectionSpec],
      [LeaderSpec], [NormalSpec], [ServerSpec].
    - The group.  [Moves] says what any part of a server can change of what
      the others see in an election, as a small relation of moves.  [System]
      puts servers side by side: their parts run in any order, and what they
      post lands in the memory of the others late, out of order, twice or not
      at all.  [SystemSpec] has the invariant over all of them and the theorems
      about leaders.  [ReplSpec] is about a leader and one follower: the writes
      and completions of an update and of a repair, and the log of the follower
      when they have landed.
    - dare/dare_ep_db.c and dare/dare_ibv_ud.c: [EpDb] and [Ud], the clients
      and joining servers and the datagrams they exchange.  [EpDb] keeps the
      endpoints in a list sorted by LID, which is what the rest of the model
      uses; [EpTree] is the same code on the red-black tree it is written for.
    - utils/rbtree: [Rbtree], on a memory of nodes with the colour in the
      parent pointer.  [RbRep] says which tree a memory holds and what a
      position in it is; [RbInsert], [RbErase], [RbRemove] and [RbWalk]
      specify insertion, rebalancing, removal and the traversals.
      [EpTreeSpec] shows that [EpTree] refines [EpDb], [EpFree] that freeing
      the database is safe.
    - utils/ringbuf/ringbuf.c: [Ringbuf]; [RingbufSpec] shows that it is a
      bounded queue and makes it an instance of the interface [Fifo].
    - utils/uthash/uthash.h: [Uthash], on a memory of handles with the two
      linked lists through them.  [UthashRep] is about linked lists and
      buckets, [UthashOps] about the doubling of the buckets and the search,
      [UthashSpec] specifies every operation, and [UthashMap] shows that a
      table is a map in the order of insertion.
    - utils/queue/queue.h: [Tailq], the queue of requests with its pointers to
      pointers; it is a list, which is how the rest of the model has it.
    - packet-buffer/packet-buffer.c: [PacketBuffer], written against [Fifo].
      [PacketSpec] refines it to two queues of packets and shows what a change
      of leadership guarantees; [PacketLocks] is about its spin locks.
    - vpb/con-manager.c: [ConManager], which connections exist and how far the
      guest has sent on them, and when a packet has to wait; [ConSpec] for its
      decisions, [Segment] for the packets it parses.  Its tables are finite
      maps there; [ConTables] has them as entries under [Uthash] and shows
      that these refine the maps.
    - proxy/proxy.c and db/db-interface.c: [Proxy].  [ProxySpec] is about the
      snapshot of the stored requests, [SubmitSpec] about the labels of
      requests, [RawSpec] about the way of a packet from the log to the guest,
      [WaitSpec] about the condition variables of the TCP thread.
    - qemu-kvm/net/tap.c: [Tap], what the guest gets and what it sends, with
      the queues of net.c and net/queue.c in [NetQueue].  [NetQueueSpec] shows
      what a queue keeps, [TapSpec] what reaches the guest and the network.
    - vpb/common.c, project/src/common.c and vpb/tpl.c: [Framing], messages on
      stream sockets, and [Tpl], the serialisation of a connection; theorems
      in [FramingSpec] and [TplSpec].
    - The way of a new connection to the backups.  [Intercept] is the library
      project/src/intercept.c, [Guest] the manager of the guest,
      project/src/con-manager-guest.c, [Serve] the threads of con-manager.c
      that talk to it.  [InterceptSpec] has the laws of the system calls, what
      the library does by them and a TCP stack that obeys them, [GuestSpec] what
      the manager knows; [Takeover] follows a connection through all of them.

    The parts meet as in the program: [Proxy] queues requests, [Ud] takes
    them from the queue into the log, [Replication] copies the log and moves
    the commit offset, [Normal] applies committed entries and calls the proxy
    again, which feeds them through [ConManager] and [PacketBuffer] to the
    guest.  [Election] and [Role] decide who does the first half.  [Tap] is at
    both ends: it submits the packets of the network to [Proxy] on the leader
    and takes the agreed ones from [PacketBuffer] on a backup.

    ** What the theorems show

    - Log: appending extends the abstract list by one entry and moves no
      boundary; adjustment finds the longest common prefix; pruning drops a
      prefix that every server has applied.
    - Replication: the commit offset only advances, and in a stable
      configuration without a wrap-around only to an offset that a majority is
      known to have (across a wrap-around it can be the leader's own end that
      no other server has); the writes of an update cover exactly the missing
      bytes, and when they have landed the follower has the leader's entries; a
      log that differs is cut behind the last common entry and made equal, if
      there is room for an entry header at the cut; success of a waiting loop
      means that a majority completed.
    - Elections: a server votes at most once in a term, only for a candidate
      whose log is at least as good; it becomes leader exactly with the
      majorities that the configuration asks for; it revokes the access of
      the others to its log before it examines it, and grants it to the
      leader alone.
    - The group: what a server runs once its log is recovered follows the
      steps of the protocol; in
      any run of a group in which only votes of the candidate's own term are
      counted, no term has two leaders.  The code does not see to that
      condition: acknowledgements carry no term, and a run of three servers
      ends with two leaders in one term.
    - Applying: a follower hands over the committed commands once each and in
      order; the key-value store answers as a finite map.
    - Packets: ring buffer and packet buffers refine queues, for any sequence
      of operations within their capacity; no packet is lost at one change of
      leadership; a segment behind the SYN of its connection is held back until
      the guest has sent what it acknowledges, as 32-bit numbers; the TCP
      thread does not miss the wake-up for it, unless it acknowledges 1.
    - Endpoints: the red-black tree stays balanced and sorted, and the database
      on it answers as the sorted list for any sequence of operations; freeing
      it in postorder reads no freed memory.
    - Tables: a hash table with distinct keys answers as a map for any sequence
      of operations, through any number of doublings of its buckets, and the
      connection manager on such tables as on finite maps.
    - Requests: labels are unique for up to 256 connections; requests leave
      the queue in the order in which they were submitted; the snapshot of
      a database that was empty at the start replays the requests.
    - The guest: on a leader it gets the packets that were submitted, on a
      backup those the packet buffer delivers, in order and once, whatever
      its card refuses; only a leader writes to the network; what a backup's
      guest sends is known to its host.
    - Connections: messages and serialised connections arrive as they were
      sent; an image that tpl accepts is read inside its bounds; a connection
      that the leader's server accepts or makes is continued by a socket of
      the backup's server, with the same peer, options and sequence numbers,
      as long as no later report is of a connection to the same address.
    - What goes wrong: theorems on concrete or general runs where a majority,
      a wake-up, a log or a connection is lost.

    ** Bounds and fuel

    Loops over a number known beforehand are folds over [upto n].  The other
    loops take fuel and are [Spin] without it; each theorem says how much is
    enough: one step per entry of the log for its traversals, two per entry
    for [apply_loop] (which also wraps around once per entry at most),
    [count + 1] steps, fixed in the definitions, for the loops of the ring
    buffer, one per record for the snapshot.
    LIDs have 16 bits, so a balanced tree of endpoints is at most 32 nodes
    high and 34 steps are enough for every loop along a path of it.  A call
    of [tap_send] takes one step per packet that waits, receiving a message
    one per byte, and the library asks the manager as often as the theorem
    says.  Walking along a chain or the list of a hash table takes at most
    one step per allocated handle, which is the fuel in the definitions.
    [unknown_record_never_ends] is about every amount of fuel.  Inside [M]
    the fuel is the field [fuel] of the parameters of a server.

    ** Assumptions

    - The InfiniBand device is a part of the state: what [ibv_modify_qp],
      [ibv_post_send] and [ibv_poll_cq] answer are lists in it, with no
      assumption but those a theorem names; data of a completed read arrives
      with its completion.
    - Time, random numbers and the answers of the operating system are parts
      of the state or arguments.  [malloc] is an argument where the code
      checks its result, and succeeds in con-manager.c, which does not.
    - The system calls of the guest are a class, [TcpStack]; that they do what
      Linux documents of its repair mode are the laws of another,
      [RepairLaws].  The network card behind the tap device is a class,
      [Device], with the law that it keeps what it does not refuse.
    - Pieces in which bytes arrive on a stream and the numbers of bytes that
      [send] accepts are arguments.
    - Berkeley DB is a function from the stored records and a new one to the
      new list of records or an error.
    - The hash tables of the proxy and of the guest are maps or lists with the
      keys the code uses; that is what [UthashMap] shows of uthash.h for
      distinct keys.  [Proxy] can add a key twice and finds what was added
      last, which uthash.h does until it doubles its buckets
      ([equal_keys_depend_on_doubling]).  No block of memory has 2^35 bytes.
    - What stack variables hold before they are written, the padding of
      structures included, is an argument.
    - A mutex or spin lock makes the code it protects one atomic step, except
      in [PacketLocks] and [WaitSpec], which are about the order of the steps.

    - A group is the servers of one stable configuration.  Reads complete with
      any data ([elsewhere] leaves the log and the device free), a step of a
      server is a part of its loop or a callback that returns or ends the
      process, and what a server said about elections is what it wrote to its
      log file.

    ** Not modelled

    Groups in which servers join or recover while an election runs: the
    datagrams of joining and the recovery are modelled for one server, not as
    steps of [System], where of the control data of others only what elections
    need is written.
    Opening sockets and devices, libev, reading of configuration files,
    opening the InfiniBand device and registering memory (dare_ibv.c), and
    logging: I/O or calls of libraries only.  Of queue.h the other kinds of
    lists, of uthash.h sorting, selecting, the Bloom filter and the hash
    functions other than Jenkins', and of tpl.c strings, buffers, arrays and
    files are left out, which the program does not use; the guest has a later
    copy of uthash.h, project/src/include/uthash.h.  The callbacks of
    augmented red-black trees are not used, nor is con-module.c.  The daemons
    guard.c and guest-daemon.c, the hooks of spec_hooks.cpp, the rest of
    qemu-kvm and the test programs do not take part in the replication. *)

From Stdlib Require Export ZArith Lia Bool.
From stdpp Require Export base tactics gmap numbers list.

Open Scope Z_scope.

(** ** Machine integers

    A C value of an unsigned type of [w] bits is a [Z] in [0, 2^w); every
    operation whose mathematical result can leave the range is followed by
    the wrap the C type performs. *)

Declare Scope cint_scope.
Delimit Scope cint_scope with cint.

Definition wrap (w x : Z) : Z := x mod 2 ^ w.

Abbreviation u8 := (wrap 8).
Abbreviation u16 := (wrap 16).
Abbreviation u32 := (wrap 32).
Abbreviation u64 := (wrap 64).
Abbreviation M64 := 18446744073709551616 (only parsing).

Notation "x +64 y" := (u64 (x + y)) (at level 50, left associativity) : cint_scope.
Notation "x -64 y" := (u64 (x - y)) (at level 50, left associativity) : cint_scope.
Open Scope cint_scope.

(** C truth values: [0] is false, anything else is true. *)
Definition c_true (x : Z) : bool := negb (x =? 0).
Definition c_bool (b : bool) : Z := if b then 1 else 0.

(** The indices [0 .. n-1] a [for (i = 0; i < n; i++)] loop visits. *)
Definition upto (n : Z) : list Z := seqZ 0 n.

(** Array reads and writes at a C index: [None] is an access outside the
    array, which C leaves undefined. *)
Definition aget {A} (l : list A) (i : Z) : option A :=
  if (0 <=? i) then l !! Z.to_nat i else None.

Definition aset {A} (l : list A) (i : Z) (x : A) : option (list A) :=
  if (0 <=? i) && (i <? Z.of_nat (length l))
  then Some (<[Z.to_nat i := x]> l) else None.

(** The result of a piece of C code: a value, undefined behaviour (an access
    outside an object, a null dereference), or a loop that is still running
    when the fuel of the model is used up. *)
Inductive outcome (A : Type) : Type :=
| Ok (a : A)
| Undef
| Spin.
Arguments Ok {A} a.
Arguments Undef {A}.
Arguments Spin {A}.

Definition obind {A B} (x : outcome A) (f : A -> outcome B) : outcome B :=
  match x with
  | Ok a => f a
  | Undef => Undef
  | Spin => Spin
  end.

Definition or_undef {A} (x : option A) : outcome A :=
  match x with
  | Some a => Ok a
  | None => Undef
  end.

Declare Scope outcome_scope.
Delimit Scope outcome_scope with outcome.
Notation "'let!' x := c 'in' k" := (obind c (fun x => k))
  (at level 10, x pattern, c at level 100, k at level 200)
  : outcome_scope.
Open Scope outcome_scope.

(** ** Tactics *)

(** Turn the boolean comparisons of the context into propositions. *)
Ltac zbool :=
  repeat match goal with
  | H : (_ && _)%bool = true |- _ => apply andb_true_iff in H; destruct H
  | H : (_ || _)%bool = false |- _ => apply orb_false_iff in H; destruct H
  | H : negb _ = true |- _ => apply negb_true_iff in H
  | H : negb _ = false |- _ => apply negb_false_iff in H
  | H : (_ =? _) = true |- _ => apply Z.eqb_eq in H
  | H : (_ =? _) = false |- _ => apply Z.eqb_neq in H
  | H : (_ <? _) = true |- _ => apply Z.ltb_lt in H
  | H : (_ <? _) = false |- _ => apply Z.ltb_ge in H
  | H : (_ <=? _) = true |- _ => apply Z.leb_le in H
  | H : (_ <=? _) = false |- _ => apply Z.leb_gt in H
  | H : (_ >=? _) = true |- _ => rewrite Z.geb_leb in H; apply Z.leb_le in H
  | H : (_ >=? _) = false |- _ => rewrite Z.geb_leb in H; apply Z.leb_gt in H
  | H : (_ >? _) = true |- _ => rewrite Z.gtb_ltb in H; apply Z.ltb_lt in H
  | H : (_ >? _) = false |- _ => rewrite Z.gtb_ltb in H; apply Z.ltb_ge in H
  end.

(** Case analysis on one comparison, with the propositional fact. *)
Ltac zcase :=
  match goal with
  | |- context [?a =? ?b] => destruct (Z.eqb_spec a b)
  | |- context [?a <? ?b] => destruct (Z.ltb_spec a b)
  | |- context [?a <=? ?b] => destruct (Z.leb_spec a b)
  | |- context [?a >=? ?b] => rewrite (Z.geb_leb a b); destruct (Z.leb_spec b a)
  | |- context [?a >? ?b] => rewrite (Z.gtb_ltb a b); destruct (Z.ltb_spec b a)
  end.

(** ** Lemmas on wrapped integers *)

Create HintDb dare discriminated.

Lemma wrap_small w x : 0 <= x < 2 ^ w -> wrap w x = x.
Proof. apply Z.mod_small. Qed.

Lemma wrap_range w x : 0 <= w -> 0 <= wrap w x < 2 ^ w.
Proof. intros. apply Z.mod_pos_bound. apply Z.pow_pos_nonneg; lia. Qed.

Lemma u64_small x : 0 <= x < M64 -> u64 x = x.
Proof. intros. apply wrap_small. lia. Qed.

Lemma u8_small x : 0 <= x < 256 -> u8 x = x.
Proof. intros. apply wrap_small. lia. Qed.

Lemma u64_range x : 0 <= u64 x < M64.
Proof. pose proof (wrap_range 64 x). lia. Qed.

Lemma u32_range x : 0 <= u32 x < 4294967296.
Proof. pose proof (wrap_range 32 x). lia. Qed.

Lemma u16_range x : 0 <= u16 x < 65536.
Proof. pose proof (wrap_range 16 x). lia. Qed.

Lemma u8_range x : 0 <= u8 x < 256.
Proof. pose proof (wrap_range 8 x). lia. Qed.

Lemma wrap_idemp w x : 0 <= w -> wrap w (wrap w x) = wrap w x.
Proof. intros. apply Z.mod_mod. apply Z.pow_nonzero; lia. Qed.

Lemma c_true_spec x : c_true x = true <-> x <> 0.
Proof. unfold c_true. rewrite negb_true_iff, Z.eqb_neq. done. Qed.

Lemma c_true_bool b : c_true (c_bool b) = b.
Proof. by destruct b. Qed.

#[export] Hint Resolve u64_range u32_range u16_range u8_range : dare.

(** ** Lemmas on arrays *)

Section Arrays.
Context {A : Type}.
Implicit Types (l : list A) (i : Z) (x : A).

Lemma aget_Some l i x : aget l i = Some x -> 0 <= i < Z.of_nat (length l).
Proof.
  unfold aget. destruct (Z.leb_spec 0 i); [|done].
  intros H1%lookup_lt_Some. lia.
Qed.

Lemma aget_is_Some l i :
  0 <= i < Z.of_nat (length l) -> exists x, aget l i = Some x.
Proof.
  intros [H1 H2]. unfold aget. rewrite (proj2 (Z.leb_le 0 i) H1).
  apply (lookup_lt_is_Some_2 l). lia.
Qed.

Lemma aset_Some l i x :
  0 <= i < Z.of_nat (length l) -> aset l i x = Some (<[Z.to_nat i := x]> l).
Proof.
  intros [H1 H2]. unfold aset.
  by rewrite (proj2 (Z.leb_le 0 i) H1), (proj2 (Z.ltb_lt _ _) H2).
Qed.

Lemma aset_None l i x : i < 0 \/ Z.of_nat (length l) <= i -> aset l i x = None.
Proof. unfold aset. intros H. repeat zcase; simpl; done || lia. Qed.

Lemma aset_inv l i x l' :
  aset l i x = Some l' ->
  0 <= i < Z.of_nat (length l) /\ l' = <[Z.to_nat i := x]> l.
Proof.
  unfold aset. destruct (_ && _) eqn:E; [|done]. zbool. intros [= <-]. auto.
Qed.

Lemma aset_length l i x l' : aset l i x = Some l' -> length l' = length l.
Proof. intros [_ ->]%aset_inv. apply length_insert. Qed.

Lemma aget_aset_eq l i x l' : aset l i x = Some l' -> aget l' i = Some x.
Proof.
  intros [? ->]%aset_inv. unfold aget. rewrite (proj2 (Z.leb_le 0 i)) by lia.
  apply list_lookup_insert_eq. lia.
Qed.

Lemma aget_aset_ne l i j x l' :
  aset l i x = Some l' -> i <> j -> aget l' j = aget l j.
Proof.
  intros [? ->]%aset_inv Hne. unfold aget.
  destruct (Z.leb_spec 0 j); [|done]. apply list_lookup_insert_ne. lia.
Qed.

Lemma aget_insert l i j x :
  0 <= i < Z.of_nat (length l) ->
  aget (<[Z.to_nat i := x]> l) j = if i =? j then Some x else aget l j.
Proof.
  intros Hi%(aset_Some _ _ x). destruct (Z.eqb_spec i j) as [->|Hne].
  - by apply aget_aset_eq in Hi.
  - by apply aget_aset_ne with (j := j) in Hi.
Qed.
End Arrays.

Lemma upto_S n : 0 <= n -> upto (n + 1) = upto n ++ [n].
Proof.
  intros. unfold upto.
  rewrite seqZ_app by lia. f_equal.
Qed.

Lemma elem_of_upto i n : i ∈ upto n <-> 0 <= i < n.
Proof. unfold upto. rewrite elem_of_seqZ. lia. Qed.

Lemma length_upto n : length (upto n) = Z.to_nat n.
Proof. apply length_seqZ. Qed.

(** How many of the first [n] servers satisfy [f], and whether that is a
    majority. *)
Definition count_if (f : Z -> bool) (n : Z) : Z :=
  Z.of_nat (length (filter (fun i => f i = true) (upto n))).

Definition majority (f : Z -> bool) (n : Z) : Prop := n / 2 < count_if f n.

Lemma count_if_S f n : 0 <= n -> count_if f (n + 1) = count_if f n + c_bool (f n).
Proof.
  intros Hn. unfold count_if. rewrite upto_S, filter_app, length_app by done.
  rewrite filter_cons, filter_nil. destruct (f n); simpl; lia.
Qed.

Lemma count_if_0 f n : n <= 0 -> count_if f n = 0.
Proof.
  intros Hn. unfold count_if, upto, seqZ. by replace (Z.to_nat n) with 0%nat by lia.
Qed.

Lemma count_if_range f n : 0 <= count_if f n <= Z.max 0 n.
Proof.
  split; [unfold count_if; lia|]. unfold count_if.
  pose proof (length_filter (fun i => f i = true) (upto n)) as H.
  rewrite length_upto in H. lia.
Qed.

Lemma count_if_ext f g n :
  (forall i, 0 <= i < n -> f i = g i) -> count_if f n = count_if g n.
Proof.
  intros H. unfold count_if. do 2 f_equal.
  assert (forall l : list Z, (forall i, i ∈ l -> f i = g i) ->
    filter (fun i => f i = true) l = filter (fun i => g i = true) l) as Hl.
  { induction l as [|x l IH]; intros Hx; [done|]. rewrite !filter_cons.
    rewrite IH by (intros; apply Hx; by right).
    rewrite (Hx x) by left. by destruct (decide (g x = true)). }
  apply Hl. intros i Hi%elem_of_upto. auto.
Qed.

Lemma count_if_le f g n :
  (forall i, 0 <= i < n -> f i = true -> g i = true) -> count_if f n <= count_if g n.
Proof.
  intros H. destruct (Z.le_gt_cases n 0); [by rewrite !count_if_0|].
  revert H. pattern n. apply natlike_ind; [|intros m Hm IH H'|lia].
  - intros _. by rewrite !count_if_0.
  - unfold Z.succ in *. rewrite !count_if_S by done.
    assert (count_if f m <= count_if g m) by (apply IH; intros; apply H'; auto; lia).
    specialize (H' m ltac:(lia)). destruct (f m), (g m); simpl; lia.
Qed.

Lemma count_if_except f g k n :
  (forall i, 0 <= i < n -> i <> k -> f i = true -> g i = true) ->
  count_if f n <= count_if g n + 1.
Proof.
  intros H. enough (count_if f n <= count_if g n + c_bool (k <? n)) as He
    by (destruct (k <? n); simpl in He; lia).
  destruct (Z.le_gt_cases n 0) as [Hn|Hn]; [rewrite !count_if_0 by done; by destruct (k <? n)|].
  revert H. pattern n. apply natlike_ind; [|intros m Hm IH H'|lia].
  - intros _. rewrite !count_if_0 by done. by destruct (k <? 0).
  - unfold Z.succ in *. rewrite !count_if_S by done.
    specialize (IH ltac:(intros; apply H'; auto; lia)). specialize (H' m ltac:(lia)).
    destruct (Z.ltb_spec k m), (Z.ltb_spec k (m + 1)), (f m), (g m); simpl in *; lia.
Qed.

Lemma count_if_flip f g k n :
  0 <= k < n -> f k = false -> g k = true -> (forall i, i <> k -> f i = g i) ->
  count_if g n = count_if f n + 1.
Proof.
  intros Hk Hf Hg H.
  enough (forall m, 0 <= m -> count_if g m = count_if f m + c_bool (k <? m)) as He.
  { rewrite He by lia. by rewrite (proj2 (Z.ltb_lt k n)) by lia. }
  apply natlike_ind; [|intros m Hm IH].
  - rewrite !count_if_0 by done. by destruct (Z.ltb_spec k 0); [lia|].
  - unfold Z.succ. rewrite !count_if_S, IH by done.
    destruct (Z.eq_dec m k) as [->|Hne].
    + rewrite Hf, Hg, Z.ltb_irrefl, (proj2 (Z.ltb_lt k (k + 1))) by lia. done.
    + rewrite (H m Hne).
      destruct (Z.ltb_spec k m), (Z.ltb_spec k (m + 1)), (g m); simpl; lia.
Qed.
