(* ===== verification/Bytes.v ===== *)
(** * Byte-addressed memory

    The log of dare_log.h is one C object whose flexible array member
    [entries] is read and written through pointers to packed structures.  It
    is modelled as a finite map from offsets to bytes; an offset that was
    never written reads as zero, which is what the [memset] of [log_new]
    leaves there.  Multi-byte fields are little-endian (the code is x86-64
    only: it reads the time-stamp counter with [rdtsc]). *)

From S2P Require Import Prelude.

Open Scope Z_scope.

Abbreviation mem := (gmap Z Z).

Definition rd (m : mem) (o : Z) : Z := u8 (default 0 (m !! o)).

Fixpoint rd_bytes (m : mem) (o : Z) (n : nat) : list Z :=
  match n with
  | O => []
  | S n' => rd m o :: rd_bytes m (o + 1) n'
  end.

Fixpoint wr_bytes (m : mem) (o : Z) (bs : list Z) : mem :=
  match bs with
  | [] => m
  | b :: bs' => <[o := u8 b]> (wr_bytes m (o + 1) bs')
  end.

Fixpoint le_combine (bs : list Z) : Z :=
  match bs with
  | [] => 0
  | b :: bs' => b + 256 * le_combine bs'
  end.

Fixpoint le_split (n : nat) (z : Z) : list Z :=
  match n with
  | O => []
  | S n' => z mod 256 :: le_split n' (z / 256)
  end.

(** A load and a store of an [n]-byte unsigned integer. *)
Definition rd_le (n : nat) (m : mem) (o : Z) : Z := le_combine (rd_bytes m o n).
Definition wr_le (n : nat) (m : mem) (o z : Z) : mem := wr_bytes m o (le_split n z).
#[global] Arguments rd_le : simpl never.
#[global] Arguments wr_le : simpl never.

(** ** Byte lists *)

Definition byte_ok (b : Z) : Prop := 0 <= b < 256.

#[export] Instance byte_ok_dec b : Decision (byte_ok b).
Proof. unfold byte_ok. apply _. Defined.

Lemma rd_range m o : 0 <= rd m o < 256.
Proof. apply u8_range. Qed.

Lemma length_rd_bytes m o n : length (rd_bytes m o n) = n.
Proof. revert o; induction n as [|n IH]; intros o; simpl; auto. Qed.

Lemma length_le_split n z : length (le_split n z) = n.
Proof. revert z; induction n as [|n IH]; intros z; simpl; auto. Qed.

Lemma le_split_bytes n z : Forall byte_ok (le_split n z).
Proof.
  revert z; induction n as [|n IH]; intros z; simpl; constructor; auto.
  apply Z.mod_pos_bound. lia.
Qed.

Lemma rd_bytes_bytes m o n : Forall byte_ok (rd_bytes m o n).
Proof.
  revert o; induction n as [|n IH]; intros o; simpl; constructor; auto.
  apply rd_range.
Qed.

Lemma le_combine_range bs :
  Forall byte_ok bs -> 0 <= le_combine bs < 256 ^ Z.of_nat (length bs).
Proof.
  induction 1 as [|b bs Hb _ IH]; cbn [le_combine length]; [lia|].
  unfold byte_ok in Hb.
  rewrite Nat2Z.inj_succ, Z.pow_succ_r by lia. nia.
Qed.

Lemma le_combine_split n z :
  le_combine (le_split n z) = z mod 256 ^ Z.of_nat n.
Proof.
  revert z; induction n as [|n IH]; intros z; cbn [le_split le_combine].
  - by rewrite Z.pow_0_r, Z.mod_1_r.
  - rewrite IH, Nat2Z.inj_succ, Z.pow_succ_r by lia.
    rewrite Z.rem_mul_r by lia. lia.
Qed.

(** ** Loads after stores *)

Lemma rd_wr_bytes_out m o bs a :
  a < o \/ o + Z.of_nat (length bs) <= a -> rd (wr_bytes m o bs) a = rd m a.
Proof.
  revert o; induction bs as [|b bs IH]; intros o H; simpl in *; [done|].
  unfold rd. rewrite lookup_insert_ne by lia. apply IH. lia.
Qed.

Lemma rd_bytes_ext m m' o n :
  (forall a, o <= a < o + Z.of_nat n -> rd m a = rd m' a) ->
  rd_bytes m o n = rd_bytes m' o n.
Proof.
  revert o; induction n as [|n IH]; intros o H; simpl; [done|].
  f_equal; [apply H; lia|]. apply IH. intros. apply H. lia.
Qed.

Lemma rd_bytes_wr_out m o bs a n :
  a + Z.of_nat n <= o \/ o + Z.of_nat (length bs) <= a ->
  rd_bytes (wr_bytes m o bs) a n = rd_bytes m a n.
Proof.
  intros H. apply rd_bytes_ext. intros. apply rd_wr_bytes_out. lia.
Qed.

Lemma rd_wr_bytes_head m o b bs : rd (wr_bytes m o (b :: bs)) o = u8 b.
Proof.
  unfold rd. simpl. rewrite lookup_insert_eq. simpl. by rewrite wrap_idemp.
Qed.

Lemma rd_bytes_wr_same m o bs :
  Forall byte_ok bs -> rd_bytes (wr_bytes m o bs) o (length bs) = bs.
Proof.
  revert o; induction bs as [|b bs IH]; intros o H; [done|].
  inversion H as [|? ? Hb Hbs]; subst.
  change (length (b :: bs)) with (S (length bs)). cbn [rd_bytes].
  rewrite rd_wr_bytes_head, u8_small by apply Hb. f_equal.
  etransitivity; [|exact (IH (o + 1) Hbs)]. apply rd_bytes_ext. intros a Ha.
  unfold rd. simpl. rewrite lookup_insert_ne by lia. done.
Qed.

Lemma rd_le_wr_same n m o z :
  0 <= z < 256 ^ Z.of_nat n -> rd_le n (wr_le n m o z) o = z.
Proof.
  intros H. unfold rd_le, wr_le.
  pose proof (rd_bytes_wr_same m o _ (le_split_bytes n z)) as E.
  rewrite length_le_split in E. rewrite E, le_combine_split.
  by apply Z.mod_small.
Qed.

Lemma rd_le_wr_out n k m o z a :
  a + Z.of_nat n <= o \/ o + Z.of_nat k <= a ->
  rd_le n (wr_le k m o z) a = rd_le n m a.
Proof.
  intros H. unfold rd_le, wr_le. f_equal. apply rd_bytes_wr_out.
  rewrite length_le_split. lia.
Qed.

Lemma rd_le_wr_bytes_out n m o bs a :
  a + Z.of_nat n <= o \/ o + Z.of_nat (length bs) <= a ->
  rd_le n (wr_bytes m o bs) a = rd_le n m a.
Proof. intros H. unfold rd_le. f_equal. by apply rd_bytes_wr_out. Qed.

Lemma rd_bytes_wr_le_out n m o z a k :
  a + Z.of_nat k <= o \/ o + Z.of_nat n <= a ->
  rd_bytes (wr_le n m o z) a k = rd_bytes m a k.
Proof. intros H. apply rd_bytes_wr_out. rewrite length_le_split. lia. Qed.

Lemma rd_le_ext n m m' o :
  (forall a, o <= a < o + Z.of_nat n -> rd m a = rd m' a) ->
  rd_le n m o = rd_le n m' o.
Proof. intros H. unfold rd_le. f_equal. by apply rd_bytes_ext. Qed.

Lemma rd_le_range n m o : 0 <= rd_le n m o < 256 ^ Z.of_nat n.
Proof.
  pose proof (le_combine_range _ (rd_bytes_bytes m o n)) as H.
  by rewrite length_rd_bytes in H.
Qed.

Lemma rd_wr_le_out n m o z a :
  a < o \/ o + Z.of_nat n <= a -> rd (wr_le n m o z) a = rd m a.
Proof. intros H. apply rd_wr_bytes_out. rewrite length_le_split. lia. Qed.

(** Decides the loads of a term built by stores at constant distances. *)
Ltac mem_simpl :=
  repeat first
    [ rewrite rd_le_wr_same by (simpl Z.of_nat; lia)
    | rewrite rd_le_wr_out by (simpl Z.of_nat; lia)
    | rewrite rd_le_wr_bytes_out by (simpl Z.of_nat; lia)
    | rewrite rd_bytes_wr_le_out by (simpl Z.of_nat; lia) ].
