(* ===== verification/Words.v ===== *)
(** * Packed 64-bit identifiers

    The state identifier SID = [TERM|L|IDX] of dare_server.h and the work
    request identifier WRID = [SSN|WA|TAG|CONN] of dare_ibv_rc.h, written with
    the shifts and masks of the C macros.  The theorems give their fields and
    show that the unsigned comparison the server uses on SIDs is the
    lexicographic order on (TERM, L, IDX). *)

From S2P Require Import Prelude.

Open Scope Z_scope.

(** ** SID *)

Definition SID_GET_IDX (sid : Z) : Z := u8 (Z.land sid 0xFF).
Definition SID_SET_IDX (sid idx : Z) : Z :=
  Z.lor idx (u64 (Z.shiftl (Z.shiftr sid 8) 8)).
Definition SID_GET_L (sid : Z) : Z := Z.land sid (Z.shiftl 1 8).
Definition SID_SET_L (sid : Z) : Z := Z.lor sid (Z.shiftl 1 8).
Definition SID_UNSET_L (sid : Z) : Z := Z.land sid (u64 (Z.lnot (Z.shiftl 1 8))).
Definition SID_GET_TERM (sid : Z) : Z := Z.shiftr sid 9.
Definition SID_SET_TERM (sid term : Z) : Z :=
  Z.lor (u64 (Z.shiftl term 9)) (Z.land sid 0x1FF).

Definition SID_NULL : Z := 0xFF.

(** ** WRID *)

Definition WRID_GET_CONN (wrid : Z) : Z := u8 (Z.land wrid 0xFF).
Definition WRID_SET_CONN (wrid conn : Z) : Z :=
  Z.lor conn (u64 (Z.shiftl (Z.shiftr wrid 8) 8)).
Definition WRID_GET_TAG (wrid : Z) : Z := Z.land wrid (Z.shiftl 1 8).
Definition WRID_SET_TAG (wrid : Z) : Z := Z.lor wrid (Z.shiftl 1 8).
Definition WRID_UNSET_TAG (wrid : Z) : Z :=
  Z.land wrid (u64 (Z.lnot (Z.shiftl 1 8))).
Definition WRID_GET_WA (wrid : Z) : Z := Z.land wrid (Z.shiftl 1 9).
Definition WRID_SET_WA (wrid : Z) : Z := Z.lor wrid (Z.shiftl 1 9).
Definition WRID_UNSET_WA (wrid : Z) : Z :=
  Z.land wrid (u64 (Z.lnot (Z.shiftl 1 9))).
Definition WRID_GET_SSN (wrid : Z) : Z := Z.shiftr wrid 10.
Definition WRID_SET_SSN (wrid ssn : Z) : Z :=
  Z.lor (u64 (Z.shiftl ssn 10)) (Z.land wrid 0x3FF).

(** The values the fields denote. *)
Definition mk_sid (term : Z) (l : bool) (idx : Z) : Z :=
  term * 2 ^ 9 + (c_bool l * 2 ^ 8 + idx).

Definition mk_wrid (ssn : Z) (wa tag : bool) (conn : Z) : Z :=
  ssn * 2 ^ 10 + (c_bool wa * 2 ^ 9 + (c_bool tag * 2 ^ 8 + conn)).

(** ** Bit operations on a value split at bit [k] *)

Section Split.
Context (k : Z) (Hk : 0 <= k).

Lemma testbit_split x y n :
  0 <= y < 2 ^ k -> 0 <= n ->
  Z.testbit (x * 2 ^ k + y) n =
  if n <? k then Z.testbit y n else Z.testbit x (n - k).
Proof.
  intros Hy Hn. destruct (Z.ltb_spec n k).
  - rewrite <- (Z.mod_pow2_bits_low (x * 2 ^ k + y) k n) by lia.
    rewrite Z.add_comm, Z.mod_add by lia. by rewrite Z.mod_small.
  - replace n with ((n - k) + k) at 1 by lia.
    rewrite <- Z.div_pow2_bits by lia.
    rewrite Z.add_comm, Z.div_add by lia. by rewrite Z.div_small, Z.add_0_l.
Qed.

Lemma bits_bound x :
  0 <= x -> (forall n, k <= n -> Z.testbit x n = false) -> 0 <= x < 2 ^ k.
Proof.
  intros Hx Hbits.
  replace x with (x mod 2 ^ k); [apply Z.mod_pos_bound; lia|].
  apply Z.bits_inj'. intros n Hn. destruct (Z.lt_ge_cases n k).
  - by apply Z.mod_pow2_bits_low.
  - rewrite Z.mod_pow2_bits_high by lia. symmetry. by apply Hbits.
Qed.

Lemma bits_above x n : 0 <= x < 2 ^ k -> k <= n -> Z.testbit x n = false.
Proof.
  intros Hx Hn. rewrite <- (Z.mod_small x (2 ^ k)) by lia.
  apply Z.mod_pow2_bits_high. lia.
Qed.

Lemma land_split x y a b :
  0 <= y < 2 ^ k -> 0 <= b < 2 ^ k ->
  Z.land (x * 2 ^ k + y) (a * 2 ^ k + b) = Z.land x a * 2 ^ k + Z.land y b.
Proof.
  intros Hy Hb.
  assert (0 <= Z.land y b < 2 ^ k).
  { apply bits_bound; [apply Z.land_nonneg; lia|].
    intros n Hn. by rewrite Z.land_spec, bits_above. }
  apply Z.bits_inj'. intros n Hn.
  rewrite Z.land_spec, !testbit_split by lia.
  destruct (n <? k); by rewrite Z.land_spec.
Qed.

Lemma lor_split x y a b :
  0 <= y < 2 ^ k -> 0 <= b < 2 ^ k ->
  Z.lor (x * 2 ^ k + y) (a * 2 ^ k + b) = Z.lor x a * 2 ^ k + Z.lor y b.
Proof.
  intros Hy Hb.
  assert (0 <= Z.lor y b < 2 ^ k).
  { apply bits_bound; [apply Z.lor_nonneg; lia|].
    intros n Hn. by rewrite Z.lor_spec, !bits_above. }
  apply Z.bits_inj'. intros n Hn.
  rewrite Z.lor_spec, !testbit_split by lia.
  destruct (n <? k); by rewrite Z.lor_spec.
Qed.

Lemma shiftr_split x y : 0 <= y < 2 ^ k -> Z.shiftr (x * 2 ^ k + y) k = x.
Proof.
  intros Hy. rewrite Z.shiftr_div_pow2 by lia.
  rewrite Z.add_comm, Z.div_add by lia. by rewrite Z.div_small.
Qed.
End Split.

Lemma land_mask x k : 0 <= k -> 0 <= x < 2 ^ k -> Z.land x (Z.ones k) = x.
Proof. intros. rewrite Z.land_ones by lia. by apply Z.mod_small. Qed.

(** ** Fields of a SID *)

Section Sid.
Context (t : Z) (l : bool) (i : Z).
Context (Ht : 0 <= t < 2 ^ 55) (Hi : 0 <= i < 2 ^ 8).

Lemma sid_low_range : 0 <= c_bool l * 2 ^ 8 + i < 2 ^ 9.
Proof. destruct l; simpl c_bool; lia. Qed.

Lemma mk_sid_range : 0 <= mk_sid t l i < M64.
Proof. pose proof sid_low_range. unfold mk_sid. lia. Qed.

Lemma sid_get_term : SID_GET_TERM (mk_sid t l i) = t.
Proof. apply (shiftr_split 9); [lia|]. apply sid_low_range. Qed.

Lemma sid_get_l : SID_GET_L (mk_sid t l i) = c_bool l * 2 ^ 8.
Proof.
  unfold SID_GET_L, mk_sid. pose proof sid_low_range.
  change (Z.shiftl 1 8) with (0 * 2 ^ 9 + (1 * 2 ^ 8 + 0)).
  rewrite land_split by lia. rewrite land_split by lia.
  rewrite !Z.land_0_r. by destruct l.
Qed.

Lemma sid_get_idx : SID_GET_IDX (mk_sid t l i) = i.
Proof.
  unfold SID_GET_IDX, mk_sid. pose proof sid_low_range.
  change 255 with (0 * 2 ^ 9 + (0 * 2 ^ 8 + Z.ones 8)).
  rewrite land_split by (try rewrite Z.ones_equiv; lia).
  rewrite land_split by (try rewrite Z.ones_equiv; lia).
  rewrite !Z.land_0_r, land_mask by lia. by rewrite u8_small by lia.
Qed.

Lemma sid_set_term t' :
  0 <= t' < 2 ^ 55 -> SID_SET_TERM (mk_sid t l i) t' = mk_sid t' l i.
Proof.
  intros Ht'. unfold SID_SET_TERM, mk_sid. pose proof sid_low_range.
  rewrite Z.shiftl_mul_pow2 by lia. rewrite u64_small by lia.
  change 511 with (0 * 2 ^ 9 + Z.ones 9).
  rewrite land_split by (try rewrite Z.ones_equiv; lia).
  rewrite Z.land_0_r, land_mask by lia.
  replace (t' * 2 ^ 9) with (t' * 2 ^ 9 + 0) at 1 by lia.
  rewrite lor_split by lia. by rewrite Z.lor_0_r.
Qed.

Lemma sid_set_l : SID_SET_L (mk_sid t l i) = mk_sid t true i.
Proof.
  unfold SID_SET_L, mk_sid. pose proof sid_low_range.
  change (Z.shiftl 1 8) with (0 * 2 ^ 9 + (1 * 2 ^ 8 + 0)).
  rewrite lor_split by lia. rewrite lor_split by lia.
  rewrite !Z.lor_0_r. by destruct l.
Qed.

Lemma sid_unset_l : SID_UNSET_L (mk_sid t l i) = mk_sid t false i.
Proof.
  unfold SID_UNSET_L, mk_sid. pose proof sid_low_range.
  change (u64 (Z.lnot (Z.shiftl 1 8)))
    with (Z.ones 55 * 2 ^ 9 + (0 * 2 ^ 8 + Z.ones 8)).
  rewrite land_split by (try rewrite Z.ones_equiv; lia).
  rewrite land_split by (try rewrite Z.ones_equiv; lia).
  rewrite Z.land_0_r, !land_mask by lia. by destruct l.
Qed.

Lemma sid_set_idx i' :
  0 <= i' < 2 ^ 8 -> SID_SET_IDX (mk_sid t l i) i' = mk_sid t l i'.
Proof.
  intros Hi'. unfold SID_SET_IDX, mk_sid. pose proof sid_low_range.
  replace (t * 2 ^ 9 + (c_bool l * 2 ^ 8 + i))
    with ((t * 2 + c_bool l) * 2 ^ 8 + i) by lia.
  rewrite shiftr_split by lia. rewrite Z.shiftl_mul_pow2 by lia.
  rewrite u64_small by (destruct l; simpl c_bool; lia).
  replace i' with (0 * 2 ^ 8 + i') at 1 by lia.
  replace ((t * 2 + c_bool l) * 2 ^ 8) with ((t * 2 + c_bool l) * 2 ^ 8 + 0) by lia.
  rewrite lor_split by lia. rewrite Z.lor_0_r, Z.lor_0_l. lia.
Qed.
End Sid.

(** Every 64-bit value is the SID of its fields. *)
Lemma sid_fields sid :
  0 <= sid < M64 ->
  exists t l i, 0 <= t < 2 ^ 55 /\ 0 <= i < 2 ^ 8 /\ sid = mk_sid t l i.
Proof.
  intros H. exists (sid / 2 ^ 9), (1 <=? (sid / 2 ^ 8) mod 2), (sid mod 2 ^ 8).
  assert (0 <= sid / 2 ^ 9 < 2 ^ 55).
  { split; [apply Z.div_pos; lia|apply Z.div_lt_upper_bound; lia]. }
  split; [done|]. split; [apply Z.mod_pos_bound; lia|].
  unfold mk_sid.
  pose proof (Z.div_mod sid (2 ^ 8)) as E1.
  pose proof (Z.div_mod (sid / 2 ^ 8) 2) as E2.
  rewrite Z.div_div in E2 by lia. change (2 ^ 8 * 2) with (2 ^ 9) in E2.
  pose proof (Z.mod_pos_bound (sid / 2 ^ 8) 2).
  destruct (Z.leb_spec 1 ((sid / 2 ^ 8) mod 2)); unfold c_bool; lia.
Qed.

Lemma mk_sid_inj t l i t' l' i' :
  0 <= i < 2 ^ 8 -> 0 <= i' < 2 ^ 8 ->
  mk_sid t l i = mk_sid t' l' i' -> t = t' /\ l = l' /\ i = i'.
Proof.
  unfold mk_sid. intros. destruct l, l'; simpl c_bool in *;
    repeat split; try lia; exfalso; lia.
Qed.

(** ** Fields of a WRID *)

Section Wrid.
Context (n : Z) (wa tag : bool) (c : Z).
Context (Hn : 0 <= n < 2 ^ 54) (Hc : 0 <= c < 2 ^ 8).

Lemma wrid_low8_range : 0 <= c_bool tag * 2 ^ 8 + c < 2 ^ 9.
Proof. destruct tag; simpl c_bool; lia. Qed.

Lemma wrid_low_range : 0 <= c_bool wa * 2 ^ 9 + (c_bool tag * 2 ^ 8 + c) < 2 ^ 10.
Proof. pose proof wrid_low8_range. destruct wa; simpl c_bool; lia. Qed.

Lemma wrid_get_ssn : WRID_GET_SSN (mk_wrid n wa tag c) = n.
Proof. apply (shiftr_split 10); [lia|]. apply wrid_low_range. Qed.

Lemma wrid_get_conn : WRID_GET_CONN (mk_wrid n wa tag c) = c.
Proof.
  unfold WRID_GET_CONN, mk_wrid. pose proof wrid_low_range. pose proof wrid_low8_range.
  change 255 with (0 * 2 ^ 10 + (0 * 2 ^ 9 + (0 * 2 ^ 8 + Z.ones 8))).
  do 3 rewrite land_split by (try rewrite Z.ones_equiv; lia).
  rewrite !Z.land_0_r, land_mask by lia. by rewrite u8_small by lia.
Qed.

Lemma wrid_get_tag : WRID_GET_TAG (mk_wrid n wa tag c) = c_bool tag * 2 ^ 8.
Proof.
  unfold WRID_GET_TAG, mk_wrid. pose proof wrid_low_range. pose proof wrid_low8_range.
  change (Z.shiftl 1 8) with (0 * 2 ^ 10 + (0 * 2 ^ 9 + (1 * 2 ^ 8 + 0))).
  do 3 rewrite land_split by lia. rewrite !Z.land_0_r. by destruct tag.
Qed.

Lemma wrid_set_tag : WRID_SET_TAG (mk_wrid n wa tag c) = mk_wrid n wa true c.
Proof.
  unfold WRID_SET_TAG, mk_wrid. pose proof wrid_low_range. pose proof wrid_low8_range.
  change (Z.shiftl 1 8) with (0 * 2 ^ 10 + (0 * 2 ^ 9 + (1 * 2 ^ 8 + 0))).
  do 3 rewrite lor_split by lia. rewrite !Z.lor_0_r. by destruct tag.
Qed.

Lemma wrid_unset_tag : WRID_UNSET_TAG (mk_wrid n wa tag c) = mk_wrid n wa false c.
Proof.
  unfold WRID_UNSET_TAG, mk_wrid. pose proof wrid_low_range. pose proof wrid_low8_range.
  change (u64 (Z.lnot (Z.shiftl 1 8)))
    with (Z.ones 54 * 2 ^ 10 + (1 * 2 ^ 9 + (0 * 2 ^ 8 + Z.ones 8))).
  do 3 rewrite land_split by (try rewrite Z.ones_equiv; lia).
  rewrite Z.land_0_r, !land_mask by lia. by destruct tag, wa.
Qed.

Lemma wrid_set_wa : WRID_SET_WA (mk_wrid n wa tag c) = mk_wrid n true tag c.
Proof.
  unfold WRID_SET_WA, mk_wrid. pose proof wrid_low_range. pose proof wrid_low8_range.
  change (Z.shiftl 1 9) with (0 * 2 ^ 10 + (1 * 2 ^ 9 + 0)).
  do 2 rewrite lor_split by lia. rewrite !Z.lor_0_r. by destruct wa.
Qed.

Lemma wrid_unset_wa : WRID_UNSET_WA (mk_wrid n wa tag c) = mk_wrid n false tag c.
Proof.
  unfold WRID_UNSET_WA, mk_wrid. pose proof wrid_low_range. pose proof wrid_low8_range.
  change (u64 (Z.lnot (Z.shiftl 1 9)))
    with (Z.ones 54 * 2 ^ 10 + (0 * 2 ^ 9 + Z.ones 9)).
  do 2 rewrite land_split by (try rewrite Z.ones_equiv; lia).
  rewrite Z.land_0_r, !land_mask by lia. by destruct wa.
Qed.

Lemma wrid_set_ssn n' :
  0 <= n' < 2 ^ 54 -> WRID_SET_SSN (mk_wrid n wa tag c) n' = mk_wrid n' wa tag c.
Proof.
  intros Hn'. unfold WRID_SET_SSN, mk_wrid. pose proof wrid_low_range.
  rewrite Z.shiftl_mul_pow2 by lia. rewrite u64_small by lia.
  change 1023 with (0 * 2 ^ 10 + Z.ones 10).
  rewrite land_split by (try rewrite Z.ones_equiv; lia).
  rewrite Z.land_0_r, land_mask by lia.
  replace (n' * 2 ^ 10) with (n' * 2 ^ 10 + 0) at 1 by lia.
  rewrite lor_split by lia. by rewrite Z.lor_0_r.
Qed.

Lemma wrid_set_conn c' :
  0 <= c' < 2 ^ 8 -> WRID_SET_CONN (mk_wrid n wa tag c) c' = mk_wrid n wa tag c'.
Proof.
  intros Hc'. unfold WRID_SET_CONN, mk_wrid. pose proof wrid_low_range.
  replace (n * 2 ^ 10 + (c_bool wa * 2 ^ 9 + (c_bool tag * 2 ^ 8 + c)))
    with ((n * 4 + c_bool wa * 2 + c_bool tag) * 2 ^ 8 + c) by lia.
  rewrite shiftr_split by lia. rewrite Z.shiftl_mul_pow2 by lia.
  rewrite u64_small by (destruct wa, tag; simpl c_bool; lia).
  replace c' with (0 * 2 ^ 8 + c') at 1 by lia.
  replace ((n * 4 + c_bool wa * 2 + c_bool tag) * 2 ^ 8)
    with ((n * 4 + c_bool wa * 2 + c_bool tag) * 2 ^ 8 + 0) by lia.
  rewrite lor_split by lia. rewrite Z.lor_0_r, Z.lor_0_l. lia.
Qed.
End Wrid.

(** ** The order on SIDs *)

(** The comparison [a < b] of two SIDs as the code relies on it: a later term
    wins, then a known leader, then the larger server index. *)
Definition sid_lt (a b : Z) : Prop :=
  SID_GET_TERM a < SID_GET_TERM b \/
  SID_GET_TERM a = SID_GET_TERM b /\
  (SID_GET_L a < SID_GET_L b \/
   SID_GET_L a = SID_GET_L b /\ SID_GET_IDX a < SID_GET_IDX b).

Lemma sid_order_lex a b :
  0 <= a < M64 -> 0 <= b < M64 -> (a < b <-> sid_lt a b).
Proof.
  intros (t & l & i & Ht & Hi & ->)%sid_fields (t' & l' & i' & Ht' & Hi' & ->)%sid_fields.
  unfold sid_lt.
  rewrite !sid_get_term, !sid_get_l, !sid_get_idx by done.
  unfold mk_sid. destruct l, l'; simpl c_bool; lia.
Qed.

(** Setting the fields one after the other builds exactly the SID that has
    them, whatever the old value was. *)
Lemma sid_build_fields sid t i :
  0 <= sid < M64 -> 0 <= t < 2 ^ 55 -> 0 <= i < 2 ^ 8 ->
  SID_SET_IDX (SID_UNSET_L (SID_SET_TERM sid t)) i = mk_sid t false i.
Proof.
  intros (t0 & l0 & i0 & Ht0 & Hi0 & ->)%sid_fields Ht Hi.
  by rewrite sid_set_term, sid_unset_l, sid_set_idx.
Qed.

(** A SID request without the leader flag that beats the flagged local SID
    has a later term: the reason a server cannot vote twice in a term. *)
Lemma sid_beats_flagged sid t i :
  0 <= sid < M64 -> 0 <= t < 2 ^ 55 -> 0 <= i < 2 ^ 8 ->
  SID_SET_L sid < mk_sid t false i -> SID_GET_TERM sid < t.
Proof.
  intros (t0 & l0 & i0 & Ht0 & Hi0 & ->)%sid_fields Ht Hi.
  rewrite sid_set_l, sid_get_term by done. unfold mk_sid, c_bool. lia.
Qed.
