(* ===== verification/Config.v ===== *)
(** * Group configuration (dare_config.h)

    The configuration identifier CID = [N, N', STATE, BITMASK] of a group and
    the group sizes derived from it. *)

From S2P Require Import Prelude.

Open Scope Z_scope.

Definition MAX_SERVER_COUNT : Z := 13.

(** Configuration states. *)
Definition CID_STABLE : Z := 0.
Definition CID_TRANSIT : Z := 1.
Definition CID_EXTENDED : Z := 2.

Record dare_cid_t := mk_cid {
  epoch : Z;        (* uint64_t *)
  size0 : Z;        (* uint8_t size[0]: current size *)
  size1 : Z;        (* uint8_t size[1]: new size of a transition *)
  state : Z;        (* uint8_t *)
  pad : Z;          (* uint8_t pad[1] *)
  bitmask : Z       (* uint32_t, one bit for every server that is on *)
}.

#[export] Instance dare_cid_t_eq_dec : EqDecision dare_cid_t.
Proof. solve_decision. Defined.

Definition cid_zero : dare_cid_t := mk_cid 0 0 0 0 0 0.

#[export] Instance dare_cid_t_inhabited : Inhabited dare_cid_t := populate cid_zero.

(** [cid.size[j]] for the two valid subscripts. *)
Definition cid_size (c : dare_cid_t) (j : Z) : Z :=
  if j =? 0 then size0 c else size1 c.

Definition set_bitmask (c : dare_cid_t) (b : Z) : dare_cid_t :=
  mk_cid (epoch c) (size0 c) (size1 c) (state c) (pad c) b.
Definition set_cid_state (c : dare_cid_t) (x : Z) : dare_cid_t :=
  mk_cid (epoch c) (size0 c) (size1 c) x (pad c) (bitmask c).
Definition set_cid_size0 (c : dare_cid_t) (n : Z) : dare_cid_t :=
  mk_cid (epoch c) n (size1 c) (state c) (pad c) (bitmask c).
Definition set_cid_sizes (c : dare_cid_t) (n n' : Z) : dare_cid_t :=
  mk_cid (epoch c) n n' (state c) (pad c) (bitmask c).

(** The macros on the bitmask; [1 << idx] is an [int] shift, defined in C for
    the server indices below 32. *)
Definition CID_IS_SERVER_ON (c : dare_cid_t) (idx : Z) : bool :=
  c_true (Z.land (bitmask c) (u32 (Z.shiftl 1 idx))).
Definition CID_SERVER_ADD (c : dare_cid_t) (idx : Z) : dare_cid_t :=
  set_bitmask c (Z.lor (bitmask c) (u32 (Z.shiftl 1 idx))).
Definition CID_SERVER_RM (c : dare_cid_t) (idx : Z) : dare_cid_t :=
  set_bitmask c (Z.land (bitmask c) (u32 (Z.lnot (Z.shiftl 1 idx)))).

Definition equal_cid (l r : dare_cid_t) : bool :=
  if negb (epoch l =? epoch r) then false
  else if negb (state l =? state r) then false
  else if negb (size0 l =? size0 r) then false
  else if negb (size1 l =? size1 r) then false
  else if negb (bitmask l =? bitmask r) then false
  else true.

(** The maximum size including the extra added servers. *)
Definition get_extended_group_size (c : dare_cid_t) : Z :=
  if CID_STABLE =? state c then size0 c
  else if size0 c <? size1 c then size1 c
  else size0 c.

(** The maximum size ignoring the extra added servers. *)
Definition get_group_size (c : dare_cid_t) : Z :=
  if negb (CID_TRANSIT =? state c) then size0 c
  else if size0 c <? size1 c then size1 c
  else size0 c.

(** What the rest of the code relies on: sizes within the arrays and a 32-bit
    mask. *)
Record cid_wf (c : dare_cid_t) : Prop := {
  wf_size0 : 0 <= size0 c <= MAX_SERVER_COUNT;
  wf_size1 : 0 <= size1 c <= MAX_SERVER_COUNT;
  wf_bitmask : 0 <= bitmask c < 2 ^ 32
}.

(** ** Lemmas *)

Lemma server_bit idx n :
  0 <= idx < 32 -> 0 <= n -> Z.testbit (u32 (Z.shiftl 1 idx)) n = (n =? idx).
Proof.
  intros Hi Hn. rewrite Z.shiftl_1_l, wrap_small
    by (split; [apply Z.pow_nonneg; lia|apply Z.pow_lt_mono_r; lia]).
  rewrite Z.pow2_bits_eqb by lia. apply Z.eqb_sym.
Qed.

Lemma is_on_testbit c idx :
  0 <= idx < 32 -> CID_IS_SERVER_ON c idx = Z.testbit (bitmask c) idx.
Proof.
  intros Hi. unfold CID_IS_SERVER_ON. apply eq_true_iff_eq.
  rewrite c_true_spec. split.
  - intros Hne. destruct (Z.testbit (bitmask c) idx) eqn:E; [done|].
    exfalso. apply Hne. apply Z.bits_inj'. intros n Hn.
    rewrite Z.land_spec, server_bit, Z.bits_0 by lia.
    destruct (Z.eqb_spec n idx) as [->|]; [by rewrite E|by rewrite andb_false_r].
  - intros E Hz. assert (Z.testbit 0 idx = true) as H; [|by rewrite Z.bits_0 in H].
    rewrite <- Hz, Z.land_spec, server_bit, Z.eqb_refl, E by lia. done.
Qed.

Lemma is_on_add c idx j :
  0 <= idx < 32 -> 0 <= j < 32 ->
  CID_IS_SERVER_ON (CID_SERVER_ADD c idx) j = (j =? idx) || CID_IS_SERVER_ON c j.
Proof.
  intros. rewrite !is_on_testbit by done. simpl.
  rewrite Z.lor_spec, server_bit by lia. apply orb_comm.
Qed.

Lemma is_on_rm c idx j :
  0 <= idx < 32 -> 0 <= j < 32 ->
  CID_IS_SERVER_ON (CID_SERVER_RM c idx) j =
  negb (j =? idx) && CID_IS_SERVER_ON c j.
Proof.
  intros. rewrite !is_on_testbit by done. simpl.
  rewrite Z.land_spec. unfold wrap.
  rewrite Z.mod_pow2_bits_low, Z.lnot_spec, Z.shiftl_1_l, Z.pow2_bits_eqb by lia.
  rewrite (Z.eqb_sym idx j). apply andb_comm.
Qed.

Lemma rm_bitmask_range c idx :
  0 <= bitmask c < 2 ^ 32 -> 0 <= bitmask (CID_SERVER_RM c idx) < 2 ^ 32.
Proof.
  intros H. simpl. split; [apply Z.land_nonneg; lia|].
  replace (Z.land _ _) with (Z.land (bitmask c) (u32 (Z.lnot (Z.shiftl 1 idx))) mod 2 ^ 32).
  { apply Z.mod_pos_bound. lia. }
  apply Z.bits_inj'. intros n Hn. destruct (Z.lt_ge_cases n 32).
  - by apply Z.mod_pow2_bits_low.
  - rewrite Z.mod_pow2_bits_high by lia. rewrite Z.land_spec.
    rewrite <- (Z.mod_small (bitmask c) (2 ^ 32)) by lia.
    by rewrite Z.mod_pow2_bits_high by lia.
Qed.

Lemma cid_wf_rm c idx : cid_wf c -> cid_wf (CID_SERVER_RM c idx).
Proof. intros [H0 H1 Hb]. split; try done. by apply rm_bitmask_range. Qed.

Lemma equal_cid_true l r :
  equal_cid l r = true <->
  epoch l = epoch r /\ state l = state r /\ size0 l = size0 r /\
  size1 l = size1 r /\ bitmask l = bitmask r.
Proof.
  unfold equal_cid. repeat zcase; simpl; split; try tauto; done.
Qed.

Lemma group_sizes c :
  get_group_size c <= get_extended_group_size c.
Proof.
  unfold get_group_size, get_extended_group_size, CID_TRANSIT, CID_STABLE.
  repeat zcase; simpl; lia.
Qed.

Lemma ext_size_range c : cid_wf c -> 0 <= get_extended_group_size c <= MAX_SERVER_COUNT.
Proof. intros [? ? _]. unfold get_extended_group_size. repeat zcase; lia. Qed.

Lemma group_size_range c : cid_wf c -> 0 <= get_group_size c <= MAX_SERVER_COUNT.
Proof.
  intros [? ? _]. unfold get_group_size. destruct (negb _); repeat zcase; lia.
Qed.

Lemma group_size_stable c : state c = CID_STABLE -> get_group_size c = size0 c.
Proof. intros E. unfold get_group_size. by rewrite E. Qed.

#[export] Hint Resolve cid_wf_rm group_size_range ext_size_range : dare.
