(* ===== verification/Log.v ===== *)
(** * The replicated log (dare_log.h)

    A circular byte buffer with the offsets [head], [apply], [commit], [end]
    and [tail], and the operations on it.  Entries are addressed by their
    offset, exactly like the C pointers into [entries]; the fields of an entry
    are loads from the byte memory at the offsets the x86-64 ABI gives them. *)

From S2P Require Import Prelude Bytes Config.

Open Scope Z_scope.

(** Entry types. *)
Definition NOOP : Z := 0.
Definition CSM : Z := 1.
Definition CONFIG : Z := 2.
Definition HEAD : Z := 3.

(** [sizeof(dare_log_entry_t)]: idx at 0, term at 8, req_id at 16, clt_id at
    24, type at 26, and the 8-aligned data union at 32. *)
Definition ENTRY_SIZE : Z := 48.
Definition LOG_SIZE : Z := 16384 * 4096.
Definition MAX_NC_ENTRIES : Z := 1024.

Record dare_log_entry_det_t := mk_det {
  det_idx : Z;
  det_term : Z;
  det_offset : Z
}.

Record dare_nc_buf_t := mk_nc {
  nc_len : Z;
  nc_entries : list dare_log_entry_det_t
}.

Record dare_log_t := mk_log {
  head : Z;
  apply : Z;
  commit : Z;
  end_ : Z;
  tail : Z;
  len : Z;
  nc_buf : list dare_nc_buf_t;
  entries : mem
}.

Definition set_head (l : dare_log_t) (x : Z) : dare_log_t :=
  mk_log x (apply l) (commit l) (end_ l) (tail l) (len l) (nc_buf l) (entries l).
Definition set_apply (l : dare_log_t) (x : Z) : dare_log_t :=
  mk_log (head l) x (commit l) (end_ l) (tail l) (len l) (nc_buf l) (entries l).
Definition set_commit (l : dare_log_t) (x : Z) : dare_log_t :=
  mk_log (head l) (apply l) x (end_ l) (tail l) (len l) (nc_buf l) (entries l).
Definition set_end (l : dare_log_t) (x : Z) : dare_log_t :=
  mk_log (head l) (apply l) (commit l) x (tail l) (len l) (nc_buf l) (entries l).
Definition set_tail (l : dare_log_t) (x : Z) : dare_log_t :=
  mk_log (head l) (apply l) (commit l) (end_ l) x (len l) (nc_buf l) (entries l).
Definition set_nc_buf (l : dare_log_t) (x : list dare_nc_buf_t) : dare_log_t :=
  mk_log (head l) (apply l) (commit l) (end_ l) (tail l) (len l) x (entries l).
Definition set_entries (l : dare_log_t) (m : mem) : dare_log_t :=
  mk_log (head l) (apply l) (commit l) (end_ l) (tail l) (len l) (nc_buf l) m.

Definition nc_buf_new : dare_nc_buf_t :=
  mk_nc 0 (replicate (Z.to_nat MAX_NC_ENTRIES) (mk_det 0 0 0)).

(** A fresh log: everything zeroed, [end] and [tail] at the length. *)
Definition log_new : dare_log_t :=
  mk_log 0 0 0 LOG_SIZE LOG_SIZE LOG_SIZE
    (replicate (Z.to_nat MAX_SERVER_COUNT) nc_buf_new) ∅.

(** ** Entry fields *)

Definition entry_idx (l : dare_log_t) (e : Z) : Z := rd_le 8 (entries l) e.
Definition entry_term (l : dare_log_t) (e : Z) : Z := rd_le 8 (entries l) (e + 8).
Definition entry_req_id (l : dare_log_t) (e : Z) : Z := rd_le 8 (entries l) (e + 16).
Definition entry_clt_id (l : dare_log_t) (e : Z) : Z := rd_le 2 (entries l) (e + 24).
Definition entry_type (l : dare_log_t) (e : Z) : Z := rd_le 1 (entries l) (e + 26).
(** The members of the data union. *)
Definition entry_cmd_len (l : dare_log_t) (e : Z) : Z := rd_le 2 (entries l) (e + 32).
Definition entry_cmd (l : dare_log_t) (e : Z) : list Z :=
  rd_bytes (entries l) (e + 34) (Z.to_nat (entry_cmd_len l e)).
Definition entry_head (l : dare_log_t) (e : Z) : Z := rd_le 8 (entries l) (e + 32).
Definition entry_cid (l : dare_log_t) (e : Z) : dare_cid_t :=
  let m := entries l in
  mk_cid (rd_le 8 m (e + 32)) (rd_le 1 m (e + 40)) (rd_le 1 m (e + 41))
    (rd_le 1 m (e + 42)) (rd_le 1 m (e + 43)) (rd_le 4 m (e + 44)).

(** ** Tests *)

Definition is_log_empty (l : dare_log_t) : bool := end_ l =? len l.
Definition is_log_full (l : dare_log_t) : bool := end_ l =? head l.
Definition not_committed_entries (l : dare_log_t) : bool :=
  negb (is_log_empty l) && negb (commit l =? end_ l).
Definition not_applied_entries (l : dare_log_t) : bool :=
  negb (is_log_empty l) && negb (apply l =? commit l).
Definition log_fit_entry_header (l : dare_log_t) (offset : Z) : bool :=
  (len l -64 offset) >=? ENTRY_SIZE.

Definition log_add_new_entry (l : dare_log_t) : option Z :=
  if is_log_full l then None
  else if is_log_empty l || negb (log_fit_entry_header l (end_ l)) then Some 0
  else Some (end_ l).

Definition log_entry_len (l : dare_log_t) (e : Z) : Z :=
  let ty := entry_type l e in
  if (ty =? NOOP) || (ty =? CONFIG) || (ty =? HEAD) then ENTRY_SIZE
  else u32 (ENTRY_SIZE + entry_cmd_len l e).

Definition log_fit_entry (l : dare_log_t) (offset e : Z) : bool :=
  (len l -64 offset) >=? log_entry_len l e.

Definition log_offset_end_distance (l : dare_log_t) (offset : Z) : Z :=
  if end_ l =? len l then 0
  else if end_ l >=? offset then end_ l -64 offset
  else len l -64 (offset -64 end_ l).

Definition log_is_offset_larger (l : dare_log_t) (loffset roffset : Z) : bool :=
  let a := if end_ l =? len l then 0
           else if end_ l >=? loffset then end_ l -64 loffset
           else len l -64 (loffset -64 end_ l) in
  let b := if end_ l =? len l then 0
           else if end_ l >=? roffset then end_ l -64 roffset
           else len l -64 (roffset -64 end_ l) in
  a <? b.

(** The entry at an offset, with the offset as the call leaves it (it moves to
    the start of the buffer when no header fits at it). *)
Definition log_get_entry (l : dare_log_t) (offset : Z) : option Z * Z :=
  if is_log_empty l then (None, offset)
  else if log_offset_end_distance l offset =? 0 then (None, offset)
  else let offset := if negb (log_fit_entry_header l offset) then 0 else offset in
       (Some offset, offset).

(** The offset of the next entry, as every traversal computes it. *)
Definition log_advance (l : dare_log_t) (offset e : Z) : Z :=
  (if negb (log_fit_entry l offset e) then 0 else offset) +64 log_entry_len l e.

(** ** Traversals *)

Fixpoint nc_buf_loop (fuel : nat) (l : dare_log_t) (offset n : Z)
    (nc : list dare_log_entry_det_t) : outcome dare_nc_buf_t :=
  match fuel with
  | O => Spin
  | S fuel' =>
      match log_get_entry l offset with
      | (None, _) => Ok (mk_nc n nc)
      | (Some e, offset) =>
          let! nc' := or_undef
            (aset nc n (mk_det (entry_idx l e) (entry_term l e) offset)) in
          nc_buf_loop fuel' l (log_advance l offset e) (n + 1) nc'
      end
  end.

Definition log_entries_to_nc_buf (fuel : nat) (l : dare_log_t) (nc : dare_nc_buf_t)
    : outcome dare_nc_buf_t :=
  nc_buf_loop fuel l (commit l) 0 (nc_entries nc).

(** The loop over a remote NC-buffer: [i] is the next position, [offset] the
    variable of the C function ([None] before its first assignment). *)
Fixpoint find_end_loop (l : dare_log_t) (offset : option Z)
    (nc : list dare_log_entry_det_t) : outcome Z :=
  match nc with
  | [] => or_undef offset
  | d :: nc' =>
      match log_get_entry l (det_offset d) with
      | (None, offset) => Ok offset
      | (Some e, offset) =>
          if negb (entry_idx l e =? det_idx d) || negb (entry_term l e =? det_term d)
          then Ok offset
          else find_end_loop l (Some (log_advance l offset e)) nc'
      end
  end.

Definition log_find_remote_end_offset (l : dare_log_t) (nc : dare_nc_buf_t) : outcome Z :=
  if Z.of_nat (length (nc_entries nc)) <? nc_len nc then Undef
  else find_end_loop l None (take (Z.to_nat (nc_len nc)) (nc_entries nc)).

Fixpoint tail_loop (fuel : nat) (l : dare_log_t) (offset tail : Z) : outcome Z :=
  match fuel with
  | O => Spin
  | S fuel' =>
      match log_get_entry l offset with
      | (None, _) => Ok tail
      | (Some e, offset) => tail_loop fuel' l (log_advance l offset e) offset
      end
  end.

Definition log_get_tail (fuel : nat) (l : dare_log_t) : outcome Z :=
  if negb (tail l =? len l) then Ok (tail l)
  else if is_log_empty l then Ok (len l)
  else
    let! t := tail_loop fuel l (commit l) (len l) in
    if negb (t =? len l) then Ok t
    else
      let! t := tail_loop fuel l (apply l) (len l) in
      if negb (t =? len l) then Ok t
      else tail_loop fuel l (head l) (len l).

(** ** Appending *)

(** What [data] points to. *)
Inductive log_data :=
| LD_null
| LD_cmd (cmd : list Z)
| LD_cid (cid : dare_cid_t)
| LD_head (h : Z).

Definition wr_header (m : mem) (e idx term req_id clt_id type : Z) : mem :=
  wr_le 1 (wr_le 2 (wr_le 8 (wr_le 8 (wr_le 8 m e idx) (e + 8) term)
    (e + 16) req_id) (e + 24) clt_id) (e + 26) type.

Definition wr_cid (m : mem) (o : Z) (c : dare_cid_t) : mem :=
  wr_le 4 (wr_le 1 (wr_le 1 (wr_le 1 (wr_le 1 (wr_le 8 m o (epoch c))
    (o + 8) (size0 c)) (o + 9) (size1 c)) (o + 10) (state c))
    (o + 11) (pad c)) (o + 12) (bitmask c).

(** The last two statements: the new tail and the new end. *)
Definition log_finish_append (l : dare_log_t) (e : Z) : dare_log_t :=
  let l := set_tail l (end_ l) in
  set_end l (end_ l +64 log_entry_len l e).

(** The [default] case of its [switch]: the command of the entry at [e], which
    moves to the start of the buffer when it does not fit there. *)
Definition log_write_cmd (l : dare_log_t)
    (e idx term req_id clt_id type : Z) (cmd : list Z) : outcome (Z * dare_log_t) :=
  let n := Z.of_nat (length cmd) in
  let l := set_entries l (wr_le 2 (entries l) (e + 32) n) in
  if negb (log_fit_entry l (end_ l) e) then
    let l := set_end l 0 in
    match log_add_new_entry l with
    | None => Ok (0, l)
    | Some e =>
        let l := set_entries l
          (wr_le 2 (wr_header (entries l) e idx term req_id clt_id type) (e + 32) n) in
        Ok (idx, log_finish_append
              (set_entries l (wr_bytes (entries l) (e + 34) cmd)) e)
    end
  else
    Ok (idx, log_finish_append
          (set_entries l (wr_bytes (entries l) (e + 34) cmd)) e).

(** The second half of [log_append_entry]: create the entry and add its data.
    The result is the returned index (0 when the log is full) and the log. *)
Definition log_write_entry (l : dare_log_t)
    (idx term req_id clt_id type : Z) (data : log_data) : outcome (Z * dare_log_t) :=
  match log_add_new_entry l with
  | None => Ok (0, l)
  | Some e =>
      let l := set_entries l (wr_header (entries l) e idx term req_id clt_id type) in
      let l := if negb (log_fit_entry_header l (end_ l)) then set_end l 0 else l in
      if type =? CONFIG then
        match data with
        | LD_cid c =>
            Ok (idx, log_finish_append
                  (set_entries l (wr_cid (entries l) (e + 32) c)) e)
        | _ => Undef
        end
      else if type =? HEAD then
        match data with
        | LD_head h =>
            Ok (idx, log_finish_append
                  (set_entries l (wr_le 8 (entries l) (e + 32) h)) e)
        | _ => Undef
        end
      else if type =? NOOP then Ok (idx, log_finish_append l e)
      else
        match data with
        | LD_cmd cmd => log_write_cmd l e idx term req_id clt_id type cmd
        | _ => Undef
        end
  end.

(** The index the next entry gets. *)
Definition log_next_idx (l : dare_log_t) : Z :=
  match (log_get_entry l (tail l)).1 with
  | Some e => entry_idx l e +64 1
  | None => 1
  end.

(** Result: the index, the log, and the global [prev_log_entry_head]. *)
Definition log_append_entry (fuel : nat) (l : dare_log_t) (prev : Z)
    (term req_id clt_id type : Z) (data : log_data)
    : outcome (Z * dare_log_t * Z) :=
  let prev := if negb (type =? HEAD) then 0 else prev in
  let! l := if tail l =? len l
            then let! t := log_get_tail fuel l in Ok (set_tail l t)
            else Ok l in
  let! (idx, l) := log_write_entry l (log_next_idx l) term req_id clt_id type data in
  Ok (idx, l, prev).
