(* ===== verification/LogRep.v ===== *)
(** * The log as a list of entries

    The abstract contract of dare_log.h: a log holds a list of entries, and
    every boundary offset of it denotes a suffix of that list.  The predicate
    [live l o es] says that reading the circular buffer [l] from offset [o]
    up to [end] finds exactly the entries [es]; the traversals of dare_log.h
    compute functions of that list and [log_append_entry] extends it by one
    entry for every boundary at once. *)

From S2P Require Import Prelude Bytes Config Log.

Open Scope Z_scope.

Record aentry := mk_ae {
  ae_idx : Z;
  ae_term : Z;
  ae_req_id : Z;
  ae_clt_id : Z;
  ae_type : Z;
  ae_data : log_data
}.

(** The entry whose header is at [e] and whose data is at [p]; they differ
    only for an entry that was moved to the start of the buffer. *)
Definition data_at (l : dare_log_t) (ty p : Z) : log_data :=
  if ty =? CONFIG then LD_cid (entry_cid l p)
  else if ty =? HEAD then LD_head (entry_head l p)
  else if ty =? NOOP then LD_null
  else LD_cmd (entry_cmd l p).

Definition entry_at (l : dare_log_t) (e : Z) : aentry :=
  mk_ae (entry_idx l e) (entry_term l e) (entry_req_id l e) (entry_clt_id l e)
    (entry_type l e) (data_at l (entry_type l e) e).

(** The size of an entry in the buffer. *)
Definition ae_len (x : aentry) : Z :=
  match ae_data x with
  | LD_cmd c => ENTRY_SIZE + Z.of_nat (length c)
  | _ => ENTRY_SIZE
  end.

(** Entries stored back to back from [a] to [b]. *)
Fixpoint cseg (l : dare_log_t) (a : Z) (es : list aentry) (b : Z) : Prop :=
  match es with
  | [] => a = b
  | x :: es' => x = entry_at l a /\ cseg l (a + log_entry_len l a) es' b
  end.

(** The place [m] from which the log continues at offset 0: no header fits at
    it, or the header of the entry at 0 is repeated there because the entry
    itself does not fit. *)
Definition wraps_at (l : dare_log_t) (m : Z) : Prop :=
  len l - m < ENTRY_SIZE \/
  (log_entry_len l m > len l - m /\
   entry_idx l m = entry_idx l 0 /\ entry_term l m = entry_term l 0 /\
   entry_req_id l m = entry_req_id l 0 /\ entry_clt_id l m = entry_clt_id l 0 /\
   entry_type l m = entry_type l 0 /\ entry_cmd_len l m = entry_cmd_len l 0).

Inductive live (l : dare_log_t) (o : Z) : list aentry -> Prop :=
| live_lin es :
    0 <= o -> end_ l < len l -> cseg l o es (end_ l) -> live l o es
| live_wrap es1 m es2 :
    end_ l < o -> cseg l o es1 m -> m <= len l -> wraps_at l m ->
    es2 <> [] -> cseg l 0 es2 (end_ l) -> end_ l < len l ->
    live l o (es1 ++ es2).

(** The offsets between [head] and [end] of the circular buffer. *)
Definition in_live (l : dare_log_t) (o : Z) : Prop :=
  if head l <=? end_ l then head l <= o <= end_ l
  else head l <= o <= len l \/ 0 <= o <= end_ l.

(** Sizes the model needs: a log of at least one header, whose length leaves
    the offset arithmetic below 2^64. *)
Definition len_ok (l : dare_log_t) : Prop := ENTRY_SIZE <= len l <= 2 ^ 62.

(** A log that holds the (non-empty) list [es]. *)
Record log_rep (l : dare_log_t) (es : list aentry) : Prop := {
  rep_len : len_ok l;
  rep_nonempty : es <> [];
  rep_head : head l <= len l;
  rep_live : live l (head l) es
}.

(** A log nothing was appended to yet. *)
Record log_fresh (l : dare_log_t) : Prop := {
  fresh_len : len_ok l;
  fresh_head : head l = 0;
  fresh_commit : commit l = 0;
  fresh_apply : apply l = 0;
  fresh_end : end_ l = len l;
  fresh_tail : tail l = len l
}.

(** Linear arithmetic with the sizes of the log. *)
Ltac log_lia := unfold len_ok, ENTRY_SIZE in *; lia.

(** ** Memory frames *)

Definition agree (m m' : mem) (a b : Z) : Prop :=
  forall x, a <= x < b -> rd m x = rd m' x.

Lemma agree_le n m m' a b o :
  agree m m' a b -> a <= o -> o + Z.of_nat n <= b -> rd_le n m o = rd_le n m' o.
Proof. intros H ? ?. apply rd_le_ext. intros. apply H. lia. Qed.

Lemma agree_sub m m' a b a' b' : agree m m' a b -> a <= a' -> b' <= b -> agree m m' a' b'.
Proof. intros H ? ? x ?. apply H. lia. Qed.

Lemma cmd_len_range l e : 0 <= entry_cmd_len l e < 65536.
Proof. pose proof (rd_le_range 2 (entries l) (e + 32)). unfold entry_cmd_len. lia. Qed.

Lemma entry_len_range l e : ENTRY_SIZE <= log_entry_len l e < ENTRY_SIZE + 65536.
Proof.
  unfold log_entry_len, ENTRY_SIZE. pose proof (cmd_len_range l e).
  destruct (_ || _ || _); [lia|]. rewrite wrap_small; lia.
Qed.

Lemma entry_len_data l e : log_entry_len l e = ae_len (entry_at l e).
Proof.
  unfold log_entry_len, ae_len, entry_at, data_at, ENTRY_SIZE; simpl.
  pose proof (cmd_len_range l e).
  repeat zcase; simpl; try lia.
  unfold entry_cmd. rewrite length_rd_bytes, wrap_small; lia.
Qed.

(** Two logs that agree on the first bytes of an entry agree on its length;
    if they agree on all of it, they hold the same entry. *)
Lemma entry_len_frame l l' e :
  agree (entries l) (entries l') e (e + ENTRY_SIZE) ->
  log_entry_len l e = log_entry_len l' e.
Proof.
  unfold log_entry_len, entry_type, entry_cmd_len, ENTRY_SIZE. intros H.
  rewrite (agree_le 1 _ _ _ _ (e + 26) H), (agree_le 2 _ _ _ _ (e + 32) H) by lia.
  done.
Qed.

Lemma entry_at_frame l l' e :
  agree (entries l) (entries l') e (e + log_entry_len l e) ->
  entry_at l e = entry_at l' e.
Proof.
  intros H. pose proof (entry_len_range l e) as Hr. unfold ENTRY_SIZE in Hr.
  assert (agree (entries l) (entries l') e (e + 48)) as H48
    by (eapply agree_sub; eauto; lia).
  unfold entry_at, entry_idx, entry_term, entry_req_id, entry_clt_id.
  assert (entry_type l e = entry_type l' e) as Hty.
  { apply (agree_le 1 _ _ _ _ _ H48); lia. }
  rewrite (agree_le 8 _ _ _ _ e H48), (agree_le 8 _ _ _ _ (e + 8) H48),
    (agree_le 8 _ _ _ _ (e + 16) H48), (agree_le 2 _ _ _ _ (e + 24) H48) by lia.
  rewrite Hty. f_equal. unfold data_at.
  destruct (Z.eqb_spec (entry_type l' e) CONFIG).
  { f_equal. unfold entry_cid.
    rewrite (agree_le 8 _ _ _ _ (e + 32) H48), (agree_le 1 _ _ _ _ (e + 40) H48),
      (agree_le 1 _ _ _ _ (e + 41) H48), (agree_le 1 _ _ _ _ (e + 42) H48),
      (agree_le 1 _ _ _ _ (e + 43) H48), (agree_le 4 _ _ _ _ (e + 44) H48) by lia.
    done. }
  destruct (Z.eqb_spec (entry_type l' e) HEAD).
  { f_equal. apply (agree_le 8 _ _ _ _ _ H48); lia. }
  destruct (Z.eqb_spec (entry_type l' e) NOOP); [done|].
  f_equal. unfold entry_cmd, entry_cmd_len.
  rewrite (agree_le 2 _ _ _ _ (e + 32) H48) by lia.
  apply rd_bytes_ext. intros x Hx. apply H.
  unfold log_entry_len. rewrite Hty.
  rewrite (proj2 (Z.eqb_neq _ _)), (proj2 (Z.eqb_neq _ _)), (proj2 (Z.eqb_neq _ _)) by done.
  simpl. unfold entry_cmd_len.
  rewrite (agree_le 2 _ _ _ _ (e + 32) H48) by lia.
  pose proof (rd_le_range 2 (entries l') (e + 32)).
  unfold ENTRY_SIZE. rewrite wrap_small by lia. lia.
Qed.

(** ** Contiguous segments *)

Lemma cseg_le l a es b : cseg l a es b -> a + 48 * Z.of_nat (length es) <= b.
Proof.
  revert a; induction es as [|x es IH]; intros a; simpl; [lia|].
  intros [_ H%IH]. pose proof (entry_len_range l a). unfold ENTRY_SIZE in *. lia.
Qed.

Lemma cseg_app l a es es' b c :
  cseg l a es b -> cseg l b es' c -> cseg l a (es ++ es') c.
Proof.
  revert a; induction es as [|x es IH]; intros a; simpl; [by intros ->|].
  intros [-> H] H'. split; [done|]. by apply IH.
Qed.

Lemma cseg_frame l l' a es b :
  agree (entries l) (entries l') a b -> cseg l a es b -> cseg l' a es b.
Proof.
  revert a; induction es as [|x es IH]; intros a Hag; simpl; [done|].
  intros [-> Hs]. pose proof (cseg_le _ _ _ _ Hs).
  pose proof (entry_len_range l a).
  split; [apply entry_at_frame; eapply agree_sub; eauto; log_lia|].
  rewrite <- (entry_len_frame l l') by (eapply agree_sub; eauto; log_lia).
  apply IH; [eapply agree_sub; eauto; log_lia|done].
Qed.

Lemma cseg_one l a : cseg l a [entry_at l a] (a + log_entry_len l a).
Proof. done. Qed.

Lemma cseg_head l a x es b :
  cseg l a (x :: es) b -> x = entry_at l a /\ a + log_entry_len l a <= b /\
  cseg l (a + log_entry_len l a) es b.
Proof.
  intros [-> H]. split; [done|]. split; [|done].
  apply cseg_le in H. lia.
Qed.

(** ** Offsets *)

Section Offsets.
Context (l : dare_log_t) (Hlen : len_ok l).

Lemma fit_header_iff o :
  0 <= o <= len l -> log_fit_entry_header l o = (o + ENTRY_SIZE <=? len l).
Proof.
  intros H. unfold log_fit_entry_header, len_ok in *.
  rewrite u64_small by lia. repeat zcase; lia.
Qed.

Lemma fit_entry_iff o e :
  0 <= o <= len l -> log_fit_entry l o e = (o + log_entry_len l e <=? len l).
Proof.
  intros H. unfold log_fit_entry, len_ok in *.
  rewrite u64_small by lia. repeat zcase; lia.
Qed.

Lemma advance_small o e :
  0 <= o <= len l ->
  log_advance l o e =
  (if log_fit_entry l o e then o else 0) + log_entry_len l e.
Proof.
  intros H. unfold log_advance, len_ok in *.
  pose proof (entry_len_range l e). unfold ENTRY_SIZE in *.
  destruct (log_fit_entry l o e); simpl negb; cbn iota; rewrite u64_small; lia.
Qed.

Lemma distance_small o :
  0 <= o <= len l -> 0 <= end_ l < len l ->
  log_offset_end_distance l o =
  if o <=? end_ l then end_ l - o else len l - (o - end_ l).
Proof.
  intros Ho He. unfold log_offset_end_distance, len_ok in *.
  destruct (Z.eqb_spec (end_ l) (len l)); [lia|].
  repeat zcase; try lia.
  - rewrite u64_small; lia.
  - rewrite (u64_small (o - end_ l)) by lia. rewrite u64_small; lia.
Qed.

Lemma larger_distance a b :
  log_is_offset_larger l a b =
  (log_offset_end_distance l a <? log_offset_end_distance l b).
Proof. done. Qed.
End Offsets.

(** ** Reading one entry *)

(** Only the buffer, its length and [end] matter. *)
Lemma live_same l l' o es :
  end_ l' = end_ l -> len l' = len l -> entries l' = entries l ->
  live l o es -> live l' o es.
Proof.
  intros He Hl Hm. assert (forall a b, agree (entries l) (entries l') a b) as Hag
    by (intros a b c _; by rewrite Hm).
  destruct 1 as [es Ho Hel Hs|es1 m es2 Ho Hs Hmm Hw Hne Hs2 Hel].
  - apply live_lin; rewrite ?He, ?Hl; auto. eapply cseg_frame; eauto.
  - apply live_wrap with m; rewrite ?He, ?Hl; auto; try (eapply cseg_frame; eauto).
    unfold wraps_at, log_entry_len, entry_idx, entry_term, entry_req_id, entry_clt_id,
      entry_type, entry_cmd_len in *.
    by rewrite Hm, Hl.
Qed.

Lemma live_range l o es : live l o es -> end_ l < len l /\ 0 <= end_ l.
Proof.
  destruct 1 as [es Ho He Hs|es1 m es2 Ho Hs Hm Hw Hne Hs2 He].
  - apply cseg_le in Hs. lia.
  - apply cseg_le in Hs2. lia.
Qed.

Lemma live_offset l o es : live l o es -> 0 <= o <= len l.
Proof.
  intros H. pose proof (live_range _ _ _ H).
  destruct H as [es Ho He Hs|es1 m es2 Ho Hs Hm Hw Hne Hs2 He].
  - apply cseg_le in Hs. lia.
  - apply cseg_le in Hs. lia.
Qed.

Lemma live_nil l o : live l o [] -> o = end_ l.
Proof.
  intros H. remember [] as es eqn:E in H. revert E.
  destruct H as [es Ho He Hs|es1 m es2 Ho Hs Hm Hw Hne Hs2 He]; intros E; [by subst es|].
  apply app_nil in E as [-> ->]. done.
Qed.

Lemma live_end l : 0 <= end_ l < len l -> live l (end_ l) [].
Proof. intros. apply live_lin; simpl; lia. Qed.

Lemma get_entry_end l : log_get_entry l (end_ l) = (None, end_ l).
Proof.
  unfold log_get_entry, log_offset_end_distance.
  destruct (is_log_empty l) eqn:E; [done|].
  unfold is_log_empty in E. rewrite E.
  rewrite Z.geb_leb, Z.leb_refl, Z.sub_diag. done.
Qed.

(** What a traversal finds at a boundary with entries left. *)
Record step_spec (l : dare_log_t) (o : Z) (x : aentry) (es : list aentry) (e : Z) : Prop := {
  step_get : log_get_entry l o = (Some e, e);
  step_range : 0 <= e /\ e + ENTRY_SIZE <= len l;
  step_live : live l e (x :: es);
  step_idx : entry_idx l e = ae_idx x;
  step_term : entry_term l e = ae_term x;
  step_req : entry_req_id l e = ae_req_id x;
  step_clt : entry_clt_id l e = ae_clt_id x;
  step_type : entry_type l e = ae_type x;
  step_next : live l (log_advance l e e) es;
  step_dist : log_offset_end_distance l (log_advance l e e)
              < log_offset_end_distance l o;
  step_fit : if log_fit_entry l e e
             then x = entry_at l e /\ log_advance l e e = e + log_entry_len l e
             else live l 0 (x :: es) /\ log_get_entry l 0 = (Some 0, 0) /\
                  log_fit_entry l 0 0 = true /\ log_advance l e e = log_advance l 0 0 /\
                  log_offset_end_distance l 0 < log_offset_end_distance l o
}.

Lemma get_entry_at l o :
  len_ok l -> 0 <= o <= len l -> 0 <= end_ l < len l -> o <> end_ l ->
  o < len l \/ 0 < end_ l ->
  log_get_entry l o =
  let e := if o + ENTRY_SIZE <=? len l then o else 0 in (Some e, e).
Proof.
  intros Hlen Ho He Hne Hpos. unfold log_get_entry.
  unfold is_log_empty. rewrite (proj2 (Z.eqb_neq _ _)) by lia.
  rewrite distance_small by done.
  rewrite (proj2 (Z.eqb_neq _ _)) by (repeat zcase; unfold len_ok in *; lia).
  rewrite fit_header_iff by done. by destruct (_ <=? _).
Qed.

(** In a contiguous part, the entry is where the offset points. *)
Lemma step_contiguous l o x es1 b es :
  len_ok l -> 0 <= o -> b <= len l -> 0 <= end_ l < len l ->
  cseg l o (x :: es1) b -> (b <= end_ l \/ end_ l < o) ->
  live l o (x :: es) -> live l (o + log_entry_len l o) es ->
  step_spec l o x es o.
Proof.
  intros Hlen Ho Hb He Hs Hpos Hlive Hnext.
  apply cseg_head in Hs as (-> & Hle & _).
  pose proof (entry_len_range l o) as Hlr. unfold ENTRY_SIZE in *.
  pose proof (get_entry_at l o Hlen ltac:(lia) He ltac:(lia) ltac:(lia)) as Hget.
  rewrite (proj2 (Z.leb_le _ _)) in Hget by (unfold ENTRY_SIZE; lia).
  assert (log_fit_entry l o o = true) as Hfit.
  { rewrite fit_entry_iff by (done || lia). apply Z.leb_le. lia. }
  assert (log_advance l o o = o + log_entry_len l o) as Hadv.
  { by rewrite advance_small, Hfit by (done || lia). }
  split; try done; try log_lia.
  - by rewrite Hadv.
  - rewrite Hadv, !distance_small by (done || lia). repeat zcase; lia.
  - by rewrite Hfit.
Qed.

(** At the wrap point the entry is at the start of the buffer; the traversal
    reaches it directly when no header fits, ... *)
Lemma step_start l o x es :
  len_ok l -> end_ l < o <= len l -> len l < o + ENTRY_SIZE -> end_ l < len l ->
  cseg l 0 (x :: es) (end_ l) -> step_spec l o x es 0.
Proof.
  intros Hlen Ho Hno He Hs.
  assert (live l 0 (x :: es)) as Hlive by (apply live_lin; auto; lia).
  apply cseg_head in Hs as (-> & Hle & Hs).
  pose proof (entry_len_range l 0) as Hlr.
  pose proof (get_entry_at l o Hlen ltac:(lia) ltac:(log_lia) ltac:(lia)
    ltac:(log_lia)) as Hget.
  rewrite (proj2 (Z.leb_gt _ _)) in Hget by log_lia.
  assert (log_fit_entry l 0 0 = true) as Hfit.
  { rewrite fit_entry_iff by (done || log_lia). apply Z.leb_le. lia. }
  assert (log_advance l 0 0 = 0 + log_entry_len l 0) as Hadv.
  { by rewrite advance_small, Hfit by (done || log_lia). }
  split; try done; try log_lia.
  - rewrite Hadv. apply live_lin; auto; log_lia.
  - rewrite Hadv, !distance_small by (done || log_lia). repeat zcase; log_lia.
  - by rewrite Hfit.
Qed.

(** ... or through the copy of its header. *)
Lemma step_stub l o x es :
  len_ok l -> end_ l < o -> o + ENTRY_SIZE <= len l -> end_ l < len l ->
  wraps_at l o -> cseg l 0 (x :: es) (end_ l) -> step_spec l o x es o.
Proof.
  intros Hlen Ho Hh He Hw Hs. pose proof Hs as Hs'.
  assert (live l o (x :: es)) as Hlive
    by (apply (live_wrap l o [] o); simpl; auto; log_lia).
  apply cseg_head in Hs as (-> & Hle & Hs).
  pose proof (entry_len_range l 0) as Hlr.
  destruct Hw as [Hw|(Hw & Hi & Ht & Hr & Hc & Hty & Hcl)]; [log_lia|].
  pose proof (get_entry_at l o Hlen ltac:(log_lia) ltac:(log_lia) ltac:(lia)
    ltac:(log_lia)) as Hget.
  rewrite (proj2 (Z.leb_le _ _)) in Hget by log_lia.
  assert (log_entry_len l o = log_entry_len l 0) as Hlo.
  { unfold log_entry_len. by rewrite Hty, Hcl. }
  assert (log_fit_entry l o o = false) as Hfit.
  { rewrite fit_entry_iff by (done || log_lia). apply Z.leb_gt. lia. }
  assert (log_advance l o o = 0 + log_entry_len l 0) as Hadv.
  { by rewrite advance_small, Hfit, Hlo by (done || log_lia). }
  split; try done; try log_lia.
  - rewrite Hadv. apply live_lin; auto; log_lia.
  - rewrite Hadv, !distance_small by (done || log_lia). repeat zcase; log_lia.
  - rewrite Hfit. split; [apply live_lin; auto; lia|].
    assert (log_fit_entry l 0 0 = true) as Hfit0.
    { rewrite fit_entry_iff by (done || log_lia). apply Z.leb_le. lia. }
    split; [|split; [done|split]].
    + rewrite get_entry_at by (done || log_lia). by rewrite (proj2 (Z.leb_le _ _)) by log_lia.
    + by rewrite Hadv, advance_small, Hfit0 by (done || log_lia).
    + rewrite !distance_small by (done || log_lia). repeat zcase; log_lia.
Qed.

Lemma live_step l o x es :
  len_ok l -> live l o (x :: es) -> exists e, step_spec l o x es e.
Proof.
  intros Hlen Hlive. pose proof (live_range _ _ _ Hlive) as [He1 He0].
  inversion Hlive as [es' Ho He Hs|es1 m es2 Ho Hs Hm Hw Hne Hs2 He E]; subst.
  - exists o. eapply step_contiguous; eauto; try lia.
    apply cseg_head in Hs as (_ & Hle & Hs).
    pose proof (entry_len_range l o). apply live_lin; auto; log_lia.
  - destruct es1 as [|x1 es1].
    + simpl in Hs, E. subst m es2.
      destruct (Z.leb_spec (o + ENTRY_SIZE) (len l)).
      * exists o. by apply step_stub.
      * exists 0. apply step_start; auto; lia.
    + simpl in E. injection E as -> <-.
      exists o. eapply step_contiguous; eauto; try lia.
      pose proof Hs as Hs'. apply cseg_head in Hs' as (_ & Hle & Hs').
      pose proof (entry_len_range l o). apply live_wrap with m; auto; log_lia.
Qed.
