(* ===== verification/LogOps.v ===== *)
(** * Correctness of the log operations

    Functional specifications of the traversals of dare_log.h, of the order on
    offsets and of [log_append_entry], stated on the list of entries a log
    represents ([LogRep.live], [LogRep.log_rep]). *)

From S2P Require Import Prelude Bytes Config Log LogRep.

Open Scope Z_scope.

(** ** Not committed entries *)

(** [ds] are the determinants of the entries [es]. *)
Fixpoint dets_of (l : dare_log_t) (es : list aentry)
    (ds : list dare_log_entry_det_t) : Prop :=
  match es, ds with
  | [], [] => True
  | x :: es', d :: ds' =>
      det_idx d = ae_idx x /\ det_term d = ae_term x /\
      live l (det_offset d) es /\ dets_of l es' ds'
  | _, _ => False
  end.

Lemma insert_app_drop {A} (l : list A) (n : nat) (x : A) (k : list A) (m : nat) :
  (n < length l)%nat ->
  take (S n) (<[n := x]> l) ++ k ++ drop (S n + m) (<[n := x]> l) =
  take n l ++ (x :: k) ++ drop (n + S m) l.
Proof.
  intros Hn.
  rewrite (take_S_r _ n x) by (by apply list_lookup_insert_eq).
  rewrite take_insert_ge, <- app_assoc by lia. simpl. do 3 f_equal.
  rewrite drop_insert_lt by lia. f_equal. lia.
Qed.

Lemma nc_buf_loop_spec l es : len_ok l -> forall fuel o n nc,
  live l o es -> (length es < fuel)%nat ->
  0 <= n -> n + Z.of_nat (length es) <= Z.of_nat (length nc) ->
  exists ds, nc_buf_loop fuel l o n nc =
      Ok (mk_nc (n + Z.of_nat (length es))
            (take (Z.to_nat n) nc ++ ds ++ drop (Z.to_nat n + length es) nc))
    /\ dets_of l es ds.
Proof.
  intros Hlen. induction es as [|x es IH]; intros [|fuel] o n nc Hlive Hf Hn Hnc;
    simpl in Hf; try lia.
  - apply live_nil in Hlive as ->. exists []. simpl nc_buf_loop.
    rewrite get_entry_end. split; [|done].
    rewrite Nat.add_0_r. simpl. by rewrite take_drop, Z.add_0_r.
  - destruct (live_step l o x es Hlen Hlive) as [e Hs]. simpl nc_buf_loop.
    rewrite (step_get _ _ _ _ _ Hs). simpl length in *.
    rewrite aset_Some by lia. cbn [or_undef obind].
    edestruct (IH fuel (log_advance l e e) (n + 1)
      (<[Z.to_nat n := mk_det (entry_idx l e) (entry_term l e) e]> nc))
      as (ds & Heq & Hds); [apply Hs|lia|lia|rewrite length_insert; lia|].
    rewrite Heq. exists (mk_det (entry_idx l e) (entry_term l e) e :: ds). split.
    + f_equal. f_equal; [lia|].
      replace (Z.to_nat (n + 1)) with (S (Z.to_nat n)) by lia.
      apply insert_app_drop. lia.
    + simpl. rewrite (step_idx _ _ _ _ _ Hs), (step_term _ _ _ _ _ Hs).
      by pose proof (step_live _ _ _ _ _ Hs).
Qed.

(** ** The tail *)

Lemma tail_loop_spec l es x : len_ok l -> forall fuel o t,
  live l o (es ++ [x]) -> (S (length es) < fuel)%nat ->
  exists e, tail_loop fuel l o t = Ok e /\ live l e [x] /\ e < len l.
Proof.
  intros Hlen. induction es as [|y es IH]; intros [|fuel] o t Hlive Hf;
    simpl in Hf; try lia; simpl in Hlive;
    destruct (live_step l o _ _ Hlen Hlive) as [e Hs]; simpl tail_loop;
    rewrite (step_get _ _ _ _ _ Hs).
  - pose proof (step_range _ _ _ _ _ Hs). exists e.
    split; [|split; [apply Hs|log_lia]].
    pose proof (live_nil _ _ (step_next _ _ _ _ _ Hs)) as ->.
    destruct fuel; [lia|]. simpl. by rewrite get_entry_end.
  - apply (IH fuel); [apply Hs|lia].
Qed.

Lemma tail_loop_nil l o t fuel :
  live l o [] -> (0 < fuel)%nat -> tail_loop fuel l o t = Ok t.
Proof.
  intros ->%live_nil. destruct fuel; [lia|]. simpl. by rewrite get_entry_end.
Qed.


(** ** The invariant of a log *)

(** An offset of the circular buffer that starts a suffix of the entries. *)
Definition boundary (l : dare_log_t) (es : list aentry) (o : Z) : Prop :=
  in_live l o /\ exists suf, suf `suffix_of` es /\ live l o suf.

Record log_inv (l : dare_log_t) (es : list aentry) : Prop := {
  inv_rep : log_rep l es;
  inv_commit : boundary l es (commit l);
  inv_apply : boundary l es (apply l);
  inv_tail : tail l = len l \/ exists es0 x, es = es0 ++ [x] /\ live l (tail l) [x]
}.

Lemma rep_boundary_head l es : log_rep l es -> boundary l es (head l).
Proof.
  intros [Hlen Hne Hh Hl]. split; [|by exists es].
  pose proof (live_range _ _ _ Hl). pose proof (live_offset _ _ _ Hl).
  unfold in_live. zcase; lia.
Qed.

Lemma suffix_snoc {A} (suf es : list A) x :
  suf `suffix_of` (es ++ [x]) -> suf = [] \/ exists suf', suf = suf' ++ [x].
Proof.
  intros [k Hk]. destruct suf as [|y s _] using rev_ind; [by left|right].
  rewrite app_assoc in Hk. apply app_inj_tail in Hk as [_ ->]. eauto.
Qed.

Lemma tail_from_boundary l es x o t fuel :
  len_ok l -> boundary l (es ++ [x]) o -> (S (length es) < fuel)%nat ->
  tail_loop fuel l o t = Ok t /\ o = end_ l \/
  exists e, tail_loop fuel l o t = Ok e /\ live l e [x] /\ e < len l.
Proof.
  intros Hlen (_ & suf & Hsuf & Hlive) Hf.
  pose proof (suffix_length _ _ Hsuf) as Hl. rewrite length_app in Hl. simpl in Hl.
  destruct (suffix_snoc _ _ _ Hsuf) as [->|(s & ->)].
  - left. split; [apply tail_loop_nil; [done|lia]|by apply live_nil].
  - right. rewrite length_app in Hl. simpl in Hl.
    apply tail_loop_spec with s; auto. lia.
Qed.

(** Finding the tail: whatever the cached value, the result is the offset at
    which a traversal meets the last entry. *)
Lemma log_get_tail_spec fuel l es x :
  log_inv l (es ++ [x]) -> (S (length es) < fuel)%nat ->
  exists t, log_get_tail fuel l = Ok t /\ live l t [x] /\ t <> len l.
Proof.
  intros [[Hlen Hne Hh Hl] Hc Ha Ht] Hf. unfold log_get_tail.
  destruct (Z.eqb_spec (tail l) (len l)) as [E|E]; simpl negb; cbn iota.
  2:{ destruct Ht as [|(es0 & y & Hy & Hty)]; [done|].
      apply app_inj_tail in Hy as [_ <-]. by exists (tail l). }
  pose proof (live_range _ _ _ Hl) as [He _].
  unfold is_log_empty. rewrite (proj2 (Z.eqb_neq (end_ l) (len l))) by lia.
  destruct (tail_from_boundary l es x (commit l) (len l) fuel Hlen Hc Hf)
    as [[-> _]|(t & -> & Hlt & Htl)]; cbn [obind].
  2:{ exists t. rewrite (proj2 (Z.eqb_neq t (len l))) by lia. repeat split; auto; lia. }
  rewrite Z.eqb_refl. cbn iota.
  destruct (tail_from_boundary l es x (apply l) (len l) fuel Hlen Ha Hf)
    as [[-> _]|(t & -> & Hlt & Htl)]; cbn [obind negb].
  2:{ exists t. rewrite (proj2 (Z.eqb_neq t (len l))) by lia. repeat split; auto; lia. }
  rewrite Z.eqb_refl. cbn [negb].
  destruct (tail_loop_spec l es x Hlen fuel (head l) (len l) Hl Hf) as (t & -> & Hlt & Htl).
  exists t. repeat split; auto; lia.
Qed.

(** ** Writing an entry *)

Definition cid_ok (c : dare_cid_t) : Prop :=
  0 <= epoch c < M64 /\ 0 <= size0 c < 256 /\ 0 <= size1 c < 256 /\
  0 <= state c < 256 /\ 0 <= pad c < 256 /\ 0 <= bitmask c < 2 ^ 32.

(** The data that goes with an entry type. *)
Definition data_ok (ty : Z) (d : log_data) : Prop :=
  match d with
  | LD_null => ty = NOOP
  | LD_cid c => ty = CONFIG /\ cid_ok c
  | LD_head h => ty = HEAD /\ 0 <= h < M64
  | LD_cmd c => ty <> NOOP /\ ty <> CONFIG /\ ty <> HEAD /\
                Forall byte_ok c /\ Z.of_nat (length c) < 65536
  end.

Record ae_ok (x : aentry) : Prop := {
  ok_idx : 0 <= ae_idx x < M64;
  ok_term : 0 <= ae_term x < M64;
  ok_req : 0 <= ae_req_id x < M64;
  ok_clt : 0 <= ae_clt_id x < 65536;
  ok_type : 0 <= ae_type x < 256;
  ok_data : data_ok (ae_type x) (ae_data x)
}.

Definition wr_hdr (m : mem) (e : Z) (x : aentry) : mem :=
  wr_header m e (ae_idx x) (ae_term x) (ae_req_id x) (ae_clt_id x) (ae_type x).

Definition wr_data (m : mem) (e : Z) (x : aentry) : mem :=
  match ae_data x with
  | LD_null => m
  | LD_cid c => wr_cid m (e + 32) c
  | LD_head h => wr_le 8 m (e + 32) h
  | LD_cmd c => wr_bytes (wr_le 2 m (e + 32) (Z.of_nat (length c))) (e + 34) c
  end.

Lemma ae_len_range x : ae_ok x -> ENTRY_SIZE <= ae_len x < ENTRY_SIZE + 65536.
Proof.
  intros [_ _ _ _ _ Hd]. unfold ae_len. destruct (ae_data x); simpl in Hd; log_lia.
Qed.

Lemma wr_hdr_frame m e x a :
  a < e \/ e + 27 <= a -> rd (wr_hdr m e x) a = rd m a.
Proof.
  intros H. unfold wr_hdr, wr_header. by rewrite !rd_wr_le_out by lia.
Qed.

Lemma wr_data_frame m e x a :
  a < e + 32 \/ e + ae_len x <= a -> rd (wr_data m e x) a = rd m a.
Proof.
  intros H. unfold wr_data, ae_len, ENTRY_SIZE, wr_cid in *.
  destruct (ae_data x) as [|c|c|h]; rewrite ?rd_wr_bytes_out, ?rd_wr_le_out by lia; done.
Qed.

Lemma hdr_fields m e x :
  ae_ok x ->
  let m' := wr_hdr m e x in
  rd_le 8 m' e = ae_idx x /\ rd_le 8 m' (e + 8) = ae_term x /\
  rd_le 8 m' (e + 16) = ae_req_id x /\ rd_le 2 m' (e + 24) = ae_clt_id x /\
  rd_le 1 m' (e + 26) = ae_type x.
Proof.
  intros [? ? ? ? ? _]. unfold wr_hdr, wr_header. cbn zeta.
  repeat split; by mem_simpl.
Qed.

(** Writing an entry and reading it back (the union included) is the
    identity. *)
Lemma entry_written l m e x :
  ae_ok x -> entries l = wr_data (wr_hdr m e x) e x -> entry_at l e = x.
Proof.
  intros Hok He. destruct (hdr_fields m e x Hok) as (Hi & Ht & Hr & Hc & Hty).
  assert (agree (wr_hdr m e x) (entries l) e (e + 32)) as Hag.
  { intros a Ha. rewrite He. symmetry. apply wr_data_frame. lia. }
  rewrite (agree_le 8 _ _ _ _ e Hag) in Hi by lia.
  rewrite (agree_le 8 _ _ _ _ (e + 8) Hag) in Ht by lia.
  rewrite (agree_le 8 _ _ _ _ (e + 16) Hag) in Hr by lia.
  rewrite (agree_le 2 _ _ _ _ (e + 24) Hag) in Hc by lia.
  rewrite (agree_le 1 _ _ _ _ (e + 26) Hag) in Hty by lia.
  unfold entry_at, entry_idx, entry_term, entry_req_id, entry_clt_id, entry_type.
  rewrite Hi, Ht, Hr, Hc, Hty. clear Hag Hi Ht Hr Hc Hty.
  destruct Hok as [_ _ _ _ _ Hd]. destruct x as [idx tm rq ct ty d]; simpl in *.
  f_equal. unfold data_at, wr_data in *. simpl in *.
  destruct d as [|c|c|h]; simpl in Hd.
  - subst ty. done.
  - destruct Hd as (H1 & H2 & H3 & Hb & Hn).
    rewrite (proj2 (Z.eqb_neq ty CONFIG) H2), (proj2 (Z.eqb_neq ty HEAD) H3),
      (proj2 (Z.eqb_neq ty NOOP) H1).
    f_equal. unfold entry_cmd, entry_cmd_len. rewrite He. mem_simpl.
    rewrite Nat2Z.id. by apply rd_bytes_wr_same.
  - destruct Hd as (-> & Hc). unfold cid_ok in Hc. simpl. f_equal.
    destruct c as [ep s0 s1 st pd bm]; simpl in *.
    unfold entry_cid. rewrite He. unfold wr_cid; simpl.
    replace (e + 32 + 8) with (e + 40) by lia. replace (e + 32 + 9) with (e + 41) by lia.
    replace (e + 32 + 10) with (e + 42) by lia. replace (e + 32 + 11) with (e + 43) by lia.
    replace (e + 32 + 12) with (e + 44) by lia. mem_simpl. done.
  - destruct Hd as (-> & Hh). simpl. f_equal. unfold entry_head. rewrite He.
    by mem_simpl.
Qed.

(** ** Appending *)

(** Room for an entry of [n] bytes: the entry neither reaches [head] nor ends
    exactly at the length of the buffer. *)
Definition append_room (l : dare_log_t) (n : Z) : bool :=
  if is_log_empty l then n <? len l
  else if head l <=? end_ l
       then (end_ l + n <? len l) || ((len l <? end_ l + n) && (n <? head l))
       else end_ l + n <? head l.

(** The appends that write an entry of [n] bytes where [append_pos] says: the
    ones with room, and those that do so although they break the log. *)
Definition append_fits (l : dare_log_t) (n : Z) : bool :=
  append_room l n || (n =? ENTRY_SIZE)
  || (negb (is_log_empty l) && (end_ l + n =? len l)).

(** Where it goes. *)
Definition append_pos (l : dare_log_t) (n : Z) : Z :=
  if is_log_empty l || (len l <? end_ l + n) then 0 else end_ l.

(** [l'] is [l] with the entry [x] added. *)
Record appended (l l' : dare_log_t) (x : aentry) : Prop := {
  app_head : head l' = head l;
  app_apply : apply l' = apply l;
  app_commit : commit l' = commit l;
  app_len : len l' = len l;
  app_nc : nc_buf l' = nc_buf l;
  app_end : end_ l' = append_pos l (ae_len x) + ae_len x;
  app_tail : tail l' = append_pos l (ae_len x);
  app_entry : entry_at l' (append_pos l (ae_len x)) = x;
  app_frame : forall a,
    a < append_pos l (ae_len x) \/ append_pos l (ae_len x) + ae_len x <= a ->
    append_pos l (ae_len x) = end_ l \/ a < end_ l ->
    rd (entries l) a = rd (entries l') a;
  app_wrap : append_pos l (ae_len x) <> end_ l -> is_log_empty l = false ->
    wraps_at l' (end_ l)
}.

Lemma room_fits l n : append_room l n = true -> append_fits l n = true.
Proof. unfold append_fits. by intros ->. Qed.

Lemma entry_len_written l m e x :
  ae_ok x -> entries l = wr_data (wr_hdr m e x) e x -> log_entry_len l e = ae_len x.
Proof. intros Hok He. by rewrite entry_len_data, (entry_written l m e x). Qed.

Lemma finish_append l e x m :
  len_ok l -> ae_ok x -> 0 <= end_ l -> end_ l <= len l ->
  entries l = wr_data (wr_hdr m e x) e x ->
  log_finish_append l e =
  mk_log (head l) (apply l) (commit l) (end_ l + ae_len x) (end_ l) (len l)
    (nc_buf l) (entries l).
Proof.
  intros Hlen Hok H0 He Hm. unfold log_finish_append. simpl.
  pose proof (ae_len_range x Hok).
  assert (log_entry_len (set_tail l (end_ l)) e = ae_len x) as ->
    by (by apply (entry_len_written (set_tail l (end_ l)) m)).
  rewrite u64_small by log_lia. done.
Qed.

(** The fixed-size entries and the commands that fit where they are tried. *)
Lemma written_appended l l' e x :
  len_ok l -> ae_ok x -> 0 <= end_ l <= len l ->
  e = append_pos l (ae_len x) ->
  l' = mk_log (head l) (apply l) (commit l) (e + ae_len x) e (len l) (nc_buf l)
         (wr_data (wr_hdr (entries l) e x) e x) ->
  (e <> end_ l -> is_log_empty l = false -> len l < end_ l + ENTRY_SIZE) ->
  appended l l' x.
Proof.
  intros Hlen Hok He Hpos Hl' Hw. pose proof (ae_len_range x Hok).
  rewrite Hl'. split; simpl; rewrite <- ?Hpos; try done.
  - by apply entry_written with (entries l).
  - intros a Ha _. rewrite wr_data_frame, wr_hdr_frame by log_lia. done.
  - intros Hne Hemp. left. simpl. specialize (Hw Hne Hemp). lia.
Qed.

(** A command moved to the start of the buffer leaves its header behind. *)
Lemma stub_appended l l' x n cmd :
  len_ok l -> ae_ok x -> 0 <= end_ l -> end_ l + ENTRY_SIZE <= len l ->
  ae_data x = LD_cmd cmd -> n = Z.of_nat (length cmd) ->
  len l < end_ l + ae_len x -> ae_len x < end_ l ->
  l' = mk_log (head l) (apply l) (commit l) (ae_len x) 0 (len l) (nc_buf l)
         (wr_data (wr_hdr (wr_le 2 (wr_hdr (entries l) (end_ l) x) (end_ l + 32) n)
            0 x) 0 x) ->
  appended l l' x.
Proof.
  intros Hlen Hok He Hfit Hd Hn Hbig Hsmall Hl'. pose proof (ae_len_range x Hok).
  assert (append_pos l (ae_len x) = 0) as Hpos.
  { unfold append_pos. rewrite (proj2 (Z.ltb_lt _ _) Hbig). by rewrite orb_true_r. }
  assert (entry_at l' 0 = x) as Hx.
  { eapply entry_written; [done|]. by rewrite Hl'. }
  assert (forall k o, (k <= 48)%nat -> end_ l <= o -> 
    rd_le k (entries l') o =
    rd_le k (wr_le 2 (wr_hdr (entries l) (end_ l) x) (end_ l + 32) n) o) as Hstub.
  { intros k o Hk Ho. apply rd_le_ext. intros a Ha. rewrite Hl'; simpl entries.
    rewrite wr_data_frame, wr_hdr_frame by log_lia. done. }
  split; rewrite ?Hpos; rewrite ?Hx; try done; try (rewrite Hl'; simpl; done || lia).
  - intros a Ha1 Ha2. rewrite Hl'; simpl.
    rewrite wr_data_frame, wr_hdr_frame, rd_wr_le_out, wr_hdr_frame by log_lia. done.
  - intros _ _. right.
    destruct (hdr_fields (entries l) (end_ l) x Hok) as (Hi & Ht & Hr & Hc & Hty).
    pose proof Hok as [_ _ _ _ _ Hdo]. rewrite Hd in Hdo. simpl in Hdo.
    assert (entry_cmd_len l' 0 = n) as Hcl0.
    { rewrite Hl'. unfold entry_cmd_len, wr_data; simpl. rewrite Hd, <- Hn. mem_simpl. done. }
    assert (entry_cmd_len l' (end_ l) = n) as Hcle.
    { unfold entry_cmd_len. rewrite Hstub by lia. mem_simpl. done. }
    assert (entry_type l' (end_ l) = ae_type x) as Htye.
    { unfold entry_type. rewrite Hstub, rd_le_wr_out by lia. done. }
    assert (entry_type l' 0 = ae_type x) as Hty0 by (by rewrite <- Hx).
    assert (log_entry_len l' (end_ l) = ae_len x) as ->.
    { rewrite <- Hx, <- entry_len_data. unfold log_entry_len.
      by rewrite Htye, Hty0, Hcl0, Hcle. }
    rewrite Hcl0, Hcle, Htye, Hty0. split; [rewrite Hl'; simpl; lia|].
    unfold entry_idx, entry_term, entry_req_id, entry_clt_id.
    rewrite (Hstub 8%nat (end_ l)), (Hstub 8%nat (end_ l + 8)),
      (Hstub 8%nat (end_ l + 16)), (Hstub 2%nat (end_ l + 24)) by lia.
    rewrite !rd_le_wr_out, Hi, Ht, Hr, Hc by lia.
    by rewrite <- Hx.
Qed.

(** Where [log_add_new_entry] puts the header, and the log once it is there. *)
Definition header_pos (l : dare_log_t) : Z :=
  if is_log_empty l || negb (log_fit_entry_header l (end_ l)) then 0 else end_ l.

Definition with_header (l : dare_log_t) (m : mem) : dare_log_t :=
  mk_log (head l) (apply l) (commit l) (header_pos l) (tail l) (len l) (nc_buf l) m.

Lemma header_pos_range l :
  0 <= end_ l <= len l -> 0 <= header_pos l <= len l.
Proof. unfold header_pos. intros. destruct (_ || _); lia. Qed.

Lemma with_header_eq l m :
  len_ok l -> 0 <= end_ l <= len l ->
  (if negb (log_fit_entry_header l (end_ l)) then set_end (set_entries l m) 0
   else set_entries l m) = with_header l m.
Proof.
  intros Hlen He. unfold with_header, header_pos, is_log_empty.
  rewrite fit_header_iff by done.
  repeat zcase; simpl; try done; log_lia.
Qed.

Lemma with_header_appended l m x :
  len_ok l -> ae_ok x -> 0 <= end_ l <= len l ->
  append_pos l (ae_len x) = header_pos l ->
  m = wr_data (wr_hdr (entries l) (header_pos l) x) (header_pos l) x ->
  appended l (log_finish_append (with_header l m) (header_pos l)) x.
Proof.
  intros Hlen Hok He Hpos Hm. pose proof (header_pos_range l He).
  rewrite (finish_append _ _ x (entries l)); auto; try (simpl; lia).
  eapply written_appended with (e := header_pos l); auto.
  - by rewrite <- Hm.
  - unfold header_pos. intros Hne Hemp. rewrite Hemp in Hne. revert Hne. simpl.
    rewrite fit_header_iff by done. zcase; simpl; intros; lia.
Qed.

(** The entries of fixed size. *)
Lemma header_pos_fixed l :
  len_ok l -> 0 <= end_ l <= len l -> append_pos l ENTRY_SIZE = header_pos l.
Proof.
  intros Hlen He. unfold append_pos, header_pos. rewrite fit_header_iff by done.
  destruct (is_log_empty l); [done|]. simpl. repeat zcase; simpl; lia.
Qed.

(** A command that fits after its header, ... *)
Lemma header_pos_fit l n :
  len_ok l -> 0 <= end_ l <= len l -> ENTRY_SIZE <= n ->
  append_fits l n = true -> header_pos l + n <= len l ->
  append_pos l n = header_pos l.
Proof.
  intros Hlen He Hn. unfold append_fits, append_room, append_pos, header_pos.
  rewrite fit_header_iff by done.
  destruct (is_log_empty l); [done|]. simpl. repeat zcase; simpl; lia.
Qed.

(** ... and one that does not: it goes to the start, before [head]. *)
Lemma header_pos_move l n :
  len_ok l -> 0 <= end_ l <= len l -> 0 <= head l <= len l -> ENTRY_SIZE <= n ->
  append_fits l n = true -> len l < header_pos l + n ->
  is_log_empty l = false /\ header_pos l = end_ l /\ end_ l + ENTRY_SIZE <= len l /\
  len l < end_ l + n /\ n < head l /\ head l <= end_ l.
Proof.
  intros Hlen He Hh Hn. unfold append_fits, append_room, header_pos.
  rewrite fit_header_iff by done. unfold is_log_empty.
  repeat zcase; simpl; intros; try done; try log_lia; exfalso; log_lia.
Qed.

Lemma with_header_cmd_len l m x cmd :
  ae_ok x -> ae_data x = LD_cmd cmd ->
  log_entry_len (with_header l (wr_le 2 (wr_hdr m (header_pos l) x)
    (header_pos l + 32) (Z.of_nat (length cmd)))) (header_pos l) = ae_len x.
Proof.
  intros Hok Ex. pose proof (ok_data _ Hok) as Hd. rewrite Ex in Hd.
  destruct Hd as (H1 & H2 & H3 & _ & Hlc).
  destruct (hdr_fields m (header_pos l) x Hok) as (_ & _ & _ & _ & Hty).
  unfold log_entry_len, entry_type, entry_cmd_len, ae_len.
  cbn [entries with_header].
  rewrite (rd_le_wr_out 1), Hty, Ex by lia. rewrite rd_le_wr_same by lia.
  rewrite (proj2 (Z.eqb_neq _ _) H1), (proj2 (Z.eqb_neq _ _) H2),
    (proj2 (Z.eqb_neq _ _) H3). simpl.
  rewrite wrap_small; log_lia.
Qed.

Lemma log_write_cmd_spec l x cmd :
  len_ok l -> ae_ok x -> 0 <= end_ l <= len l -> 0 <= head l <= len l ->
  append_fits l (ae_len x) = true -> ae_data x = LD_cmd cmd ->
  exists l', log_write_cmd (with_header l (wr_hdr (entries l) (header_pos l) x))
               (header_pos l) (ae_idx x) (ae_term x) (ae_req_id x) (ae_clt_id x)
               (ae_type x) cmd = Ok (ae_idx x, l') /\ appended l l' x.
Proof.
  intros Hlen Hok He Hh Hroom Ex. pose proof (ae_len_range x Hok) as Hn.
  pose proof (header_pos_range l He) as Hpr.
  unfold log_write_cmd. cbv zeta.
  set (m := wr_hdr (entries l) (header_pos l) x).
  change (set_entries (with_header l m) ?m') with (with_header l m').
  change (entries (with_header l m)) with m. subst m.
  rewrite fit_entry_iff by (done || simpl; lia).
  rewrite with_header_cmd_len by done. simpl end_. simpl len.
  destruct (Z.leb_spec (header_pos l + ae_len x) (len l)) as [Hf|Hf]; simpl negb; cbn iota.
  - eexists. split; [done|]. apply with_header_appended; auto.
    + apply header_pos_fit; auto; lia.
    + unfold wr_data. by rewrite Ex.
  - destruct (header_pos_move l (ae_len x)) as (Hemp & Hp & Hfit & Hbig & Hsm & Hhe);
      auto; try lia.
    unfold log_add_new_entry, is_log_full, is_log_empty.
    cbn [head end_ len set_end with_header].
    rewrite (proj2 (Z.eqb_neq 0 (head l))), (proj2 (Z.eqb_neq 0 (len l))) by log_lia.
    rewrite fit_header_iff by (done || simpl; log_lia). simpl len.
    rewrite (proj2 (Z.leb_le _ _)) by log_lia. cbn [orb negb].
    eexists. split; [done|].
    rewrite (finish_append _ 0 x
      (wr_le 2 (wr_hdr (entries l) (end_ l) x) (end_ l + 32) (Z.of_nat (length cmd))));
      auto; try (simpl; log_lia).
    + eapply stub_appended; eauto; try lia. simpl. unfold wr_data.
      by rewrite Ex, Hp.
    + simpl. unfold wr_data. by rewrite Ex, Hp.
Qed.

(** Writing an entry where there is room for it. *)
Lemma log_write_spec l x :
  len_ok l -> ae_ok x -> 0 <= end_ l <= len l -> 0 <= head l <= len l ->
  end_ l <> head l -> append_fits l (ae_len x) = true ->
  exists l', log_write_entry l (ae_idx x) (ae_term x) (ae_req_id x) (ae_clt_id x)
               (ae_type x) (ae_data x) = Ok (ae_idx x, l') /\ appended l l' x.
Proof.
  intros Hlen Hok He Hh Hfull Hroom. pose proof (ae_len_range x Hok) as Hn.
  unfold log_write_entry, log_add_new_entry at 1.
  unfold is_log_full at 1. rewrite (proj2 (Z.eqb_neq _ _) Hfull).
  replace (if is_log_empty l || _ then Some 0 else Some (end_ l))
    with (Some (header_pos l)) by (unfold header_pos; by destruct (_ || _)).
  cbv zeta. fold (wr_hdr (entries l) (header_pos l) x).
  change (log_fit_entry_header (set_entries l _) (end_ (set_entries l _)))
    with (log_fit_entry_header l (end_ l)).
  rewrite (with_header_eq l (wr_hdr (entries l) (header_pos l) x) Hlen He).
  pose proof (ok_data _ Hok) as Hd.
  assert (forall m, m = wr_data (wr_hdr (entries l) (header_pos l) x) (header_pos l) x ->
    append_pos l (ae_len x) = header_pos l ->
    exists l', Ok (ae_idx x, log_finish_append (with_header l m) (header_pos l))
               = Ok (ae_idx x, l') /\ appended l l' x) as Hfin.
  { intros m Hm Hpos. eexists. split; [done|]. by apply with_header_appended. }
  destruct (ae_data x) as [|cmd|c|h] eqn:Ex; simpl in Hd.
  - rewrite Hd. simpl. apply Hfin; unfold wr_data, ae_len; rewrite Ex; auto.
    by apply header_pos_fixed.
  - destruct Hd as (H1 & H2 & H3 & Hb & Hlc).
    rewrite (proj2 (Z.eqb_neq (ae_type x) CONFIG) H2),
      (proj2 (Z.eqb_neq (ae_type x) HEAD) H3), (proj2 (Z.eqb_neq (ae_type x) NOOP) H1).
    simpl. by apply log_write_cmd_spec.
  - destruct Hd as [Hd _]. rewrite Hd. simpl.
    apply Hfin; unfold wr_data, ae_len; rewrite Ex; auto.
    by apply header_pos_fixed.
  - destruct Hd as [Hd _]. rewrite Hd. simpl.
    apply Hfin; unfold wr_data, ae_len; rewrite Ex; auto.
    by apply header_pos_fixed.
Qed.

(** ** Appending extends every boundary *)

Lemma wraps_at_frame l l' m :
  len l' = len l ->
  agree (entries l) (entries l') m (m + ENTRY_SIZE) ->
  agree (entries l) (entries l') 0 ENTRY_SIZE ->
  wraps_at l m -> wraps_at l' m.
Proof.
  intros Hl Hm H0. unfold wraps_at. rewrite Hl. intros [H|(H & Hi & Ht & Hr & Hc & Hty & Hcl)];
    [by left|right]. rewrite <- (entry_len_frame l l') by done.
  unfold entry_idx, entry_term, entry_req_id, entry_clt_id, entry_type, entry_cmd_len in *.
  assert (forall n d, 0 <= d -> d + Z.of_nat n <= 48 ->
    rd_le n (entries l') (m + d) = rd_le n (entries l) (m + d) /\
    rd_le n (entries l') (0 + d) = rd_le n (entries l) (0 + d)) as Heq.
  { intros n d H1 H2. split; symmetry;
      [apply (agree_le n _ _ _ _ _ Hm)|apply (agree_le n _ _ _ _ _ H0)]; log_lia. }
  pose proof (Heq 8%nat 0) as E0. rewrite !Z.add_0_r in E0.
  destruct E0 as [-> ->]; [lia..|].
  destruct (Heq 8%nat 8) as [-> ->]; [lia..|]. destruct (Heq 8%nat 16) as [-> ->]; [lia..|].
  destruct (Heq 2%nat 24) as [-> ->]; [lia..|]. destruct (Heq 1%nat 26) as [-> ->]; [lia..|].
  destruct (Heq 2%nat 32) as [-> ->]; [lia..|]. done.
Qed.

Section Append.
Context (l l' : dare_log_t) (es : list aentry) (x : aentry).
Context (Hrep : log_rep l es) (Hok : ae_ok x)
  (Hroom : append_room l (ae_len x) = true) (Happ : appended l l' x).

Lemma rep_not_empty : is_log_empty l = false.
Proof.
  pose proof (live_range _ _ _ (rep_live _ _ Hrep)).
  unfold is_log_empty. apply Z.eqb_neq. lia.
Qed.

(** The two shapes of an append: in place, or at the start of the buffer. *)
Lemma append_cases :
  (append_pos l (ae_len x) = end_ l /\ end_ l' < len l /\
   end_ l' = end_ l + ae_len x /\ (head l <= end_ l \/ end_ l' < head l)) \/
  (append_pos l (ae_len x) = 0 /\ head l <= end_ l /\ end_ l' = ae_len x /\
   ae_len x < head l /\ wraps_at l' (end_ l)).
Proof.
  pose proof (live_range _ _ _ (rep_live _ _ Hrep)).
  pose proof (rep_head _ _ Hrep). pose proof (rep_len _ _ Hrep).
  pose proof (ae_len_range x Hok). pose proof rep_not_empty as Hemp.
  pose proof (app_end _ _ _ Happ) as He. pose proof (app_wrap _ _ _ Happ) as Hw.
  revert Hroom. unfold append_room, append_pos in *. rewrite Hemp in *.
  simpl in *. repeat zcase; simpl in *; intros; try done; try log_lia.
  right. split; [done|]. split; [lia|]. split; [lia|]. split; [lia|].
  apply Hw; [lia|done].
Qed.

Lemma appended_entry : cseg l' (append_pos l (ae_len x)) [x] (end_ l').
Proof.
  simpl. rewrite (app_entry _ _ _ Happ). split; [done|].
  by rewrite entry_len_data, (app_entry _ _ _ Happ), (app_end _ _ _ Happ).
Qed.

Lemma appended_end : 0 <= end_ l' < len l.
Proof.
  pose proof (live_range _ _ _ (rep_live _ _ Hrep)).
  pose proof (rep_head _ _ Hrep). pose proof (rep_len _ _ Hrep).
  pose proof (ae_len_range x Hok). destruct append_cases; log_lia.
Qed.

Lemma append_live_in_place o suf :
  append_pos l (ae_len x) = end_ l -> end_ l' = end_ l + ae_len x ->
  head l <= end_ l \/ end_ l' < head l ->
  in_live l o -> live l o suf -> live l' o (suf ++ [x]).
Proof.
  intros Hp He Hh Hin Hlive. pose proof appended_end as Hend.
  pose proof (ae_len_range x Hok) as Hn.
  pose proof (app_len _ _ _ Happ) as Hlen.
  assert (forall a b, b <= end_ l \/ end_ l' < a ->
    agree (entries l) (entries l') a b) as Hag.
  { intros a b Hab c Hc. apply (app_frame _ _ _ Happ); rewrite ?Hp; log_lia. }
  pose proof appended_entry as Hx. rewrite Hp in Hx.
  destruct Hlive as [es' Ho _ Hs|es1 m es2 Ho Hs Hm Hw Hne Hs2 _].
  - apply live_lin; [done|lia|]. eapply cseg_app; [|exact Hx].
    eapply cseg_frame; [|exact Hs]. apply Hag. lia.
  - assert (end_ l' < o) as Ho'.
    { unfold in_live in Hin. revert Hin. zcase; lia. }
    pose proof (cseg_le _ _ _ _ Hs). pose proof (cseg_le _ _ _ _ Hs2) as Hle2.
    destruct es2 as [|y es2]; [done|]. simpl length in Hle2.
    rewrite <- app_assoc. apply live_wrap with m; try done; try lia.
    + eapply cseg_frame; [|exact Hs]. apply Hag. lia.
    + eapply wraps_at_frame; [done| | |exact Hw]; apply Hag; log_lia.
    + eapply cseg_app; [|exact Hx]. eapply cseg_frame; [|exact Hs2]. apply Hag. lia.
Qed.

Lemma append_live_wrapped o suf :
  append_pos l (ae_len x) = 0 -> head l <= end_ l -> end_ l' = ae_len x ->
  ae_len x < head l -> wraps_at l' (end_ l) ->
  in_live l o -> live l o suf -> live l' o (suf ++ [x]).
Proof.
  intros Hp Hh He Hsm Hw Hin Hlive. pose proof appended_end as Hend.
  pose proof (app_len _ _ _ Happ) as Hlen. pose proof (ae_len_range x Hok) as Hn.
  pose proof appended_entry as Hx. rewrite Hp in Hx.
  unfold in_live in Hin. rewrite (proj2 (Z.leb_le _ _) Hh) in Hin.
  destruct Hlive as [es' Ho Hel Hs|es1 m es2 Ho Hs Hm _ Hne Hs2 _]; [|lia].
  apply live_wrap with (end_ l); try done; try lia.
  eapply cseg_frame; [|exact Hs].
  intros a Ha. apply (app_frame _ _ _ Happ); rewrite ?Hp; log_lia.
Qed.

Lemma append_live o suf :
  in_live l o -> live l o suf -> live l' o (suf ++ [x]).
Proof.
  intros Hin Hlive. destruct append_cases as [(Hp & _ & He & Hh)|(Hp & Hh & He & Hs & Hw)].
  - by apply append_live_in_place.
  - by apply append_live_wrapped.
Qed.

Lemma append_in_live o : in_live l o -> 0 <= o <= len l -> in_live l' o.
Proof.
  pose proof (ae_len_range x Hok) as Hn. pose proof appended_end.
  unfold in_live. rewrite (app_head _ _ _ Happ), (app_len _ _ _ Happ).
  destruct append_cases as [(_ & _ & He & Hh)|(_ & Hh & He & Hs & _)];
    repeat zcase; log_lia.
Qed.

Lemma append_boundary o : boundary l es o -> boundary l' (es ++ [x]) o.
Proof.
  intros (Hin & suf & Hsuf & Hlive). split.
  - apply append_in_live; [done|]. by apply live_offset with suf.
  - exists (suf ++ [x]). split; [|by apply append_live].
    destruct Hsuf as [k ->]. exists k. by rewrite app_assoc.
Qed.

Lemma append_inv : log_inv l es -> log_inv l' (es ++ [x]).
Proof.
  intros [_ Hc Ha _]. pose proof appended_end as Hend.
  pose proof (rep_boundary_head _ _ Hrep) as Hb.
  split.
  - split.
    + unfold len_ok. rewrite (app_len _ _ _ Happ). apply Hrep.
    + by destruct es.
    + rewrite (app_head _ _ _ Happ), (app_len _ _ _ Happ). apply Hrep.
    + rewrite (app_head _ _ _ Happ). apply append_live; [apply Hb|apply Hrep].
  - rewrite (app_commit _ _ _ Happ). by apply append_boundary.
  - rewrite (app_apply _ _ _ Happ). by apply append_boundary.
  - right. exists es, x. split; [done|]. rewrite (app_tail _ _ _ Happ).
    pose proof appended_entry as Hx.
    apply live_lin; [|rewrite (app_len _ _ _ Happ); lia|exact Hx].
    pose proof (live_range _ _ _ (rep_live _ _ Hrep)).
    destruct append_cases as [[-> _]|[-> _]]; lia.
Qed.
End Append.
