(* ===== verification/LogSpec.v ===== *)
(** * What the log promises

    The theorems on dare_log.h that the protocol relies on: appending extends
    the list of entries by one and moves no boundary, NC-buffers list exactly
    the not committed entries, log adjustment finds the end of the common
    prefix, offsets are ordered the way a traversal meets them, and pruning
    drops a prefix.  The last part records the inputs on which the contract
    does not hold: an append that fills the buffer exactly, one that reaches
    [head], and one that fails after the end was moved. *)

From S2P Require Import Prelude Bytes Config Log LogRep LogOps.

Open Scope Z_scope.

(** The entry an append adds after the entry [y]. *)
Definition next_entry (y : aentry) (term req_id clt_id type : Z) (data : log_data)
    : aentry :=
  mk_ae (ae_idx y +64 1) term req_id clt_id type data.

(** ** Append *)

Lemma next_idx_spec l y :
  len_ok l -> live l (tail l) [y] -> log_next_idx l = ae_idx y +64 1.
Proof.
  intros Hlen Hl. destruct (live_step _ _ _ _ Hlen Hl) as [e Hs].
  unfold log_next_idx. by rewrite (step_get _ _ _ _ _ Hs), <- (step_idx _ _ _ _ _ Hs).
Qed.

Lemma rep_ends l es :
  log_rep l es -> 0 <= end_ l <= len l /\ 0 <= head l <= len l /\ end_ l <> head l.
Proof.
  intros [Hlen Hne Hh Hl]. pose proof (live_range _ _ _ Hl).
  pose proof (live_offset _ _ _ Hl). split; [lia|]. split; [lia|].
  destruct Hl as [es Ho He Hs|es1 m es2 Ho _ _ _ _ _ _]; [|lia].
  apply cseg_le in Hs. destruct es; [done|]. simpl length in Hs. lia.
Qed.

(** The prologue of [log_append_entry]: after it the tail is known. *)
Lemma append_prologue fuel l es y :
  log_inv l (es ++ [y]) -> (S (length es) < fuel)%nat ->
  exists t, (if tail l =? len l
             then let! t := log_get_tail fuel l in Ok (set_tail l t)
             else Ok l) = Ok (set_tail l t) /\ live l t [y].
Proof.
  intros Hinv Hf. destruct (log_get_tail_spec fuel l es y Hinv Hf) as (t & Ht & Hl & _).
  exists t. split; [|done].
  destruct (tail l =? len l) eqn:E.
  - by rewrite Ht.
  - unfold log_get_tail in Ht. rewrite E in Ht. simpl in Ht. injection Ht as <-.
    by destruct l.
Qed.

Lemma append_run fuel l prev es y term req_id clt_id type data :
  let x := next_entry y term req_id clt_id type data in
  log_inv l (es ++ [y]) -> ae_ok x -> append_fits l (ae_len x) = true ->
  (S (length es) < fuel)%nat ->
  exists l', log_append_entry fuel l prev term req_id clt_id type data
             = Ok (ae_idx x, l', if type =? HEAD then prev else 0) /\ appended l l' x.
Proof.
  intros x Hinv Hok Hroom Hf.
  destruct (append_prologue fuel l es y Hinv Hf) as (t & Ht & Hlt).
  pose proof (inv_rep _ _ Hinv) as Hrep. pose proof (rep_len _ _ Hrep) as Hlen.
  destruct (rep_ends _ _ Hrep) as (He & Hh & Hne).
  destruct (log_write_spec (set_tail l t) x) as (l' & Hw & Happ); auto.
  exists l'. split; [|by destruct Happ].
  unfold log_append_entry. rewrite Ht. cbn [obind].
  rewrite (next_idx_spec (set_tail l t) y) by (done || by apply (live_same l)).
  unfold x, next_entry in Hw.
  cbn [ae_idx ae_term ae_req_id ae_clt_id ae_type ae_data] in Hw.
  rewrite Hw. cbn [obind]. by destruct (type =? HEAD).
Qed.

(** C1. Appending where there is room: [log_append_entry] returns the index
    after the last entry's, adds exactly the requested entry at the end of the
    list the log holds (wrapping around the buffer when it does not fit),
    leaves [head], [commit], [apply], the length and the NC-buffers alone, and
    every offset that denoted a suffix of the log now denotes that suffix with
    the new entry after it. *)
Theorem log_append_refines fuel l prev es y term req_id clt_id type data :
  let x := next_entry y term req_id clt_id type data in
  log_inv l (es ++ [y]) -> ae_ok x -> append_room l (ae_len x) = true ->
  (S (length es) < fuel)%nat ->
  exists l',
    log_append_entry fuel l prev term req_id clt_id type data
      = Ok (ae_idx x, l', if type =? HEAD then prev else 0) /\
    log_inv l' ((es ++ [y]) ++ [x]) /\
    (head l', commit l', apply l', len l', nc_buf l')
      = (head l, commit l, apply l, len l, nc_buf l) /\
    (forall o suf, in_live l o -> live l o suf -> live l' o (suf ++ [x])).
Proof.
  intros x Hinv Hok Hroom Hf.
  destruct (append_run fuel l prev es y term req_id clt_id type data Hinv Hok
    (room_fits _ _ Hroom) Hf) as (l' & Hrun & Happ).
  exists l'. split; [done|]. pose proof (inv_rep _ _ Hinv) as Hrep.
  split; [by eapply append_inv|]. split.
  - destruct Happ as [-> -> -> -> -> _ _ _ _ _]. done.
  - intros o suf. by eapply append_live.
Qed.

(** The first append to a log that [log_new] created returns index 1 and
    yields the log that holds just that entry, with [head], [commit] and
    [apply] at it. *)
Theorem log_append_first fuel l prev term req_id clt_id type data :
  let x := mk_ae 1 term req_id clt_id type data in
  log_fresh l -> ae_ok x -> append_room l (ae_len x) = true ->
  exists l',
    log_append_entry fuel l prev term req_id clt_id type data
      = Ok (1, l', if type =? HEAD then prev else 0) /\
    log_inv l' [x] /\ head l' = 0 /\ commit l' = 0 /\ apply l' = 0.
Proof.
  intros x [Hlen Hh Hc Ha He Ht] Hok Hroom. pose proof (ae_len_range x Hok) as Hn.
  assert (is_log_empty l = true) as Hemp by (by apply Z.eqb_eq).
  assert (set_tail l (len l) = l) as Hset by (destruct l; simpl in *; by subst).
  assert (append_pos l (ae_len x) = 0) as Hpos by (unfold append_pos; by rewrite Hemp).
  unfold append_room in Hroom. rewrite Hemp in Hroom. apply Z.ltb_lt in Hroom.
  destruct (log_write_spec l x) as (l' & Hw & Happ); auto; try log_lia.
  { apply room_fits. unfold append_room. rewrite Hemp. by apply Z.ltb_lt. }
  exists l'. split.
  { unfold log_append_entry, log_get_tail. rewrite Ht, Z.eqb_refl, Hemp. cbn.
    rewrite Hset. unfold log_next_idx, log_get_entry. rewrite Hemp. cbn.
    unfold x in Hw. cbn in Hw. rewrite Hw. cbn. by destruct (type =? HEAD). }
  pose proof (appended_entry l l' x Happ) as Hx. rewrite Hpos in Hx.
  pose proof (app_end _ _ _ Happ) as He'. rewrite Hpos in He'.
  assert (live l' 0 [x]) as Hl.
  { apply live_lin; [lia| |done]. rewrite (app_len _ _ _ Happ). lia. }
  assert (boundary l' [x] 0) as Hb.
  { split; [|by exists [x]]. unfold in_live. rewrite (app_head _ _ _ Happ), Hh.
    zcase; log_lia. }
  rewrite (app_head _ _ _ Happ), (app_commit _ _ _ Happ), (app_apply _ _ _ Happ).
  split; [|done]. split.
  - split; try done; rewrite ?(app_head _ _ _ Happ), ?Hh; auto.
    + unfold len_ok. by rewrite (app_len _ _ _ Happ).
    + rewrite (app_len _ _ _ Happ). log_lia.
  - by rewrite (app_commit _ _ _ Happ), Hc.
  - by rewrite (app_apply _ _ _ Happ), Ha.
  - right. exists [], x. by rewrite (app_tail _ _ _ Happ), Hpos.
Qed.

(** ** A small log *)

(** Three entries of a 256-byte log whose first one was pruned. *)
Definition small_log (n : Z) : dare_log_t :=
  mk_log 0 0 0 n n n (replicate 13 nc_buf_new) ∅.

Definition append_ok (l : dare_log_t) (term type : Z) (d : log_data) : dare_log_t :=
  match log_append_entry 100 l 0 term 0 0 type d with
  | Ok (_, l', _) => l'
  | _ => l
  end.

Definition demo_log : dare_log_t :=
  append_ok (append_ok (append_ok (small_log 256) 1 CSM (LD_cmd (replicate 52 7)))
    1 NOOP LD_null) 2 CSM (LD_cmd [1; 2; 3]).

Definition demo_pruned : dare_log_t :=
  set_apply (set_commit (set_head demo_log 100) 148) 148.

Definition demo_noop : aentry := mk_ae 2 1 0 0 NOOP LD_null.
Definition demo_cmd : aentry := mk_ae 3 2 0 0 CSM (LD_cmd [1; 2; 3]).

Lemma demo_live : live demo_pruned 100 [demo_noop; demo_cmd].
Proof. apply live_lin; [lia|vm_compute; reflexivity|]. vm_compute. auto. Qed.

Lemma demo_live_cmd : live demo_pruned 148 [demo_cmd].
Proof. apply live_lin; [lia|vm_compute; reflexivity|]. vm_compute. auto. Qed.

Lemma demo_boundary : boundary demo_pruned [demo_noop; demo_cmd] 148.
Proof.
  split; [vm_compute; split; discriminate|].
  exists [demo_cmd]. split; [by exists [demo_noop]|apply demo_live_cmd].
Qed.

Lemma demo_inv : log_inv demo_pruned ([demo_noop] ++ [demo_cmd]).
Proof.
  split; [|apply demo_boundary..|].
  - split; [split; vm_compute; discriminate|done|vm_compute; discriminate|apply demo_live].
  - right. exists [demo_noop], demo_cmd. split; [done|apply demo_live_cmd].
Qed.

Lemma demo_ae_ok idx term c :
  0 <= idx < 100 -> 0 <= term < 100 -> Forall byte_ok c -> (length c < 100)%nat ->
  ae_ok (mk_ae idx term 5 6 CSM (LD_cmd c)).
Proof.
  intros. split; simpl; try lia; unfold CSM, NOOP, CONFIG, HEAD; [lia|].
  repeat split; auto; lia.
Qed.

(** The command of 10 bytes does not fit after offset 199 and goes to 0. *)
Lemma log_append_refines_witness :
  exists l', log_append_entry 10 demo_pruned 1 2 5 6 CSM (LD_cmd (replicate 10 9))
               = Ok (4, l', 0) /\
    log_inv l' (([demo_noop] ++ [demo_cmd])
                ++ [mk_ae 4 2 5 6 CSM (LD_cmd (replicate 10 9))]) /\
    end_ l' = 58.
Proof.
  destruct (log_append_refines 10 demo_pruned 1 [demo_noop] demo_cmd 2 5 6 CSM
    (LD_cmd (replicate 10 9))) as (l' & Hrun & Hinv & _).
  - exact demo_inv.
  - apply demo_ae_ok; [vm_compute; split; congruence|lia| |simpl; lia].
    repeat constructor; lia.
  - reflexivity.
  - simpl. lia.
  - exists l'. split; [exact Hrun|]. split; [exact Hinv|].
    vm_compute in Hrun. injection Hrun as <-. reflexivity.
Defined.

Lemma log_append_first_witness :
  exists l', log_append_entry 10 (small_log 256) 1 3 0 0 NOOP LD_null = Ok (1, l', 0) /\
    log_inv l' [mk_ae 1 3 0 0 NOOP LD_null].
Proof.
  destruct (log_append_first 10 (small_log 256) 1 3 0 0 NOOP LD_null)
    as (l' & Hrun & Hinv & _).
  - split; try reflexivity. vm_compute. split; discriminate.
  - split; simpl; unfold NOOP; lia.
  - reflexivity.
  - exists l'. split; [exact Hrun|exact Hinv].
Defined.

(** ** NC-buffers and log adjustment *)

(** [log_entries_to_nc_buf] terminates and leaves in the buffer one
    determinant (index, term, offset) per not committed entry, in order, each
    with an offset that denotes the suffix starting at its entry, as long as
    there are at most [MAX_NC_ENTRIES] of them. *)
Theorem nc_buf_lists_entries fuel l nc es :
  len_ok l -> live l (commit l) es -> (length es < fuel)%nat ->
  Z.of_nat (length es) <= MAX_NC_ENTRIES ->
  Z.of_nat (length (nc_entries nc)) = MAX_NC_ENTRIES ->
  exists ds, log_entries_to_nc_buf fuel l nc
      = Ok (mk_nc (Z.of_nat (length es)) (ds ++ drop (length es) (nc_entries nc)))
    /\ dets_of l es ds.
Proof.
  intros Hlen Hlive Hf Hmax Hnc. unfold log_entries_to_nc_buf.
  destruct (nc_buf_loop_spec l es Hlen fuel (commit l) 0 (nc_entries nc))
    as (ds & Heq & Hds); auto; try lia.
  exists ds. by rewrite Heq.
Qed.

Lemma nc_buf_lists_entries_witness :
  exists ds, log_entries_to_nc_buf 5 demo_pruned nc_buf_new
      = Ok (mk_nc 1 (ds ++ drop 1 (nc_entries nc_buf_new))) /\
    dets_of demo_pruned [demo_cmd] ds.
Proof.
  apply (nc_buf_lists_entries 5 demo_pruned nc_buf_new [demo_cmd]).
  - split; vm_compute; discriminate.
  - apply demo_live_cmd.
  - simpl. lia.
  - vm_compute. discriminate.
  - vm_compute. reflexivity.
Defined.

Definition same_det (x : aentry) (d : dare_log_entry_det_t) : bool :=
  (ae_idx x =? det_idx d) && (ae_term x =? det_term d).

(** The entries that follow the common prefix of a log suffix and a list of
    determinants. *)
Fixpoint unmatched (es : list aentry) (ds : list dare_log_entry_det_t)
    : list aentry :=
  match es, ds with
  | x :: es', d :: ds' => if same_det x d then unmatched es' ds' else es
  | _, _ => es
  end.

(** Log matching, as far as the common prefix goes: the determinant after a
    common prefix carries the offset of the same position in the local log. *)
Fixpoint matching (l : dare_log_t) (es : list aentry)
    (ds : list dare_log_entry_det_t) {struct ds} : Prop :=
  match ds with
  | [] => True
  | d :: ds' =>
      live l (det_offset d) es /\
      match es with
      | x :: es' => if same_det x d then matching l es' ds' else True
      | [] => True
      end
  end.

Lemma find_end_loop_spec l ds : len_ok l -> forall es o,
  matching l es ds -> (ds = [] -> exists r, o = Some r /\ live l r es) ->
  exists r, find_end_loop l o ds = Ok r /\ live l r (unmatched es ds).
Proof.
  intros Hlen. induction ds as [|d ds IH]; intros es o Hm Ho.
  - destruct Ho as (r & -> & Hr); [done|]. exists r. split; [done|]. by destruct es.
  - destruct Hm as [Hd Hm]. destruct es as [|x es].
    + simpl. rewrite (live_nil _ _ Hd), get_entry_end. eexists. split; [done|].
      apply live_end. pose proof (live_range _ _ _ Hd). lia.
    + destruct (live_step _ _ _ _ Hlen Hd) as [e Hs]. simpl.
      rewrite (step_get _ _ _ _ _ Hs), (step_idx _ _ _ _ _ Hs), (step_term _ _ _ _ _ Hs).
      rewrite <- negb_andb. fold (same_det x d). destruct (same_det x d); simpl.
      * apply IH; [done|]. intros _. eexists. split; [done|]. apply Hs.
      * exists e. split; [done|]. apply Hs.
Qed.

(** Log adjustment: given a remote NC-buffer with at least one determinant
    and log matching on the common prefix, [log_find_remote_end_offset]
    returns an offset that denotes exactly the local entries after the longest
    common prefix, so the remote log is cut right after the last entry both
    have. *)
Theorem find_remote_end_common_prefix l nc es :
  len_ok l -> 0 < nc_len nc <= Z.of_nat (length (nc_entries nc)) ->
  matching l es (take (Z.to_nat (nc_len nc)) (nc_entries nc)) ->
  exists r, log_find_remote_end_offset l nc = Ok r /\
    live l r (unmatched es (take (Z.to_nat (nc_len nc)) (nc_entries nc))).
Proof.
  intros Hlen Hn Hm. unfold log_find_remote_end_offset.
  rewrite (proj2 (Z.ltb_ge _ _)) by lia.
  apply find_end_loop_spec; auto. intros E.
  apply (f_equal length) in E. rewrite length_take in E. simpl in E. lia.
Qed.

(** The remote log has the entry 2 and, as entry 3, one of an older term. *)
Lemma find_remote_end_common_prefix_witness :
  exists r, log_find_remote_end_offset demo_pruned
      (mk_nc 2 [mk_det 2 1 100; mk_det 3 1 148; mk_det 0 0 0]) = Ok r /\
    live demo_pruned r [demo_cmd] /\ r = 148.
Proof.
  destruct (find_remote_end_common_prefix demo_pruned
    (mk_nc 2 [mk_det 2 1 100; mk_det 3 1 148; mk_det 0 0 0]) [demo_noop; demo_cmd])
    as (r & Hr & Hl).
  - split; vm_compute; discriminate.
  - simpl. lia.
  - simpl. split; [exact demo_live|]. split; [exact demo_live_cmd|exact I].
  - exists r. split; [exact Hr|]. split; [exact Hl|].
    vm_compute in Hr. injection Hr as <-. reflexivity.
Defined.

(** ** The order on offsets *)

(** The offset a traversal reaches from [o] after [k] entries. *)
Fixpoint nth_offset (l : dare_log_t) (o : Z) (k : nat) : Z :=
  match k with
  | O => o
  | S k' =>
      match log_get_entry l o with
      | (Some e, o') => nth_offset l (log_advance l o' e) k'
      | (None, _) => o
      end
  end.

Lemma nth_offset_live l : len_ok l -> forall k o es,
  live l o es -> (k <= length es)%nat -> live l (nth_offset l o k) (drop k es).
Proof.
  intros Hlen. induction k as [|k IH]; intros o es Hl Hk; [done|].
  destruct es as [|x es]; simpl in Hk; [lia|].
  destruct (live_step _ _ _ _ Hlen Hl) as [e Hs]. simpl.
  rewrite (step_get _ _ _ _ _ Hs). apply IH; [apply Hs|lia].
Qed.

Lemma nth_offset_distance l : len_ok l -> forall k o es,
  live l o es -> (0 < k <= length es)%nat ->
  log_offset_end_distance l (nth_offset l o k) < log_offset_end_distance l o.
Proof.
  intros Hlen. induction k as [|k IH]; intros o es Hl Hk; [lia|].
  destruct es as [|x es]; simpl in Hk; [lia|].
  destruct (live_step _ _ _ _ Hlen Hl) as [e Hs]. simpl.
  rewrite (step_get _ _ _ _ _ Hs). pose proof (step_dist _ _ _ _ _ Hs).
  pose proof (step_next _ _ _ _ _ Hs) as Hn.
  destruct k as [|k]; [done|]. etrans; [|done].
  apply (IH _ es); [done|lia].
Qed.

Lemma nth_offset_add l i : len_ok l -> forall o j es,
  live l o es -> (i + j <= length es)%nat ->
  nth_offset l (nth_offset l o i) j = nth_offset l o (i + j).
Proof.
  intros Hlen. induction i as [|i IH]; intros o j es Hl Hi; [done|].
  destruct es as [|x es]; simpl in Hi; [lia|].
  destruct (live_step _ _ _ _ Hlen Hl) as [e Hs]. simpl.
  rewrite (step_get _ _ _ _ _ Hs). apply (IH _ _ es); [apply Hs|lia].
Qed.

Lemma nth_offset_decreasing l o es i j :
  len_ok l -> live l o es -> (i < j <= length es)%nat ->
  log_offset_end_distance l (nth_offset l o j)
    < log_offset_end_distance l (nth_offset l o i).
Proof.
  intros Hlen Hl Hij. replace j with (i + (j - i))%nat by lia.
  rewrite <- (nth_offset_add l i Hlen o (j - i) es) by (done || lia).
  apply (nth_offset_distance l Hlen _ _ (drop i es)).
  - apply nth_offset_live; auto; lia.
  - rewrite length_drop. lia.
Qed.

(** C35. [log_is_offset_larger] orders the offsets of a log the way a traversal
    meets them, across the wrap: of the offsets reached after [i] and [j]
    entries the first is larger exactly when [j < i]. *)
Theorem offset_order_is_traversal_order l o es i j :
  len_ok l -> live l o es -> (i <= length es)%nat -> (j <= length es)%nat ->
  log_is_offset_larger l (nth_offset l o i) (nth_offset l o j)
    = bool_decide (j < i)%nat.
Proof.
  intros Hlen Hl Hi Hj. rewrite larger_distance.
  destruct (lt_eq_lt_dec i j) as [[H|E]|H].
  - pose proof (nth_offset_decreasing l o es i j Hlen Hl ltac:(lia)).
    rewrite bool_decide_eq_false_2 by lia. apply Z.ltb_ge. lia.
  - subst j. rewrite bool_decide_eq_false_2 by lia. apply Z.ltb_irrefl.
  - pose proof (nth_offset_decreasing l o es j i Hlen Hl ltac:(lia)).
    rewrite bool_decide_eq_true_2 by lia. apply Z.ltb_lt. lia.
Qed.

Lemma offset_order_is_traversal_order_witness :
  log_is_offset_larger demo_pruned 199 148 = true /\
  log_is_offset_larger demo_pruned
    (nth_offset demo_pruned 100 2) (nth_offset demo_pruned 100 1) = true.
Proof.
  split; [reflexivity|].
  apply (offset_order_is_traversal_order demo_pruned 100 [demo_noop; demo_cmd] 2 1).
  - split; vm_compute; discriminate.
  - exact demo_live.
  - simpl. lia.
  - simpl. lia.
Defined.

(** ** Round trip of log adjustment *)

Lemma dets_matching l es ds :
  dets_of l es ds -> matching l es ds /\ unmatched es ds = [] /\ length ds = length es.
Proof.
  revert ds. induction es as [|x es IH]; intros [|d ds]; simpl; try done.
  intros (Hi & Ht & Hl & Hd). destruct (IH _ Hd) as (Hm & Hu & Hn).
  unfold same_det. rewrite Hi, Ht, !Z.eqb_refl. simpl. auto.
Qed.

(** Adjusting a log against its own NC-buffer changes nothing: building
    the NC-buffer of a log with uncommitted entries and searching the same
    entries for its end gives back the end of the log. *)
Theorem nc_buf_find_end_roundtrip fuel l nc es :
  len_ok l -> live l (commit l) es -> es <> [] -> (length es < fuel)%nat ->
  Z.of_nat (length es) <= MAX_NC_ENTRIES ->
  Z.of_nat (length (nc_entries nc)) = MAX_NC_ENTRIES ->
  (let! nc' := log_entries_to_nc_buf fuel l nc in log_find_remote_end_offset l nc')
    = Ok (end_ l).
Proof.
  intros Hlen Hl Hne Hf Hmax Hnc. unfold log_entries_to_nc_buf.
  destruct (nc_buf_loop_spec l es Hlen fuel (commit l) 0 (nc_entries nc))
    as (ds & -> & Hds); auto; try lia.
  destruct (dets_matching _ _ _ Hds) as (Hm & Hu & Hn). cbn [obind].
  assert (length es <> 0%nat) as H0 by (by destruct es).
  unfold log_find_remote_end_offset. cbn [nc_len nc_entries].
  change (take (Z.to_nat 0) (nc_entries nc)) with (@nil dare_log_entry_det_t).
  rewrite app_nil_l, length_app, length_drop.
  rewrite (proj2 (Z.ltb_ge _ _)), take_app_length' by lia.
  destruct (find_end_loop_spec l ds Hlen es None Hm) as (r & -> & Hr).
  { intros ->. simpl in Hn. lia. }
  rewrite Hu in Hr. by rewrite (live_nil _ _ Hr).
Qed.

Lemma nc_buf_find_end_roundtrip_witness :
  (let! nc' := log_entries_to_nc_buf 5 demo_pruned nc_buf_new in
   log_find_remote_end_offset demo_pruned nc') = Ok 199.
Proof.
  apply (nc_buf_find_end_roundtrip 5 demo_pruned nc_buf_new [demo_cmd]).
  - split; vm_compute; discriminate.
  - apply demo_live_cmd.
  - discriminate.
  - simpl. lia.
  - vm_compute. discriminate.
  - vm_compute. reflexivity.
Defined.

(** ** Pruning *)

(** Offsets closer to the end than a new head are in the pruned log. *)
Lemma distance_in_live l h c :
  len_ok l -> 0 <= end_ l < len l -> 0 <= h <= len l -> 0 <= c <= len l ->
  c = h \/ log_offset_end_distance l c < log_offset_end_distance l h ->
  in_live (set_head l h) c.
Proof.
  intros Hlen He Hh Hc. unfold in_live. simpl.
  rewrite !distance_small by done. intros [-> | Hd]; [zcase; lia|].
  revert Hd. repeat zcase; lia.
Qed.

Lemma boundary_pruned l es k j :
  len_ok l -> live l (head l) es -> (k <= j <= length es)%nat ->
  boundary (set_head l (nth_offset l (head l) k)) (drop k es) (nth_offset l (head l) j).
Proof.
  intros Hlen Hl Hkj. pose proof (live_range _ _ _ Hl) as Hr.
  pose proof (nth_offset_live l Hlen k _ _ Hl ltac:(lia)) as Hk.
  pose proof (nth_offset_live l Hlen j _ _ Hl ltac:(lia)) as Hj.
  split.
  - apply distance_in_live; auto; [lia|by eapply live_offset..|].
    destruct (decide (j = k)) as [->|]; [by left|right].
    apply nth_offset_decreasing with es; auto; lia.
  - exists (drop j es). split; [|by apply (live_same l)].
    replace j with (k + (j - k))%nat by lia. rewrite <- drop_drop.
    apply suffix_drop.
Qed.

(** Pruning: moving [head] forward over [k] entries, not past [commit] or
    [apply] and not over the whole log, leaves a log that holds the remaining
    entries, with every later offset still a boundary. *)
Theorem log_prune_drops_prefix l es k kc ka :
  log_inv l es -> (k < length es)%nat ->
  (k <= kc <= length es)%nat -> commit l = nth_offset l (head l) kc ->
  (k <= ka <= length es)%nat -> apply l = nth_offset l (head l) ka ->
  log_inv (set_head l (nth_offset l (head l) k)) (drop k es).
Proof.
  intros [[Hlen Hne Hh Hl] _ _ Ht] Hk Hkc Hc Hka Ha.
  pose proof (nth_offset_live l Hlen k _ _ Hl ltac:(lia)) as Hlk.
  assert (drop k es <> []) as Hd.
  { intros E. apply (f_equal length) in E. rewrite length_drop in E. simpl in E. lia. }
  split.
  - split; try done; simpl.
    + apply live_offset in Hlk. lia.
    + by apply (live_same l).
  - simpl. rewrite Hc. by apply boundary_pruned.
  - simpl. rewrite Ha. by apply boundary_pruned.
  - simpl. destruct Ht as [Ht|(es0 & x & -> & Hx)]; [by left|right].
    destruct (suffix_snoc (drop k (es0 ++ [x])) es0 x) as [?|[s' Hs']];
      [apply suffix_drop|done|].
    exists s', x. split; [done|]. by apply (live_same l).
Qed.

Lemma log_prune_drops_prefix_witness :
  log_inv (set_head demo_pruned 148) [demo_cmd].
Proof.
  apply (log_prune_drops_prefix demo_pruned ([demo_noop] ++ [demo_cmd]) 1 1 1).
  - exact demo_inv.
  - simpl. lia.
  - simpl. lia.
  - vm_compute. reflexivity.
  - simpl. lia.
  - vm_compute. reflexivity.
Defined.

(** ** Room *)

Lemma room_of_used l n :
  len_ok l -> 0 <= end_ l < len l -> 0 <= head l <= len l -> 0 < n ->
  log_offset_end_distance l (head l) + 2 * n <= len l ->
  end_ l + n <> len l -> append_room l n = true.
Proof.
  intros Hlen He Hh Hn. rewrite distance_small by done. unfold append_room, is_log_empty.
  repeat zcase; simpl; try done; lia.
Qed.

(** ** Where the contract does not hold *)

(** An append that ends exactly at the length of the buffer succeeds and
    leaves a log that its own tests call empty: [end] equals the length, no
    traversal finds an entry any more, and the next index restarts at 1. *)
Theorem log_append_exact_fill fuel l prev es y term req_id clt_id type data :
  let x := next_entry y term req_id clt_id type data in
  log_inv l (es ++ [y]) -> ae_ok x -> end_ l + ae_len x = len l ->
  (S (length es) < fuel)%nat ->
  exists l' prev',
    log_append_entry fuel l prev term req_id clt_id type data
      = Ok (ae_idx x, l', prev') /\
    is_log_empty l' = true /\ (forall o, log_get_entry l' o = (None, o)) /\
    log_next_idx l' = 1.
Proof.
  intros x Hinv Hok Hfill Hf. pose proof (ae_len_range x Hok) as Hn.
  pose proof (inv_rep _ _ Hinv) as Hrep. pose proof (rep_not_empty _ _ Hrep) as Hemp.
  destruct (append_run fuel l prev es y term req_id clt_id type data Hinv Hok)
    as (l' & Hrun & Happ); auto.
  { unfold append_fits. fold x. rewrite Hemp, (proj2 (Z.eqb_eq _ _) Hfill). apply orb_true_r. }
  fold x in Hrun, Happ. assert (is_log_empty l' = true) as Hemp'.
  { apply Z.eqb_eq. rewrite (app_end _ _ _ Happ), (app_len _ _ _ Happ).
    unfold append_pos. rewrite Hemp, (proj2 (Z.ltb_ge _ _)) by lia. done. }
  exists l', (if type =? HEAD then prev else 0). split; [done|]. split; [done|].
  split; [intros o|unfold log_next_idx]; unfold log_get_entry; by rewrite Hemp'.
Qed.

Lemma log_append_exact_fill_witness :
  exists l' prev',
    log_append_entry 10 demo_pruned 1 2 5 6 CSM (LD_cmd (replicate 9 9)) = Ok (4, l', prev') /\
    is_log_empty l' = true /\ log_next_idx l' = 1.
Proof.
  destruct (log_append_exact_fill 10 demo_pruned 1 [demo_noop] demo_cmd 2 5 6 CSM
    (LD_cmd (replicate 9 9))) as (l' & prev' & Hrun & Hemp & _ & Hidx).
  - exact demo_inv.
  - apply demo_ae_ok; [vm_compute; split; congruence|lia| |simpl; lia].
    repeat constructor; lia.
  - reflexivity.
  - simpl. lia.
  - exists l', prev'. split; [exact Hrun|]. split; [exact Hemp|exact Hidx].
Defined.

(** Fullness is tested with the end before the wrap: when no header fits
    between [end] and the end of the buffer and nothing was pruned
    ([head = 0]), appending a fixed-size entry succeeds, overwrites the first
    entry and leaves a log that holds the new entry alone. *)
Theorem log_append_overwrites_head fuel l prev es y term req_id clt_id type data :
  let x := next_entry y term req_id clt_id type data in
  log_inv l (es ++ [y]) -> ae_ok x -> ae_len x = ENTRY_SIZE ->
  head l = 0 -> len l < end_ l + ENTRY_SIZE -> ENTRY_SIZE < len l ->
  (S (length es) < fuel)%nat ->
  exists l' prev',
    log_append_entry fuel l prev term req_id clt_id type data
      = Ok (ae_idx x, l', prev') /\ log_rep l' [x].
Proof.
  intros x Hinv Hok Hlx Hh Hend Hlen Hf.
  pose proof (inv_rep _ _ Hinv) as Hrep. pose proof (rep_len _ _ Hrep) as Hlok.
  destruct (append_run fuel l prev es y term req_id clt_id type data Hinv Hok)
    as (l' & Hrun & Happ); auto.
  { unfold append_fits. fold x. rewrite Hlx, Z.eqb_refl, orb_true_r. done. }
  exists l', (if type =? HEAD then prev else 0). split; [done|].
  fold x in Happ. pose proof (appended_entry l l' x Happ) as Hx.
  pose proof (app_end _ _ _ Happ) as He.
  assert (append_pos l (ae_len x) = 0) as Hpos.
  { unfold append_pos. rewrite Hlx, (proj2 (Z.ltb_lt _ _) Hend). by rewrite orb_true_r. }
  rewrite Hpos in *.
  split; rewrite ?(app_head _ _ _ Happ), ?Hh; auto.
  - unfold len_ok. by rewrite (app_len _ _ _ Happ).
  - rewrite (app_len _ _ _ Happ). log_lia.
  - apply live_lin; [lia| |done]. rewrite (app_len _ _ _ Happ). lia.
Qed.

(** The log of 200 bytes with entries up to offset 199 and [head = 0]. *)
Definition demo_tight : dare_log_t :=
  append_ok (append_ok (append_ok (small_log 200) 1 CSM (LD_cmd (replicate 52 7)))
    1 NOOP LD_null) 2 CSM (LD_cmd [1; 2; 3]).

Lemma demo_tight_inv :
  log_inv demo_tight ([entry_at demo_tight 0; demo_noop] ++ [demo_cmd]).
Proof.
  assert (live demo_tight 0 [entry_at demo_tight 0; demo_noop; demo_cmd]) as Hl.
  { apply live_lin; [lia|vm_compute; reflexivity|]. vm_compute. auto. }
  assert (boundary demo_tight [entry_at demo_tight 0; demo_noop; demo_cmd] 0) as Hb.
  { split; [vm_compute; split; discriminate|]. by eexists. }
  split; [|exact Hb|exact Hb|].
  - split; [split; vm_compute; discriminate|done|vm_compute; discriminate|exact Hl].
  - right. exists [entry_at demo_tight 0; demo_noop], demo_cmd. split; [done|].
    apply live_lin; [vm_compute; discriminate|vm_compute; reflexivity|]. vm_compute. auto.
Qed.

Lemma log_append_overwrites_head_witness :
  exists l' prev', log_append_entry 10 demo_tight 1 2 0 0 NOOP LD_null = Ok (4, l', prev') /\
    log_rep l' [mk_ae 4 2 0 0 NOOP LD_null].
Proof.
  apply (log_append_overwrites_head 10 demo_tight 1 [entry_at demo_tight 0; demo_noop]
    demo_cmd 2 0 0 NOOP LD_null).
  - exact demo_tight_inv.
  - split; simpl; unfold NOOP; try lia. vm_compute. split; congruence.
  - reflexivity.
  - reflexivity.
  - vm_compute. reflexivity.
  - vm_compute. reflexivity.
  - simpl. lia.
Defined.

(** The write of a command that does not fit behind its header when nothing
    was pruned. *)
Lemma write_cmd_fails l x cmd :
  len_ok l -> ae_ok x -> 0 <= end_ l -> end_ l <> len l -> head l = 0 -> 0 < end_ l ->
  ae_data x = LD_cmd cmd -> end_ l + ENTRY_SIZE <= len l -> len l < end_ l + ae_len x ->
  exists l', log_write_entry l (ae_idx x) (ae_term x) (ae_req_id x) (ae_clt_id x)
               (ae_type x) (ae_data x) = Ok (0, l') /\ end_ l' = 0 /\ head l' = 0.
Proof.
  intros Hlen Hok He Hne Hh Hpos Ex Hfit Hbig.
  pose proof (ok_data _ Hok) as Hd. rewrite Ex in Hd. destruct Hd as (H1 & H2 & H3 & _ & _).
  assert (header_pos l = end_ l) as Hhp.
  { unfold header_pos, is_log_empty. rewrite (proj2 (Z.eqb_neq _ _) Hne).
    rewrite fit_header_iff, (proj2 (Z.leb_le _ _)) by (done || log_lia). done. }
  unfold log_write_entry, log_add_new_entry at 1, is_log_full at 1.
  rewrite (proj2 (Z.eqb_neq (end_ l) (head l))) by lia.
  replace (if is_log_empty l || _ then Some 0 else Some (end_ l))
    with (Some (header_pos l)) by (unfold header_pos; by destruct (_ || _)).
  cbv zeta. fold (wr_hdr (entries l) (header_pos l) x).
  change (log_fit_entry_header (set_entries l _) (end_ (set_entries l _)))
    with (log_fit_entry_header l (end_ l)).
  rewrite (with_header_eq l (wr_hdr (entries l) (header_pos l) x)) by (done || log_lia).
  rewrite Ex, (proj2 (Z.eqb_neq (ae_type x) CONFIG) H2),
    (proj2 (Z.eqb_neq (ae_type x) HEAD) H3), (proj2 (Z.eqb_neq (ae_type x) NOOP) H1).
  unfold log_write_cmd. cbv zeta.
  set (m := wr_hdr (entries l) (header_pos l) x).
  change (set_entries (with_header l m) ?m') with (with_header l m').
  change (entries (with_header l m)) with m. subst m.
  rewrite fit_entry_iff by (done || simpl; log_lia). rewrite with_header_cmd_len by done.
  cbn [end_ len with_header]. rewrite Hhp, (proj2 (Z.leb_gt _ _)) by lia. cbn [negb].
  unfold log_add_new_entry, is_log_full. cbn [head end_ set_end with_header].
  rewrite Hh. eexists. split; [done|]. done.
Qed.

(** The other failure of [log_append_entry]: a command that does not fit
    behind its header, with [head = 0], makes the append return 0 (the log is
    full) after [end] was already moved to 0; from then on the log shows no
    entry from [head], although it is not empty. *)
Theorem log_append_failure_hides_log fuel l prev es y term req_id clt_id type cmd :
  let x := next_entry y term req_id clt_id type (LD_cmd cmd) in
  log_inv l (es ++ [y]) -> ae_ok x -> head l = 0 ->
  end_ l + ENTRY_SIZE <= len l -> len l < end_ l + ae_len x ->
  (S (length es) < fuel)%nat ->
  exists l' prev',
    log_append_entry fuel l prev term req_id clt_id type (LD_cmd cmd)
      = Ok (0, l', prev') /\
    end_ l' = 0 /\ log_get_entry l' (head l') = (None, head l').
Proof.
  intros x Hinv Hok Hh Hfit Hbig Hf.
  destruct (append_prologue fuel l es y Hinv Hf) as (t & Ht & Hlt).
  pose proof (inv_rep _ _ Hinv) as Hrep. pose proof (rep_len _ _ Hrep) as Hlen.
  destruct (rep_ends _ _ Hrep) as (He & _ & Hne).
  destruct (write_cmd_fails (set_tail l t) x cmd) as (l' & Hw & He' & Hh'); auto;
    simpl; try log_lia.
  exists l', (if type =? HEAD then prev else 0). split.
  - unfold log_append_entry. rewrite Ht. cbn [obind].
    rewrite (next_idx_spec (set_tail l t) y) by (done || by apply (live_same l)).
    unfold x, next_entry in Hw.
    cbn [ae_idx ae_term ae_req_id ae_clt_id ae_type ae_data] in Hw.
    rewrite Hw. cbn [obind]. by destruct (type =? HEAD).
  - split; [done|]. rewrite Hh', <- He'. apply get_entry_end.
Qed.

Lemma log_append_failure_hides_log_witness :
  exists l' prev',
    log_append_entry 10 demo_log 1 2 5 6 CSM (LD_cmd (replicate 60 9))
      = Ok (0, l', prev') /\
    end_ l' = 0 /\ log_get_entry l' (head l') = (None, head l').
Proof.
  apply (log_append_failure_hides_log 10 demo_log 1
    [entry_at demo_log 0; demo_noop] demo_cmd 2 5 6 CSM (replicate 60 9)).
  - assert (live demo_log 0 [entry_at demo_log 0; demo_noop; demo_cmd]) as Hl.
    { apply live_lin; [lia|vm_compute; reflexivity|]. vm_compute. auto. }
    assert (boundary demo_log [entry_at demo_log 0; demo_noop; demo_cmd] 0) as Hb.
    { split; [vm_compute; split; discriminate|]. by eexists. }
    split; [|exact Hb|exact Hb|].
    + split; [split; vm_compute; discriminate|done|vm_compute; discriminate|exact Hl].
    + right. exists [entry_at demo_log 0; demo_noop], demo_cmd. split; [done|].
      apply live_lin; [vm_compute; discriminate|vm_compute; reflexivity|]. vm_compute. auto.
  - apply demo_ae_ok; [vm_compute; split; congruence|lia| |simpl; lia].
    repeat constructor; lia.
  - reflexivity.
  - vm_compute. discriminate.
  - vm_compute. reflexivity.
  - simpl. lia.
Defined.

Lemma nc_loop_overflow l es : len_ok l -> forall fuel o n nc,
  live l o es -> (length es < fuel)%nat -> 0 <= n <= Z.of_nat (length nc) ->
  Z.of_nat (length nc) < n + Z.of_nat (length es) ->
  nc_buf_loop fuel l o n nc = Undef.
Proof.
  intros Hlen. induction es as [|x es IH]; intros [|fuel] o n nc Hlive Hf Hn Hnc;
    simpl in Hf, Hnc; try lia.
  destruct (live_step l o x es Hlen Hlive) as [e Hs]. simpl nc_buf_loop.
  rewrite (step_get _ _ _ _ _ Hs).
  destruct (Z.eq_dec n (Z.of_nat (length nc))) as [->|].
  - rewrite aset_None by lia. done.
  - rewrite aset_Some by lia. cbn [or_undef obind].
    apply IH; [apply Hs|lia|rewrite length_insert; lia|rewrite length_insert; lia].
Qed.

(** [log_entries_to_nc_buf] does not check the size of the buffer: with
    more than [MAX_NC_ENTRIES] not committed entries it stores past its end. *)
Theorem nc_buf_overflow fuel l nc es :
  len_ok l -> live l (commit l) es -> (length es < fuel)%nat ->
  MAX_NC_ENTRIES < Z.of_nat (length es) ->
  Z.of_nat (length (nc_entries nc)) = MAX_NC_ENTRIES ->
  log_entries_to_nc_buf fuel l nc = Undef.
Proof.
  intros Hlen Hl Hf Hmax Hnc. apply nc_loop_overflow with es; auto; lia.
Qed.

(** A log with [n] NOOP entries. *)
Fixpoint noop_log (n : nat) : dare_log_t :=
  match n with
  | O => small_log 60000
  | S n' => append_ok (noop_log n') 1 NOOP LD_null
  end.

Fixpoint read_seg (n : nat) (l : dare_log_t) (a : Z) : list aentry :=
  match n with
  | O => []
  | S n' => entry_at l a :: read_seg n' l (a + log_entry_len l a)
  end.

Fixpoint seg_end (n : nat) (l : dare_log_t) (a : Z) : Z :=
  match n with
  | O => a
  | S n' => seg_end n' l (a + log_entry_len l a)
  end.

Lemma read_seg_cseg n l a : cseg l a (read_seg n l a) (seg_end n l a).
Proof. revert a. induction n as [|n IH]; intros a; simpl; [done|]. auto. Qed.

Lemma length_read_seg n l a : length (read_seg n l a) = n.
Proof. revert a. induction n as [|n IH]; intros a; simpl; auto. Qed.

Lemma read_seg_live n l a :
  0 <= a -> (end_ l <? len l) = true -> (seg_end n l a =? end_ l) = true ->
  live l a (read_seg n l a).
Proof.
  intros Ha Hl%Z.ltb_lt He%Z.eqb_eq. apply live_lin; auto.
  rewrite <- He. apply read_seg_cseg.
Qed.

Lemma nc_buf_overflow_witness :
  log_entries_to_nc_buf 2000 (noop_log 1025) nc_buf_new = Undef.
Proof.
  apply (nc_buf_overflow 2000 (noop_log 1025) nc_buf_new (read_seg 1025 (noop_log 1025) 0)).
  - vm_compute. split; discriminate.
  - assert (commit (noop_log 1025) = 0) as -> by (vm_compute; reflexivity).
    apply read_seg_live; [lia|vm_compute; reflexivity|vm_compute; reflexivity].
  - rewrite length_read_seg. apply (Nat.ltb_lt 1025 2000). reflexivity.
  - rewrite length_read_seg. reflexivity.
  - vm_compute. reflexivity.
Defined.
