(* ===== verification/Kvs.v ===== *)
(** * The key-value store (dare_kvs_sm.c)

    The state machine behind the log: a table of buckets of entries, whose
    keys are 64-byte arrays holding C strings.  Every operation is here, with
    the results of [malloc] and [realloc] as arguments.  The second half shows
    that the table implements a finite map from C strings to byte strings and
    that the counter [kvs_size] is the size of a snapshot of it. *)

From S2P Require Import Prelude Bytes.

Open Scope Z_scope.

(** ** Data *)

Definition DEFAULT_KVS_SIZE : Z := 1024.
Definition KEY_SIZE : Z := 64.
Definition KVS_PUT : Z := 1.
Definition KVS_GET : Z := 2.
Definition KVS_RM : Z := 3.

(** sizeof(kvs_snapshot_entry_t): a two-byte length and the key. *)
Definition SNAPSHOT_ENTRY_SIZE : Z := 66.

(** The value of an entry; [None] is a null data pointer. *)
Record kvs_blob_t := mk_blob {
  blob_len : Z;
  blob_data : option (list Z)
}.

Record kvs_entry_t := mk_kentry {
  key : list Z;
  blob : kvs_blob_t
}.

(** The table, its size and the global [kvs_size]. *)
Record kvs_table_t := mk_table {
  size : Z;
  table : list (list kvs_entry_t);
  kvs_size : Z
}.

Definition set_table (t : kvs_table_t) (x : list (list kvs_entry_t)) : kvs_table_t :=
  mk_table (size t) x (kvs_size t).
Definition set_kvs_size (t : kvs_table_t) (x : Z) : kvs_table_t :=
  mk_table (size t) (table t) x.

(** ** Creating the store *)

Definition create_kvs_table (t : kvs_table_t) (malloc_ok : bool) : Z * kvs_table_t :=
  if negb malloc_ok then (1, t)
  else (0, set_table t (replicate (Z.to_nat (size t)) [])).

(** [ks] is the value of the global before the call, which the call keeps. *)
Definition create_kvs_sm (sz ks : Z) (sm_ok table_ok : bool) : option kvs_table_t :=
  let sz := if sz =? 0 then DEFAULT_KVS_SIZE else sz in
  if negb sm_ok then None
  else
    let (rc, t) := create_kvs_table (mk_table sz [] ks) table_ok in
    if negb (rc =? 0) then None else Some t.

(** ** C strings *)

(** [*key] as a signed [char]. *)
Definition schar (b : Z) : Z := if b <? 128 then b else b - 256.

(** The loop of [hash]; running over the end of the key is undefined. *)
Fixpoint hash_loop (hashval : Z) (k : list Z) : outcome Z :=
  match k with
  | [] => Undef
  | b :: k' =>
      if b =? 0 then Ok hashval
      else hash_loop (u32 (schar b + u32 (Z.shiftl hashval 5) - hashval)) k'
  end.

Definition hash (t : kvs_table_t) (k : list Z) : outcome Z :=
  let! h := hash_loop 0 k in
  if size t =? 0 then Undef else Ok (h mod size t).

(** [strcmp(a, b) == 0] *)
Fixpoint strcmp_eq (a b : list Z) : outcome bool :=
  match a, b with
  | x :: a', y :: b' =>
      if x =? y then (if x =? 0 then Ok true else strcmp_eq a' b') else Ok false
  | _, _ => Undef
  end.

(** ** Lookup *)

(** The loop over a bucket: the position of the entry. *)
Fixpoint lookup_loop (k : list Z) (b : list kvs_entry_t) (i : Z) : outcome (option Z) :=
  match b with
  | [] => Ok None
  | e :: b' =>
      let! r := strcmp_eq k (key e) in
      if r then Ok (Some i) else lookup_loop k b' (i + 1)
  end.

(** The entry found is named by its bucket and its position there. *)
Definition lookup_key (t : kvs_table_t) (k : list Z) : outcome (option (Z * Z)) :=
  let! h := hash t k in
  let! b := or_undef (aget (table t) h) in
  let! r := lookup_loop k b 0 in
  Ok (match r with Some i => Some (h, i) | None => None end).

Definition kvs_entry_at (t : kvs_table_t) (h i : Z) : outcome kvs_entry_t :=
  let! b := or_undef (aget (table t) h) in or_undef (aget b i).

Definition set_kvs_entry (t : kvs_table_t) (h i : Z) (e : kvs_entry_t)
    : outcome kvs_table_t :=
  let! b := or_undef (aget (table t) h) in
  let! b := or_undef (aset b i e) in
  let! x := or_undef (aset (table t) h b) in
  Ok (set_table t x).

(** ** Remove *)

(** The entry unlinked from a bucket, if any, and the rest. *)
Fixpoint remove_loop (k : list Z) (b : list kvs_entry_t)
    : outcome (option kvs_entry_t * list kvs_entry_t) :=
  match b with
  | [] => Ok (None, [])
  | e :: b' =>
      let! r := strcmp_eq k (key e) in
      if r then Ok (Some e, b')
      else let! (x, b'') := remove_loop k b' in Ok (x, e :: b'')
  end.

Definition remove_key (t : kvs_table_t) (k : list Z) : outcome kvs_table_t :=
  let! h := hash t k in
  let! b := or_undef (aget (table t) h) in
  let! (x, b) := remove_loop k b in
  match x with
  | None => Ok t
  | Some e =>
      let! tb := or_undef (aset (table t) h b) in
      Ok (set_kvs_size (set_table t tb)
            (u32 (kvs_size t - SNAPSHOT_ENTRY_SIZE - blob_len (blob e))))
  end.

(** ** Write *)

(** memcpy into an allocation. *)
Definition blob_copy (p : option (list Z)) (v : list Z) : outcome (list Z) :=
  match p with
  | None => Undef
  | Some d => if (length d <? length v)%nat then Undef else Ok (v ++ drop (length v) d)
  end.

(** [list_ok] and [blob_ok] are the results of the allocations ([realloc]
    when the key exists).  The first component is the return code. *)
Definition write_key (t : kvs_table_t) (k v : list Z) (list_ok blob_ok : bool)
    : outcome (Z * kvs_table_t) :=
  let n := Z.of_nat (length v) in
  let! r := lookup_key t k in
  match r with
  | Some (h, i) =>
      let! e := kvs_entry_at t h i in
      if negb (blob_len (blob e) =? n) then
        let t := set_kvs_size t (u32 (kvs_size t + (n - blob_len (blob e)))) in
        if negb blob_ok then
          let! t := set_kvs_entry t h i (mk_kentry (key e) (mk_blob n None)) in
          Ok (1, t)
        else
          let! t := set_kvs_entry t h i (mk_kentry (key e) (mk_blob n (Some v))) in
          Ok (0, t)
      else
        let! d := blob_copy (blob_data (blob e)) v in
        let! t := set_kvs_entry t h i (mk_kentry (key e) (mk_blob n (Some d))) in
        Ok (0, t)
  | None =>
      let! h := hash t k in
      if negb list_ok then Ok (1, t)
      else
        let t := set_kvs_size t (u32 (kvs_size t + (SNAPSHOT_ENTRY_SIZE + n))) in
        if negb blob_ok then Ok (1, t)
        else
          let! b := or_undef (aget (table t) h) in
          let! tb := or_undef (aset (table t) h (mk_kentry k (mk_blob n (Some v)) :: b)) in
          Ok (0, set_table t tb)
  end.

(** ** Commands *)

(** The layout of [kvs_cmd_t]: type, key, length, data. *)
Definition cmd_type (c : list Z) : outcome Z := or_undef (c !! 0%nat).
Definition cmd_key (c : list Z) : outcome (list Z) :=
  if (length c <? 65)%nat then Undef else Ok (take 64 (drop 1 c)).
Definition cmd_value (c : list Z) : outcome (list Z) :=
  if (length c <? 68)%nat then Undef
  else
    let n := Z.to_nat (le_combine (take 2 (drop 66 c))) in
    if (length (drop 68 c) <? n)%nat then Undef else Ok (take n (drop 68 c)).

(** The return code, the store and, for a GET, the answer. *)
Definition apply_kvs_cmd (sm : option kvs_table_t) (c : option (list Z))
    (list_ok blob_ok : bool)
    : outcome (Z * option kvs_table_t * option (list Z)) :=
  match sm, c with
  | None, _ => Ok (1, sm, None)
  | _, None => Ok (1, sm, None)
  | Some t, Some c =>
      let! ty := cmd_type c in
      if ty =? KVS_PUT then
        let! k := cmd_key c in
        let! v := cmd_value c in
        let! (rc, t) := write_key t k v list_ok blob_ok in
        if negb (rc =? 0) then Ok (1, Some t, None) else Ok (0, Some t, None)
      else if ty =? KVS_GET then
        let! k := cmd_key c in
        let! r := lookup_key t k in
        match r with
        | None => Ok (0, sm, Some [])
        | Some (h, i) =>
            let! e := kvs_entry_at t h i in
            let n := Z.to_nat (blob_len (blob e)) in
            match blob_data (blob e) with
            | Some d => if (length d <? n)%nat then Undef else Ok (0, sm, Some (take n d))
            | None => if (0 <? n)%nat then Undef else Ok (0, sm, Some [])
            end
        end
      else if ty =? KVS_RM then
        let! k := cmd_key c in
        let! t := remove_key t k in Ok (0, Some t, None)
      else Ok (1, sm, None)
  end.

(** ** Destroying the store *)

(** What [destroy_kvs_sm] frees, in order. *)
Inductive freed :=
| F_blob (h i : Z)
| F_node (h i : Z)
| F_table
| F_sm.

Fixpoint destroy_bucket (h i : Z) (b : list kvs_entry_t) : list freed :=
  match b with
  | [] => []
  | e :: b' =>
      (match blob_data (blob e) with Some _ => [F_blob h i] | None => [] end)
      ++ F_node h i :: destroy_bucket h (i + 1) b'
  end.

Fixpoint destroy_loop (h : Z) (bs : list (list kvs_entry_t)) : list freed :=
  match bs with
  | [] => []
  | b :: bs' => destroy_bucket h 0 b ++ destroy_loop (h + 1) bs'
  end.

Definition destroy_kvs_sm (sm : option kvs_table_t) : list freed :=
  match sm with
  | None => []
  | Some t => destroy_loop 0 (table t) ++ [F_table; F_sm]
  end.

(** ** Abstraction *)

(** The C string at the start of an array. *)
Fixpoint cstr (k : list Z) : option (list Z) :=
  match k with
  | [] => None
  | b :: k' => if b =? 0 then Some [] else (b ::.) <$> cstr k'
  end.

Fixpoint hash_str (h : Z) (s : list Z) : Z :=
  match s with
  | [] => h
  | b :: s' => hash_str (u32 (schar b + u32 (Z.shiftl h 5) - h)) s'
  end.

Definition bucket_of (t : kvs_table_t) (s : list Z) : nat :=
  Z.to_nat (hash_str 0 s mod size t).

Fixpoint bucket_lookup (s : list Z) (b : list kvs_entry_t) : option (list Z) :=
  match b with
  | [] => None
  | e :: b' => if decide (cstr (key e) = Some s) then blob_data (blob e)
               else bucket_lookup s b'
  end.

Fixpoint bucket_bytes (b : list kvs_entry_t) : Z :=
  match b with
  | [] => 0
  | e :: b' => SNAPSHOT_ENTRY_SIZE + blob_len (blob e) + bucket_bytes b'
  end.

Fixpoint table_bytes (bs : list (list kvs_entry_t)) : Z :=
  match bs with
  | [] => 0
  | b :: bs' => bucket_bytes b + table_bytes bs'
  end.

Definition entry_wf (t : kvs_table_t) (i : nat) (e : kvs_entry_t) : Prop :=
  exists s d, cstr (key e) = Some s /\ bucket_of t s = i /\
    blob_data (blob e) = Some d /\ blob_len (blob e) = Z.of_nat (length d).

Record bucket_wf (t : kvs_table_t) (i : nat) (b : list kvs_entry_t) : Prop := {
  bwf_entries : Forall (entry_wf t i) b;
  bwf_nodup : NoDup (cstr ∘ key <$> b)
}.

Record kvs_wf (t : kvs_table_t) : Prop := {
  kwf_size : 0 < size t;
  kwf_len : Z.of_nat (length (table t)) = size t;
  kwf_buckets : forall i b, table t !! i = Some b -> bucket_wf t i b;
  kwf_bytes : kvs_size t = u32 (table_bytes (table t))
}.

Definition kvs_lookup (t : kvs_table_t) (s : list Z) : option (list Z) :=
  b ← table t !! bucket_of t s; bucket_lookup s b.

(** The store [t] holds the map [m]. *)
Record kvs_rep (t : kvs_table_t) (m : gmap (list Z) (list Z)) : Prop := {
  krep_wf : kvs_wf t;
  krep_map : forall s, m !! s = kvs_lookup t s
}.

(** ** C strings *)

Lemma cstr_inv b k s :
  cstr (b :: k) = Some s ->
  (b = 0 /\ s = []) \/ (b <> 0 /\ exists s', s = b :: s' /\ cstr k = Some s').
Proof.
  simpl. zcase; [intros [= <-]; auto|].
  destruct (cstr k) as [s'|]; simpl; [|done]. intros [= <-]. eauto.
Qed.

Lemma hash_loop_str k : forall h s, cstr k = Some s -> hash_loop h k = Ok (hash_str h s).
Proof.
  induction k as [|b k IH]; intros h s Hs; [done|].
  apply cstr_inv in Hs as [[-> ->]|(Hb & s' & -> & Hs)]; [done|].
  simpl. rewrite (proj2 (Z.eqb_neq b 0) Hb). by apply IH.
Qed.

Lemma strcmp_str a : forall b s r, cstr a = Some s -> cstr b = Some r ->
  strcmp_eq a b = Ok (bool_decide (s = r)).
Proof.
  induction a as [|x a IH]; intros [|y b] s r Ha Hb; try done.
  apply cstr_inv in Ha as [[-> ->]|(Hx & s' & -> & Ha)];
    apply cstr_inv in Hb as [[-> ->]|(Hy & r' & -> & Hb)]; cbn [strcmp_eq].
  - done.
  - rewrite (proj2 (Z.eqb_neq 0 y)) by lia. done.
  - rewrite (proj2 (Z.eqb_neq x 0)) by lia. done.
  - zcase.
    + subst y. rewrite (proj2 (Z.eqb_neq x 0)) by done. rewrite (IH b s' r') by done.
      f_equal. apply bool_decide_ext. split; [by intros ->|by intros [=]].
    + rewrite bool_decide_eq_false_2; [done|]. by intros [=].
Qed.

Lemma hash_spec t k s :
  0 < size t -> cstr k = Some s -> hash t k = Ok (Z.of_nat (bucket_of t s)).
Proof.
  intros Hsz Hs. unfold hash, bucket_of. rewrite (hash_loop_str k 0 s Hs). cbn [obind].
  rewrite (proj2 (Z.eqb_neq (size t) 0)) by lia.
  pose proof (Z.mod_pos_bound (hash_str 0 s) (size t) Hsz). by rewrite Z2Nat.id by lia.
Qed.

(** ** Buckets *)

Lemma aget_nat {A} (l : list A) (i : nat) : aget l (Z.of_nat i) = l !! i.
Proof. unfold aget. rewrite (proj2 (Z.leb_le 0 _)) by lia. by rewrite Nat2Z.id. Qed.

Lemma aset_nat {A} (l : list A) (i : nat) x :
  (i < length l)%nat -> aset l (Z.of_nat i) x = Some (<[i := x]> l).
Proof. intros. rewrite aset_Some by lia. by rewrite Nat2Z.id. Qed.

Section Bucket.
Context (t : kvs_table_t) (n : nat).

(** Searching a bucket for a C string. *)
Lemma lookup_loop_spec k s b : cstr k = Some s -> Forall (entry_wf t n) b -> forall i,
  (lookup_loop k b i = Ok None /\ bucket_lookup s b = None /\
   Forall (fun e => cstr (key e) <> Some s) b) \/
  (exists j e, lookup_loop k b i = Ok (Some (i + Z.of_nat j)) /\ b !! j = Some e /\
     cstr (key e) = Some s /\ bucket_lookup s b = blob_data (blob e)).
Proof.
  intros Hk. induction b as [|e b IH]; intros Hb i; [left; by repeat split|].
  apply Forall_cons_1 in Hb as [(r & d & Hr & _) Hb]. simpl.
  rewrite (strcmp_str k (key e) s r Hk Hr). cbn [obind].
  case_bool_decide as Hsr.
  - subst r. right. exists 0%nat, e. rewrite Z.add_0_r, decide_True by done. auto.
  - rewrite decide_False by congruence.
    destruct (IH Hb (i + 1)) as [(-> & Hn & Hf)|(j & e' & -> & Hj & Hke & Hl)].
    + left. repeat split; auto. constructor; [congruence|done].
    + right. exists (S j), e'. split; [do 2 f_equal; lia|]. auto.
Qed.

Lemma bucket_lookup_insert b : forall j e e' s,
  NoDup (cstr ∘ key <$> b) -> b !! j = Some e -> cstr (key e) = Some s ->
  key e' = key e -> forall s',
  bucket_lookup s' (<[j := e']> b) =
  if decide (s' = s) then blob_data (blob e') else bucket_lookup s' b.
Proof.
  induction b as [|e0 b IH]; intros [|j] e e' s Hnd Hj Hs Hk s'; try done.
  - injection Hj as ->. simpl. rewrite Hk, Hs. repeat case_decide; congruence.
  - simpl in Hj. rewrite fmap_cons in Hnd. apply NoDup_cons in Hnd as [Hni Hnd].
    simpl. rewrite (IH j e e' s) by done.
    destruct (decide (cstr (key e0) = Some s')) as [E|E]; [|done].
    rewrite decide_False; [done|]. intros ->. apply Hni. apply list_elem_of_fmap.
    exists e. split; [simpl; congruence|]. by eapply list_elem_of_lookup_2.
Qed.

Lemma bucket_bytes_insert b : forall j e e',
  b !! j = Some e ->
  bucket_bytes (<[j := e']> b) =
  bucket_bytes b + blob_len (blob e') - blob_len (blob e).
Proof.
  induction b as [|e0 b IH]; intros [|j] e e' Hj; try done; simpl in *.
  - injection Hj as ->. lia.
  - rewrite (IH j e e') by done. lia.
Qed.

(** Unlinking the entry of a C string. *)
Lemma remove_loop_spec k s b : cstr k = Some s -> bucket_wf t n b ->
  exists x b', remove_loop k b = Ok (x, b') /\
    match x with
    | None => b' = b /\ bucket_lookup s b = None
    | Some e => b ≡ₚ e :: b' /\
                bucket_bytes b = SNAPSHOT_ENTRY_SIZE + blob_len (blob e) + bucket_bytes b' /\
                forall s', bucket_lookup s' b' =
                           if decide (s' = s) then None else bucket_lookup s' b
    end.
Proof.
  intros Hk. induction b as [|e b IH]; intros [Hf Hnd].
  { exists None, []. by repeat split. }
  apply Forall_cons_1 in Hf as [(r & d & Hr & _) Hf].
  rewrite fmap_cons in Hnd. apply NoDup_cons in Hnd as [Hni Hnd]. simpl in Hni. simpl.
  rewrite (strcmp_str k (key e) s r Hk Hr). cbn [obind]. case_bool_decide as Hsr.
  - subst r. exists (Some e), b. split; [done|]. split; [done|]. split; [done|].
    intros s'. case_decide as Hs'.
    + subst s'. destruct (lookup_loop_spec k s b Hk Hf 0) as [(_ & ? & _)|(j & e' & _ & Hj & He' & _)];
        [done|]. destruct Hni. apply list_elem_of_fmap. exists e'.
      split; [simpl; congruence|]. by eapply list_elem_of_lookup_2.
    + rewrite decide_False; congruence.
  - destruct IH as (x & b' & -> & Hx); [by split|]. cbn [obind].
    exists x, (e :: b'). split; [done|]. rewrite (decide_False (P := cstr (key e) = Some s)) by congruence.
    destruct x as [e'|]; [|by destruct Hx as [-> ->]].
    destruct Hx as (Hp & Hby & Hl). split; [rewrite Hp; apply Permutation_swap|].
    split; [simpl; lia|]. intros s'. simpl. rewrite Hl. repeat case_decide; congruence.
Qed.
End Bucket.

(** ** Replacing a bucket *)

Lemma u32_add_l a d : u32 (u32 a + d) = u32 (a + d).
Proof. apply Zplus_mod_idemp_l. Qed.

Lemma table_bytes_insert bs : forall i b b',
  bs !! i = Some b ->
  table_bytes (<[i := b']> bs) = table_bytes bs + bucket_bytes b' - bucket_bytes b.
Proof.
  induction bs as [|b0 bs IH]; intros [|i] b b' Hi; try done; simpl in *.
  - injection Hi as ->. lia.
  - rewrite (IH i b b') by done. lia.
Qed.

Lemma bucket_wf_size t t' i b : size t' = size t -> bucket_wf t i b -> bucket_wf t' i b.
Proof.
  intros Hs [Hf Hn]. split; [|done]. eapply Forall_impl; [exact Hf|].
  intros e (s & d & H). exists s, d. unfold bucket_of in *. by rewrite Hs.
Qed.

(** The store [t] with bucket [i] replaced and [kvs_size] adjusted by [d]. *)
Definition replace_bucket (t : kvs_table_t) (i : nat) (b : list kvs_entry_t) (d : Z)
    : kvs_table_t :=
  mk_table (size t) (<[i := b]> (table t)) (u32 (kvs_size t + d)).

Lemma replace_bucket_wf t i b b' d :
  kvs_wf t -> table t !! i = Some b -> bucket_wf t i b' ->
  d = bucket_bytes b' - bucket_bytes b -> kvs_wf (replace_bucket t i b' d).
Proof.
  intros [Hs Hl Hb Hk] Hi Hw ->. split; simpl; auto.
  - by rewrite length_insert.
  - intros j c. destruct (decide (j = i)) as [->|Hne].
    + rewrite list_lookup_insert_eq by (by eapply lookup_lt_Some).
      intros [= <-]. by apply (bucket_wf_size t).
    + rewrite list_lookup_insert_ne by done. intros Hj.
      apply (bucket_wf_size t); auto.
  - rewrite (table_bytes_insert _ _ b) by done. rewrite Hk, u32_add_l. f_equal. lia.
Qed.

Lemma replace_bucket_lookup t i b b' d s :
  table t !! i = Some b ->
  kvs_lookup (replace_bucket t i b' d) s =
  if decide (bucket_of t s = i) then bucket_lookup s b' else kvs_lookup t s.
Proof.
  intros Hi. unfold kvs_lookup, replace_bucket; simpl.
  change (bucket_of _ s) with (bucket_of t s). case_decide as E.
  - rewrite E, list_lookup_insert_eq by (by eapply lookup_lt_Some). done.
  - by rewrite list_lookup_insert_ne.
Qed.

(** A bucket in which only the string [s] of that bucket changed. *)
Lemma replace_bucket_rep t m s b b' d x :
  kvs_rep t m -> table t !! bucket_of t s = Some b -> bucket_wf t (bucket_of t s) b' ->
  d = bucket_bytes b' - bucket_bytes b ->
  (forall s', bucket_lookup s' b' = if decide (s' = s) then x else bucket_lookup s' b) ->
  kvs_rep (replace_bucket t (bucket_of t s) b' d) (partial_alter (fun _ => x) s m).
Proof.
  intros [Hw Hm] Hb Hb' Hd Hl. split; [by eapply replace_bucket_wf|].
  intros s'. rewrite (replace_bucket_lookup t _ b) by done.
  destruct (decide (s' = s)) as [->|Hne].
  - rewrite lookup_partial_alter_eq, decide_True, Hl, decide_True by done. done.
  - rewrite lookup_partial_alter_ne by done. rewrite Hm, Hl, (decide_False (P := s' = s)) by done.
    case_decide as E; [|done]. unfold kvs_lookup. by rewrite E, Hb.
Qed.

(** ** The operations *)

Lemma wf_bucket t s : kvs_wf t ->
  exists b, table t !! bucket_of t s = Some b /\ bucket_wf t (bucket_of t s) b.
Proof.
  intros [Hs Hl Hb Hk]. pose proof (Z.mod_pos_bound (hash_str 0 s) (size t) Hs).
  destruct (lookup_lt_is_Some_2 (table t) (bucket_of t s)) as [b E];
    [unfold bucket_of; lia|]. eauto.
Qed.

Lemma lookup_key_spec t k s :
  kvs_wf t -> cstr k = Some s ->
  exists b, table t !! bucket_of t s = Some b /\ bucket_wf t (bucket_of t s) b /\
  ((lookup_key t k = Ok None /\ kvs_lookup t s = None /\
    Forall (fun e => cstr (key e) <> Some s) b) \/
   (exists j e, lookup_key t k = Ok (Some (Z.of_nat (bucket_of t s), Z.of_nat j)) /\
      b !! j = Some e /\ cstr (key e) = Some s /\
      kvs_lookup t s = blob_data (blob e))).
Proof.
  intros Hw Hk. destruct (wf_bucket t s Hw) as (b & Hb & Hbw). exists b.
  split; [done|]. split; [done|]. unfold lookup_key, kvs_lookup.
  rewrite (hash_spec t k s) by (done || apply Hw). cbn [obind].
  rewrite aget_nat, Hb. cbn [or_undef obind mbind option_bind].
  destruct (lookup_loop_spec t _ k s b Hk (bwf_entries _ _ _ Hbw) 0)
    as [(-> & Hn & Hf)|(j & e & -> & Hj & He & Hl)]; cbn [obind].
  - left. auto.
  - right. exists j, e. auto.
Qed.

Lemma kvs_entry_at_spec t h j b e :
  table t !! h = Some b -> b !! j = Some e ->
  kvs_entry_at t (Z.of_nat h) (Z.of_nat j) = Ok e.
Proof.
  intros Hb Hj. unfold kvs_entry_at. rewrite aget_nat, Hb. cbn [or_undef obind].
  by rewrite aget_nat, Hj.
Qed.

Lemma set_kvs_entry_spec t h j b e e' :
  table t !! h = Some b -> b !! j = Some e ->
  set_kvs_entry t (Z.of_nat h) (Z.of_nat j) e' =
  Ok (set_table t (<[h := <[j := e']> b]> (table t))).
Proof.
  intros Hb Hj. unfold set_kvs_entry. rewrite aget_nat, Hb. cbn [or_undef obind].
  rewrite aset_nat by (by eapply lookup_lt_Some). cbn [or_undef obind].
  by rewrite aset_nat by (by eapply lookup_lt_Some).
Qed.

Lemma bucket_wf_update t n b j e v :
  bucket_wf t n b -> b !! j = Some e ->
  bucket_wf t n (<[j := mk_kentry (key e) (mk_blob (Z.of_nat (length v)) (Some v))]> b).
Proof.
  intros [Hf Hn] Hj. split.
  - apply Forall_insert; [done|]. rewrite Forall_lookup in Hf.
    destruct (Hf _ _ Hj) as (s & d & Hs & Hb & _). exists s, v. auto.
  - rewrite list_fmap_insert. simpl.
    rewrite list_insert_id; [done|]. rewrite list_lookup_fmap, Hj. done.
Qed.

Lemma bucket_wf_cons t s b k v :
  bucket_wf t (bucket_of t s) b -> cstr k = Some s ->
  Forall (fun e => cstr (key e) <> Some s) b ->
  bucket_wf t (bucket_of t s) (mk_kentry k (mk_blob (Z.of_nat (length v)) (Some v)) :: b).
Proof.
  intros [Hf Hn] Hk Hni. split.
  - constructor; [|done]. exists s, v. auto.
  - rewrite fmap_cons. apply NoDup_cons_2; [|done]. simpl. rewrite Hk.
    intros (e & He & Hin)%list_elem_of_fmap. rewrite Forall_forall in Hni.
    eapply Hni; eauto.
Qed.

Lemma same_length_copy (d v : list Z) :
  length d = length v -> blob_copy (Some d) v = Ok v.
Proof.
  intros E. unfold blob_copy. rewrite (proj2 (Nat.ltb_ge _ _)) by lia.
  rewrite drop_ge by lia. by rewrite app_nil_r.
Qed.

(** PUT: with the allocations successful. *)
Lemma write_key_spec t m k s v :
  kvs_rep t m -> cstr k = Some s ->
  exists t', write_key t k v true true = Ok (0, t') /\ kvs_rep t' (<[s := v]> m).
Proof.
  intros Hrep Hk. pose proof (krep_wf _ _ Hrep) as Hw.
  destruct (lookup_key_spec t k s Hw Hk)
    as (b & Hb & Hbw & [(Hl & _ & Hni)|(j & e & Hl & Hj & Hke & _)]);
    unfold write_key; rewrite Hl; cbn [obind].
  - rewrite (hash_spec t k s) by (done || apply Hw). cbn [obind negb set_kvs_size table].
    rewrite aget_nat, Hb. cbn [or_undef obind].
    rewrite aset_nat by (by eapply lookup_lt_Some). cbn [or_undef obind].
    eexists. split; [done|].
    eapply (replace_bucket_rep t m s b
      (mk_kentry k (mk_blob (Z.of_nat (length v)) (Some v)) :: b)); auto.
    + by apply bucket_wf_cons.
    + simpl. lia.
    + intros s'. simpl. rewrite Hk. repeat case_decide; congruence.
  - rewrite (kvs_entry_at_spec t _ j b e) by done. cbn [obind].
    pose proof (bucket_wf_update t _ b j e v Hbw Hj) as Hbw'.
    assert (forall d, d = Z.of_nat (length v) - blob_len (blob e) ->
      kvs_rep (replace_bucket t (bucket_of t s)
        (<[j := mk_kentry (key e) (mk_blob (Z.of_nat (length v)) (Some v))]> b) d)
        (<[s := v]> m)) as Hfin.
    { intros d ->. eapply (replace_bucket_rep t m s b); eauto.
      - rewrite (bucket_bytes_insert _ _ e) by done. simpl. lia.
      - apply (bucket_lookup_insert b j e); auto. apply Hbw. }
    pose proof (bwf_entries _ _ _ Hbw) as Hf. rewrite Forall_lookup in Hf.
    destruct (Hf _ _ Hj) as (s' & d & _ & _ & Hd & Hlen).
    destruct (Z.eqb_spec (blob_len (blob e)) (Z.of_nat (length v))) as [E|E]; cbn [negb].
    + rewrite Hd, same_length_copy by lia. cbn [obind].
      rewrite (set_kvs_entry_spec t _ j b e) by done. eexists. split; [done|].
      replace (set_table t _) with (replace_bucket t (bucket_of t s)
        (<[j := mk_kentry (key e) (mk_blob (Z.of_nat (length v)) (Some v))]> b) 0);
        [apply Hfin; lia|].
      unfold replace_bucket, set_table. f_equal. rewrite Z.add_0_r, (kwf_bytes _ Hw).
      by apply wrap_idemp.
    + rewrite (set_kvs_entry_spec _ _ j b e) by done. eexists. split; [done|].
      by apply Hfin.
Qed.

(** RM. *)
Lemma remove_key_spec t m k s :
  kvs_rep t m -> cstr k = Some s ->
  exists t', remove_key t k = Ok t' /\ kvs_rep t' (delete s m).
Proof.
  intros Hrep Hk. pose proof (krep_wf _ _ Hrep) as Hw.
  destruct (wf_bucket t s Hw) as (b & Hb & Hbw). unfold remove_key.
  rewrite (hash_spec t k s) by (done || apply Hw). cbn [obind].
  rewrite aget_nat, Hb. cbn [or_undef obind].
  destruct (remove_loop_spec t _ k s b Hk Hbw) as ([e|] & b' & -> & Hx); cbn [obind].
  - destruct Hx as (Hp & Hby & Hl). rewrite aset_nat by (by eapply lookup_lt_Some).
    cbn [or_undef obind]. eexists. split; [done|].
    assert (bucket_wf t (bucket_of t s) b') as Hbw'.
    { destruct Hbw as [Hf Hn]. rewrite Hp in Hf, Hn. split.
      - by apply Forall_cons in Hf as [_ ?].
      - rewrite fmap_cons in Hn. by apply NoDup_cons in Hn as [_ ?]. }
    pose proof (replace_bucket_rep t m s b b' (bucket_bytes b' - bucket_bytes b) None
      Hrep Hb Hbw' eq_refl Hl) as H.
    unfold replace_bucket in H. replace (kvs_size t + _)
      with (kvs_size t - SNAPSHOT_ENTRY_SIZE - blob_len (blob e)) in H by lia.
    exact H.
  - destruct Hx as [-> Hn]. exists t. split; [done|]. split; [done|].
    intros s'. destruct (decide (s' = s)) as [->|Hne].
    + rewrite lookup_delete_eq. unfold kvs_lookup. by rewrite Hb.
    + rewrite lookup_delete_ne by done. apply Hrep.
Qed.

(** GET: the answer of [apply_kvs_cmd]. *)
Definition kvs_answer (t : kvs_table_t) (r : option (Z * Z)) : outcome (list Z) :=
  match r with
  | None => Ok []
  | Some (h, i) =>
      let! e := kvs_entry_at t h i in
      let n := Z.to_nat (blob_len (blob e)) in
      match blob_data (blob e) with
      | Some d => if (length d <? n)%nat then Undef else Ok (take n d)
      | None => if (0 <? n)%nat then Undef else Ok []
      end
  end.

Lemma get_key_spec t m k s :
  kvs_rep t m -> cstr k = Some s ->
  exists r, lookup_key t k = Ok r /\ kvs_answer t r = Ok (default [] (m !! s)).
Proof.
  intros Hrep Hk. pose proof (krep_wf _ _ Hrep) as Hw.
  rewrite (krep_map _ _ Hrep).
  destruct (lookup_key_spec t k s Hw Hk)
    as (b & Hb & Hbw & [(-> & -> & _)|(j & e & -> & Hj & Hke & ->)]);
    eexists; (split; [done|]); [done|].
  pose proof (bwf_entries _ _ _ Hbw) as Hf. rewrite Forall_lookup in Hf.
  destruct (Hf _ _ Hj) as (s' & d & _ & _ & Hd & Hlen). cbn [kvs_answer].
  rewrite (kvs_entry_at_spec t _ j b e) by done. cbn [obind].
  rewrite Hd, Hlen, Nat2Z.id, Nat.ltb_irrefl, take_ge by lia. done.
Qed.

(** ** Commands *)

Inductive kvs_op :=
| Put (k v : list Z)
| Get (k : list Z)
| Rm (k : list Z).

Definition op_key (o : kvs_op) : list Z :=
  match o with Put k _ | Get k | Rm k => k end.
Definition op_value (o : kvs_op) : list Z :=
  match o with Put _ v => v | _ => [] end.
Definition op_type (o : kvs_op) : Z :=
  match o with Put _ _ => KVS_PUT | Get _ => KVS_GET | Rm _ => KVS_RM end.

(** The bytes of a command; [pad] is the padding byte before the length. *)
Definition encode_cmd (o : kvs_op) (pad : Z) : list Z :=
  op_type o :: op_key o ++ pad :: le_split 2 (Z.of_nat (length (op_value o)))
  ++ op_value o.

Definition op_ok (o : kvs_op) : Prop :=
  length (op_key o) = 64%nat /\ is_Some (cstr (op_key o)) /\
  Z.of_nat (length (op_value o)) < 65536.

(** What the operation does to the map, and its answer. *)
Definition kvs_spec (m : gmap (list Z) (list Z)) (o : kvs_op)
    : gmap (list Z) (list Z) * option (list Z) :=
  let s := default [] (cstr (op_key o)) in
  match o with
  | Put _ v => (<[s := v]> m, None)
  | Get _ => (m, Some (default [] (m !! s)))
  | Rm _ => (delete s m, None)
  end.

Lemma encode_cmd_parse o pad :
  op_ok o ->
  cmd_type (encode_cmd o pad) = Ok (op_type o) /\
  cmd_key (encode_cmd o pad) = Ok (op_key o) /\
  cmd_value (encode_cmd o pad) = Ok (op_value o).
Proof.
  intros (Hk & _ & Hv). unfold encode_cmd. split; [done|].
  set (v := op_value o) in *. set (k := op_key o) in *.
  unfold cmd_key, cmd_value.
  assert (forall x, drop 1 (op_type o :: x) = x) as Hd1 by done.
  assert (drop 66 (op_type o :: k ++ pad :: le_split 2 (Z.of_nat (length v)) ++ v)
    = le_split 2 (Z.of_nat (length v)) ++ v) as Hd66.
  { change (drop 66 (op_type o :: ?x)) with (drop (64 + 1) x).
    rewrite <- drop_drop, drop_app_length' by done. done. }
  assert (drop 68 (op_type o :: k ++ pad :: le_split 2 (Z.of_nat (length v)) ++ v) = v) as Hd68.
  { change 68%nat with (66 + 2)%nat. by rewrite <- drop_drop, Hd66. }
  assert (length (op_type o :: k ++ pad :: le_split 2 (Z.of_nat (length v)) ++ v)
    = (68 + length v)%nat) as Hlen.
  { simpl. rewrite length_app. simpl. lia. }
  rewrite Hd1, Hd66, Hd68, Hlen, take_app_length' by done.
  split; [done|]. replace (68 + length v <? 68)%nat with false
    by (symmetry; apply Nat.ltb_ge; lia).
  assert (le_combine (take 2 (le_split 2 (Z.of_nat (length v)) ++ v))
    = Z.of_nat (length v)) as ->.
  { cbn [le_split app take le_combine]. rewrite (Z.mod_small (_ / 256)) by
      (split; [apply Z.div_pos; lia|apply Z.div_lt_upper_bound; lia]).
    rewrite take_0. cbn [le_combine].
    pose proof (Z_div_mod_eq_full (Z.of_nat (length v)) 256). lia. }
  rewrite Nat2Z.id, Nat.ltb_irrefl. by rewrite take_ge.
Qed.

Lemma apply_kvs_cmd_step t m o pad :
  kvs_rep t m -> op_ok o ->
  exists t', apply_kvs_cmd (Some t) (Some (encode_cmd o pad)) true true
               = Ok (0, Some t', (kvs_spec m o).2) /\ kvs_rep t' (kvs_spec m o).1.
Proof.
  intros Hrep Hok. destruct (encode_cmd_parse o pad Hok) as (Ht & Hk & Hv).
  destruct Hok as (_ & [s Hs] & _). unfold apply_kvs_cmd, kvs_spec.
  rewrite Ht, Hs. cbn [obind default].
  destruct o as [k v|k|k]; simpl op_type; simpl op_key in *; simpl op_value in *;
    rewrite Hk; cbn [obind Z.eqb KVS_PUT KVS_GET KVS_RM Pos.eqb].
  - rewrite Hv. cbn [obind].
    destruct (write_key_spec t m k s v Hrep Hs) as (t' & -> & Hrep').
    cbn. eauto.
  - destruct (get_key_spec t m k s Hrep Hs) as (r & -> & Ha). cbn [obind].
    exists t. split; [|done]. unfold kvs_answer in Ha. simpl.
    destruct r as [[h i]|]; [|by injection Ha as <-].
    destruct (kvs_entry_at t h i) as [e| |]; try done. cbn [obind] in *.
    destruct (blob_data (blob e)) as [d|]; [destruct (length d <? _)%nat|destruct (0 <? _)%nat];
      try done; by injection Ha as <-.
  - destruct (remove_key_spec t m k s Hrep Hs) as (t' & -> & Hrep'). cbn. eauto.
Qed.

(** ** Theorems *)

(** A run of the store over commands (with successful allocations), and the
    same run over the map. *)
Fixpoint run_cmds (sm : option kvs_table_t) (cs : list (list Z))
    : outcome (list (option (list Z)) * option kvs_table_t) :=
  match cs with
  | [] => Ok ([], sm)
  | c :: cs' =>
      let! (rc, sm, a) := apply_kvs_cmd sm (Some c) true true in
      let! (r, sm) := run_cmds sm cs' in Ok (a :: r, sm)
  end.

Fixpoint run_spec (m : gmap (list Z) (list Z)) (os : list kvs_op)
    : list (option (list Z)) * gmap (list Z) (list Z) :=
  match os with
  | [] => ([], m)
  | o :: os' => let r := run_spec (kvs_spec m o).1 os' in ((kvs_spec m o).2 :: r.1, r.2)
  end.

Lemma run_cmds_spec os : forall t m,
  kvs_rep t m -> Forall op_ok os ->
  exists t', run_cmds (Some t) ((fun o => encode_cmd o 0) <$> os)
               = Ok ((run_spec m os).1, Some t') /\ kvs_rep t' (run_spec m os).2.
Proof.
  induction os as [|o os IH]; intros t m Hrep Hok; [by exists t|].
  apply Forall_cons in Hok as [Ho Hok].
  destruct (apply_kvs_cmd_step t m o 0 Hrep Ho) as (t1 & Hst & Hrep1).
  destruct (IH t1 _ Hrep1 Hok) as (t2 & Hrun & Hrep2).
  exists t2. split; [|done]. rewrite fmap_cons. cbn [run_cmds]. rewrite Hst. cbn [obind].
  rewrite Hrun. done.
Qed.

Lemma table_bytes_empty n : table_bytes (replicate n []) = 0.
Proof. induction n as [|n IH]; simpl; [done|]. by rewrite IH. Qed.

Lemma create_rep sz :
  0 <= sz -> exists t, create_kvs_sm sz 0 true true = Some t /\ kvs_rep t ∅.
Proof.
  intros Hsz. unfold create_kvs_sm. cbn.
  set (n := if sz =? 0 then DEFAULT_KVS_SIZE else sz).
  assert (0 < n) as Hn by (unfold n, DEFAULT_KVS_SIZE; zcase; lia).
  eexists. split; [done|]. unfold set_table; simpl.
  split; [split; simpl|]; auto.
  - rewrite length_replicate. lia.
  - intros i b [-> _]%lookup_replicate. split; [done|apply NoDup_nil_2].
  - by rewrite table_bytes_empty.
  - intros s. unfold kvs_lookup; simpl. rewrite lookup_empty.
    destruct (replicate _ _ !! _) as [b|] eqn:E; [|done].
    apply lookup_replicate in E as [-> _]. done.
Qed.

(** C16. The store is a finite map: whatever sequence of PUT, GET and RM
    commands is applied to a new store (of any size, keys of 64 bytes with a
    terminating NUL, successful allocations), every command succeeds, every
    GET answers the value of its key in the map those commands define (empty
    when absent), and the final store holds that map, with [kvs_size] the
    number of bytes of its snapshot. *)
Theorem kvs_refines_map sz os :
  0 <= sz -> Forall op_ok os ->
  exists t0 t, create_kvs_sm sz 0 true true = Some t0 /\
    run_cmds (Some t0) ((fun o => encode_cmd o 0) <$> os) = Ok ((run_spec ∅ os).1, Some t) /\
    (forall s, (run_spec ∅ os).2 !! s = kvs_lookup t s) /\
    kvs_size t = u32 (table_bytes (table t)).
Proof.
  intros Hsz Hos. destruct (create_rep sz Hsz) as (t0 & Hc & Hrep).
  destruct (run_cmds_spec os t0 ∅ Hrep Hos) as (t & Hrun & Hrep').
  exists t0, t. split; [done|]. split; [done|].
  split; [apply Hrep'|apply Hrep'].
Qed.

(** Two keys that share a bucket of a two-bucket table. *)
Definition demo_key (c : Z) : list Z := c :: replicate 63 0.

Lemma kvs_refines_map_witness :
  exists t0 t, create_kvs_sm 2 0 true true = Some t0 /\
    run_cmds (Some t0) ((fun o => encode_cmd o 0) <$>
      [Put (demo_key 97) [1; 2]; Put (demo_key 99) [3]; Get (demo_key 97);
       Rm (demo_key 97); Get (demo_key 97); Get (demo_key 99)])
      = Ok ([None; None; Some [1; 2]; None; Some []; Some [3]], Some t) /\
    kvs_size t = 67.
Proof.
  destruct (kvs_refines_map 2
      [Put (demo_key 97) [1; 2]; Put (demo_key 99) [3]; Get (demo_key 97);
       Rm (demo_key 97); Get (demo_key 97); Get (demo_key 99)])
    as (t0 & t & Hc & Hrun & _).
  - lia.
  - repeat (constructor; [split; [reflexivity|split; [eexists; reflexivity|simpl; lia]]|]).
    constructor.
  - exists t0, t. split; [exact Hc|]. split; [exact Hrun|].
    vm_compute in Hc. injection Hc as <-. vm_compute in Hrun. injection Hrun as <-.
    reflexivity.
Defined.

(** Overwriting a key when [realloc] returns NULL (as glibc does for an
    empty new value) fails and loses the old value: the entry stays in the
    table with the new length and a null data pointer. *)
Theorem put_realloc_failure_loses_value t m k s d v :
  kvs_rep t m -> cstr k = Some s -> m !! s = Some d -> length v <> length d ->
  exists t', write_key t k v true false = Ok (1, t') /\ kvs_lookup t' s = None.
Proof.
  intros Hrep Hk Hm Hne. pose proof (krep_wf _ _ Hrep) as Hw.
  rewrite (krep_map _ _ Hrep) in Hm.
  destruct (lookup_key_spec t k s Hw Hk)
    as (b & Hb & Hbw & [(_ & Hn & _)|(j & e & Hl & Hj & Hke & Hd)]); [congruence|].
  rewrite Hm in Hd. pose proof (bwf_entries _ _ _ Hbw) as Hf. rewrite Forall_lookup in Hf.
  destruct (Hf _ _ Hj) as (s' & d' & _ & _ & Hd' & Hlen).
  assert (d' = d) as -> by congruence.
  unfold write_key. rewrite Hl. cbn [obind].
  rewrite (kvs_entry_at_spec t _ j b e) by done. cbn [obind].
  rewrite (proj2 (Z.eqb_neq _ _)) by lia. cbn [negb].
  rewrite (set_kvs_entry_spec _ _ j b e) by done. cbn [obind].
  eexists. split; [done|].
  unfold kvs_lookup; simpl. change (bucket_of _ s) with (bucket_of t s).
  rewrite list_lookup_insert_eq by (by eapply lookup_lt_Some). simpl.
  rewrite (bucket_lookup_insert b j e _ s) by (done || apply Hbw).
  by rewrite decide_True.
Qed.

Lemma put_realloc_failure_loses_value_witness :
  exists t m t', kvs_rep t m /\ m !! [97] = Some [1; 2] /\
    write_key t (demo_key 97) [] true false = Ok (1, t') /\ kvs_lookup t' [97] = None.
Proof.
  destruct (create_rep 4 ltac:(lia)) as (t0 & _ & Hrep0).
  destruct (write_key_spec t0 ∅ (demo_key 97) [97] [1; 2] Hrep0 eq_refl)
    as (t & _ & Hrep).
  destruct (put_realloc_failure_loses_value t (<[[97] := [1; 2]]> ∅) (demo_key 97) [97]
    [1; 2] []) as (t' & Hw & Hl).
  - exact Hrep.
  - reflexivity.
  - reflexivity.
  - discriminate.
  - exists t, (<[[97] := [1; 2]]> ∅), t'. split; [exact Hrep|]. split; [reflexivity|].
    split; [exact Hw|exact Hl].
Defined.
