(* ===== verification/State.v ===== *)
(** * The state of a server and the monad of its code

    The structures of dare_server.h, dare_config.h and dare_ibv.h as records,
    the globals of dare_server.c and dare_ibv_rc.c, and the part of the
    environment the code talks to (the InfiniBand device, the libev timers,
    the callbacks of the upper layer).  The code is a state monad [M] whose
    computations return, leave the process ([dare_server_shutdown] and
    [error_exit] do not return), have undefined behaviour, or wait forever. *)

From Stdlib Require Import QArith.
From S2P Require Import Prelude Bytes Words Config Log.

Open Scope Z_scope.

(** ** dare_server.h *)

Definition PERMANENT_FAILURE : Z := 2.
Definition LR_GET_WRITE : Z := 1.
Definition LR_GET_NCE_LEN : Z := 2.
Definition LR_GET_NCE : Z := 3.
Definition LR_SET_END : Z := 4.
Definition LR_UPDATE_LOG : Z := 5.
Definition LR_UPDATE_END : Z := 6.

Record server_t := mk_server {
  next_wr_id : Z;
  cached_end_offset : Z;
  last_get_read_ssn : Z;
  fail_count : Z;
  next_lr_step : Z;
  send_flag : Z;
  send_count : Z
}.

Record vote_req_t := mk_vote_req {
  vr_sid : Z;
  vr_index : Z;
  vr_term : Z;
  vr_cid : dare_cid_t
}.

Record sm_rep_t := mk_sm_rep {
  sr_sid : Z;
  sr_raddr : Z;
  sr_rkey : Z;
  sr_len : Z
}.

Record log_offsets_t := mk_log_offsets {
  lo_head : Z;
  lo_apply : Z;
  lo_commit : Z;
  lo_end : Z
}.

(** [prv_data] holds one word, [vote_sid], per server. *)
Record ctrl_data_t := mk_ctrl {
  sid : Z;
  vote_req : list vote_req_t;
  log_offsets : list log_offsets_t;
  sm_rep : list sm_rep_t;
  sm_req : list Z;
  hb : list Z;
  vote_ack : list Z;
  rsid : list Z;
  apply_offsets : list Z;
  prv_data : list Z
}.

Record server_config_t := mk_config {
  cid : dare_cid_t;
  cid_offset : Z;
  cid_idx : Z;
  req_id : Z;
  servers : list server_t;
  clt_id : Z;
  idx : Z
}.

(** ** dare_ibv.h *)

Definition LOG_QP : Z := 1.
Definition CTRL_QP : Z := 0.
Definition RC_QP_ACTIVE : Z := 0.
Definition RC_QP_BLOCKED : Z := 1.
Definition RC_QP_ERROR : Z := 2.

(** The states of a queue pair the code moves through (verbs.h). *)
Inductive qp_state := QPS_RESET | QPS_INIT | QPS_RTR | QPS_RTS.

#[export] Instance qp_state_eq : EqDecision qp_state.
Proof. solve_decision. Defined.

(** [qp_hw] is the state of the queue pair in the device, the other fields are
    the bookkeeping of the program. *)
Record rc_qp_t := mk_qp {
  qp_hw : qp_state;
  signaled_wr_id : Z;
  qp_send_count : Z;
  qp_st : Z
}.

Record dare_ib_ep_t := mk_ep {
  ud_lid : Z;
  ctrl_qp : rc_qp_t;
  log_qp : rc_qp_t;
  rc_connected : Z;
  log_access : Z
}.

(** ** RDMA *)

Inductive ibv_wc_status :=
| IBV_WC_SUCCESS | IBV_WC_LOC_LEN_ERR | IBV_WC_LOC_QP_OP_ERR | IBV_WC_LOC_EEC_OP_ERR
| IBV_WC_LOC_PROT_ERR | IBV_WC_WR_FLUSH_ERR | IBV_WC_MW_BIND_ERR | IBV_WC_BAD_RESP_ERR
| IBV_WC_LOC_ACCESS_ERR | IBV_WC_REM_INV_REQ_ERR | IBV_WC_REM_ACCESS_ERR
| IBV_WC_REM_OP_ERR | IBV_WC_RETRY_EXC_ERR | IBV_WC_RNR_RETRY_EXC_ERR
| IBV_WC_LOC_RDD_VIOL_ERR | IBV_WC_REM_INV_RD_REQ_ERR | IBV_WC_REM_ABORT_ERR
| IBV_WC_INV_EECN_ERR | IBV_WC_INV_EEC_STATE_ERR | IBV_WC_FATAL_ERR
| IBV_WC_RESP_TIMEOUT_ERR | IBV_WC_GENERAL_ERR.

(** Remote locations, by structure and field instead of by address. *)
Inductive rloc :=
| L_sid | L_vote_sid (i : Z) | L_sm_req (i : Z) | L_sm_rep (i : Z) | L_hb (i : Z)
| L_vote_req (i : Z) | L_vote_ack (i : Z)
| L_log_commit_end | L_log_commit | L_log_end | L_log_apply
| L_nc_len (i : Z) | L_nc_entries (i n : Z)
| L_log_entries (off len : Z) | L_snapshot (raddr len : Z).

(** What a posted work request carries: a read, or the data of a write. *)
Inductive payload :=
| P_read
| P_u64 (v : Z)
| P_vote_req (v : vote_req_t)
| P_sm_rep (v : sm_rep_t)
| P_bytes (bs : list Z).

Record wr := mk_wr {
  wr_server : Z;
  wr_qp : Z;
  wr_loc : rloc;
  wr_payload : payload;
  wr_signaled : bool;
  wr_wr_id : Z
}.

(** The snapshot buffers of the program, and what is modelled of a snapshot. *)
Inductive snap := Snap_prereg | Snap_alloc.

Record snapshot_t := mk_snapshot {
  snap_len : Z;
  snap_last_entry : dare_log_entry_det_t
}.

(** What a completed read left in local memory. *)
Inductive dma :=
| D_rsid (i v : Z)
| D_commit_end (i c e : Z)
| D_nc_len (i n : Z)
| D_nc_entries (i : Z) (ds : list dare_log_entry_det_t)
| D_apply (i v : Z)
| D_snapshot (b : snap) (v : snapshot_t)
| D_log (off : Z) (bs : list Z).

Record wc := mk_wc {
  wc_wr_id : Z;
  wc_status : ibv_wc_status;
  wc_dma : list dma
}.

(** The messages over UD: a request to join, the three-way handshake and the
    reply to a join request, without the addresses, keys and queue-pair numbers
    they exchange. *)
Inductive ud_msg :=
| UD_JOIN (id slid : Z)
| UD_RC_SYN (id slid i size : Z)
| UD_RC_SYNACK (id slid i : Z)
| UD_RC_ACK (id i : Z)
| UD_CFG_REPLY (id i : Z) (c : dare_cid_t) (cid_idx head : Z)
| UD_OTHER (type : Z).

(** An entry of the queue the proxy fills. *)
Record tailq_entry_t := mk_tailq {
  tq_type : Z;
  tq_connection_id : Z;
  tq_req_id : Z;
  tq_cmd : list Z
}.

(** One answer of [ibv_poll_cq] on the UD queue: a message from [slid], with
    the status of its completion and whether it is a receive. *)
Inductive ud_poll :=
| UdPollErr
| UdPoll (ok recv : bool) (slid : Z) (m : ud_msg).

(** One answer of [ibv_poll_cq]. *)
Inductive poll := Poll (wcs : list wc) | PollErr.

(** The device: what it will answer ([ibv_poll_cq] on each completion queue,
    [ibv_post_send], [ibv_modify_qp]; an exhausted list stands for no
    completion and for success), the WC array, the globals [ssn] and
    [wa_flag], the requests posted so far (latest first), and the value a
    call leaves behind when a function forgets to return one. *)
Record ib_t := mk_ib {
  ctrl_cq : list poll;
  log_cq : list poll;
  ud_cq : list ud_poll;
  post_res : list Z;
  modify_res : list Z;
  no_ret : Z;
  rc_max_send_wr : Z;
  wc_array : list wc;
  ssn : Z;
  wa_flag : bool;
  posted : list wr;
  request_id : Z
}.

(** ** libev *)

Inductive callback :=
| CB_init_network | CB_join_cluster | CB_exchange_rc_info | CB_update_rc_info
| CB_get_replicated_vote | CB_send_sm_request | CB_recover_log | CB_prune_log
| CB_hb_receive | CB_hb_send | CB_to_adjust.

(** A timer; [ev_timer_again] arms it when [repeat] is not zero and stops it
    otherwise. *)
Record ev_timer := mk_timer {
  cb : callback;
  repeat : Q;
  active : bool
}.

Record timers_t := mk_timers {
  timer_event : ev_timer;
  hb_event : ev_timer;
  to_adjust_event : ev_timer;
  prune_event : ev_timer;
  poll_event : bool
}.

(** ** Clients and the upper layer *)

Record dare_ep_t := mk_clt {
  ep_lid : Z;
  ep_wait_for_idx : Z;
  ep_last_req_id : Z;
  ep_cid_idx : Z;
  ep_committed : Z
}.

(** Calls that leave the modelled code, and the lines of the log file that
    record an election, a vote and its outcome; latest first. *)
Inductive event :=
| E_mcast (m : ud_msg)
| E_ud_send (lid : Z) (m : ud_msg)
| E_store_cmd (clt_id : Z)
| E_do_action (clt_id type : Z) (cmd : list Z)
| E_update_state
| E_create_snapshot (b : snap)
| E_apply_snapshot (len : Z)
| E_become_leader
| E_append_no_op
| E_answer_read (lid : Z)
| E_log_election (term : Z)
| E_log_vote (term idx : Z)
| E_log_leader (term : Z)
| E_shutdown
| E_error_exit.

(** ** Globals *)

(** [total_count] and [fp_count] are the statics of [to_adjust_cb];
    [snapshot_ptr] and [snapshot_mr] say whether the pointers of these names
    are not null; [heap_snapshot] is the last snapshot allocated. *)
Record globals_t := mk_globals {
  dare_state : Z;
  prev_log_entry_head : Z;
  last_applied_entry : dare_log_entry_det_t;
  last_write_csm_idx : Z;
  last_cmt_write_csm_idx : Z;
  recomputed_hb_timeout : Q;
  leader_failed : Z;
  hb_timeout_flag : Z;
  latest_hb_received : Z;
  total_count : Z;
  fp_count : Z;
  committed : Z;
  offsets : list Z;
  snapshot_ptr : bool;
  snapshot_mr : bool;
  prereg_snapshot : snapshot_t;
  heap_snapshot : snapshot_t;
  tailq : list tailq_entry_t
}.

(** ** Parameters *)

(** The settings of the configuration file (config-dare.c), the bound on the
    iterations of the loops over the log, the numbers [lrand48] will return,
    the results of the other calls that leave the modelled code, in their
    order (0 when the list is exhausted), the address and key of the
    registered snapshots, the LID and the MTU of the port, and the number of the
    host. *)
Record params_t := mk_params {
  hb_period : Q;
  elec_timeout_low : Z;
  elec_timeout_high : Z;
  rc_info_period : Q;
  retransmit_period : Q;
  log_pruning_period : Q;
  fuel : nat;
  rand : list Z;
  answers : list Z;
  mr_raddr : snap -> Z;
  mr_rkey : snap -> Z;
  own_lid : Z;
  unique_slid : Z;
  mtu : Z
}.

Record srv := mk_srv {
  conf : server_config_t;
  ctrl : ctrl_data_t;
  slog : dare_log_t;
  eps : list dare_ib_ep_t;
  ib : ib_t;
  tmr : timers_t;
  clts : list dare_ep_t;
  glob : globals_t;
  out : list event;
  params : params_t
}.

(** ** Field updates *)

Definition set_next_wr_id (v : Z) (x : server_t) : server_t :=
  mk_server v (cached_end_offset x) (last_get_read_ssn x) (fail_count x)
    (next_lr_step x) (send_flag x) (send_count x).
Definition set_cached_end_offset (v : Z) (x : server_t) : server_t :=
  mk_server (next_wr_id x) v (last_get_read_ssn x) (fail_count x) (next_lr_step x)
    (send_flag x) (send_count x).
Definition set_last_get_read_ssn (v : Z) (x : server_t) : server_t :=
  mk_server (next_wr_id x) (cached_end_offset x) v (fail_count x) (next_lr_step x)
    (send_flag x) (send_count x).
Definition set_fail_count (v : Z) (x : server_t) : server_t :=
  mk_server (next_wr_id x) (cached_end_offset x) (last_get_read_ssn x) v
    (next_lr_step x) (send_flag x) (send_count x).
Definition set_next_lr_step (v : Z) (x : server_t) : server_t :=
  mk_server (next_wr_id x) (cached_end_offset x) (last_get_read_ssn x) (fail_count x) v
    (send_flag x) (send_count x).
Definition set_send_flag (v : Z) (x : server_t) : server_t :=
  mk_server (next_wr_id x) (cached_end_offset x) (last_get_read_ssn x) (fail_count x)
    (next_lr_step x) v (send_count x).
Definition set_send_count (v : Z) (x : server_t) : server_t :=
  mk_server (next_wr_id x) (cached_end_offset x) (last_get_read_ssn x) (fail_count x)
    (next_lr_step x) (send_flag x) v.

Definition set_vr_sid (v : Z) (x : vote_req_t) : vote_req_t :=
  mk_vote_req v (vr_index x) (vr_term x) (vr_cid x).

Definition set_lo_commit (v : Z) (x : log_offsets_t) : log_offsets_t :=
  mk_log_offsets (lo_head x) (lo_apply x) v (lo_end x).
Definition set_lo_end (v : Z) (x : log_offsets_t) : log_offsets_t :=
  mk_log_offsets (lo_head x) (lo_apply x) (lo_commit x) v.

Definition set_sid (v : Z) (x : ctrl_data_t) : ctrl_data_t :=
  mk_ctrl v (vote_req x) (log_offsets x) (sm_rep x) (sm_req x) (hb x) (vote_ack x)
    (rsid x) (apply_offsets x) (prv_data x).
Definition set_vote_req (v : list vote_req_t) (x : ctrl_data_t) : ctrl_data_t :=
  mk_ctrl (sid x) v (log_offsets x) (sm_rep x) (sm_req x) (hb x) (vote_ack x) (rsid x)
    (apply_offsets x) (prv_data x).
Definition set_log_offsets (v : list log_offsets_t) (x : ctrl_data_t) : ctrl_data_t :=
  mk_ctrl (sid x) (vote_req x) v (sm_rep x) (sm_req x) (hb x) (vote_ack x) (rsid x)
    (apply_offsets x) (prv_data x).
Definition set_sm_rep (v : list sm_rep_t) (x : ctrl_data_t) : ctrl_data_t :=
  mk_ctrl (sid x) (vote_req x) (log_offsets x) v (sm_req x) (hb x) (vote_ack x) (rsid x)
    (apply_offsets x) (prv_data x).
Definition set_sm_req (v : list Z) (x : ctrl_data_t) : ctrl_data_t :=
  mk_ctrl (sid x) (vote_req x) (log_offsets x) (sm_rep x) v (hb x) (vote_ack x) (rsid x)
    (apply_offsets x) (prv_data x).
Definition set_hb (v : list Z) (x : ctrl_data_t) : ctrl_data_t :=
  mk_ctrl (sid x) (vote_req x) (log_offsets x) (sm_rep x) (sm_req x) v (vote_ack x)
    (rsid x) (apply_offsets x) (prv_data x).
Definition set_vote_ack (v : list Z) (x : ctrl_data_t) : ctrl_data_t :=
  mk_ctrl (sid x) (vote_req x) (log_offsets x) (sm_rep x) (sm_req x) (hb x) v (rsid x)
    (apply_offsets x) (prv_data x).
Definition set_rsid (v : list Z) (x : ctrl_data_t) : ctrl_data_t :=
  mk_ctrl (sid x) (vote_req x) (log_offsets x) (sm_rep x) (sm_req x) (hb x) (vote_ack x)
    v (apply_offsets x) (prv_data x).
Definition set_apply_offsets (v : list Z) (x : ctrl_data_t) : ctrl_data_t :=
  mk_ctrl (sid x) (vote_req x) (log_offsets x) (sm_rep x) (sm_req x) (hb x) (vote_ack x)
    (rsid x) v (prv_data x).
Definition set_prv_data (v : list Z) (x : ctrl_data_t) : ctrl_data_t :=
  mk_ctrl (sid x) (vote_req x) (log_offsets x) (sm_rep x) (sm_req x) (hb x) (vote_ack x)
    (rsid x) (apply_offsets x) v.

Definition set_cid (v : dare_cid_t) (x : server_config_t) : server_config_t :=
  mk_config v (cid_offset x) (cid_idx x) (req_id x) (servers x) (clt_id x) (idx x).
Definition set_cid_offset (v : Z) (x : server_config_t) : server_config_t :=
  mk_config (cid x) v (cid_idx x) (req_id x) (servers x) (clt_id x) (idx x).
Definition set_cid_idx (v : Z) (x : server_config_t) : server_config_t :=
  mk_config (cid x) (cid_offset x) v (req_id x) (servers x) (clt_id x) (idx x).
Definition set_req_id (v : Z) (x : server_config_t) : server_config_t :=
  mk_config (cid x) (cid_offset x) (cid_idx x) v (servers x) (clt_id x) (idx x).
Definition set_servers (v : list server_t) (x : server_config_t) : server_config_t :=
  mk_config (cid x) (cid_offset x) (cid_idx x) (req_id x) v (clt_id x) (idx x).
Definition set_clt_id (v : Z) (x : server_config_t) : server_config_t :=
  mk_config (cid x) (cid_offset x) (cid_idx x) (req_id x) (servers x) v (idx x).
Definition set_idx (v : Z) (x : server_config_t) : server_config_t :=
  mk_config (cid x) (cid_offset x) (cid_idx x) (req_id x) (servers x) (clt_id x) v.

Definition set_qp_hw (v : qp_state) (x : rc_qp_t) : rc_qp_t :=
  mk_qp v (signaled_wr_id x) (qp_send_count x) (qp_st x).
Definition set_signaled_wr_id (v : Z) (x : rc_qp_t) : rc_qp_t :=
  mk_qp (qp_hw x) v (qp_send_count x) (qp_st x).
Definition set_qp_send_count (v : Z) (x : rc_qp_t) : rc_qp_t :=
  mk_qp (qp_hw x) (signaled_wr_id x) v (qp_st x).
Definition set_qp_st (v : Z) (x : rc_qp_t) : rc_qp_t :=
  mk_qp (qp_hw x) (signaled_wr_id x) (qp_send_count x) v.

Definition set_ud_lid (v : Z) (x : dare_ib_ep_t) : dare_ib_ep_t :=
  mk_ep v (ctrl_qp x) (log_qp x) (rc_connected x) (log_access x).
Definition set_ctrl_qp (v : rc_qp_t) (x : dare_ib_ep_t) : dare_ib_ep_t :=
  mk_ep (ud_lid x) v (log_qp x) (rc_connected x) (log_access x).
Definition set_log_qp (v : rc_qp_t) (x : dare_ib_ep_t) : dare_ib_ep_t :=
  mk_ep (ud_lid x) (ctrl_qp x) v (rc_connected x) (log_access x).
Definition set_rc_connected (v : Z) (x : dare_ib_ep_t) : dare_ib_ep_t :=
  mk_ep (ud_lid x) (ctrl_qp x) (log_qp x) v (log_access x).
Definition set_log_access (v : Z) (x : dare_ib_ep_t) : dare_ib_ep_t :=
  mk_ep (ud_lid x) (ctrl_qp x) (log_qp x) (rc_connected x) v.

Definition set_ctrl_cq (v : list poll) (x : ib_t) : ib_t :=
  mk_ib v (log_cq x) (ud_cq x) (post_res x) (modify_res x) (no_ret x) (rc_max_send_wr x)
    (wc_array x) (ssn x) (wa_flag x) (posted x) (request_id x).
Definition set_log_cq (v : list poll) (x : ib_t) : ib_t :=
  mk_ib (ctrl_cq x) v (ud_cq x) (post_res x) (modify_res x) (no_ret x)
    (rc_max_send_wr x) (wc_array x) (ssn x) (wa_flag x) (posted x) (request_id x).
Definition set_ud_cq (v : list ud_poll) (x : ib_t) : ib_t :=
  mk_ib (ctrl_cq x) (log_cq x) v (post_res x) (modify_res x) (no_ret x)
    (rc_max_send_wr x) (wc_array x) (ssn x) (wa_flag x) (posted x) (request_id x).
Definition set_post_res (v : list Z) (x : ib_t) : ib_t :=
  mk_ib (ctrl_cq x) (log_cq x) (ud_cq x) v (modify_res x) (no_ret x) (rc_max_send_wr x)
    (wc_array x) (ssn x) (wa_flag x) (posted x) (request_id x).
Definition set_modify_res (v : list Z) (x : ib_t) : ib_t :=
  mk_ib (ctrl_cq x) (log_cq x) (ud_cq x) (post_res x) v (no_ret x) (rc_max_send_wr x)
    (wc_array x) (ssn x) (wa_flag x) (posted x) (request_id x).
Definition set_no_ret (v : Z) (x : ib_t) : ib_t :=
  mk_ib (ctrl_cq x) (log_cq x) (ud_cq x) (post_res x) (modify_res x) v
    (rc_max_send_wr x) (wc_array x) (ssn x) (wa_flag x) (posted x) (request_id x).
Definition set_rc_max_send_wr (v : Z) (x : ib_t) : ib_t :=
  mk_ib (ctrl_cq x) (log_cq x) (ud_cq x) (post_res x) (modify_res x) (no_ret x) v
    (wc_array x) (ssn x) (wa_flag x) (posted x) (request_id x).
Definition set_wc_array (v : list wc) (x : ib_t) : ib_t :=
  mk_ib (ctrl_cq x) (log_cq x) (ud_cq x) (post_res x) (modify_res x) (no_ret x)
    (rc_max_send_wr x) v (ssn x) (wa_flag x) (posted x) (request_id x).
Definition set_ssn (v : Z) (x : ib_t) : ib_t :=
  mk_ib (ctrl_cq x) (log_cq x) (ud_cq x) (post_res x) (modify_res x) (no_ret x)
    (rc_max_send_wr x) (wc_array x) v (wa_flag x) (posted x) (request_id x).
Definition set_wa_flag (v : bool) (x : ib_t) : ib_t :=
  mk_ib (ctrl_cq x) (log_cq x) (ud_cq x) (post_res x) (modify_res x) (no_ret x)
    (rc_max_send_wr x) (wc_array x) (ssn x) v (posted x) (request_id x).
Definition set_posted (v : list wr) (x : ib_t) : ib_t :=
  mk_ib (ctrl_cq x) (log_cq x) (ud_cq x) (post_res x) (modify_res x) (no_ret x)
    (rc_max_send_wr x) (wc_array x) (ssn x) (wa_flag x) v (request_id x).
Definition set_request_id (v : Z) (x : ib_t) : ib_t :=
  mk_ib (ctrl_cq x) (log_cq x) (ud_cq x) (post_res x) (modify_res x) (no_ret x)
    (rc_max_send_wr x) (wc_array x) (ssn x) (wa_flag x) (posted x) v.

Definition set_timer_event (v : ev_timer) (x : timers_t) : timers_t :=
  mk_timers v (hb_event x) (to_adjust_event x) (prune_event x) (poll_event x).
Definition set_hb_event (v : ev_timer) (x : timers_t) : timers_t :=
  mk_timers (timer_event x) v (to_adjust_event x) (prune_event x) (poll_event x).
Definition set_to_adjust_event (v : ev_timer) (x : timers_t) : timers_t :=
  mk_timers (timer_event x) (hb_event x) v (prune_event x) (poll_event x).
Definition set_prune_event (v : ev_timer) (x : timers_t) : timers_t :=
  mk_timers (timer_event x) (hb_event x) (to_adjust_event x) v (poll_event x).
Definition set_poll_event (v : bool) (x : timers_t) : timers_t :=
  mk_timers (timer_event x) (hb_event x) (to_adjust_event x) (prune_event x) v.

Definition set_ep_wait_for_idx (v : Z) (x : dare_ep_t) : dare_ep_t :=
  mk_clt (ep_lid x) v (ep_last_req_id x) (ep_cid_idx x) (ep_committed x).
Definition set_ep_last_req_id (v : Z) (x : dare_ep_t) : dare_ep_t :=
  mk_clt (ep_lid x) (ep_wait_for_idx x) v (ep_cid_idx x) (ep_committed x).
Definition set_ep_cid_idx (v : Z) (x : dare_ep_t) : dare_ep_t :=
  mk_clt (ep_lid x) (ep_wait_for_idx x) (ep_last_req_id x) v (ep_committed x).
Definition set_ep_committed (v : Z) (x : dare_ep_t) : dare_ep_t :=
  mk_clt (ep_lid x) (ep_wait_for_idx x) (ep_last_req_id x) (ep_cid_idx x) v.

Definition set_dare_state (v : Z) (x : globals_t) : globals_t :=
  mk_globals v (prev_log_entry_head x) (last_applied_entry x) (last_write_csm_idx x)
    (last_cmt_write_csm_idx x) (recomputed_hb_timeout x) (leader_failed x)
    (hb_timeout_flag x) (latest_hb_received x) (total_count x) (fp_count x)
    (committed x) (offsets x) (snapshot_ptr x) (snapshot_mr x) (prereg_snapshot x)
    (heap_snapshot x) (tailq x).
Definition set_prev_log_entry_head (v : Z) (x : globals_t) : globals_t :=
  mk_globals (dare_state x) v (last_applied_entry x) (last_write_csm_idx x)
    (last_cmt_write_csm_idx x) (recomputed_hb_timeout x) (leader_failed x)
    (hb_timeout_flag x) (latest_hb_received x) (total_count x) (fp_count x)
    (committed x) (offsets x) (snapshot_ptr x) (snapshot_mr x) (prereg_snapshot x)
    (heap_snapshot x) (tailq x).
Definition set_last_applied_entry (v : dare_log_entry_det_t) (x : globals_t) : globals_t :=
  mk_globals (dare_state x) (prev_log_entry_head x) v (last_write_csm_idx x)
    (last_cmt_write_csm_idx x) (recomputed_hb_timeout x) (leader_failed x)
    (hb_timeout_flag x) (latest_hb_received x) (total_count x) (fp_count x)
    (committed x) (offsets x) (snapshot_ptr x) (snapshot_mr x) (prereg_snapshot x)
    (heap_snapshot x) (tailq x).
Definition set_last_write_csm_idx (v : Z) (x : globals_t) : globals_t :=
  mk_globals (dare_state x) (prev_log_entry_head x) (last_applied_entry x) v
    (last_cmt_write_csm_idx x) (recomputed_hb_timeout x) (leader_failed x)
    (hb_timeout_flag x) (latest_hb_received x) (total_count x) (fp_count x)
    (committed x) (offsets x) (snapshot_ptr x) (snapshot_mr x) (prereg_snapshot x)
    (heap_snapshot x) (tailq x).
Definition set_last_cmt_write_csm_idx (v : Z) (x : globals_t) : globals_t :=
  mk_globals (dare_state x) (prev_log_entry_head x) (last_applied_entry x)
    (last_write_csm_idx x) v (recomputed_hb_timeout x) (leader_failed x)
    (hb_timeout_flag x) (latest_hb_received x) (total_count x) (fp_count x)
    (committed x) (offsets x) (snapshot_ptr x) (snapshot_mr x) (prereg_snapshot x)
    (heap_snapshot x) (tailq x).
Definition set_recomputed_hb_timeout (v : Q) (x : globals_t) : globals_t :=
  mk_globals (dare_state x) (prev_log_entry_head x) (last_applied_entry x)
    (last_write_csm_idx x) (last_cmt_write_csm_idx x) v (leader_failed x)
    (hb_timeout_flag x) (latest_hb_received x) (total_count x) (fp_count x)
    (committed x) (offsets x) (snapshot_ptr x) (snapshot_mr x) (prereg_snapshot x)
    (heap_snapshot x) (tailq x).
Definition set_leader_failed (v : Z) (x : globals_t) : globals_t :=
  mk_globals (dare_state x) (prev_log_entry_head x) (last_applied_entry x)
    (last_write_csm_idx x) (last_cmt_write_csm_idx x) (recomputed_hb_timeout x) v
    (hb_timeout_flag x) (latest_hb_received x) (total_count x) (fp_count x)
    (committed x) (offsets x) (snapshot_ptr x) (snapshot_mr x) (prereg_snapshot x)
    (heap_snapshot x) (tailq x).
Definition set_hb_timeout_flag (v : Z) (x : globals_t) : globals_t :=
  mk_globals (dare_state x) (prev_log_entry_head x) (last_applied_entry x)
    (last_write_csm_idx x) (last_cmt_write_csm_idx x) (recomputed_hb_timeout x)
    (leader_failed x) v (latest_hb_received x) (total_count x) (fp_count x)
    (committed x) (offsets x) (snapshot_ptr x) (snapshot_mr x) (prereg_snapshot x)
    (heap_snapshot x) (tailq x).
Definition set_latest_hb_received (v : Z) (x : globals_t) : globals_t :=
  mk_globals (dare_state x) (prev_log_entry_head x) (last_applied_entry x)
    (last_write_csm_idx x) (last_cmt_write_csm_idx x) (recomputed_hb_timeout x)
    (leader_failed x) (hb_timeout_flag x) v (total_count x) (fp_count x) (committed x)
    (offsets x) (snapshot_ptr x) (snapshot_mr x) (prereg_snapshot x) (heap_snapshot x)
    (tailq x).
Definition set_total_count (v : Z) (x : globals_t) : globals_t :=
  mk_globals (dare_state x) (prev_log_entry_head x) (last_applied_entry x)
    (last_write_csm_idx x) (last_cmt_write_csm_idx x) (recomputed_hb_timeout x)
    (leader_failed x) (hb_timeout_flag x) (latest_hb_received x) v (fp_count x)
    (committed x) (offsets x) (snapshot_ptr x) (snapshot_mr x) (prereg_snapshot x)
    (heap_snapshot x) (tailq x).
Definition set_fp_count (v : Z) (x : globals_t) : globals_t :=
  mk_globals (dare_state x) (prev_log_entry_head x) (last_applied_entry x)
    (last_write_csm_idx x) (last_cmt_write_csm_idx x) (recomputed_hb_timeout x)
    (leader_failed x) (hb_timeout_flag x) (latest_hb_received x) (total_count x) v
    (committed x) (offsets x) (snapshot_ptr x) (snapshot_mr x) (prereg_snapshot x)
    (heap_snapshot x) (tailq x).
Definition set_committed (v : Z) (x : globals_t) : globals_t :=
  mk_globals (dare_state x) (prev_log_entry_head x) (last_applied_entry x)
    (last_write_csm_idx x) (last_cmt_write_csm_idx x) (recomputed_hb_timeout x)
    (leader_failed x) (hb_timeout_flag x) (latest_hb_received x) (total_count x)
    (fp_count x) v (offsets x) (snapshot_ptr x) (snapshot_mr x) (prereg_snapshot x)
    (heap_snapshot x) (tailq x).
Definition set_offsets (v : list Z) (x : globals_t) : globals_t :=
  mk_globals (dare_state x) (prev_log_entry_head x) (last_applied_entry x)
    (last_write_csm_idx x) (last_cmt_write_csm_idx x) (recomputed_hb_timeout x)
    (leader_failed x) (hb_timeout_flag x) (latest_hb_received x) (total_count x)
    (fp_count x) (committed x) v (snapshot_ptr x) (snapshot_mr x) (prereg_snapshot x)
    (heap_snapshot x) (tailq x).
Definition set_snapshot_ptr (v : bool) (x : globals_t) : globals_t :=
  mk_globals (dare_state x) (prev_log_entry_head x) (last_applied_entry x)
    (last_write_csm_idx x) (last_cmt_write_csm_idx x) (recomputed_hb_timeout x)
    (leader_failed x) (hb_timeout_flag x) (latest_hb_received x) (total_count x)
    (fp_count x) (committed x) (offsets x) v (snapshot_mr x) (prereg_snapshot x)
    (heap_snapshot x) (tailq x).
Definition set_snapshot_mr (v : bool) (x : globals_t) : globals_t :=
  mk_globals (dare_state x) (prev_log_entry_head x) (last_applied_entry x)
    (last_write_csm_idx x) (last_cmt_write_csm_idx x) (recomputed_hb_timeout x)
    (leader_failed x) (hb_timeout_flag x) (latest_hb_received x) (total_count x)
    (fp_count x) (committed x) (offsets x) (snapshot_ptr x) v (prereg_snapshot x)
    (heap_snapshot x) (tailq x).
Definition set_prereg_snapshot (v : snapshot_t) (x : globals_t) : globals_t :=
  mk_globals (dare_state x) (prev_log_entry_head x) (last_applied_entry x)
    (last_write_csm_idx x) (last_cmt_write_csm_idx x) (recomputed_hb_timeout x)
    (leader_failed x) (hb_timeout_flag x) (latest_hb_received x) (total_count x)
    (fp_count x) (committed x) (offsets x) (snapshot_ptr x) (snapshot_mr x) v
    (heap_snapshot x) (tailq x).
Definition set_heap_snapshot (v : snapshot_t) (x : globals_t) : globals_t :=
  mk_globals (dare_state x) (prev_log_entry_head x) (last_applied_entry x)
    (last_write_csm_idx x) (last_cmt_write_csm_idx x) (recomputed_hb_timeout x)
    (leader_failed x) (hb_timeout_flag x) (latest_hb_received x) (total_count x)
    (fp_count x) (committed x) (offsets x) (snapshot_ptr x) (snapshot_mr x)
    (prereg_snapshot x) v (tailq x).
Definition set_tailq (v : list tailq_entry_t) (x : globals_t) : globals_t :=
  mk_globals (dare_state x) (prev_log_entry_head x) (last_applied_entry x)
    (last_write_csm_idx x) (last_cmt_write_csm_idx x) (recomputed_hb_timeout x)
    (leader_failed x) (hb_timeout_flag x) (latest_hb_received x) (total_count x)
    (fp_count x) (committed x) (offsets x) (snapshot_ptr x) (snapshot_mr x)
    (prereg_snapshot x) (heap_snapshot x) v.

Definition set_rand (v : list Z) (x : params_t) : params_t :=
  mk_params (hb_period x) (elec_timeout_low x) (elec_timeout_high x) (rc_info_period x)
    (retransmit_period x) (log_pruning_period x) (fuel x) v (answers x) (mr_raddr x)
    (mr_rkey x) (own_lid x) (unique_slid x)
    (mtu x).
Definition set_answers (v : list Z) (x : params_t) : params_t :=
  mk_params (hb_period x) (elec_timeout_low x) (elec_timeout_high x) (rc_info_period x)
    (retransmit_period x) (log_pruning_period x) (fuel x) (rand x) v (mr_raddr x)
    (mr_rkey x) (own_lid x) (unique_slid x)
    (mtu x).

Definition set_conf (v : server_config_t) (x : srv) : srv :=
  mk_srv v (ctrl x) (slog x) (eps x) (ib x) (tmr x) (clts x) (glob x) (out x) (params x).
Definition set_ctrl (v : ctrl_data_t) (x : srv) : srv :=
  mk_srv (conf x) v (slog x) (eps x) (ib x) (tmr x) (clts x) (glob x) (out x) (params x).
Definition set_slog (v : dare_log_t) (x : srv) : srv :=
  mk_srv (conf x) (ctrl x) v (eps x) (ib x) (tmr x) (clts x) (glob x) (out x) (params x).
Definition set_eps (v : list dare_ib_ep_t) (x : srv) : srv :=
  mk_srv (conf x) (ctrl x) (slog x) v (ib x) (tmr x) (clts x) (glob x) (out x)
    (params x).
Definition set_ib (v : ib_t) (x : srv) : srv :=
  mk_srv (conf x) (ctrl x) (slog x) (eps x) v (tmr x) (clts x) (glob x) (out x)
    (params x).
Definition set_tmr (v : timers_t) (x : srv) : srv :=
  mk_srv (conf x) (ctrl x) (slog x) (eps x) (ib x) v (clts x) (glob x) (out x)
    (params x).
Definition set_clts (v : list dare_ep_t) (x : srv) : srv :=
  mk_srv (conf x) (ctrl x) (slog x) (eps x) (ib x) (tmr x) v (glob x) (out x) (params x).
Definition set_glob (v : globals_t) (x : srv) : srv :=
  mk_srv (conf x) (ctrl x) (slog x) (eps x) (ib x) (tmr x) (clts x) v (out x) (params x).
Definition set_out (v : list event) (x : srv) : srv :=
  mk_srv (conf x) (ctrl x) (slog x) (eps x) (ib x) (tmr x) (clts x) (glob x) v
    (params x).
Definition set_params (v : params_t) (x : srv) : srv :=
  mk_srv (conf x) (ctrl x) (slog x) (eps x) (ib x) (tmr x) (clts x) (glob x) (out x) v.

(** ** The monad *)

Inductive res (A : Type) :=
| Ret (a : A) (s : srv)
| Exit (s : srv)
| Fault
| Hang.
Arguments Ret {A} _ _.
Arguments Exit {A} _.
Arguments Fault {A}.
Arguments Hang {A}.

Definition M (A : Type) : Type := srv -> res A.

#[export] Instance M_ret : MRet M := fun A a s => Ret a s.
#[export] Instance M_bind : MBind M := fun A B f m s =>
  match m s with
  | Ret a s' => f a s'
  | Exit s' => Exit s'
  | Fault => Fault
  | Hang => Hang
  end.

Definition get {A} (f : srv -> A) : M A := fun s => Ret (f s) s.
Definition upd (f : srv -> srv) : M unit := fun s => Ret tt (f s).
Definition fault {A} : M A := fun _ => Fault.
Definition hang {A} : M A := fun _ => Hang.
Definition or_fault {A} (o : option A) : M A :=
  match o with Some a => mret a | None => fault end.

(** A computation on the log alone. *)
Definition of_outcome {A} (o : outcome A) : M A :=
  match o with Ok a => mret a | Undef => fault | Spin => hang end.

(** The result of a call that is not modelled. *)
Definition ask : M Z :=
  l ← get (fun s => answers (params s));
  upd (fun s => set_params (set_answers (drop 1 l) (params s)) s) ;;
  mret (default 0 (l !! 0%nat)).

Definition emit (e : event) : M unit := upd (fun s => set_out (e :: out s) s).

(** [error_exit], and [exit] in general. *)
Definition leave {A} : M A := fun s => Exit s.
Definition error_exit {A} : M A := emit E_error_exit ;; leave.

Definition when (b : bool) (m : M unit) : M unit := if b then m else mret tt.

(** [for] loops: over all the values, or until one returns. *)
Fixpoint for_each (l : list Z) (f : Z -> M unit) : M unit :=
  match l with
  | [] => mret tt
  | i :: l' => f i ;; for_each l' f
  end.

Fixpoint for_ret {A} (l : list Z) (f : Z -> M (option A)) : M (option A) :=
  match l with
  | [] => mret None
  | i :: l' => r ← f i; match r with Some a => mret (Some a) | None => for_ret l' f end
  end.

(** Updates of the parts. *)
Definition on_conf (f : server_config_t -> server_config_t) : M unit :=
  upd (fun s => set_conf (f (conf s)) s).
Definition on_ctrl (f : ctrl_data_t -> ctrl_data_t) : M unit :=
  upd (fun s => set_ctrl (f (ctrl s)) s).
Definition on_log (f : dare_log_t -> dare_log_t) : M unit :=
  upd (fun s => set_slog (f (slog s)) s).
Definition on_ib (f : ib_t -> ib_t) : M unit :=
  upd (fun s => set_ib (f (ib s)) s).
Definition on_tmr (f : timers_t -> timers_t) : M unit :=
  upd (fun s => set_tmr (f (tmr s)) s).
Definition on_glob (f : globals_t -> globals_t) : M unit :=
  upd (fun s => set_glob (f (glob s)) s).

(** Array elements; an index out of range is undefined behaviour. *)
Definition server_at (i : Z) : M server_t :=
  l ← get (fun s => servers (conf s)); or_fault (aget l i).
Definition on_server (i : Z) (f : server_t -> server_t) : M unit :=
  l ← get (fun s => servers (conf s));
  x ← or_fault (aget l i);
  l' ← or_fault (aset l i (f x));
  on_conf (set_servers l').
Definition ep_at (i : Z) : M dare_ib_ep_t :=
  l ← get eps; or_fault (aget l i).
Definition on_ep (i : Z) (f : dare_ib_ep_t -> dare_ib_ep_t) : M unit :=
  l ← get eps;
  x ← or_fault (aget l i);
  l' ← or_fault (aset l i (f x));
  upd (set_eps l').

(** An element of an array of [ctrl_data], given by the array's accessors. *)
Definition ctrl_get {A} (p : ctrl_data_t -> list A) (i : Z) : M A :=
  l ← get (fun s => p (ctrl s)); or_fault (aget l i).
Definition ctrl_put {A} (p : ctrl_data_t -> list A)
    (q : list A -> ctrl_data_t -> ctrl_data_t) (i : Z) (x : A) : M unit :=
  l ← get (fun s => p (ctrl s));
  l' ← or_fault (aset l i x);
  on_ctrl (q l').

(** [__sync_fetch_and_and(&hb[i], 0)] *)
Definition take_hb (i : Z) : M Z :=
  x ← ctrl_get hb i; ctrl_put hb set_hb i 0 ;; mret x.

(** The timers. *)
Definition ev_timer_again (w : ev_timer) : ev_timer :=
  mk_timer (cb w) (repeat w) (negb (Qeq_bool (repeat w) 0)).
Definition rearm (w : ev_timer) (r : Q) : ev_timer :=
  ev_timer_again (mk_timer (cb w) r (active w)).
Definition rearm_cb (w : ev_timer) (c : callback) (r : Q) : ev_timer :=
  ev_timer_again (mk_timer c r (active w)).
Definition ev_timer_stop (w : ev_timer) : ev_timer := mk_timer (cb w) (repeat w) false.

(** Stop the timers and leave: [dare_server_shutdown] ends in [pthread_exit]. *)
Definition dare_server_shutdown {A} : M A :=
  on_tmr (fun t => mk_timers (ev_timer_stop (timer_event t)) (ev_timer_stop (hb_event t))
                     (ev_timer_stop (to_adjust_event t)) (ev_timer_stop (prune_event t))
                     (poll_event t)) ;;
  emit E_shutdown ;;
  leave.
