(* ===== verification/Init.v ===== *)
(** * The initial state of a server

    [init_server_data] and the timers of [dare_server_init] (dare_server.c),
    with the endpoints [dare_init_ib_srv_data] (dare_ibv.c) allocates. *)

From Stdlib Require Import QArith.
From S2P Require Import Prelude Bytes Words Config Log State.

Open Scope Z_scope.

Definition SRV_TYPE_START : Z := 1.
Definition SRV_TYPE_JOIN : Z := 2.
Definition SRV_TYPE_LOGGP : Z := 3.
Definition SM_KVS : Z := 2.

(** For immediate event scheduling. *)
Definition NOW : Q := 1 # 1000000000.

(** What the caller passes. *)
Record input_t := mk_input {
  srv_type : Z;
  sm_type : Z;
  group_size : Z;
  server_idx : Z
}.

(** A server of the configuration array, and its zeroed endpoint. *)
Definition server_new : server_t := mk_server 0 0 0 0 LR_GET_WRITE 1 0.
Definition ep_new : dare_ib_ep_t :=
  mk_ep 0 (mk_qp QPS_RESET 0 0 RC_QP_ACTIVE) (mk_qp QPS_RESET 0 0 RC_QP_ACTIVE) 0 0.

Definition NSRV : nat := Z.to_nat MAX_SERVER_COUNT.

Definition ctrl_new : ctrl_data_t :=
  mk_ctrl SID_NULL (replicate NSRV (mk_vote_req 0 0 0 cid_zero))
    (replicate NSRV (mk_log_offsets 0 0 0 0)) (replicate NSRV (mk_sm_rep 0 0 0 0))
    (replicate NSRV 0) (replicate NSRV 0) (replicate NSRV 0) (replicate NSRV 0)
    (replicate NSRV 0) (replicate NSRV 0).

(** The configuration of a group of [n] servers. *)
Definition cid_new (n : Z) : dare_cid_t :=
  foldl CID_SERVER_ADD (mk_cid 0 n 0 CID_STABLE 0 0) (upto n).

Definition config_new (i : input_t) : server_config_t :=
  mk_config (cid_new (group_size i)) 0 0 0 (replicate NSRV server_new) 0 (server_idx i).

Definition snapshot_new : snapshot_t := mk_snapshot 0 (mk_det 0 0 0).

Definition glob_new (p : params_t) : globals_t :=
  mk_globals 0 0 (mk_det 0 0 0) 0 0 (2 * hb_period p)%Q 0 0 0 0 0 0
    (replicate NSRV 0) false false snapshot_new snapshot_new [].


Definition ib_new (max_send_wr : Z) : ib_t :=
  mk_ib [] [] [] [] [] 0 max_send_wr [] 0 false [] 1.

Definition timers_new : timers_t :=
  mk_timers (ev_timer_again (mk_timer CB_init_network NOW false))
    (mk_timer CB_hb_receive 0 false) (mk_timer CB_to_adjust 0 false)
    (mk_timer CB_prune_log 0 false) false.

(** [init_server_data], with the results of the allocations.  Only a KVS
    state machine is created; for the other types the callbacks are stored
    through a null pointer. *)
Definition init_server_data (i : input_t) (p : params_t) (max_send_wr : Z)
    (sm_ok servers_ok ctrl_ok log_ok snap_ok : bool) : outcome (option srv) :=
  if negb ((negb (srv_type i =? SRV_TYPE_LOGGP)) && (sm_type i =? SM_KVS) && sm_ok)
  then Undef
  else if MAX_SERVER_COUNT <? group_size i then Ok None
  else if negb (servers_ok && ctrl_ok && log_ok && snap_ok) then Ok None
  else Ok (Some (mk_srv (config_new i) ctrl_new log_new (replicate NSRV ep_new)
                   (ib_new max_send_wr) timers_new [] (glob_new p) [] p)).

(** ** A group of servers *)

(** Server [i] of a group of [n] just after start-up, all connected. *)
Definition demo_params : params_t :=
  mk_params (1 # 100) 100000 300000 (1 # 10) (1 # 10) (1 # 10) 1000 [] [] (fun _ => 1) (fun _ => 1) 0 0 4096.

Definition ep_connected : dare_ib_ep_t := set_rc_connected 1 ep_new.

Definition demo_srv (n i : Z) : srv :=
  mk_srv (config_new (mk_input SRV_TYPE_START SM_KVS n i)) ctrl_new log_new
    (replicate NSRV ep_connected) (ib_new 100) timers_new [] (glob_new demo_params) []
    demo_params.

Lemma demo_eps n i j e : aget (eps (demo_srv n i)) j = Some e -> e = ep_connected.
Proof.
  unfold aget. destruct (0 <=? j); [|done]. intros H.
  by apply lookup_replicate in H as [-> _].
Qed.
