(* ===== verification/Hoare.v ===== *)
(** * Reasoning about the code

    Weakest preconditions for the monad [M], with the rules for its loops, and
    frame reasoning: which parts of the state a computation leaves alone. *)

From S2P Require Import Prelude Bytes Words Config Log State.

Open Scope Z_scope.

(** [wp t m Q E s]: run from [s], [m] returns with [Q] or leaves the process
    with [E]; if [t] it neither has undefined behaviour nor waits forever,
    otherwise such runs are ignored. *)
Definition wp {A} (t : bool) (m : M A) (Q : A -> srv -> Prop) (E : srv -> Prop)
    (s : srv) : Prop :=
  match m s with
  | Ret a s' => Q a s'
  | Exit s' => E s'
  | Fault | Hang => t = false
  end.

Section Rules.
Context {A B : Type} (t : bool).
Implicit Types (E : srv -> Prop) (s : srv).

Lemma wp_bind (m : M A) (f : A -> M B) Q E s :
  wp t m (fun a s' => wp t (f a) Q E s') E s -> wp t (m ≫= f) Q E s.
Proof. unfold wp, mbind, M_bind. by destruct (m s). Qed.

Lemma wp_ret (a : A) Q E s : Q a s -> wp t (mret a) Q E s.
Proof. done. Qed.

Lemma wp_get (f : srv -> A) Q E s : Q (f s) s -> wp t (get f) Q E s.
Proof. done. Qed.

Lemma wp_upd f Q E s : Q tt (f s) -> wp t (upd f) Q E s.
Proof. done. Qed.

Lemma wp_or_fault (o : option A) Q E s :
  (forall a, o = Some a -> Q a s) -> (o = None -> t = false) ->
  wp t (or_fault o) Q E s.
Proof. destruct o; cbn; auto. Qed.

Lemma wp_or_fault_some (o : option A) a Q E s :
  o = Some a -> Q a s -> wp t (or_fault o) Q E s.
Proof. by intros ->. Qed.

Lemma wp_of_outcome (o : outcome A) a Q E s :
  o = Ok a -> Q a s -> wp t (of_outcome o) Q E s.
Proof. by intros ->. Qed.

Lemma wp_mono (m : M A) (Q Q' : A -> srv -> Prop) (E E' : srv -> Prop) s :
  wp t m Q E s -> (forall a s', Q a s' -> Q' a s') -> (forall s', E s' -> E' s') ->
  wp t m Q' E' s.
Proof. unfold wp. destruct (m s); auto. Qed.

Lemma wp_if (b : bool) (m m' : M A) Q E s :
  (b = true -> wp t m Q E s) -> (b = false -> wp t m' Q E s) ->
  wp t (if b then m else m') Q E s.
Proof. destruct b; auto. Qed.

Lemma wp_partial (m : M A) Q E s : wp true m Q E s -> wp t m Q E s.
Proof. unfold wp. destruct (m s); done. Qed.
End Rules.

Lemma wp_when t b m Q E s :
  (b = true -> wp t m Q E s) -> (b = false -> Q tt s) -> wp t (when b m) Q E s.
Proof. destruct b; cbn; auto. Qed.

(** Nothing need be known about [m] to go on. *)
Lemma wp_skip {A B} (m : M A) (f : A -> M B) Q s :
  (forall a s', wp false (f a) Q (fun _ => True) s') ->
  wp false (m ≫= f) Q (fun _ => True) s.
Proof. intros H. apply wp_bind. unfold wp at 1. destruct (m s); auto. Qed.

(** A loop over a list: [I l s] holds when [l] is still to be done. *)
Lemma wp_for_each t (I : list Z -> srv -> Prop) f E l :
  (forall i l' s, I (i :: l') s -> wp t (f i) (fun _ => I l') E s) ->
  forall s Q, I l s -> (forall s', I [] s' -> Q tt s') -> wp t (for_each l f) Q E s.
Proof.
  intros Hf. induction l as [|i l IH]; intros s Q Hs HQ.
  - by apply wp_ret, HQ.
  - apply wp_bind. eapply wp_mono; [by apply Hf| |auto].
    intros [] s' Hs'. by apply IH.
Qed.

Lemma wp_for_ret {A} t (I : list Z -> srv -> Prop) (R : A -> srv -> Prop)
    (f : Z -> M (option A)) E l :
  (forall i l' s, I (i :: l') s ->
     wp t (f i) (fun r s' => match r with Some a => R a s' | None => I l' s' end) E s) ->
  forall s Q, I l s ->
  (forall s', I [] s' -> Q None s') -> (forall a s', R a s' -> Q (Some a) s') ->
  wp t (for_ret l f) Q E s.
Proof.
  intros Hf. induction l as [|i l IH]; intros s Q Hs HN HR.
  - by apply wp_ret, HN.
  - apply wp_bind. eapply wp_mono; [by apply Hf| |auto].
    intros [a|] s' Hs'; [by apply wp_ret, HR|by apply IH].
Qed.

(** ** Running *)

Lemma wp_run {A} t (m : M A) a s' Q E s : m s = Ret a s' -> Q a s' -> wp t m Q E s.
Proof. unfold wp. by intros ->. Qed.

Lemma wp_elim {A} t (m : M A) a s' Q E s : wp t m Q E s -> m s = Ret a s' -> Q a s'.
Proof. unfold wp. intros H Hr. by rewrite Hr in H. Qed.

(** A total triple without exits is a run. *)
Lemma run_wp {A} (m : M A) Q s :
  wp true m Q (fun _ => False) s -> exists a s', m s = Ret a s' /\ Q a s'.
Proof. unfold wp. destruct (m s) as [a s'| | |]; try done. by exists a, s'. Qed.

Lemma bind_run {A B} (m : M A) (f : A -> M B) s a s' :
  m s = Ret a s' -> (m ≫= f) s = f a s'.
Proof. unfold mbind, M_bind. by intros ->. Qed.

Lemma bind_get {A B} (g : srv -> A) (f : A -> M B) s : (get g ≫= f) s = f (g s) s.
Proof. done. Qed.

Lemma bind_upd {B} g (f : unit -> M B) s : (upd g ≫= f) s = f tt (g s).
Proof. done. Qed.

Lemma bind_assoc {A B C} (m : M A) (f : A -> M B) (g : B -> M C) s :
  ((m ≫= f) ≫= g) s = (m ≫= fun a => f a ≫= g) s.
Proof. unfold mbind, M_bind. by destruct (m s). Qed.

(** Array elements. *)
Lemma server_at_run i s v : aget (servers (conf s)) i = Some v -> server_at i s = Ret v s.
Proof. intros H. unfold server_at. by rewrite bind_get, H. Qed.

Lemma on_server_run i f s v :
  aget (servers (conf s)) i = Some v ->
  on_server i f s = Ret tt (set_conf (set_servers (<[Z.to_nat i := f v]> (servers (conf s)))
                              (conf s)) s).
Proof.
  intros H. unfold on_server. rewrite bind_get, H, (bind_run _ _ s v s eq_refl).
  by rewrite aset_Some by (by eapply aget_Some).
Qed.

Lemma ctrl_get_run {A} (p : ctrl_data_t -> list A) i s x :
  aget (p (ctrl s)) i = Some x -> ctrl_get p i s = Ret x s.
Proof. intros H. unfold ctrl_get. by rewrite bind_get, H. Qed.

Lemma ctrl_put_run {A} (p : ctrl_data_t -> list A) q i x s :
  0 <= i < Z.of_nat (length (p (ctrl s))) ->
  ctrl_put p q i x s = Ret tt (set_ctrl (q (<[Z.to_nat i := x]> (p (ctrl s))) (ctrl s)) s).
Proof. intros H. unfold ctrl_put. by rewrite bind_get, aset_Some. Qed.

(** Run the primitives of the monad. *)
Ltac mred :=
  cbv beta iota delta
    [mbind M_bind mret M_ret get upd fault hang leave or_fault of_outcome emit error_exit when
     on_conf on_ctrl on_log on_ib on_tmr on_glob default from_option negb].

Lemma for_ret_app {A} l l' (f : Z -> M (option A)) s :
  for_ret (l ++ l') f s =
  (r ← for_ret l f; match r with Some a => mret (Some a) | None => for_ret l' f end) s.
Proof.
  revert s. induction l as [|i l IH]; intros s; [done|].
  simpl. rewrite bind_assoc. unfold mbind, M_bind.
  destruct (f i s) as [[a|] s1|s1| |]; first [done|apply IH].
Qed.

Lemma for_each_app l l' f s : for_each (l ++ l') f s = (for_each l f ;; for_each l' f) s.
Proof.
  revert s. induction l as [|i l IH]; intros s; [done|].
  simpl. rewrite bind_assoc. unfold mbind, M_bind.
  destruct (f i s) as [[] s1|s1| |]; first [done|apply IH].
Qed.

(** ** Frames *)

(** However [m] ends, its final state is related to the initial one by [R]. *)
Definition pres (R : srv -> srv -> Prop) {A} (m : M A) : Prop :=
  forall s, wp false m (fun _ s' => R s s') (fun s' => R s s') s.

Section Pres.
Context (R : srv -> srv -> Prop) `{!Reflexive R, !Transitive R}.

Lemma pres_bind {A B} (m : M A) (f : A -> M B) :
  pres R m -> (forall a, pres R (f a)) -> pres R (m ≫= f).
Proof.
  intros Hm Hf s. apply wp_bind. eapply wp_mono; [apply Hm| |done].
  intros a s' Hs. eapply wp_mono; [apply Hf| |]; cbn; intros; by (etrans; [exact Hs|]).
Qed.

Lemma pres_ret {A} (a : A) : pres R (mret a).
Proof. intros s. unfold wp; cbn. reflexivity. Qed.

Lemma pres_get {A} (f : srv -> A) : pres R (get f).
Proof. intros s. unfold wp; cbn. reflexivity. Qed.

Lemma pres_upd f : (forall s, R s (f s)) -> pres R (upd f).
Proof. intros H s. apply H. Qed.

Lemma pres_fault {A} : pres R (@fault A).
Proof. intros s. unfold wp; cbn. reflexivity. Qed.

Lemma pres_hang {A} : pres R (@hang A).
Proof. intros s. unfold wp; cbn. reflexivity. Qed.

Lemma pres_leave {A} : pres R (@leave A).
Proof. intros s. unfold wp; cbn. reflexivity. Qed.

Lemma pres_or_fault {A} (o : option A) : pres R (or_fault o).
Proof. destruct o; [apply pres_ret|apply pres_fault]. Qed.

Lemma pres_of_outcome {A} (o : outcome A) : pres R (of_outcome o).
Proof. destruct o; [apply pres_ret|apply pres_fault|apply pres_hang]. Qed.

Lemma pres_if {A} (b : bool) (m m' : M A) : pres R m -> pres R m' -> pres R (if b then m else m').
Proof. by destruct b. Qed.

Lemma pres_when b m : pres R m -> pres R (when b m).
Proof. intros. apply pres_if; [done|apply pres_ret]. Qed.

Lemma pres_for_each l f : (forall i, pres R (f i)) -> pres R (for_each l f).
Proof.
  intros Hf. induction l as [|i l IH]; [apply pres_ret|].
  apply pres_bind; [apply Hf|by intros _].
Qed.

Lemma pres_for_ret {A} l (f : Z -> M (option A)) :
  (forall i, pres R (f i)) -> pres R (for_ret l f).
Proof.
  intros Hf. induction l as [|i l IH]; [apply pres_ret|].
  apply pres_bind; [apply Hf|]. intros [a|]; [apply pres_ret|done].
Qed.
End Pres.

(** A frame on top of what is known of a run. *)
Lemma wp_frame R {A} (m : M A) Q E s :
  pres R m -> wp false m Q E s ->
  wp false m (fun a s' => Q a s' /\ R s s') (fun s' => E s' /\ R s s') s.
Proof. intros Hm HQ. specialize (Hm s). unfold wp in *. destruct (m s); auto. Qed.

Create HintDb pres.

(** Decompose a computation; what is left are the primitive updates. *)
Ltac pres_step :=
  match goal with
  | |- pres _ (mbind _ _) => apply pres_bind; [typeclasses eauto| |intro]
  | |- pres _ (mret _) => apply pres_ret; typeclasses eauto
  | |- pres _ (get _) => apply pres_get; typeclasses eauto
  | |- pres _ (or_fault _) => apply pres_or_fault; typeclasses eauto
  | |- pres _ (of_outcome _) => apply pres_of_outcome; typeclasses eauto
  | |- pres _ (if _ then _ else _) => apply pres_if
  | |- pres _ (when _ _) => apply pres_when; [typeclasses eauto|]
  | |- pres _ (for_each _ _) => apply pres_for_each; [typeclasses eauto..|intro]
  | |- pres _ (for_ret _ _) => apply pres_for_ret; [typeclasses eauto..|intro]
  | |- pres _ fault => apply pres_fault
  | |- pres _ hang => apply pres_hang
  | |- pres _ leave => apply pres_leave; typeclasses eauto
  | |- pres _ (match ?x with _ => _ end) => destruct x
  | |- pres _ (let '_ := ?x in _) => destruct x
  | |- pres _ _ => solve [auto with pres]
  end.
Ltac pres_solve := repeat pres_step.
