(* ===== verification/Qp.v ===== *)
(** * Queue pairs (dare_ibv_rc.c, "Handle QPs state")

    The state transitions of the queue pairs and what they are for: a server
    revokes the access to its log before it examines it and grants it to one
    leader at a time.  [ibv_modify_qp] is the device: it answers from
    [modify_res] and, when it succeeds, performs the legal transitions. *)

From S2P Require Import Prelude Bytes Words Config Log State Hoare.

Open Scope Z_scope.

Definition get_qp (qp_id : Z) (e : dare_ib_ep_t) : rc_qp_t :=
  if qp_id =? LOG_QP then log_qp e else ctrl_qp e.
Definition set_qp (qp_id : Z) (q : rc_qp_t) (e : dare_ib_ep_t) : dare_ib_ep_t :=
  if qp_id =? LOG_QP then set_log_qp q e else set_ctrl_qp q e.
Definition on_qp (i qp_id : Z) (f : rc_qp_t -> rc_qp_t) : M unit :=
  on_ep i (fun e => set_qp qp_id (f (get_qp qp_id e)) e).

(** The transitions of the verbs interface. *)
Definition qp_legal (a b : qp_state) : bool :=
  match a, b with
  | _, QPS_RESET => true
  | QPS_RESET, QPS_INIT | QPS_INIT, QPS_INIT => true
  | QPS_INIT, QPS_RTR => true
  | QPS_RTR, QPS_RTS | QPS_RTS, QPS_RTS => true
  | _, _ => false
  end.

Definition EINVAL : Z := 22.

Definition ibv_modify_qp (i qp_id : Z) (target : qp_state) : M Z :=
  l ← get (fun s => modify_res (ib s));
  on_ib (set_modify_res (drop 1 l)) ;;
  let r := default 0 (l !! 0%nat) in
  if negb (r =? 0) then mret r
  else
    e ← ep_at i;
    if qp_legal (qp_hw (get_qp qp_id e)) target
    then on_qp i qp_id (set_qp_hw target) ;; mret 0
    else mret EINVAL.

(** Turn the result of a call into [error_return(1, ...)] or 0. *)
Definition check (rc : Z) : M Z := mret (if negb (rc =? 0) then 1 else 0).

Definition rc_qp_reset (i qp_id : Z) : M Z :=
  rc ← ibv_modify_qp i qp_id QPS_RESET; check rc.

Definition rc_qp_reset_to_init (i qp_id : Z) : M Z :=
  on_qp i qp_id (fun q => mk_qp (qp_hw q) 0 0 RC_QP_ACTIVE) ;;
  rc ← ibv_modify_qp i qp_id QPS_INIT; check rc.

Definition rc_qp_init_to_rtr (i qp_id : Z) : M Z :=
  rc ← ibv_modify_qp i qp_id QPS_RTR; check rc.

Definition rc_qp_rtr_to_rts (i qp_id : Z) : M Z :=
  rc ← ibv_modify_qp i qp_id QPS_RTS; check rc.

(** Run a list of steps until one fails. *)
Fixpoint steps (l : list (M Z)) (last : M Z) : M Z :=
  match l with
  | [] => last
  | m :: l' => rc ← m; if negb (rc =? 0) then mret 1 else steps l' last
  end.

(** The function has no [return] on the path where all steps succeed; its
    callers use whatever value the call leaves. *)
Definition rc_qp_reset_to_rts (i qp_id : Z) : M Z :=
  steps [rc_qp_reset i qp_id; rc_qp_reset_to_init i qp_id; rc_qp_init_to_rtr i qp_id;
         rc_qp_rtr_to_rts i qp_id] (get (fun s => no_ret (ib s))).

Definition rc_qp_restart (i qp_id : Z) : M Z :=
  steps [rc_qp_reset i qp_id; rc_qp_reset_to_init i qp_id; rc_qp_init_to_rtr i qp_id;
         rc_qp_rtr_to_rts i qp_id] (mret 0).

Definition rc_disconnect_server (i : Z) : M Z :=
  e ← ep_at i;
  if rc_connected e =? 0 then mret 0
  else
    on_ep i (fun e => set_rc_connected 0 (set_ud_lid 0 e)) ;;
    steps [rc_qp_reset i LOG_QP; rc_qp_reset i CTRL_QP] (mret 0).

Definition rc_connect_server (i qp_id : Z) : M Z :=
  e ← ep_at i;
  steps ((if decide (qp_hw (get_qp qp_id e) = QPS_RESET) then []
          else [rc_qp_reset i qp_id])
         ++ [rc_qp_reset_to_init i qp_id; rc_qp_init_to_rtr i qp_id;
             rc_qp_rtr_to_rts i qp_id]) (mret 0).

(** Servers the code skips: itself, and those outside the configuration. *)
Definition other_server (c : server_config_t) (i : Z) : bool :=
  negb (i =? idx c) && CID_IS_SERVER_ON (cid c) i.

Definition revoke_one (i : Z) : M (option Z) :=
  c ← get conf;
  if negb (other_server c i) then mret None
  else
    e ← ep_at i;
    if (rc_connected e =? 0) || (log_access e =? 0) then mret None
    else
      rc ← rc_qp_reset i LOG_QP;
      if negb (rc =? 0) then mret (Some 1)
      else on_ep i (set_log_access 0) ;; mret None.

Definition rc_revoke_log_access : M Z :=
  size ← get (fun s => get_extended_group_size (cid (conf s)));
  r ← for_ret (upto size) revoke_one;
  mret (default 0 r).

(** One server of the leader's loop. *)
Definition restore_one (i : Z) : M (option Z) :=
  c ← get conf;
  if negb (other_server c i) then mret None
  else
    e ← ep_at i;
    if (rc_connected e =? 0) || (log_access e =? 1) then mret None
    else
      rc ← rc_qp_reset_to_rts i LOG_QP;
      if negb (rc =? 0) then mret (Some 1)
      else on_ep i (set_log_access 1) ;; mret None.

Definition rc_restore_log_access : M Z :=
  size ← get (fun s => get_extended_group_size (cid (conf s)));
  c ← get conf;
  sd ← get (fun s => sid (ctrl s));
  let leader_idx := SID_GET_IDX sd in
  if negb (leader_idx =? idx c) then
    if negb (CID_IS_SERVER_ON (cid c) leader_idx) then mret 1
    else
      e ← ep_at leader_idx;
      if rc_connected e =? 0 then mret 1
      else if log_access e =? 1 then mret 0
      else
        rc ← rc_qp_reset_to_rts leader_idx LOG_QP;
        if negb (rc =? 0) then mret 1
        else on_ep leader_idx (set_log_access 1) ;; mret 0
  else if c_true (SID_GET_L sd) then
    r ← for_ret (upto size) restore_one;
    mret (default 0 r)
  else mret 0.
