(* ===== verification/QpSpec.v ===== *)
(** * Log access (dare_ibv_rc.c)

    What revoking and restoring the access to the log do: exclusive access
    after [rc_revoke_log_access], access for the leader alone after
    [rc_restore_log_access], and where the bookkeeping and the queue pairs
    disagree. *)

From S2P Require Import Prelude Bytes Words Config Log State Init Hoare Qp.

Open Scope Z_scope.

(** ** Running the queue-pair operations on a device that answers 0 *)

Definition quiet (s : srv) : Prop := modify_res (ib s) = [].

Lemma set_eps_id s : set_eps (eps s) s = s.
Proof. by destruct s. Qed.

Lemma set_eps_twice a b s : set_eps a (set_eps b s) = set_eps a s.
Proof. done. Qed.

Lemma quiet_ib s : quiet s -> set_ib (set_modify_res [] (ib s)) s = s.
Proof.
  unfold quiet. destruct s as [? ? ? ? [] ? ? ? ? ?]; simpl. by intros ->.
Qed.

(** The state with one endpoint replaced. *)
Definition put_ep (i : Z) (e : dare_ib_ep_t) (s : srv) : srv :=
  set_eps (<[Z.to_nat i := e]> (eps s)) s.

Lemma on_ep_run i f s e :
  aget (eps s) i = Some e ->
  on_ep i f s = Ret tt (put_ep i (f e) s).
Proof.
  intros He. unfold on_ep, get, mbind, M_bind, or_fault. rewrite He.
  cbn. rewrite aset_Some by (by eapply aget_Some). done.
Qed.

Lemma ep_at_run i s e : aget (eps s) i = Some e -> ep_at i s = Ret e s.
Proof. intros He. unfold ep_at, get, mbind, M_bind. by rewrite He. Qed.

Lemma modify_run i qp_id target s e :
  quiet s -> aget (eps s) i = Some e ->
  ibv_modify_qp i qp_id target s =
  if qp_legal (qp_hw (get_qp qp_id e)) target
  then Ret 0 (put_ep i (set_qp qp_id (set_qp_hw target (get_qp qp_id e)) e) s)
  else Ret EINVAL s.
Proof.
  intros Hq He. unfold ibv_modify_qp. rewrite bind_get, Hq. unfold on_ib.
  rewrite bind_upd, quiet_ib by done. cbn -[on_qp ep_at].
  rewrite (bind_run _ _ _ _ _ (ep_at_run i s e He)).
  destruct (qp_legal _ _); [|done]. unfold on_qp.
  by rewrite (bind_run _ _ _ _ _ (on_ep_run i _ s e He)).
Qed.

Lemma get_set_qp qp_id q e : get_qp qp_id (set_qp qp_id q e) = q.
Proof. unfold get_qp, set_qp. by destruct (qp_id =? LOG_QP). Qed.

Lemma set_set_qp qp_id q q' e : set_qp qp_id q (set_qp qp_id q' e) = set_qp qp_id q e.
Proof. unfold set_qp. by destruct (qp_id =? LOG_QP). Qed.

Lemma aget_insert_eq (l : list dare_ib_ep_t) i e e' :
  aget l i = Some e -> aget (<[Z.to_nat i := e']> l) i = Some e'.
Proof.
  intros Hi. pose proof (aget_Some _ _ _ Hi). unfold aget.
  rewrite (proj2 (Z.leb_le 0 i)) by lia. apply list_lookup_insert_eq. lia.
Qed.

Lemma put_ep_twice i e e' s : put_ep i e (put_ep i e' s) = put_ep i e s.
Proof. unfold put_ep. simpl. by rewrite list_insert_insert_eq. Qed.

Lemma put_ep_at i e e' s : aget (eps s) i = Some e' -> aget (eps (put_ep i e s)) i = Some e.
Proof. apply aget_insert_eq. Qed.

Lemma put_ep_id i e s : aget (eps s) i = Some e -> put_ep i e s = s.
Proof.
  intros He. unfold put_ep. rewrite list_insert_id; [apply set_eps_id|].
  unfold aget in He. by destruct (0 <=? i).
Qed.

Lemma quiet_put_ep i e s : quiet s -> quiet (put_ep i e s).
Proof. done. Qed.

Lemma step_run i qp_id target s e :
  quiet s -> aget (eps s) i = Some e -> qp_legal (qp_hw (get_qp qp_id e)) target = true ->
  (rc ← ibv_modify_qp i qp_id target; check rc) s =
  Ret 0 (put_ep i (set_qp qp_id (set_qp_hw target (get_qp qp_id e)) e) s).
Proof.
  intros Hq He Hl. unfold mbind, M_bind. by rewrite (modify_run i qp_id target s e Hq He), Hl.
Qed.

Lemma reset_run i qp_id s e :
  quiet s -> aget (eps s) i = Some e ->
  rc_qp_reset i qp_id s =
  Ret 0 (put_ep i (set_qp qp_id (set_qp_hw QPS_RESET (get_qp qp_id e)) e) s).
Proof. intros Hq He. apply step_run; auto. by destruct (qp_hw _). Qed.

Lemma to_init_run i qp_id s e :
  quiet s -> aget (eps s) i = Some e -> qp_hw (get_qp qp_id e) = QPS_RESET ->
  rc_qp_reset_to_init i qp_id s =
  Ret 0 (put_ep i (set_qp qp_id (mk_qp QPS_INIT 0 0 RC_QP_ACTIVE) e) s).
Proof.
  intros Hq He Hr. unfold rc_qp_reset_to_init, on_qp.
  rewrite (bind_run _ _ _ _ _ (on_ep_run i _ s e He)).
  rewrite (step_run _ _ _ (put_ep i _ s) _ (quiet_put_ep _ _ _ Hq) (put_ep_at _ _ _ _ He));
    rewrite get_set_qp; [|by rewrite Hr].
  by rewrite put_ep_twice, set_set_qp.
Qed.

(** A queue pair after the whole cycle: ready, with fresh counters. *)
Definition qp_ready : rc_qp_t := mk_qp QPS_RTS 0 0 RC_QP_ACTIVE.

Lemma cycle_run i qp_id s e m :
  quiet s -> aget (eps s) i = Some e ->
  steps [rc_qp_reset i qp_id; rc_qp_reset_to_init i qp_id; rc_qp_init_to_rtr i qp_id;
         rc_qp_rtr_to_rts i qp_id] m s =
  m (put_ep i (set_qp qp_id qp_ready e) s).
Proof.
  intros Hq He. cbn [steps].
  rewrite (bind_run _ _ _ _ _ (reset_run i qp_id s e Hq He)). cbn [Z.eqb negb].
  erewrite bind_run
    by (eapply to_init_run; [done|by eapply put_ep_at|by rewrite get_set_qp]).
  rewrite put_ep_twice, set_set_qp. cbn [Z.eqb negb].
  erewrite bind_run
    by (eapply step_run; [done|by eapply put_ep_at|by rewrite get_set_qp]).
  rewrite put_ep_twice, set_set_qp, get_set_qp. cbn [Z.eqb negb].
  erewrite bind_run
    by (eapply step_run; [done|by eapply put_ep_at|by rewrite get_set_qp]).
  by rewrite put_ep_twice, set_set_qp, get_set_qp.
Qed.

(** ** Loops over the endpoints *)

(** [g] applied to the first [n] endpoints. *)
Definition map_upto (g : Z -> dare_ib_ep_t -> dare_ib_ep_t) (n : Z)
    (l : list dare_ib_ep_t) : list dare_ib_ep_t :=
  imap (fun j e => if Z.of_nat j <? n then g (Z.of_nat j) e else e) l.

Lemma map_upto_lookup g n l (j : nat) :
  map_upto g n l !! j =
  (fun e => if Z.of_nat j <? n then g (Z.of_nat j) e else e) <$> l !! j.
Proof. unfold map_upto. by rewrite list_lookup_imap. Qed.

Lemma map_upto_0 g l : map_upto g 0 l = l.
Proof.
  apply list_eq. intros j. rewrite map_upto_lookup.
  rewrite (proj2 (Z.ltb_ge _ _)) by lia. by destruct (l !! j).
Qed.

Lemma map_upto_S g n l e :
  0 <= n -> aget l n = Some e ->
  <[Z.to_nat n := g n e]> (map_upto g n l) = map_upto g (n + 1) l.
Proof.
  intros Hn He. pose proof (aget_Some _ _ _ He) as Hlt.
  unfold aget in He. rewrite (proj2 (Z.leb_le 0 n) Hn) in He.
  apply list_eq. intros j. destruct (decide (j = Z.to_nat n)) as [->|Hne].
  - rewrite list_lookup_insert_eq by (unfold map_upto; rewrite length_imap; lia).
    rewrite map_upto_lookup, He. simpl.
    rewrite (proj2 (Z.ltb_lt _ _)) by lia. by rewrite Z2Nat.id.
  - rewrite list_lookup_insert_ne by done. rewrite !map_upto_lookup.
    repeat zcase; done || lia.
Qed.

(** A loop whose body rewrites the endpoint of its index. *)
Lemma for_eps_run {A} (P : srv -> Prop) (f : Z -> M (option A))
    (g : Z -> dare_ib_ep_t -> dare_ib_ep_t) n s :
  (forall i s' e, 0 <= i < n -> P s' -> aget (eps s') i = Some e ->
     f i s' = Ret None (put_ep i (g i e) s')) ->
  (forall l s', P s' -> P (set_eps l s')) ->
  P s -> 0 <= n <= Z.of_nat (length (eps s)) ->
  for_ret (upto n) f s = Ret None (set_eps (map_upto g n (eps s)) s).
Proof.
  intros Hf Hstab HP [Hn Hlen]. revert Hf Hlen. pattern n. revert n Hn.
  apply natlike_ind; [|intros n Hn IH].
  - intros _ _. rewrite map_upto_0, set_eps_id. done.
  - intros Hf Hlen. unfold Z.succ. rewrite upto_S, for_ret_app by done.
    rewrite (bind_run _ _ _ _ _ (IH ltac:(intros; apply Hf; auto; lia) ltac:(lia))).
    destruct (aget_is_Some (eps s) n) as [e He]; [lia|].
    assert (aget (map_upto g n (eps s)) n = Some e) as He'.
    { unfold aget in *. rewrite (proj2 (Z.leb_le 0 n)) in * by lia.
      rewrite map_upto_lookup, He, (proj2 (Z.ltb_ge _ _)) by lia. done. }
    cbn [for_ret]. unfold mbind, M_bind.
    rewrite (Hf n _ e) by (done || lia || by apply Hstab).
    unfold put_ep. simpl. by rewrite map_upto_S.
Qed.

(** ** Revoking and restoring access *)

(** What the code does to one endpoint. *)
Definition revoke_ep (c : server_config_t) (i : Z) (e : dare_ib_ep_t) : dare_ib_ep_t :=
  if other_server c i && negb (rc_connected e =? 0) && negb (log_access e =? 0)
  then set_log_access 0 (set_log_qp (set_qp_hw QPS_RESET (log_qp e)) e)
  else e.

Definition grant_ep (c : server_config_t) (i : Z) (e : dare_ib_ep_t) : dare_ib_ep_t :=
  if other_server c i && negb (rc_connected e =? 0) && negb (log_access e =? 1)
  then set_log_access 1 (set_log_qp qp_ready e)
  else e.

Lemma revoke_one_run i s e :
  quiet s -> aget (eps s) i = Some e ->
  revoke_one i s = Ret None (put_ep i (revoke_ep (conf s) i e) s).
Proof.
  intros Hq He. unfold revoke_one, revoke_ep. rewrite bind_get.
  destruct (other_server (conf s) i); cbn [negb andb]; [|by rewrite put_ep_id].
  rewrite (bind_run _ _ _ _ _ (ep_at_run i s e He)).
  destruct (rc_connected e =? 0); cbn [negb andb orb]; [by rewrite put_ep_id|].
  destruct (log_access e =? 0); cbn [negb]; [by rewrite put_ep_id|].
  rewrite (bind_run _ _ _ _ _ (reset_run i LOG_QP s e Hq He)). cbn [Z.eqb negb].
  erewrite bind_run by (eapply on_ep_run; by eapply put_ep_at).
  by rewrite put_ep_twice.
Qed.

Lemma revoke_run s :
  quiet s ->
  0 <= get_extended_group_size (cid (conf s)) <= Z.of_nat (length (eps s)) ->
  rc_revoke_log_access s =
  Ret 0 (set_eps (map_upto (revoke_ep (conf s))
                    (get_extended_group_size (cid (conf s))) (eps s)) s).
Proof.
  intros Hq Hlen. unfold rc_revoke_log_access. rewrite bind_get.
  rewrite (bind_run _ _ s None (set_eps (map_upto (revoke_ep (conf s))
    (get_extended_group_size (cid (conf s))) (eps s)) s)); [done|].
  apply (for_eps_run (fun s' => quiet s' /\ conf s' = conf s) _ (revoke_ep (conf s)));
    auto. intros i s' e _ [Hq' Hc] He. rewrite <- Hc. by apply revoke_one_run.
Qed.

Lemma grant_run i s e :
  quiet s -> aget (eps s) i = Some e ->
  rc_qp_reset_to_rts i LOG_QP s = Ret (no_ret (ib s)) (put_ep i (set_log_qp qp_ready e) s).
Proof. intros Hq He. unfold rc_qp_reset_to_rts. by rewrite (cycle_run i LOG_QP s e). Qed.

Lemma restore_one_run i s e :
  quiet s -> no_ret (ib s) = 0 -> aget (eps s) i = Some e ->
  restore_one i s = Ret None (put_ep i (grant_ep (conf s) i e) s).
Proof.
  intros Hq Hr He. unfold restore_one, grant_ep. rewrite bind_get.
  destruct (other_server (conf s) i); cbn [negb andb]; [|by rewrite put_ep_id].
  rewrite (bind_run _ _ _ _ _ (ep_at_run i s e He)).
  destruct (rc_connected e =? 0); cbn [negb andb orb]; [by rewrite put_ep_id|].
  destruct (log_access e =? 1); cbn [negb]; [by rewrite put_ep_id|].
  rewrite (bind_run _ _ _ _ _ (grant_run i s e Hq He)), Hr. cbn [Z.eqb negb].
  erewrite bind_run by (eapply on_ep_run; by eapply put_ep_at).
  by rewrite put_ep_twice.
Qed.

(** ** Theorems *)

(** The bookkeeping is right: a log queue pair without access is in RESET. *)
Definition access_inv (s : srv) : Prop :=
  forall i e, aget (eps s) i = Some e -> log_access e = 0 -> qp_hw (log_qp e) = QPS_RESET.

(** The device, the table of endpoints and the configuration fit together. *)
Record fabric_ok (s : srv) : Prop := {
  fab_quiet : quiet s;
  fab_ret : no_ret (ib s) = 0;
  fab_size : 0 <= get_extended_group_size (cid (conf s)) <= Z.of_nat (length (eps s))
}.

(** The servers that can write the log of [s]. *)
Definition log_writable (s : srv) (i : Z) : Prop :=
  exists e, aget (eps s) i = Some e /\ qp_hw (log_qp e) = QPS_RTS.

Lemma aget_map_upto g n l i e' :
  aget (map_upto g n l) i = Some e' ->
  exists e, aget l i = Some e /\ e' = if i <? n then g i e else e.
Proof.
  unfold aget. destruct (Z.leb_spec 0 i) as [Hi|]; [|done].
  rewrite map_upto_lookup, Z2Nat.id by lia.
  destruct (l !! Z.to_nat i) as [e|]; [|done]. intros [= <-]. eauto.
Qed.

(** The state after revoking. *)
Definition revoked (s : srv) : srv :=
  set_eps (map_upto (revoke_ep (conf s)) (get_extended_group_size (cid (conf s))) (eps s)) s.

Lemma revoked_inv s : access_inv s -> access_inv (revoked s).
Proof.
  intros Hinv i e' He' Hla. apply aget_map_upto in He' as (e & He & ->).
  revert Hla. zcase; [|by apply (Hinv i)]. unfold revoke_ep.
  destruct (_ && _ && _); [done|]. by apply (Hinv i).
Qed.

Lemma revoked_access s i e' :
  access_inv s -> aget (eps (revoked s)) i = Some e' ->
  i < get_extended_group_size (cid (conf s)) -> other_server (conf s) i = true ->
  rc_connected e' <> 0 -> log_access e' = 0 /\ qp_hw (log_qp e') = QPS_RESET.
Proof.
  intros Hinv He' Hi Ho Hc.
  assert (log_access e' = 0) as Hla.
  { apply aget_map_upto in He' as (e & He & ->). revert Hc.
    rewrite (proj2 (Z.ltb_lt _ _) Hi). unfold revoke_ep. rewrite Ho. cbn [andb].
    repeat zcase; simpl; try done. }
  split; [done|]. by apply (revoked_inv s Hinv i).
Qed.

(** C30. Exclusive access: when the bookkeeping is right, [rc_revoke_log_access]
    returns 0 and afterwards no other connected server of the (extended)
    configuration has its log queue pair ready, so none can write the local
    log; nothing but the endpoints changes. *)
Theorem revoke_gives_exclusive_access s :
  fabric_ok s -> access_inv s ->
  exists s', rc_revoke_log_access s = Ret 0 s' /\ s' = set_eps (eps s') s /\
    access_inv s' /\
    forall i e', aget (eps s') i = Some e' ->
      i < get_extended_group_size (cid (conf s)) -> other_server (conf s) i = true ->
      rc_connected e' <> 0 -> log_access e' = 0 /\ ~ log_writable s' i.
Proof.
  intros [Hq _ Hlen] Hinv. exists (revoked s). split; [by apply revoke_run|].
  split; [done|]. split; [by apply revoked_inv|]. intros i e' He' Hi Ho Hc.
  destruct (revoked_access s i e' Hinv He' Hi Ho Hc) as [Hla Hhw].
  split; [done|]. intros (e'' & He'' & Hrts). congruence.
Qed.

Lemma revoke_gives_exclusive_access_witness :
  exists s', rc_revoke_log_access (demo_srv 3 0) = Ret 0 s' /\ ~ log_writable s' 1.
Proof.
  destruct (revoke_gives_exclusive_access (demo_srv 3 0)) as (s' & Hrun & Hs' & _ & Hex).
  - split; vm_compute; auto. split; discriminate.
  - intros i e He _. apply demo_eps in He as ->. reflexivity.
  - exists s'. split; [exact Hrun|].
    vm_compute in Hrun. injection Hrun as <-.
    apply (Hex 1 ep_connected); [reflexivity|reflexivity|reflexivity|discriminate].
Defined.

(** After revoking, [rc_restore_log_access] on a server that follows
    [leader] returns 0 and makes the leader, and no other connected server of
    the configuration, able to write the local log. *)
Theorem restore_grants_leader_only s leader e :
  fabric_ok s -> access_inv s ->
  (forall i e', aget (eps s) i = Some e' -> rc_connected e' <> 0 -> log_access e' = 0) ->
  SID_GET_IDX (sid (ctrl s)) = leader -> leader <> idx (conf s) ->
  CID_IS_SERVER_ON (cid (conf s)) leader = true ->
  aget (eps s) leader = Some e -> rc_connected e <> 0 ->
  exists s', rc_restore_log_access s = Ret 0 s' /\ s' = set_eps (eps s') s /\
    access_inv s' /\
    forall i e', aget (eps s') i = Some e' -> rc_connected e' <> 0 ->
      (log_writable s' i <-> i = leader).
Proof.
  intros [Hq Hr _] Hinv Hno Hsid Hne Hon He Hc. unfold rc_restore_log_access.
  rewrite !bind_get, Hsid. rewrite (proj2 (Z.eqb_neq _ _) Hne). cbn [negb].
  rewrite Hon. cbn [negb]. rewrite (bind_run _ _ _ _ _ (ep_at_run _ s e He)).
  rewrite (proj2 (Z.eqb_neq _ _) Hc), (Hno _ _ He Hc). cbn [Z.eqb].
  rewrite (bind_run _ _ _ _ _ (grant_run leader s e Hq He)), Hr. cbn [Z.eqb negb].
  erewrite bind_run by (eapply on_ep_run; by eapply put_ep_at).
  rewrite put_ep_twice. set (e1 := set_log_access 1 _).
  assert (forall i, i <> leader -> forall e', aget (eps (put_ep leader e1 s)) i = Some e' ->
    aget (eps s) i = Some e') as Hother.
  { intros i Hi e' He'. pose proof (aget_Some _ _ _ He). pose proof (aget_Some _ _ _ He').
    unfold aget in *. rewrite (proj2 (Z.leb_le 0 i)) in * by lia.
    unfold put_ep in He'; simpl in He'. by rewrite list_lookup_insert_ne in He' by lia. }
  pose proof (put_ep_at leader e1 e s He) as He1.
  eexists. split; [done|]. split; [done|]. split.
  - intros i e' He' Hla. destruct (decide (i = leader)) as [->|Hi]; [|eauto].
    assert (e' = e1) as -> by congruence. done.
  - intros i e' He' Hc'. destruct (decide (i = leader)) as [->|Hi].
    + split; [done|]. intros _. by exists e1.
    + split; [|done]. intros (e'' & He'' & Hrts).
      assert (e'' = e') as -> by congruence. apply (Hother i Hi) in He'.
      by rewrite (Hinv i e' He' (Hno i e' He' Hc')) in Hrts.
Qed.

(** Server 0 of three that follows server 2. *)
Definition demo_follower : srv :=
  set_ctrl (set_sid (mk_sid 1 true 2) ctrl_new) (demo_srv 3 0).

Lemma restore_grants_leader_only_witness :
  exists s', rc_restore_log_access demo_follower = Ret 0 s' /\
    log_writable s' 2 /\ ~ log_writable s' 1.
Proof.
  destruct (restore_grants_leader_only demo_follower 2 ep_connected)
    as (s' & Hrun & _ & _ & Hw).
  - split; vm_compute; auto. split; discriminate.
  - intros i e He _. apply (demo_eps 3 0) in He as ->. reflexivity.
  - intros i e He _. apply (demo_eps 3 0) in He as ->. reflexivity.
  - reflexivity.
  - discriminate.
  - reflexivity.
  - reflexivity.
  - discriminate.
  - exists s'. split; [exact Hrun|]. vm_compute in Hrun. injection Hrun as <-. split.
    + apply (Hw 2 (set_log_access 1 (set_log_qp qp_ready ep_connected)));
        [reflexivity|discriminate|reflexivity].
    + intros H. apply (Hw 1 ep_connected) in H; [discriminate|reflexivity|discriminate].
Defined.

(** The bookkeeping can be wrong: a leader connects the log queue pair of
    a new server with [rc_connect_server], which does not set [log_access];
    the next [rc_revoke_log_access] then skips that server and leaves it able
    to write the local log. *)
Theorem connected_by_leader_survives_revoke s i e :
  fabric_ok s -> aget (eps s) i = Some e -> log_access e = 0 ->
  exists s1 s2, rc_connect_server i LOG_QP s = Ret 0 s1 /\
    rc_revoke_log_access s1 = Ret 0 s2 /\ log_writable s2 i.
Proof.
  intros [Hq Hr Hlen] He Hla.
  assert (rc_connect_server i LOG_QP s = Ret 0 (put_ep i (set_log_qp qp_ready e) s)) as Hcon.
  { unfold rc_connect_server. rewrite (bind_run _ _ _ _ _ (ep_at_run _ s e He)).
    case_decide as Hd; [|apply (cycle_run i LOG_QP s e (mret 0) Hq He)].
    etrans; [|apply (cycle_run i LOG_QP s e (mret 0) Hq He)]. cbn [app steps].
    rewrite (bind_run _ _ _ _ _ (reset_run i LOG_QP s e Hq He)). cbn [Z.eqb negb].
    rewrite put_ep_id; [done|]. rewrite He. f_equal. unfold set_qp, get_qp in *; simpl in *.
    by destruct e as [? ? [] ? ?]; simpl in *; subst. }
  eexists _, _. split; [done|]. split.
  { apply revoke_run; [done|]. unfold put_ep; simpl. by rewrite length_insert. }
  exists (set_log_qp qp_ready e). split; [|done].
  unfold aget; simpl. pose proof (aget_Some _ _ _ He) as Hi.
  rewrite (proj2 (Z.leb_le 0 i)) by lia. rewrite map_upto_lookup.
  rewrite list_lookup_insert_eq by lia. simpl. f_equal.
  unfold revoke_ep; simpl. rewrite Hla. simpl. rewrite andb_false_r.
  by destruct (_ <? _).
Qed.

Lemma connected_by_leader_survives_revoke_witness :
  exists s1 s2, rc_connect_server 1 LOG_QP (demo_srv 3 0) = Ret 0 s1 /\
    rc_revoke_log_access s1 = Ret 0 s2 /\ log_writable s2 1.
Proof.
  apply (connected_by_leader_survives_revoke (demo_srv 3 0) 1 ep_connected).
  - split; vm_compute; auto. split; discriminate.
  - reflexivity.
  - reflexivity.
Defined.

(** [rc_qp_reset_to_rts] forgets its return value: although the device
    makes the leader's queue pair ready, [rc_restore_log_access] reports the
    error 1 whenever the value left behind is not 0. *)
Theorem restore_uses_missing_return s leader e :
  quiet s -> SID_GET_IDX (sid (ctrl s)) = leader -> leader <> idx (conf s) ->
  CID_IS_SERVER_ON (cid (conf s)) leader = true ->
  aget (eps s) leader = Some e -> rc_connected e <> 0 -> log_access e = 0 ->
  no_ret (ib s) <> 0 ->
  exists s', rc_restore_log_access s = Ret 1 s' /\ log_writable s' leader.
Proof.
  intros Hq Hsid Hne Hon He Hc Hla Hr. unfold rc_restore_log_access.
  rewrite !bind_get, Hsid. rewrite (proj2 (Z.eqb_neq _ _) Hne). cbn [negb].
  rewrite Hon. cbn [negb]. rewrite (bind_run _ _ _ _ _ (ep_at_run _ s e He)).
  rewrite (proj2 (Z.eqb_neq _ _) Hc), Hla. cbn [Z.eqb].
  rewrite (bind_run _ _ _ _ _ (grant_run leader s e Hq He)).
  rewrite (proj2 (Z.eqb_neq _ _) Hr). cbn [negb].
  eexists. split; [done|]. exists (set_log_qp qp_ready e). split; [|done].
  by eapply put_ep_at.
Qed.

Lemma restore_uses_missing_return_witness :
  exists s', rc_restore_log_access
      (set_ib (mk_ib [] [] [] [] [] 7 100 [] 0 false [] 0) demo_follower) = Ret 1 s' /\
    log_writable s' 2.
Proof.
  apply (restore_uses_missing_return
    (set_ib (mk_ib [] [] [] [] [] 7 100 [] 0 false [] 0) demo_follower) 2 ep_connected).
  - reflexivity.
  - reflexivity.
  - discriminate.
  - reflexivity.
  - reflexivity.
  - discriminate.
  - reflexivity.
  - discriminate.
Defined.
