(* ===== verification/Cq.v ===== *)
(** * Posting and completing RDMA operations (dare_ibv_rc.c)

    [post_send], the handling of work completions and the waiting loops.  A
    completion queue is the list of the answers [ibv_poll_cq] will give; when
    it is exhausted, a loop that keeps polling waits forever.  The data of
    completed reads arrives with their completions. *)

From S2P Require Import Prelude Bytes Words Config Log State Hoare Qp.

Open Scope Z_scope.

Definition RC_ERROR : Z := 1.
Definition RC_SUCCESS : Z := 0.
Definition RC_INSUCCESS : Z := -1.

Definition WC_SUCCESS : Z := 0.
Definition WC_ERROR : Z := 1.
Definition WC_FAILURE : Z := 2.
Definition WC_SOFTWARE_BUG : Z := 3.

(** ** The device *)

(** The effect of a completed read on local memory. *)
Definition apply_dma (d : dma) : M unit :=
  match d with
  | D_rsid i v => ctrl_put rsid set_rsid i (u64 v)
  | D_commit_end i c e =>
      o ← ctrl_get log_offsets i;
      ctrl_put log_offsets set_log_offsets i (set_lo_end e (set_lo_commit c o))
  | D_nc_len i n =>
      l ← get (fun s => nc_buf (slog s));
      b ← or_fault (aget l i);
      l' ← or_fault (aset l i (mk_nc n (nc_entries b)));
      on_log (fun g => set_nc_buf g l')
  | D_nc_entries i ds =>
      l ← get (fun s => nc_buf (slog s));
      b ← or_fault (aget l i);
      l' ← or_fault (aset l i (mk_nc (nc_len b) (ds ++ drop (length ds) (nc_entries b))));
      on_log (fun g => set_nc_buf g l')
  | D_apply i v => ctrl_put apply_offsets set_apply_offsets i v
  | D_snapshot Snap_prereg v => on_glob (set_prereg_snapshot v)
  | D_snapshot Snap_alloc v => on_glob (set_heap_snapshot v)
  | D_log o bs => on_log (fun g => set_entries g (wr_bytes (entries g) o bs))
  end.

Definition get_cq (qp_id : Z) (b : ib_t) : list poll :=
  if qp_id =? LOG_QP then log_cq b else ctrl_cq b.
Definition set_cq (qp_id : Z) (l : list poll) (b : ib_t) : ib_t :=
  if qp_id =? LOG_QP then set_log_cq l b else set_ctrl_cq l b.

Fixpoint each {A} (f : A -> M unit) (l : list A) : M unit :=
  match l with
  | [] => mret tt
  | x :: l' => f x ;; each f l'
  end.

Definition apply_wc (w : wc) : M unit := each apply_dma (wc_dma w).

(** [ibv_poll_cq]: the new completions go to the start of the WC array. *)
Definition ibv_poll_cq (qp_id : Z) : M (option (list wc)) :=
  q ← get (fun s => get_cq qp_id (ib s));
  match q with
  | [] => mret (Some [])
  | PollErr :: q' => on_ib (set_cq qp_id q') ;; mret None
  | Poll l :: q' =>
      on_ib (fun b => set_wc_array (l ++ drop (length l) (wc_array b)) (set_cq qp_id q' b)) ;;
      each apply_wc l ;;
      mret (Some l)
  end.

Definition ibv_post_send (w : wr) : M Z :=
  l ← get (fun s => post_res (ib s));
  on_ib (fun b => set_posted (w :: posted b) (set_post_res (drop 1 l) b)) ;;
  mret (default 0 (l !! 0%nat)).

(** ** Completions *)

Definition handle_work_completion (w : wc) : Z :=
  match wc_status w with
  | IBV_WC_SUCCESS => WC_SUCCESS
  | IBV_WC_LOC_LEN_ERR | IBV_WC_LOC_QP_OP_ERR | IBV_WC_LOC_EEC_OP_ERR
  | IBV_WC_LOC_PROT_ERR | IBV_WC_MW_BIND_ERR | IBV_WC_LOC_ACCESS_ERR
  | IBV_WC_REM_ACCESS_ERR | IBV_WC_RNR_RETRY_EXC_ERR | IBV_WC_LOC_RDD_VIOL_ERR
  | IBV_WC_REM_INV_RD_REQ_ERR | IBV_WC_REM_ABORT_ERR | IBV_WC_INV_EECN_ERR
  | IBV_WC_INV_EEC_STATE_ERR => WC_SOFTWARE_BUG
  | IBV_WC_WR_FLUSH_ERR => WC_FAILURE
  | IBV_WC_BAD_RESP_ERR | IBV_WC_REM_INV_REQ_ERR | IBV_WC_REM_OP_ERR => WC_ERROR
  | IBV_WC_RETRY_EXC_ERR => WC_FAILURE
  | IBV_WC_FATAL_ERR | IBV_WC_RESP_TIMEOUT_ERR | IBV_WC_GENERAL_ERR => WC_ERROR
  end.

(** The log replication state of a server after its work request completed. *)
Definition lr_success (v : server_t) : server_t :=
  if next_lr_step v =? LR_UPDATE_LOG then
    if send_count v =? 0 then set_send_flag 1 v
    else if send_count v =? 1 then set_send_flag 1 (set_next_lr_step LR_UPDATE_END v)
    else if send_count v =? 2 then set_send_count (u8 (send_count v - 1)) v
    else v
  else if negb (next_lr_step v =? LR_UPDATE_END) then
    set_send_flag 1 (set_next_lr_step (u8 (next_lr_step v + 1)) v)
  else set_send_flag 1 (set_next_lr_step LR_UPDATE_LOG v).

Definition lr_failure (v : server_t) : server_t :=
  if next_lr_step v =? LR_UPDATE_LOG then
    if (send_count v =? 0) || (send_count v =? 1) then set_send_flag 1 v
    else if send_count v =? 2 then set_send_count 0 v
    else v
  else set_send_flag 1 v.

Definition handle_lr_work_completion (k : Z) (wc_rc : Z) : M unit :=
  a ← get (fun s => wc_array (ib s));
  w ← or_fault (aget a (u8 k));
  let wr_id := WRID_UNSET_WA (WRID_UNSET_TAG (wc_wr_id w)) in
  let conn := WRID_GET_CONN wr_id in
  v ← server_at conn;
  when (wr_id =? next_wr_id v)
    (on_server conn (if wc_rc =? WC_SUCCESS then lr_success else lr_failure)).

(** The part of the loops before [handle_work_completion]: read counters and
    the special signaled request.  The result says whether the queue pair can
    be restarted, and whether the signaled request was found. *)
Definition note_completion (qp_id wr_id : Z) : M (bool * bool) :=
  let conn := WRID_GET_CONN wr_id in
  v ← server_at conn;
  e ← ep_at conn;
  when ((qp_id =? LOG_QP) && (last_get_read_ssn v <=? WRID_GET_SSN wr_id))
    (on_server conn (set_last_get_read_ssn 0)) ;;
  let q := get_qp qp_id e in
  if negb (signaled_wr_id q =? 0) then
    if wr_id =? signaled_wr_id q then
      on_qp conn qp_id (fun q =>
        let q := set_signaled_wr_id (WRID_UNSET_TAG (signaled_wr_id q)) q in
        if qp_st q =? RC_QP_BLOCKED then set_qp_st RC_QP_ERROR q else q) ;;
      mret (true, true)
    else mret (false, false)
  else mret (true, false).

(** The reaction to a failed request. *)
Definition fail_completion (qp_id conn : Z) (can_restart_qp : bool) : M unit :=
  on_qp conn qp_id (fun q =>
    if can_restart_qp then set_qp_st RC_QP_ERROR q
    else if negb (qp_st q =? RC_QP_ERROR) then set_qp_st RC_QP_BLOCKED q else q) ;;
  when (qp_id =? CTRL_QP)
    (on_server conn (fun v => set_fail_count (u8 (fail_count v + 1)) v)).

(** ** Emptying a completion queue *)

(** [posted_sends] of the callers: [None] is a null pointer. *)
Definition sends_update (ps : option (list Z)) (i : Z) (f : Z -> Z) : M (option (list Z)) :=
  match ps with
  | None => mret None
  | Some l => x ← or_fault (aget l i); l' ← or_fault (aset l i (f x)); mret (Some l')
  end.

Definition ecq_one (server_id qp_id k : Z) (w : wc) (st : bool * option (list Z))
    : M (bool * option (list Z)) :=
  let '(wait, ps) := st in
  let wr_id := wc_wr_id w in
  let conn := WRID_GET_CONN wr_id in
  r ← note_completion qp_id wr_id;
  let '(can_restart_qp, found) := (r : bool * bool) in
  let wait := if found && (conn =? server_id) then false else wait in
  let rc := handle_work_completion w in
  handle_lr_work_completion k rc ;;
  n ← get (fun s => ssn (ib s));
  if rc =? WC_SUCCESS then
    on_server conn (set_fail_count 0) ;;
    ps ← (if WRID_GET_SSN wr_id =? n then sends_update ps conn (fun x => x - 1)
          else mret ps);
    mret (wait, ps)
  else if rc =? WC_FAILURE then
    fail_completion qp_id conn can_restart_qp ;;
    ps ← (if WRID_GET_SSN wr_id =? n then sends_update ps conn (fun _ => -1)
          else mret ps);
    mret (wait, ps)
  else mret (wait, ps).

Fixpoint ecq_wcs (server_id qp_id k : Z) (l : list wc) (st : bool * option (list Z))
    : M (bool * option (list Z)) :=
  match l with
  | [] => mret st
  | w :: l' => st' ← ecq_one server_id qp_id k w st; ecq_wcs server_id qp_id (k + 1) l' st'
  end.

Fixpoint ecq_loop (n : nat) (server_id qp_id : Z) (st : bool * option (list Z))
    : M (option (list Z)) :=
  match n with
  | O => hang
  | S n' =>
      r ← ibv_poll_cq qp_id;
      match r with
      | None => ecq_loop n' server_id qp_id st
      | Some [] => if fst st then ecq_loop n' server_id qp_id st else mret (snd st)
      | Some l => st' ← ecq_wcs server_id qp_id 0 l st; ecq_loop n' server_id qp_id st'
      end
  end.

(** Every iteration but the last consumes an answer of the device. *)
Definition empty_completion_queue (server_id qp_id : Z) (wait : bool)
    (ps : option (list Z)) : M (option (list Z)) :=
  n ← get (fun s => length (get_cq qp_id (ib s)));
  ecq_loop (S n) server_id qp_id (wait, ps).

(** ** Posting *)

(** The identifier of the next work request for a server. *)
Definition next_wrid (n : Z) (server_id : Z) (wa : bool) : Z :=
  let w := WRID_SET_CONN (WRID_SET_SSN 0 n) server_id in
  if wa then WRID_SET_WA w else w.

(** The counters of the queue pair when [wr_id] is posted, whether the request
    carries the special signal, and whether the queue is full. *)
Definition count_send (max wr_id : Z) (q : rc_qp_t) : rc_qp_t * bool * bool :=
  let q := if negb (signaled_wr_id q =? 0) && (WRID_GET_TAG (signaled_wr_id q) =? 0)
           then set_signaled_wr_id 0 q else q in
  if (qp_send_count q =? Z.shiftr max 2) && (signaled_wr_id q =? 0) then
    (set_qp_send_count 0 (set_signaled_wr_id (WRID_SET_TAG wr_id) q), true, false)
  else if (qp_send_count q =? Z.shiftr (3 * max) 2) && negb (signaled_wr_id q =? 0) then
    (q, false, true)
  else (q, false, false).

Definition post_send (server_id qp_id : Z) (loc : rloc) (p : payload) (signaled : bool)
    (ps : option (list Z)) : M (Z * option (list Z)) :=
  e ← ep_at server_id;
  (if qp_st (get_qp qp_id e) =? RC_QP_BLOCKED
   then empty_completion_queue server_id qp_id true None ;; mret tt
   else mret tt) ;;
  e ← ep_at server_id;
  when (qp_st (get_qp qp_id e) =? RC_QP_ERROR)
    (rc_qp_restart server_id qp_id ;;
     on_qp server_id qp_id (fun q => set_qp_send_count 0 (set_qp_st RC_QP_ACTIVE q))) ;;
  on_qp server_id qp_id (fun q => set_qp_send_count (u32 (qp_send_count q + 1)) q) ;;
  b ← get ib;
  let wr_id := next_wrid (ssn b) server_id (wa_flag b) in
  on_ib (set_wa_flag false) ;;
  e ← ep_at server_id;
  let '(q, tagged, wait) := count_send (rc_max_send_wr b) wr_id (get_qp qp_id e) in
  on_qp server_id qp_id (fun _ => q) ;;
  let wr_id := if tagged then WRID_SET_TAG wr_id else wr_id in
  rc ← ibv_post_send (mk_wr server_id qp_id loc p (signaled || tagged) wr_id);
  if negb (rc =? 0) then mret (1, ps)
  else ps ← empty_completion_queue server_id qp_id wait ps; mret (0, ps).

(** ** Waiting *)

Definition count_where (f : Z -> bool) (ps : list Z) (n : Z) : M Z :=
  l ← or_fault (mapM (aget ps) (upto n));
  mret (u8 (Z.of_nat (length (filter (fun x => f x = true) l)))).

Fixpoint sum_sends (l : list Z) : Z :=
  match l with
  | [] => 0
  | x :: l' => if x <? 0 then sum_sends l' else u8 (u8 x + sum_sends l')
  end.

Definition posted_count (ps : list Z) (n : Z) : M Z :=
  l ← or_fault (mapM (aget ps) (upto n));
  mret (sum_sends l).

(** What both waiting loops do with a completion: the result is the code of
    the completion, [None] when the server is not connected.  The status is
    the one of the first entry of the array. *)
Definition wait_completion (qp_id k wr_id : Z) : M (option Z) :=
  let conn := WRID_GET_CONN wr_id in
  r ← note_completion qp_id wr_id;
  e ← ep_at conn;
  if rc_connected e =? 0 then mret None
  else
    a ← get (fun s => wc_array (ib s));
    w0 ← or_fault (a !! 0%nat);
    let rc := handle_work_completion w0 in
    handle_lr_work_completion k rc ;;
    when (rc =? WC_SUCCESS) (on_server conn (set_fail_count 0)) ;;
    when (rc =? WC_FAILURE) (fail_completion qp_id conn (fst (r : bool * bool))) ;;
    mret (Some rc).

(** The locals of the loops: successes, sends in flight and [posted_sends]. *)
Record waiting := mk_waiting {
  success_count : Z;
  posted_send_count : Z;
  posted_sends : list Z
}.

Definition wfm_one (size qp_id k : Z) (w : wc) (st : waiting) : M waiting :=
  let wr_id := wc_wr_id w in
  let conn := WRID_GET_CONN wr_id in
  n ← get (fun s => ssn (ib s));
  rc ← wait_completion qp_id k wr_id;
  let posted := if WRID_GET_SSN wr_id =? n then u8 (posted_send_count st - 1)
                else posted_send_count st in
  let st := mk_waiting (success_count st) posted (posted_sends st) in
  if negb (bool_decide (rc = Some WC_SUCCESS)) then mret st
  else if WRID_GET_SSN wr_id <? n then mret st
  else
    x ← or_fault (aget (posted_sends st) conn);
    ps ← or_fault (aset (posted_sends st) conn (x - 1));
    let success := if (x - 1 =? 0) && (conn <? size) then u8 (success_count st + 1)
                   else success_count st in
    mret (mk_waiting success posted ps).

Fixpoint wfm_wcs (size qp_id k : Z) (l : list wc) (st : waiting) : M waiting :=
  match l with
  | [] => mret st
  | w :: l' => st' ← wfm_one size qp_id k w st; wfm_wcs size qp_id (k + 1) l' st'
  end.

(** Both loops count the completions of a poll in eight bits. *)
Definition low_wcs (l : list wc) : list wc :=
  take (Z.to_nat (u8 (Z.of_nat (length l)))) l.

Fixpoint wfm_loop (n : nat) (size qp_id : Z) (st : waiting) : M (bool * waiting) :=
  if (success_count st <=? size / 2) && negb (posted_send_count st =? 0) then
    match n with
    | O => hang
    | S n' =>
        r ← ibv_poll_cq qp_id;
        match r with
        | None => mret (false, st)
        | Some l => st' ← wfm_wcs size qp_id 0 (low_wcs l) st; wfm_loop n' size qp_id st'
        end
    end
  else mret (true, st).

(** One pass of the outer loop, for the size [size[j]] of the configuration:
    whether polling worked, whether there is a majority, and the counters. *)
Definition wfm_pass (j qp_id posted : Z) (ps : list Z) : M (bool * bool * waiting) :=
  c ← get (fun s => cid (conf s));
  let size := cid_size c j in
  success ← count_where (fun x => x =? 0) ps size;
  n ← get (fun s => length (get_cq qp_id (ib s)));
  r ← wfm_loop (S n) size qp_id (mk_waiting success posted ps);
  mret (r.1, size / 2 <? success_count r.2, r.2).

Definition majority_rc (b : bool) : Z := if b then RC_SUCCESS else RC_INSUCCESS.

Definition wait_for_majority (ps : list Z) (qp_id : Z) : M (Z * list Z) :=
  size ← get (fun s => get_group_size (cid (conf s)));
  posted ← posted_count ps size;
  r ← wfm_pass 0 qp_id posted ps;
  let '(polled, ok, st) := (r : bool * bool * waiting) in
  if negb polled then mret (RC_ERROR, posted_sends st)
  else
    c ← get (fun s => cid (conf s));
    if CID_STABLE =? state c then mret (majority_rc ok, posted_sends st)
    else
      r ← wfm_pass 1 qp_id (posted_send_count st) (posted_sends st);
      let '(polled, ok, st) := (r : bool * bool * waiting) in
      mret (if negb polled then RC_ERROR else majority_rc ok, posted_sends st).

Definition wfo_one (qp_id k : Z) (w : wc) (st : waiting) : M waiting :=
  let wr_id := wc_wr_id w in
  let conn := WRID_GET_CONN wr_id in
  n ← get (fun s => ssn (ib s));
  rc ← wait_completion qp_id k wr_id;
  let posted := if WRID_GET_SSN wr_id =? n then u8 (posted_send_count st - 1)
                else posted_send_count st in
  let st := mk_waiting (success_count st) posted (posted_sends st) in
  if bool_decide (rc = Some WC_SUCCESS) && (WRID_GET_SSN wr_id =? n) then
    x ← or_fault (aget (posted_sends st) conn);
    ps ← or_fault (aset (posted_sends st) conn (x - 1));
    mret (mk_waiting (u8 (success_count st + 1)) posted ps)
  else mret st.

Fixpoint wfo_wcs (qp_id k : Z) (l : list wc) (st : waiting) : M waiting :=
  match l with
  | [] => mret st
  | w :: l' => st' ← wfo_one qp_id k w st; wfo_wcs qp_id (k + 1) l' st'
  end.

Fixpoint wfo_loop (n : nat) (qp_id : Z) (st : waiting) : M (bool * waiting) :=
  if (success_count st =? 0) && negb (posted_send_count st =? 0) then
    match n with
    | O => hang
    | S n' =>
        r ← ibv_poll_cq qp_id;
        match r with
        | None => mret (false, st)
        | Some l => st' ← wfo_wcs qp_id 0 (low_wcs l) st; wfo_loop n' qp_id st'
        end
    end
  else mret (true, st).

Definition wait_for_one (ps : list Z) (qp_id : Z) : M (Z * list Z) :=
  size ← get (fun s => get_group_size (cid (conf s)));
  posted ← posted_count ps size;
  success ← count_where (fun x => x =? 0) ps size;
  n ← get (fun s => length (get_cq qp_id (ib s)));
  r ← wfo_loop (S n) qp_id (mk_waiting success posted ps);
  let '(polled, st) := (r : bool * waiting) in
  mret (if negb polled then RC_ERROR else majority_rc (negb (success_count st =? 0)),
        posted_sends st).
