(* ===== verification/RcOps.v ===== *)
(** * The operations over RDMA (dare_ibv_rc.c)

    What a server does to the memory of the others during recovery, the
    heartbeats and the elections.  All of these post one request to every
    other connected server (or to one of them) and some wait for a majority or
    for one of them to complete. *)

From S2P Require Import Prelude Bytes Words Config Log State Hoare Qp Cq.

Open Scope Z_scope.

Definition PREREG_SNAPSHOT_SIZE : Z := 128 * 4096.
(** [sizeof(snapshot_t)] *)
Definition SNAPSHOT_HDR : Z := 32.

(** ** Rounds of requests *)

(** A loop that threads local variables and may return. *)
Fixpoint for_st {S A} (l : list Z) (f : Z -> S -> M (S * option A)) (st : S)
    : M (S * option A) :=
  match l with
  | [] => mret (st, None)
  | i :: l' =>
      r ← f i st;
      match r with
      | (st', Some a) => mret (st', Some a)
      | (st', None) => for_st l' f st'
      end
  end.

(** [ssn++] *)
Definition next_ssn : M unit := on_ib (fun b => set_ssn (u64 (ssn b + 1)) b).

Definition put_send (ps : option (list Z)) (i v : Z) : M (option (list Z)) :=
  sends_update ps i (fun _ => v).

(** The body of the loops that post one request on the control queue pair of
    every other server that is on and connected; [self] is the entry of
    [posted_sends] for the server itself. *)
Definition post_one (self : Z) (loc : rloc) (p : M payload) (signaled : bool)
    (i : Z) (ps : option (list Z)) : M (option (list Z) * option Z) :=
  c ← get conf;
  if i =? idx c then ps ← put_send ps i self; mret (ps, None)
  else if negb (CID_IS_SERVER_ON (cid c) i) then ps ← put_send ps i (-1); mret (ps, None)
  else
    e ← ep_at i;
    if rc_connected e =? 0 then ps ← put_send ps i (-1); mret (ps, None)
    else
      ps ← put_send ps i 1;
      v ← p;
      r ← post_send i CTRL_QP loc v signaled ps;
      let '(rc, ps) := (r : Z * option (list Z)) in
      mret (ps, if negb (rc =? 0) then Some 1 else None).

Definition post_round (size self : Z) (loc : rloc) (p : M payload) (signaled : bool)
    (ps : option (list Z)) : M (option (list Z) * option Z) :=
  for_st (upto size) (post_one self loc p signaled) ps.

(** [int posted_sends[MAX_SERVER_COUNT]], zeroed. *)
Definition zero_sends : list Z := replicate (Z.to_nat MAX_SERVER_COUNT) 0.
(** Minus one up to [size]; the rest is not initialised and never examined. *)
Definition no_sends (size : Z) : list Z :=
  replicate (Z.to_nat size) (-1) ++ replicate (Z.to_nat (MAX_SERVER_COUNT - size)) 0.

Definition read_u64 (f : srv -> Z) : M payload := v ← get f; mret (P_u64 v).

(** ** Starting a server *)

(** The best of the votes read, for one server. *)
Definition adopt_vote (ps : list Z) (i : Z) : M unit :=
  x ← or_fault (aget ps i);
  when (x =? 0)
    (r ← ctrl_get rsid i;
     sd ← get (fun s => sid (ctrl s));
     when (sd <? r) (on_ctrl (set_sid r)) ;;
     ctrl_put rsid set_rsid i 0).

Definition rc_get_replicated_vote : M Z :=
  size ← get (fun s => get_group_size (cid (conf s)));
  me ← get (fun s => idx (conf s));
  next_ssn ;;
  r ← post_round size (-1) (L_vote_sid me) (mret P_read) true (Some zero_sends);
  let '(ps, err) := (r : option (list Z) * option Z) in
  match err with
  | Some _ => mret RC_ERROR
  | None =>
      r ← wait_for_majority (default [] ps) CTRL_QP;
      let '(rc, ps) := (r : Z * list Z) in
      if rc =? RC_ERROR then mret 1
      else if negb (rc =? RC_SUCCESS) then mret (-1)
      else for_each (upto size) (adopt_vote ps) ;; mret 0
  end.

Definition rc_send_sm_request : M Z :=
  size ← get (fun s => get_group_size (cid (conf s)));
  me ← get (fun s => idx (conf s));
  ctrl_put sm_req set_sm_req me 1 ;;
  next_ssn ;;
  r ← post_round size 0 (L_sm_req me) (v ← ctrl_get sm_req me; mret (P_u64 v)) false None;
  mret (default 0 (snd (r : option (list Z) * option Z))).

(** The memory region of a snapshot, registered if need be; the result of
    [ibv_dereg_mr] is ignored. *)
Definition register_snapshot : M bool :=
  mr ← get (fun s => snapshot_mr (glob s));
  when mr (ask ;; mret tt) ;;
  r ← ask;
  on_glob (set_snapshot_mr (r =? 0)) ;;
  mret (r =? 0).

Definition rc_send_sm_reply (target : Z) (b : snap) (reg_mem : bool) : M Z :=
  ok ← (if reg_mem then register_snapshot else mret true);
  if negb ok then mret 1
  else
    mr ← get (fun s => snapshot_mr (glob s));
    (match b with
     | Snap_alloc => when (negb mr) fault   (* null memory region *)
     | Snap_prereg => mret tt
     end) ;;
    me ← get (fun s => idx (conf s));
    sn ← get (fun s => match b with
                       | Snap_prereg => prereg_snapshot (glob s)
                       | Snap_alloc => heap_snapshot (glob s)
                       end);
    sd ← get (fun s => sid (ctrl s));
    p ← get params;
    let reply := mk_sm_rep sd (mr_raddr p b) (mr_rkey p b)
                   (u32 (SNAPSHOT_HDR + snap_len sn)) in
    ctrl_put sm_rep set_sm_rep me reply ;;
    e ← ep_at target;
    if rc_connected e =? 0 then mret 0
    else
      next_ssn ;;
      r ← post_send target CTRL_QP (L_sm_rep me) (P_sm_rep reply) false None;
      mret (if negb (fst (r : Z * option (list Z)) =? 0) then RC_ERROR else 0).

(** Allocate and register memory for a snapshot that exceeds the
    pre-registered one. *)
Definition alloc_snapshot : M bool :=
  r ← ask;
  if negb (r =? 0) then mret false else register_snapshot.

(** Free what [rc_recover_sm] allocated; [data.snapshot] was freed before the
    allocation if it was set. *)
Definition free_snapshot : M unit :=
  mr ← get (fun s => snapshot_mr (glob s));
  when mr (ask ;; on_glob (set_snapshot_mr false)) ;;
  p ← get (fun s => snapshot_ptr (glob s));
  when p fault.

Definition rc_recover_sm (target : Z) : M Z :=
  size ← get (fun s => get_group_size (cid (conf s)));
  rep ← ctrl_get sm_rep target;
  let b := if sr_len rep <=? PREREG_SNAPSHOT_SIZE then Snap_prereg else Snap_alloc in
  ok ← (match b with Snap_prereg => mret true | Snap_alloc => alloc_snapshot end);
  if negb ok then mret 1
  else
    next_ssn ;;
    ps ← or_fault (aset (no_sends size) target 1);
    r ← post_send target CTRL_QP (L_snapshot (sr_raddr rep) (sr_len rep)) P_read true (Some ps);
    let '(rc, ps) := (r : Z * option (list Z)) in
    if negb (rc =? 0) then mret RC_ERROR
    else
      r ← wait_for_one (default [] ps) CTRL_QP;
      let rc := fst (r : Z * list Z) in
      if rc =? RC_ERROR then mret 1
      else if negb (rc =? RC_SUCCESS) then mret (-1)
      else
        sn ← get (fun s => match b with
                           | Snap_prereg => prereg_snapshot (glob s)
                           | Snap_alloc => heap_snapshot (glob s)
                           end);
        emit (E_apply_snapshot (snap_len sn)) ;;
        rc ← ask;
        if negb (rc =? 0) then mret 1
        else
          on_log (fun l => set_apply l (det_offset (snap_last_entry sn))) ;;
          rep ← ctrl_get sm_rep target;
          when (PREREG_SNAPSHOT_SIZE <? sr_len rep) free_snapshot ;;
          mret 0.

(** The first server whose read completed, [size] if there is none. *)
Fixpoint find_target (ps : list Z) (l : list Z) (size : Z) : M Z :=
  match l with
  | [] => mret size
  | i :: l' =>
      x ← or_fault (aget ps i);
      if x =? 0 then mret i else find_target ps l' size
  end.

(** The offsets of the recovered log, given those read from the target. *)
Definition recovered_offsets (l : dare_log_t) (o : log_offsets_t)
    : dare_log_t * log_offsets_t :=
  let l := set_end l (lo_end o) in
  let o := if (0 <? lo_end o) && (lo_end o <? head l) then set_lo_end 0 o else o in
  let o := if log_is_offset_larger l (lo_commit o) (lo_end o)
           then set_lo_commit (lo_end o) o else o in
  (set_commit (set_end l (lo_end o)) (lo_commit o), o).

Definition recover_entries (size target : Z) : M Z :=
  o ← ctrl_get log_offsets target;
  l ← get slog;
  let '(l, o) := recovered_offsets l o in
  ctrl_put log_offsets set_log_offsets target o ;;
  on_log (fun _ => l) ;;
  let n := u32 (log_offset_end_distance l (head l)) in
  next_ssn ;;
  ps ← or_fault (aset (no_sends size) target 1);
  r ← post_send target CTRL_QP (L_log_entries (head l) n) P_read true (Some ps);
  let '(rc, ps) := (r : Z * option (list Z)) in
  if negb (rc =? 0) then mret RC_ERROR
  else
    r ← wait_for_one (default [] ps) CTRL_QP;
    let rc := fst (r : Z * list Z) in
    mret (if rc =? RC_ERROR then 1 else if negb (rc =? RC_SUCCESS) then -1 else 0).

Definition rc_recover_log : M Z :=
  size ← get (fun s => get_group_size (cid (conf s)));
  next_ssn ;;
  r ← post_round size (-1) L_log_commit_end (mret P_read) true (Some zero_sends);
  let '(ps, err) := (r : option (list Z) * option Z) in
  match err with
  | Some _ => mret RC_ERROR
  | None =>
      r ← wait_for_one (default [] ps) CTRL_QP;
      let '(rc, ps) := (r : Z * list Z) in
      if rc =? RC_ERROR then mret 1
      else if negb (rc =? RC_SUCCESS) then mret (-1)
      else
        target ← find_target ps (upto size) size;
        o ← ctrl_get log_offsets target;
        l ← get slog;
        if lo_end o =? len l then mret 0 else recover_entries size target
  end.

(** ** Heartbeats *)

Definition rc_send_hb : M Z :=
  size ← get (fun s => get_group_size (cid (conf s)));
  me ← get (fun s => idx (conf s));
  next_ssn ;;
  r ← post_round size 0 (L_hb me) (read_u64 (fun s => sid (ctrl s))) false None;
  mret (default 0 (snd (r : option (list Z) * option Z))).

Definition rc_send_hb_reply (i : Z) : M Z :=
  c ← get conf;
  if get_group_size (cid c) <=? i then mret 1
  else
    next_ssn ;;
    if negb (CID_IS_SERVER_ON (cid c) i) then mret 0
    else
      e ← ep_at i;
      if rc_connected e =? 0 then mret 0
      else
        v ← read_u64 (fun s => sid (ctrl s));
        r ← post_send i CTRL_QP (L_hb (idx c)) v false None;
        mret (if negb (fst (r : Z * option (list Z)) =? 0) then 1 else 0).

(** ** Leader election *)

(** The last entry of the log, as a candidate announces it. *)
Definition last_entry : M (Z * Z) :=
  l ← get slog;
  if is_log_empty l then mret (0, 0)
  else
    n ← get (fun s => fuel (params s));
    t ← of_outcome (log_get_tail n l);
    e ← or_fault (fst (log_get_entry l t));
    mret (entry_idx l e, entry_term l e).

Definition rc_send_vote_request : M Z :=
  c ← get conf;
  sd ← get (fun s => sid (ctrl s));
  e ← last_entry;
  let request := mk_vote_req sd (fst (e : Z * Z)) (snd (e : Z * Z)) (cid c) in
  ctrl_put vote_req set_vote_req (idx c) request ;;
  next_ssn ;;
  r ← post_round (get_group_size (cid c)) 0 (L_vote_req (idx c))
        (v ← ctrl_get vote_req (idx c); mret (P_vote_req v)) false None;
  mret (default 0 (snd (r : option (list Z) * option Z))).

Definition rc_replicate_vote : M Z :=
  c ← get conf;
  sd ← get (fun s => sid (ctrl s));
  ctrl_put prv_data set_prv_data (idx c) sd ;;
  next_ssn ;;
  r ← post_round (get_group_size (cid c)) 0 (L_vote_sid (idx c))
        (v ← ctrl_get prv_data (idx c); mret (P_u64 v)) true (Some zero_sends);
  let '(ps, err) := (r : option (list Z) * option Z) in
  match err with
  | Some _ => mret 1
  | None =>
      r ← wait_for_majority (default [] ps) CTRL_QP;
      mret (if fst (r : Z * list Z) =? RC_ERROR then 1 else 0)
  end.

Definition rc_send_vote_ack : M Z :=
  c ← get conf;
  sd ← get (fun s => sid (ctrl s));
  let candidate := SID_GET_IDX sd in
  if negb (CID_IS_SERVER_ON (cid c) candidate) then mret 0
  else
    e ← ep_at candidate;
    if rc_connected e =? 0 then mret 0
    else
      ps ← or_fault (aset (no_sends MAX_SERVER_COUNT) candidate 1);
      next_ssn ;;
      v ← read_u64 (fun s => commit (slog s));
      r ← post_send candidate CTRL_QP (L_vote_ack (idx c)) v true (Some ps);
      let '(rc, ps) := (r : Z * option (list Z)) in
      if negb (rc =? 0) then mret 1
      else
        r ← wait_for_one (default [] ps) CTRL_QP;
        let rc := fst (r : Z * list Z) in
        mret (if rc =? RC_ERROR then 1 else if negb (rc =? RC_SUCCESS) then -1 else 0).
