(* ===== verification/Frame.v ===== *)
(** * What RDMA operations leave alone

    Posting requests, handling completions, waiting, and changing the state of
    queue pairs touch the device, the endpoints, the bookkeeping of the
    servers and the memory that reads fill; everything else stays as it is,
    whatever the device answers, and only the requests asked for are
    posted. *)

From S2P Require Import Prelude Bytes Words Config Log State Hoare Qp Cq RcOps.

Open Scope Z_scope.

(** The rest of the state. *)
Record view_t := mk_view {
  v_conf : server_config_t;
  v_ctrl : ctrl_data_t;
  v_log : dare_log_t;
  v_tmr : timers_t;
  v_clts : list dare_ep_t;
  v_glob : globals_t;
  v_out : list event;
  v_rand : list Z
}.

Definition view (s : srv) : view_t :=
  mk_view (set_servers [] (conf s))
    (set_rsid [] (set_log_offsets [] (set_apply_offsets [] (ctrl s))))
    (set_nc_buf (set_entries (slog s) ∅) [])
    (tmr s) (clts s)
    (set_prereg_snapshot (mk_snapshot 0 (mk_det 0 0 0))
       (set_heap_snapshot (mk_snapshot 0 (mk_det 0 0 0)) (glob s)))
    (out s) (rand (params s)).

(** The state identifiers read from the others fit their type. *)
Definition rsid_ok (s : srv) : Prop := Forall (fun x => 0 <= x < M64) (rsid (ctrl s)).

(** The rest of the state is the same, and all requests posted since satisfy
    [P]. *)
Definition dev (P : wr -> Prop) (s s' : srv) : Prop :=
  view s = view s' /\ (rsid_ok s -> rsid_ok s') /\
  exists ws, posted (ib s') = ws ++ posted (ib s) /\ Forall P ws.

Lemma dev_same P s s' :
  view s = view s' -> rsid (ctrl s) = rsid (ctrl s') -> posted (ib s) = posted (ib s') ->
  dev P s s'.
Proof.
  intros Hv Hr Hp. split; [done|]. split; [unfold rsid_ok; by rewrite Hr|]. by exists [].
Qed.

#[export] Instance dev_refl P : Reflexive (dev P).
Proof. intros s. by apply dev_same. Qed.
#[export] Instance dev_trans P : Transitive (dev P).
Proof.
  intros a b c (H1 & Hr & w1 & H2 & H3) (H4 & Hr' & w2 & H5 & H6). split; [congruence|].
  split; [auto|]. exists (w2 ++ w1). split; [by rewrite H5, H2, app_assoc|by apply Forall_app].
Qed.

Lemma dev_mono (P Q : wr -> Prop) s s' : dev P s s' -> (forall w, P w -> Q w) -> dev Q s s'.
Proof.
  intros (H1 & Hr & ws & H2 & H3) H. split; [done|]. split; [done|]. exists ws. split; [done|].
  by eapply Forall_impl.
Qed.

(** Fields of equal views. *)
Lemma view_cid s s' : view s = view s' -> cid (conf s) = cid (conf s').
Proof. intros H. exact (f_equal (fun v => cid (v_conf v)) H). Qed.
Lemma view_idx s s' : view s = view s' -> idx (conf s) = idx (conf s').
Proof. intros H. exact (f_equal (fun v => idx (v_conf v)) H). Qed.
Lemma view_sid s s' : view s = view s' -> sid (ctrl s) = sid (ctrl s').
Proof. intros H. exact (f_equal (fun v => sid (v_ctrl v)) H). Qed.

(** ** The combinators of these files *)

Section Combinators.
Context (R : srv -> srv -> Prop) `{!Reflexive R, !Transitive R}.

Lemma pres_each {A} (f : A -> M unit) l : (forall x, pres R (f x)) -> pres R (each f l).
Proof.
  intros Hf. induction l as [|x l IH]; [by apply pres_ret|].
  apply pres_bind; [done|done|intros _; done].
Qed.

Lemma pres_for_st {S A} l (f : Z -> S -> M (S * option A)) st :
  (forall i st, pres R (f i st)) -> pres R (for_st l f st).
Proof.
  intros Hf. revert st. induction l as [|i l IH]; intros st; [by apply pres_ret|].
  apply pres_bind; [done|done|]. intros [st' [a|]]; [by apply pres_ret|done].
Qed.

Lemma pres_steps l m : Forall (pres R) l -> pres R m -> pres R (steps l m).
Proof.
  intros Hl Hm. induction Hl as [|x l Hx Hl IH]; [done|].
  apply pres_bind; [done|done|]. intros rc. apply pres_if; [by apply pres_ret|done].
Qed.
End Combinators.

(** Updates the relation does not see. *)
Ltac pres_prim :=
  match goal with
  | |- pres _ (upd _) => apply pres_upd; intro; apply dev_same; reflexivity
  | |- pres _ (on_ib _) => unfold on_ib
  | |- pres _ (each _ _) => apply pres_each; [typeclasses eauto..|intro]
  | |- pres _ (for_st _ _ _) => apply pres_for_st; [typeclasses eauto..|intros]
  | |- pres _ (steps _ _) =>
      apply pres_steps; [typeclasses eauto..|repeat (constructor || apply Forall_cons)|]
  end.
Ltac pres_all := repeat (pres_prim || pres_step).
(** Unfold the given definition and decompose it. *)
Ltac pres_def d := intros; unfold d; pres_all.


Section View.
Context (P : wr -> Prop).
Abbreviation pv := (pres (dev P)).

Lemma pv_on_server i f : pv (on_server i f).
Proof. unfold on_server, on_conf. pres_all. Qed.
Lemma pv_server_at i : pv (server_at i).
Proof. pres_def server_at. Qed.
Lemma pv_ep_at i : pv (ep_at i).
Proof. pres_def ep_at. Qed.
Lemma pv_on_ep i f : pv (on_ep i f).
Proof. pres_def on_ep. Qed.
Lemma pv_on_qp i q f : pv (on_qp i q f).
Proof. apply pv_on_ep. Qed.
Lemma pv_ctrl_get {A} (p : ctrl_data_t -> list A) i : pv (ctrl_get p i).
Proof. unfold ctrl_get. pres_all. Qed.
Lemma pv_ask : pv ask.
Proof. unfold ask. pres_all. Qed.

Hint Resolve pv_on_server pv_server_at pv_ep_at pv_on_ep pv_on_qp pv_ctrl_get pv_ask
  : pres.

Lemma pv_check rc : pv (check rc).
Proof. pres_def check. Qed.
Lemma pv_modify i q t : pv (ibv_modify_qp i q t).
Proof. pres_def ibv_modify_qp. Qed.
Hint Resolve pv_check pv_modify : pres.
Lemma pv_qp_reset i q : pv (rc_qp_reset i q).
Proof. pres_def rc_qp_reset. Qed.
Lemma pv_qp_init i q : pv (rc_qp_reset_to_init i q).
Proof. pres_def rc_qp_reset_to_init. Qed.
Lemma pv_qp_rtr i q : pv (rc_qp_init_to_rtr i q).
Proof. pres_def rc_qp_init_to_rtr. Qed.
Lemma pv_qp_rts i q : pv (rc_qp_rtr_to_rts i q).
Proof. pres_def rc_qp_rtr_to_rts. Qed.
Hint Resolve pv_qp_reset pv_qp_init pv_qp_rtr pv_qp_rts : pres.
Lemma pv_reset_to_rts i q : pv (rc_qp_reset_to_rts i q).
Proof. pres_def rc_qp_reset_to_rts. Qed.
Lemma pv_restart i q : pv (rc_qp_restart i q).
Proof. pres_def rc_qp_restart. Qed.
Hint Resolve pv_reset_to_rts pv_restart : pres.
Lemma pv_disconnect i : pv (rc_disconnect_server i).
Proof. pres_def rc_disconnect_server. Qed.
Lemma pv_connect i q : pv (rc_connect_server i q).
Proof.
  unfold rc_connect_server. pres_step; [pres_all|]. case_decide; cbn [app]; pres_all.
Qed.
Lemma pv_revoke : pv rc_revoke_log_access.
Proof. unfold rc_revoke_log_access, revoke_one. pres_all. Qed.
Lemma pv_restore : pv rc_restore_log_access.
Proof. unfold rc_restore_log_access, restore_one. pres_all. Qed.
Hint Resolve pv_disconnect pv_connect pv_revoke pv_restore : pres.

Lemma pv_dma d : pv (apply_dma d).
Proof.
  destruct d as [i v| | | | |[]|]; unfold apply_dma, ctrl_put, on_ctrl, on_log, on_glob;
    [|pres_all..].
  intros s. apply wp_bind, wp_get, wp_bind, wp_or_fault; [|done]. intros l [_ ->]%aset_inv.
  apply wp_upd. split; [done|]. split; [|by exists []]. unfold rsid_ok. simpl. intros H.
  apply Forall_insert; [done|]. apply Z.mod_pos_bound. done.
Qed.
Hint Resolve pv_dma : pres.
Lemma pv_poll q : pv (ibv_poll_cq q).
Proof.
  unfold ibv_poll_cq, apply_wc. pres_all; apply pres_upd; intro; apply dev_same; try done;
    unfold set_cq; by destruct (_ =? _).
Qed.
Lemma pv_note q w : pv (note_completion q w).
Proof. pres_def note_completion. Qed.
Lemma pv_fail q c b : pv (fail_completion q c b).
Proof. pres_def fail_completion. Qed.
Lemma pv_lr k rc : pv (handle_lr_work_completion k rc).
Proof. pres_def handle_lr_work_completion. Qed.
Hint Resolve pv_poll pv_note pv_fail pv_lr : pres.
Lemma pv_sends ps i f : pv (sends_update ps i f).
Proof. pres_def sends_update. Qed.
Hint Resolve pv_sends : pres.
Lemma pv_ecq_one i q k w st : pv (ecq_one i q k w st).
Proof. unfold ecq_one. pres_all. Qed.
Hint Resolve pv_ecq_one : pres.
Lemma pv_ecq_wcs i q k l st : pv (ecq_wcs i q k l st).
Proof. revert k st. induction l; intros k st; simpl; pres_all. Qed.
Hint Resolve pv_ecq_wcs : pres.
Lemma pv_ecq_loop n i q st : pv (ecq_loop n i q st).
Proof. revert st. induction n; intros st; simpl; pres_all. Qed.
Hint Resolve pv_ecq_loop : pres.
Lemma pv_ecq i q b ps : pv (empty_completion_queue i q b ps).
Proof. pres_def empty_completion_queue. Qed.
Lemma pv_ibv_post w : P w -> pv (ibv_post_send w).
Proof.
  intros Hw. unfold ibv_post_send. pres_all. unfold on_ib. apply pres_upd. intros s.
  split; [done|]. split; [done|]. exists [w]. by split; [|constructor].
Qed.
Hint Resolve pv_ecq pv_ibv_post : pres.
Lemma pv_post i q loc p b ps :
  (forall b' n, P (mk_wr i q loc p b' n)) -> pv (post_send i q loc p b ps).
Proof. intros Hp. unfold post_send. pres_all. Qed.
Hint Resolve pv_post : pres.

Lemma pv_wait_completion q k w : pv (wait_completion q k w).
Proof. pres_def wait_completion. Qed.
Hint Resolve pv_wait_completion : pres.
Lemma pv_wfm_one n q k w st : pv (wfm_one n q k w st).
Proof. pres_def wfm_one. Qed.
Lemma pv_wfo_one q k w st : pv (wfo_one q k w st).
Proof. pres_def wfo_one. Qed.
Hint Resolve pv_wfm_one pv_wfo_one : pres.
Lemma pv_wfm_wcs n q k l st : pv (wfm_wcs n q k l st).
Proof. revert k st. induction l; intros k st; simpl; pres_all. Qed.
Lemma pv_wfo_wcs q k l st : pv (wfo_wcs q k l st).
Proof. revert k st. induction l; intros k st; simpl; pres_all. Qed.
Hint Resolve pv_wfm_wcs pv_wfo_wcs : pres.
Lemma pv_wfm_loop n size q st : pv (wfm_loop n size q st).
Proof. revert st. induction n; intros st; simpl; pres_all. Qed.
Lemma pv_wfo_loop n q st : pv (wfo_loop n q st).
Proof. revert st. induction n; intros st; simpl; pres_all. Qed.
Hint Resolve pv_wfm_loop pv_wfo_loop : pres.
Lemma pv_count_where f ps n : pv (count_where f ps n).
Proof. pres_def count_where. Qed.
Lemma pv_posted_count ps n : pv (posted_count ps n).
Proof. pres_def posted_count. Qed.
Hint Resolve pv_count_where pv_posted_count : pres.
Lemma pv_wfm_pass j q n ps : pv (wfm_pass j q n ps).
Proof. pres_def wfm_pass. Qed.
Hint Resolve pv_wfm_pass : pres.
Lemma pv_wait_for_majority ps q : pv (wait_for_majority ps q).
Proof. pres_def wait_for_majority. Qed.
Lemma pv_wait_for_one ps q : pv (wait_for_one ps q).
Proof. pres_def wait_for_one. Qed.
Hint Resolve pv_wait_for_majority pv_wait_for_one : pres.

Lemma pv_put_send ps i v : pv (put_send ps i v).
Proof. apply pv_sends. Qed.
Lemma pv_next_ssn : pv next_ssn.
Proof. pres_def next_ssn. Qed.
Hint Resolve pv_put_send pv_next_ssn : pres.

(** Going on after a computation that is framed. *)
Lemma wp_dev {A} (m : M A) s s1 :
  pv m -> dev P s s1 -> wp false m (fun _ => dev P s) (dev P s) s1.
Proof. intros Hm Hs. eapply wp_mono; [apply Hm| |]; cbn; intros; by etrans. Qed.

Lemma wp_dev_bind {A B} (m : M A) (f : A -> M B) Q E s s1 :
  pv m -> dev P s s1 -> (forall s2, dev P s s2 -> E s2) ->
  (forall a s2, dev P s s2 -> wp false (f a) Q E s2) ->
  wp false (m ≫= f) Q E s1.
Proof.
  intros Hm Hs HE Hf. apply wp_bind. eapply wp_mono; [by apply wp_dev| |done]. cbn. auto.
Qed.

(** A round whose payload is [v] as long as the rest of the state is that of
    [s]. *)
Lemma wp_post_round v size self loc p b ps s :
  (forall s1, view s = view s1 -> p s1 = Ret v s1) ->
  (forall i b' n, P (mk_wr i CTRL_QP loc v b' n)) ->
  wp false (post_round size self loc p b ps) (fun _ => dev P s) (dev P s) s.
Proof.
  intros Hp HP. unfold post_round.
  enough (forall s1, dev P s s1 ->
    wp false (for_st (upto size) (post_one self loc p b) ps) (fun _ => dev P s) (dev P s) s1)
    as H by (by apply H).
  revert ps. induction (upto size) as [|i l IH]; intros ps s1 Hs1; [by apply wp_ret|].
  cbn [for_st]. apply wp_bind. eapply (wp_mono _ _ (fun _ => dev P s)); [|intros [ps' [r|]] s2 Hs2|done].
  - unfold post_one. apply wp_bind, wp_get.
    apply wp_if; intros _; [apply wp_dev; [pres_all|done]|].
    apply wp_if; intros _; [apply wp_dev; [pres_all|done]|].
    eapply wp_dev_bind; [apply pv_ep_at|exact Hs1|done|]. intros e s2 Hs2.
    apply wp_if; intros _; [apply wp_dev; [pres_all|done]|].
    eapply wp_dev_bind; [apply pv_put_send|exact Hs2|done|]. intros ps1 s3 Hs3.
    apply wp_bind. eapply wp_run; [apply Hp, Hs3|].
    apply wp_dev; [|done]. pres_all.
  - by apply wp_ret.
  - by apply IH.
Qed.
End View.

#[export] Hint Resolve pv_on_server pv_server_at pv_ep_at pv_on_ep pv_on_qp pv_ctrl_get
  pv_ask pv_check pv_modify pv_restart pv_disconnect pv_connect pv_revoke pv_restore pv_ecq
  pv_post pv_wait_for_majority pv_wait_for_one pv_put_send pv_next_ssn : pres.
