(* ===== verification/Replication.v ===== *)
(** * Log replication (dare_ibv_rc.c)

    The leader's two phases: [log_adjustment] finds how far the log of every
    server agrees with its own, [update_remote_logs] writes the missing
    entries, moves the commit offset and propagates it lazily. *)

From S2P Require Import Prelude Bytes Words Config Log State Hoare Qp Cq RcOps.

Open Scope Z_scope.

(** [sizeof(dare_log_entry_det_t)] *)
Definition DET_SIZE : Z := 24.

(** Open a round of requests the first time around. *)
Definition open_round (init : bool) : M bool :=
  when (negb init) next_ssn ;; mret true.

Definition on_offsets (i : Z) (f : log_offsets_t -> log_offsets_t) : M unit :=
  o ← ctrl_get log_offsets i;
  ctrl_put log_offsets set_log_offsets i (f o).

(** ** Log adjustment *)

(** The request of the current step of server [i]; [None] when there is
    nothing to post. *)
Definition adjust_nce_len (i remote_commit : Z) : M (option (rloc * payload)) :=
  l ← get slog;
  when (log_is_offset_larger l remote_commit (commit l))
    (on_log (fun l => set_commit l remote_commit)) ;;
  mret (Some (L_nc_len i, P_read)).

Definition adjust_nce (i : Z) : M (option (rloc * payload)) :=
  bufs ← get (fun s => nc_buf (slog s));
  b ← or_fault (aget bufs i);
  if nc_len b =? 0 then
    on_offsets i (fun o => set_lo_end (lo_commit o) o) ;;
    on_server i (set_next_lr_step LR_UPDATE_LOG) ;;
    mret None
  else mret (Some (L_nc_entries i (u32 (nc_len b * DET_SIZE)), P_read)).

Definition adjust_set_end (i : Z) : M (option (rloc * payload)) :=
  l ← get slog;
  b ← or_fault (aget (nc_buf l) i);
  e ← of_outcome (log_find_remote_end_offset l b);
  on_offsets i (set_lo_end e) ;;
  mret (Some (L_log_end, P_u64 e)).

Definition adjust_step (i remote_commit step : Z) : M (option (rloc * payload)) :=
  if step =? LR_GET_WRITE then
    on_offsets i (set_lo_commit remote_commit) ;;
    on_server i (set_next_lr_step LR_GET_NCE_LEN) ;;
    adjust_nce_len i remote_commit
  else if step =? LR_GET_NCE_LEN then adjust_nce_len i remote_commit
  else if step =? LR_GET_NCE then adjust_nce i
  else if step =? LR_SET_END then adjust_set_end i
  else mret None.

(** Stop posting until the work request completes. *)
Definition await_request (i : Z) : M unit :=
  n ← get (fun s => ssn (ib s));
  on_server i (fun v =>
    set_next_wr_id (WRID_SET_CONN (WRID_SET_SSN (next_wr_id v) n) i) (set_send_flag 0 v)).

Definition adjust_one (i : Z) (init : bool) : M (bool * option Z) :=
  c ← get conf;
  if negb (other_server c i) then mret (init, None)
  else
    v ← server_at i;
    e ← ep_at i;
    remote_commit ← ctrl_get vote_ack i;
    n ← get (fun s => len (slog s));
    if (PERMANENT_FAILURE <=? fail_count v) || (send_flag v =? 0) || (rc_connected e =? 0)
       || (n =? remote_commit)
    then mret (init, None)
    else
      init ← (if next_lr_step v <? LR_UPDATE_LOG then open_round init else mret init);
      r ← adjust_step i remote_commit (next_lr_step v);
      match r with
      | None => mret (init, None)
      | Some (loc, p) =>
          await_request i ;;
          r ← post_send i LOG_QP loc p true None;
          mret (init, if negb (fst (r : Z * option (list Z)) =? 0) then Some RC_ERROR else None)
      end.

Definition log_adjustment : M Z :=
  size ← get (fun s => get_extended_group_size (cid (conf s)));
  r ← for_st (upto size) adjust_one false;
  mret (default 0 (snd (r : bool * option Z))).

(** ** Direct log update *)

(** The servers that take part in the update. *)
Definition lr_active (v : server_t) (e : dare_ib_ep_t) : bool :=
  (fail_count v <? PERMANENT_FAILURE) && negb (rc_connected e =? 0).

(** The parts of the log a server is missing: up to the end, or up to the
    length and then from the start. *)
Definition missing (l : dare_log_t) (remote_end : Z) : (Z * Z) * (Z * Z) :=
  if remote_end <? end_ l
  then ((remote_end, u32 (end_ l -64 remote_end)), (0, 0))
  else ((remote_end, u32 (len l -64 remote_end)), (0, u32 (end_ l))).

Definition segment (l : dare_log_t) (s : Z * Z) : payload :=
  P_bytes (rd_bytes (entries l) (fst s) (Z.to_nat (snd s))).

Definition write_entries (i : Z) : M unit :=
  o ← ctrl_get log_offsets i;
  l ← get slog;
  let '(a, b) := missing l (lo_end o) in
  on_server i (fun v =>
    set_send_count (if lo_end o <? end_ l then 1 else 2)
      (set_cached_end_offset (end_ l) v)) ;;
  await_request i ;;
  post_send i LOG_QP (L_log_entries (fst a) (snd a)) (segment l a) true None ;;
  mret tt.

(** The second half of an update that wraps around. *)
Definition write_wrapped (i : Z) (b : Z * Z) : M (option Z) :=
  l ← get slog;
  on_server i (set_send_flag 0) ;;
  on_ib (set_wa_flag true) ;;
  r ← post_send i LOG_QP (L_log_entries 0 (snd b)) (segment l b) true None;
  mret (if negb (fst (r : Z * option (list Z)) =? 0) then Some RC_ERROR else None).

Definition write_end (i : Z) : M unit :=
  v ← server_at i;
  on_offsets i (set_lo_end (cached_end_offset v)) ;;
  await_request i ;;
  post_send i LOG_QP L_log_end (P_u64 (cached_end_offset v)) true None ;;
  mret tt.

Definition update_one (i : Z) (init : bool) : M (bool * option Z) :=
  c ← get conf;
  if negb (other_server c i) then mret (init, None)
  else
    v ← server_at i;
    e ← ep_at i;
    if negb (lr_active v e) || (send_flag v =? 0) then mret (init, None)
    else if next_lr_step v =? LR_UPDATE_LOG then
      o ← ctrl_get log_offsets i;
      l ← get slog;
      if log_offset_end_distance l (lo_end o) =? 0 then mret (init, None)
      else
        init ← open_round init;
        write_entries i ;;
        let b := snd (missing l (lo_end o)) in
        r ← (if 0 <? snd b then write_wrapped i b else mret None);
        mret (init, r)
    else if next_lr_step v =? LR_UPDATE_END then
      init ← open_round init; write_end i ;; mret (init, None)
    else mret (init, None).

(** *** The commit offset *)

(** Up to where server [i] is known to have the leader's entries, and whether
    that counts as progress. *)
Definition server_offset (s : srv) (min_offset i : Z) : option (Z * bool) :=
  if i =? idx (conf s) then Some (end_ (slog s), false)
  else if negb (CID_IS_SERVER_ON (cid (conf s)) i) then Some (commit (slog s), false)
  else
    v ← aget (servers (conf s)) i;
    if (PERMANENT_FAILURE <=? fail_count v) || negb (next_lr_step v =? LR_UPDATE_LOG)
    then Some (commit (slog s), false)
    else
      o ← aget (log_offsets (ctrl s)) i;
      Some (lo_end o, log_is_offset_larger (slog s) (lo_end o) min_offset).

(** Fill the array for the servers in the list; count the progress. *)
Fixpoint fill_offsets (s : srv) (min_offset : Z) (l : list Z) (a : list Z) (count : Z)
    : option (list Z * Z) :=
  match l with
  | [] => Some (a, count)
  | i :: l' =>
      r ← server_offset s min_offset i;
      a ← aset a i (fst (r : Z * bool));
      fill_offsets s min_offset l' a (if snd (r : Z * bool) then count + 1 else count)
  end.

(** The insertion sort of the code, in place: shift the larger elements up and
    put [tmp] where they end. *)
Fixpoint shift_up (k : nat) (tmp : Z) (a : list Z) : list Z :=
  match k with
  | O => <[0%nat := tmp]> a
  | S k' =>
      match a !! k' with
      | Some x => if tmp <? x then shift_up k' tmp (<[k := x]> a) else <[k := tmp]> a
      | None => a
      end
  end.

Fixpoint sort_from (i n : nat) (a : list Z) : list Z :=
  match n with
  | O => a
  | S n' =>
      match a !! i with
      | Some tmp => sort_from (S i) n' (shift_up i tmp a)
      | None => a
      end
  end.

(** [for (i = 1; i < size; i++)] *)
Definition sort_offsets (size : Z) (a : list Z) : list Z :=
  sort_from 1 (Z.to_nat size - 1) a.

(** One turn of the loop over the sizes of the configuration: the new
    [min_offset], whether to go on, and the array. *)
Definition commit_pass (s : srv) (j min_offset : Z) (a : list Z)
    : option (Z * bool * list Z) :=
  let c := cid (conf s) in
  let size := cid_size c j in
  r ← fill_offsets s min_offset (upto size) a 0;
  let '(a, count) := (r : list Z * Z) in
  if count <? size / 2 then Some (min_offset, (CID_TRANSIT =? state c) && (j =? 0), a)
  else
    let a := sort_offsets size a in
    median ← aget a (Z.quot (size - 1) 2);
    if negb (CID_TRANSIT =? state c) then Some (median, false, a)
    else
      let m := if j =? 0 then median
               else if log_is_offset_larger (slog s) min_offset median then median
               else min_offset in
      Some (m, true, a).

(** The offset that is on a majority, the size left in the variable, and the
    array. *)
Definition find_min_offset (s : srv) (a : list Z) : option (Z * Z * list Z) :=
  let c := cid (conf s) in
  r ← commit_pass s 0 (commit (slog s)) a;
  let '(m, again, a) := (r : Z * bool * list Z) in
  if negb again then Some (m, size0 c, a)
  else
    r ← commit_pass s 1 m a;
    let '(m, _, a) := (r : Z * bool * list Z) in
    Some (m, size1 c, a).

Definition update_commit : M Z :=
  s ← get (fun s => s);
  r ← or_fault (find_min_offset s (offsets (glob s)));
  let '(m, size, a) := (r : Z * Z * list Z) in
  on_glob (set_offsets a) ;;
  when (log_is_offset_larger (slog s) m (commit (slog s)))
    (on_log (fun l => set_commit l m) ;;
     on_conf (set_cid_offset m) ;;
     on_glob (set_committed 1)) ;;
  mret size.

(** *** Lazy update of the remote commit offsets *)

Definition lazy_one (i : Z) (init : bool) : M (bool * option Z) :=
  c ← get conf;
  if negb (other_server c i) then mret (init, None)
  else
    v ← server_at i;
    e ← ep_at i;
    if negb (lr_active v e) || negb (next_lr_step v =? LR_UPDATE_LOG) then mret (init, None)
    else
      o ← ctrl_get log_offsets i;
      l ← get slog;
      if (lo_commit o =? lo_end o) || (lo_commit o =? commit l) then mret (init, None)
      else
        let rc := if log_is_offset_larger l (commit l) (lo_end o) then lo_end o else commit l in
        on_offsets i (set_lo_commit rc) ;;
        init ← open_round init;
        post_send i LOG_QP L_log_commit (P_u64 rc) false None ;;
        mret (init, None).

Definition update_remote_logs : M Z :=
  size ← get (fun s => get_extended_group_size (cid (conf s)));
  r ← for_st (upto size) update_one false;
  match snd (r : bool * option Z) with
  | Some rc => mret rc
  | None =>
      size ← update_commit;
      for_st (upto size) lazy_one false ;;
      mret RC_SUCCESS
  end.

(** ** Replication *)

(** The iterations left before the threshold of 1000; the results of the two
    phases are not examined. *)
Fixpoint write_loop (n : nat) (wait : bool) : M Z :=
  match n with
  | O => mret 0
  | S n' =>
      (if wait then empty_completion_queue 0 LOG_QP false None ;; mret tt else mret tt) ;;
      log_adjustment ;;
      update_remote_logs ;;
      c ← get (fun s => committed (glob s));
      if wait && negb (c =? 0) then mret 0
      else if wait then write_loop n' wait
      else mret 0
  end.

Definition rc_write_remote_logs (wait : bool) : M Z :=
  when wait (on_glob (set_committed 0)) ;;
  write_loop 1000 wait.

Definition cmpfunc_offset (l : dare_log_t) (a b : Z) : Z :=
  if log_is_offset_larger l a b then 1 else -1.

(** ** Remote apply offsets *)

Definition apply_offset_one (i : Z) (init : bool) : M (bool * option Z) :=
  c ← get conf;
  if negb (other_server c i) then
    a ← get (fun s => apply (slog s));
    ctrl_put apply_offsets set_apply_offsets i a ;;
    mret (init, None)
  else
    v ← server_at i;
    e ← ep_at i;
    ack ← ctrl_get vote_ack i;
    n ← get (fun s => len (slog s));
    if (PERMANENT_FAILURE <=? fail_count v) || (rc_connected e =? 0) || (n =? ack)
       || negb (last_get_read_ssn v =? 0)
    then mret (init, None)
    else
      init ← open_round init;
      n ← get (fun s => ssn (ib s));
      on_server i (set_last_get_read_ssn n) ;;
      r ← post_send i LOG_QP L_log_apply P_read false None;
      mret (init, if negb (fst (r : Z * option (list Z)) =? 0) then Some RC_ERROR else None).

Definition rc_get_remote_apply_offsets : M Z :=
  size ← get (fun s => get_extended_group_size (cid (conf s)));
  r ← for_st (upto size) apply_offset_one false;
  mret (default 0 (snd (r : bool * option Z))).
