(* ===== verification/CqSpec.v ===== *)
(** * Completions and majorities (dare_ibv_rc.c)

    Success of [wait_for_majority] means a majority of the requests is marked
    complete; where the marks are wrong; and the bookkeeping of the log
    replication by work request identifiers. *)

From S2P Require Import Prelude Bytes Words Config Log State Init Hoare Qp Cq RcOps Frame Replication.

Open Scope Z_scope.

(** ** Counting completions *)

(** The request of server [i], counted by [ps] at first, is complete in [ps']. *)
Definition completed (ps ps' : list Z) (i : Z) : bool :=
  match aget ps i, aget ps' i with
  | Some x, Some y => (0 <=? x) && (y <=? 0)
  | _, _ => false
  end.

Record wait_inv (size : Z) (ps : list Z) (st : waiting) : Prop := {
  wi_len : length (posted_sends st) = length ps;
  wi_neg : forall i x y, aget ps i = Some x -> aget (posted_sends st) i = Some y ->
           y <= x;
  wi_count : success_count st = count_if (completed ps (posted_sends st)) size
}.

Lemma completed_step size ps st conn x :
  0 <= size <= MAX_SERVER_COUNT -> wait_inv size ps st ->
  aget (posted_sends st) conn = Some x ->
  wait_inv size ps
    (mk_waiting (if (x - 1 =? 0) && (conn <? size) then u8 (success_count st + 1)
                 else success_count st)
       (posted_send_count st) (<[Z.to_nat conn := x - 1]> (posted_sends st))).
Proof.
  intros Hsize [Hlen Hneg Hc] Hx. pose proof (aget_Some _ _ _ Hx) as Hr.
  assert (aset (posted_sends st) conn (x - 1) = Some (<[Z.to_nat conn := x - 1]> (posted_sends st)))
    as Hset by (by apply aset_Some).
  set (ps' := <[_ := _]> _) in *.
  destruct (aget_is_Some ps conn) as [x0 Hx0]; [rewrite <- Hlen; lia|].
  pose proof (Hneg _ _ _ Hx0 Hx) as Hle.
  split; cbn [posted_sends success_count].
  - unfold ps'. by rewrite length_insert.
  - intros i a b Ha Hb. destruct (Z.eq_dec conn i) as [<-|Hne].
    + rewrite (aget_aset_eq _ _ _ _ Hset) in Hb. simplify_eq. lia.
    + rewrite (aget_aset_ne _ _ _ _ _ Hset Hne) in Hb. eauto.
  - assert (forall i, i <> conn -> completed ps (posted_sends st) i = completed ps ps' i)
      as Hother.
    { intros i Hne. unfold completed. by rewrite (aget_aset_ne _ _ _ _ _ Hset (not_eq_sym Hne)). }
    destruct (Z.eqb_spec (x - 1) 0), (Z.ltb_spec conn size); cbn [andb].
    + rewrite (count_if_flip (completed ps (posted_sends st)) (completed ps ps') conn);
        [|lia| | |done].
      * rewrite Hc, u8_small; [done|].
        pose proof (count_if_range (completed ps (posted_sends st)) size).
        unfold MAX_SERVER_COUNT in *. lia.
      * unfold completed. rewrite Hx0, Hx. apply andb_false_intro2, Z.leb_gt. lia.
      * unfold completed. rewrite Hx0, (aget_aset_eq _ _ _ _ Hset).
        apply andb_true_intro. split; apply Z.leb_le; lia.
    + rewrite Hc. apply count_if_ext. intros i Hi. apply Hother. lia.
    + rewrite Hc. apply count_if_ext. intros i Hi.
      destruct (Z.eq_dec i conn) as [->|]; [|by apply Hother].
      unfold completed. rewrite Hx0, Hx, (aget_aset_eq _ _ _ _ Hset). f_equal.
      destruct (Z.leb_spec x 0), (Z.leb_spec (x - 1) 0); lia || done.
    + rewrite Hc. apply count_if_ext. intros i Hi. apply Hother. lia.
Qed.

Lemma wfm_one_inv size ps q k w st s :
  0 <= size <= MAX_SERVER_COUNT -> wait_inv size ps st ->
  wp false (wfm_one size q k w st) (fun st' _ => wait_inv size ps st') (fun _ => True) s.
Proof.
  intros Hsize Hinv. unfold wfm_one. do 2 (apply wp_skip; intros ? ?). cbv zeta.
  destruct (negb _); [by apply wp_ret; destruct Hinv|].
  destruct (_ <? _); [by apply wp_ret; destruct Hinv|]. cbn [posted_sends].
  apply wp_bind, wp_or_fault; [|done]. intros x Hx.
  apply wp_bind, wp_or_fault; [|done]. intros ps' [_ ->]%aset_inv.
  apply wp_ret. apply completed_step with (conn := WRID_GET_CONN (wc_wr_id w)) (x := x) in Hinv;
    [|done|done]. by destruct Hinv.
Qed.

Lemma wfm_wcs_inv size ps q k l st s :
  0 <= size <= MAX_SERVER_COUNT -> wait_inv size ps st ->
  wp false (wfm_wcs size q k l st) (fun st' _ => wait_inv size ps st') (fun _ => True) s.
Proof.
  intros Hsize. revert k st s. induction l as [|w l IH]; intros k st s Hinv.
  - by apply wp_ret.
  - apply wp_bind. eapply wp_mono; [by apply wfm_one_inv| |done].
    intros st' s' Hinv'. by apply IH.
Qed.

Lemma wfm_loop_inv size ps q n st s :
  0 <= size <= MAX_SERVER_COUNT -> wait_inv size ps st ->
  wp false (wfm_loop n size q st) (fun r _ => wait_inv size ps r.2) (fun _ => True) s.
Proof.
  intros Hsize. revert st s. induction n as [|n IH]; intros st s Hinv; simpl.
  - destruct (_ && _); [done|by apply wp_ret].
  - destruct (_ && _); [|by apply wp_ret]. apply wp_skip. intros [l|] s'; [|by apply wp_ret].
    apply wp_bind. eapply wp_mono; [by apply wfm_wcs_inv| |done].
    intros st' s'' Hinv'. by apply IH.
Qed.

Lemma filter_completed ps n l :
  length ps = NSRV -> 0 <= n <= MAX_SERVER_COUNT -> mapM (aget ps) (upto n) = Some l ->
  Z.of_nat (length (filter (fun x => (x =? 0) = true) l)) = count_if (completed ps ps) n.
Proof.
  intros Hlen Hn Hl. unfold count_if.
  assert (forall js l, mapM (aget ps) js = Some l ->
    length (filter (fun x => (x =? 0) = true) l) =
    length (filter (fun i => completed ps ps i = true) js)) as H.
  { clear l Hl. intros js l Hl%mapM_Some. induction Hl as [|i x js l Hx _ IH]; [done|].
    assert (completed ps ps i = (x =? 0)) as Hi.
    { unfold completed. rewrite Hx. by repeat zcase; try lia. }
    rewrite !filter_cons.
    destruct (decide ((x =? 0) = true)), (decide (completed ps ps i = true)); simpl; congruence. }
  by rewrite (H _ _ Hl).
Qed.

Lemma wfm_pass_inv j q n ps s :
  length ps = NSRV -> 0 <= cid_size (cid (conf s)) j <= MAX_SERVER_COUNT ->
  wp false (wfm_pass j q n ps)
    (fun r _ => r.1.2 = true ->
       majority (completed ps (posted_sends r.2)) (cid_size (cid (conf s)) j)) (fun _ => True) s.
Proof.
  intros Hlen Hsize. unfold wfm_pass. apply wp_bind, wp_get. cbv zeta.
  set (size := cid_size _ _) in *. unfold count_where. apply wp_bind.
  apply wp_bind, wp_or_fault; [|done]. intros l Hl. apply wp_ret.
  pose proof (filter_completed ps size l Hlen Hsize Hl) as Hc.
  apply wp_bind, wp_get, wp_bind. eapply wp_mono; [apply (wfm_loop_inv size ps)| |done]; [done| |].
  - pose proof (count_if_range (completed ps ps) size). unfold MAX_SERVER_COUNT in *.
    split; cbn [posted_sends success_count]; [done| |rewrite Hc; apply u8_small; lia].
    intros i x y Hx Hy. simplify_eq. done.
  - intros [b st] s' [_ _ Hst]. apply wp_ret. cbn. intros H%Z.ltb_lt.
    unfold majority. cbn in Hst. by rewrite <- Hst.
Qed.


(** A group of five whose server 0 waits for the completion of requests with
    sequence number 1. *)
Definition waiting_srv (k : dare_cid_t) (cq : list poll) : srv :=
  set_conf (set_cid k (conf (demo_srv 5 0)))
    (set_ib (set_ssn 1 (set_ctrl_cq cq (ib_new 100))) (demo_srv 5 0)).

Definition wc_of (i : Z) (st : ibv_wc_status) : wc := mk_wc (mk_wrid 1 false false i) st [].


(** The marks can be wrong: when one poll returns several completions,
    [wait_for_majority] looks at the status of the first one for all of them.
    In a group of five, server 1 completes and the request to server 2 fails;
    the call reports success although only servers 0 and 1 have the data, and
    the failure is not recorded. *)
Theorem failed_request_counts_as_success :
  let s := waiting_srv (cid_new 5)
             [Poll [wc_of 1 IBV_WC_SUCCESS; wc_of 2 IBV_WC_RETRY_EXC_ERR]] in
  let ps := [0; 1; 1; -1; -1; 0; 0; 0; 0; 0; 0; 0; 0] in
  exists s', wait_for_majority ps CTRL_QP s =
      Ret (RC_SUCCESS, [0; 0; 0; -1; -1; 0; 0; 0; 0; 0; 0; 0; 0]) s' /\
    fail_count <$> aget (servers (conf s')) 2 = Some 0.
Proof. eexists. split; vm_compute; reflexivity. Qed.

(** In a transitional configuration only the majority of the second group
    is checked.  From five servers to three: the requests to servers 3 and 4
    and to server 2 fail, two of five complete, and the call succeeds because
    they are two of three. *)
Theorem transitional_wait_ignores_first_majority :
  let s := waiting_srv (mk_cid 1 5 3 CID_TRANSIT 0 31) [Poll [wc_of 1 IBV_WC_SUCCESS]] in
  let ps := [0; 1; -1; -1; -1; 0; 0; 0; 0; 0; 0; 0; 0] in
  exists ps' s', wait_for_majority ps CTRL_QP s = Ret (RC_SUCCESS, ps') s' /\
    ~ majority (completed ps ps') 5.
Proof. eexists _, _. split; [vm_compute; reflexivity|]. unfold majority. vm_compute. discriminate. Qed.

(** ** Log replication and its work requests *)

(** What [post_send] makes of the identifier, up to the flags of a request. *)
Lemma next_wrid_spec n i wa :
  0 <= n < 2 ^ 54 -> 0 <= i < 256 -> next_wrid n i wa = mk_wrid n wa false i.
Proof.
  intros Hn Hi. unfold next_wrid.
  replace (WRID_SET_CONN (WRID_SET_SSN 0 n) i) with (mk_wrid n false false i).
  - destruct wa; [by apply wrid_set_wa|done].
  - change 0 with (mk_wrid 0 false false 0). rewrite wrid_set_ssn by lia.
    by rewrite wrid_set_conn by lia.
Qed.

(** A completion finds its server: whatever signal or wrap-around flag
    [post_send] put on the identifier, [handle_lr_work_completion] recognises
    the request announced by [await_request], and no request of an earlier
    round or to another server. *)
Theorem lr_completion_matches_request n i v m j wa tag n' i' :
  0 <= n < 2 ^ 54 -> 0 <= i < 256 -> 0 <= n' < 2 ^ 54 -> 0 <= i' < 256 ->
  0 <= m < 2 ^ 54 -> 0 <= j < 256 -> next_wr_id v = mk_wrid m false false j ->
  let id := if (tag : bool) then WRID_SET_TAG (next_wrid n' i' wa) else next_wrid n' i' wa in
  WRID_UNSET_WA (WRID_UNSET_TAG id) = WRID_SET_CONN (WRID_SET_SSN (next_wr_id v) n) i <->
  n' = n /\ i' = i.
Proof.
  intros Hn Hi Hn' Hi' Hm Hj -> id.
  assert (id = mk_wrid n' wa tag i') as ->.
  { unfold id. rewrite next_wrid_spec by done. by destruct tag; [apply wrid_set_tag|]. }
  rewrite wrid_unset_tag, wrid_unset_wa, wrid_set_ssn, wrid_set_conn by lia.
  split; [|by intros [-> ->]]. unfold mk_wrid, c_bool. lia.
Qed.

Lemma lr_completion_matches_request_witness :
  WRID_UNSET_WA (WRID_UNSET_TAG (WRID_SET_TAG (next_wrid 7 3 true))) =
  WRID_SET_CONN (WRID_SET_SSN (next_wr_id server_new) 7) 3.
Proof.
  apply (lr_completion_matches_request 7 3 server_new 0 0 true true 7 3);
    [lia|lia|lia|lia|lia|lia|reflexivity|split; reflexivity].
Defined.

(** The completions of the parts of an update, in their order. *)
Definition lr_complete (v : server_t) (ok : bool) : server_t :=
  if ok then lr_success v else lr_failure v.

(** An update of a remote log that wraps around is two writes, and it
    counts only as a whole: the end offset is written next exactly when both
    complete, otherwise the update is repeated; in each case the server may be
    sent to again only after the second completion. *)
Theorem wrapped_update_is_all_or_nothing v a b :
  next_lr_step v = LR_UPDATE_LOG -> send_count v = 2 -> send_flag v = 0 ->
  let v1 := lr_complete v a in
  let v2 := lr_complete v1 b in
  send_flag v1 = 0 /\ send_flag v2 = 1 /\
  next_lr_step v2 = if a && b then LR_UPDATE_END else LR_UPDATE_LOG.
Proof.
  destruct v as [? ? ? ? st fl cnt]; simpl. intros -> -> ->. by destruct a, b.
Qed.

Lemma wrapped_update_is_all_or_nothing_witness :
  next_lr_step (lr_complete (lr_complete (mk_server 0 0 0 0 LR_UPDATE_LOG 0 2) true) true) =
    LR_UPDATE_END.
Proof.
  apply (wrapped_update_is_all_or_nothing (mk_server 0 0 0 0 LR_UPDATE_LOG 0 2) true true);
    reflexivity.
Defined.
