(* ===== verification/CommitSpec.v ===== *)
(** * The commit offset (dare_ibv_rc.c, [update_remote_logs])

    The insertion sort is one, its median is on a majority of servers, and so
    is the commit offset, in a stable configuration and as long as the log has
    not wrapped around.  What is committed when it has, and a counterexample for
    transitional configurations. *)

From Stdlib Require Import Sorted.
From S2P Require Import Prelude Bytes Words Config Log LogRep LogOps LogSpec State Init Hoare Qp Cq RcOps Replication.

Open Scope Z_scope.

(** ** Sorting *)

Abbreviation sorted := (StronglySorted Z.le).

Lemma shift_up_spec tmp p h q :
  exists p1 p2, p = p1 ++ p2 /\
    shift_up (length p) tmp (p ++ h :: q) = p1 ++ tmp :: p2 ++ q /\
    Forall (fun x => tmp < x) p2 /\ (forall x, last p1 = Some x -> x <= tmp).
Proof.
  revert h q. induction p as [|x p IH] using rev_ind; intros h q.
  { exists [], []. split_and!; try done. }
  rewrite length_app, Nat.add_1_r. cbn [shift_up].
  rewrite lookup_app_l by (rewrite length_app; simpl; lia).
  rewrite lookup_app_r, Nat.sub_diag by lia. cbn [lookup list_lookup].
  assert (forall y, <[S (length p) := y]> ((p ++ [x]) ++ h :: q) = (p ++ [x]) ++ y :: q)
    as Hins.
  { intros y. replace (S (length p)) with (length (p ++ [x]) + 0)%nat
      by (rewrite length_app; simpl; lia). by rewrite insert_app_r. }
  rewrite Hins. destruct (Z.ltb_spec tmp x).
  - rewrite <- app_assoc. cbn [app].
    destruct (IH x (x :: q)) as (p1 & p2 & -> & -> & H1 & H2).
    exists p1, (p2 ++ [x]). rewrite <- !app_assoc. split_and!; try done.
    apply Forall_app. auto.
  - rewrite Hins. exists (p ++ [x]), []. rewrite app_nil_r. split_and!; try done.
    intros y. rewrite last_snoc. intros [= <-]. done.
Qed.

Lemma sorted_app p q :
  sorted (p ++ q) <-> sorted p /\ sorted q /\ forall x y, x ∈ p -> y ∈ q -> x <= y.
Proof.
  induction p as [|a p IH]; simpl.
  { split; [intros H; split_and!; auto; [constructor|set_solver]|tauto]. }
  split.
  - intros [Hs Ha]%StronglySorted_inv. apply IH in Hs as (H1 & H2 & H3).
    apply Forall_app in Ha as [Ha1 Ha2]. rewrite Forall_forall in Ha2.
    split_and!; [by constructor|done|]. set_solver.
  - intros ([Hs Ha]%StronglySorted_inv & H2 & H3). constructor.
    + apply IH. split_and!; auto. set_solver.
    + apply Forall_app. split; [done|]. apply Forall_forall. set_solver.
Qed.

Lemma sorted_last p x tmp : sorted p -> last p = Some x -> x <= tmp ->
  forall y, y ∈ p -> y <= tmp.
Proof.
  intros Hs Hl Hx y Hy. apply last_Some in Hl as (p' & ->).
  apply sorted_app in Hs as (_ & _ & H). apply elem_of_app in Hy as [Hy|Hy].
  - specialize (H y x Hy). rewrite list_elem_of_singleton in H. specialize (H eq_refl). lia.
  - apply list_elem_of_singleton in Hy. lia.
Qed.

Lemma sorted_insert p1 tmp p2 :
  sorted (p1 ++ p2) -> Forall (fun x => tmp < x) p2 ->
  (forall x, last p1 = Some x -> x <= tmp) -> sorted (p1 ++ tmp :: p2).
Proof.
  intros (H1 & H2 & H3)%sorted_app Hall Hlast.
  assert (forall y, y ∈ p1 -> y <= tmp) as Hp1.
  { destruct (last p1) as [x|] eqn:Hl; [eapply sorted_last; eauto|].
    apply last_None in Hl as ->. set_solver. }
  rewrite Forall_forall in Hall. apply sorted_app. split_and!; [done| |].
  - constructor; [done|]. apply Forall_forall. intros x Hx. specialize (Hall x Hx). lia.
  - intros x y Hx Hy. apply elem_of_cons in Hy as [->|Hy]; auto.
Qed.

Lemma sort_from_spec n p q :
  sorted p -> (n <= length q)%nat ->
  exists p', sort_from (length p) n (p ++ q) = p' ++ drop n q /\
    sorted p' /\ p' ≡ₚ p ++ take n q.
Proof.
  revert p q. induction n as [|n IH]; intros p q Hs Hn.
  { exists p. rewrite take_0, drop_0, app_nil_r. done. }
  destruct q as [|h q]; simpl in Hn; [lia|]. cbn [sort_from].
  rewrite lookup_app_r, Nat.sub_diag by lia. cbn [lookup list_lookup].
  destruct (shift_up_spec h p h q) as (p1 & p2 & -> & -> & Hall & Hlast).
  destruct (IH (p1 ++ h :: p2) q) as (p' & He & Hs' & Hp);
    [by apply sorted_insert|lia|].
  exists p'. split_and!; [|done|].
  - cbn [drop]. rewrite <- He. f_equal; [rewrite !length_app; simpl; lia|].
    by rewrite <- app_assoc.
  - rewrite Hp. cbn [take]. rewrite <- !app_assoc. cbn [app]. solve_Permutation.
Qed.

Lemma sort_offsets_spec size a :
  0 <= size <= Z.of_nat (length a) ->
  exists p, sort_offsets size a = p ++ drop (Z.to_nat size) a /\
    sorted p /\ p ≡ₚ take (Z.to_nat size) a.
Proof.
  intros Hsize. unfold sort_offsets. destruct (Z.eq_dec size 0) as [->|Hne].
  { exists []. simpl. rewrite drop_0. split_and!; try done. constructor. }
  destruct a as [|x a]; simpl in Hsize; [lia|].
  destruct (sort_from_spec (Z.to_nat size - 1) [x] a) as (p & He & Hs & Hp);
    [repeat constructor|lia|].
  exists p. replace (Z.to_nat size) with (S (Z.to_nat size - 1)) at 2 3 by lia.
  cbn [length app] in He. cbn [drop take]. done.
Qed.

Lemma filter_all (P : Z -> Prop) `{!forall x, Decision (P x)} l :
  Forall P l -> filter P l = l.
Proof.
  induction 1 as [|x l Hx _ IH]; [done|]. rewrite filter_cons, IH. by case_decide.
Qed.

Lemma filter_none (P : Z -> Prop) `{!forall x, Decision (P x)} l :
  Forall (fun x => ~ P x) l -> filter P l = [].
Proof.
  induction 1 as [|x l Hx _ IH]; [done|]. rewrite filter_cons, IH. by case_decide.
Qed.

Lemma median_majority p k x :
  sorted p -> p !! k = Some x -> (k <= (length p - 1) / 2)%nat ->
  Z.of_nat (length p) / 2 < Z.of_nat (length (filter (fun y => x <= y) p)).
Proof.
  intros Hs Hk Hle. pose proof (lookup_lt_Some _ _ _ Hk) as Hlt.
  rewrite <- (take_drop k p) at 2. rewrite filter_app, length_app.
  assert (filter (fun y => x <= y) (drop k p) = drop k p) as ->.
  { apply filter_all. rewrite <- (take_drop k p) in Hs.
    apply sorted_app in Hs as (_ & Hs & _).
    rewrite (drop_S p x k Hk) in *. apply StronglySorted_inv in Hs as [_ Ha].
    constructor; [lia|done]. }
  pose proof (Nat.Div0.mul_div_le (length p - 1) 2).
  rewrite length_drop. apply Z.div_lt_upper_bound; lia.
Qed.

Lemma majority_median p k x c :
  sorted p -> p !! k = Some x -> ((length p - 1) / 2 <= k)%nat ->
  Z.of_nat (length p) / 2 < Z.of_nat (length (filter (fun y => c <= y) p)) -> c <= x.
Proof.
  intros Hs Hk Hle Hmaj. destruct (Z.le_gt_cases c x) as [|Hx]; [done|exfalso].
  pose proof (lookup_lt_Some _ _ _ Hk) as Hlt.
  rewrite <- (take_drop (S k) p) in Hmaj at 2. rewrite filter_app, length_app in Hmaj.
  assert (filter (fun y => c <= y) (take (S k) p) = []) as Hnil.
  { apply filter_none, Forall_forall. intros y Hy.
    rewrite (take_S_r p k x Hk) in Hy. rewrite <- (take_drop (S k) p), (take_S_r p k x Hk) in Hs.
    apply sorted_app in Hs as (Hs & _ & _). apply sorted_app in Hs as (_ & _ & Hs).
    apply elem_of_app in Hy as [Hy|Hy]; [specialize (Hs y x Hy)|];
      rewrite list_elem_of_singleton in *; [specialize (Hs eq_refl); lia|lia]. }
  rewrite Hnil in Hmaj. pose proof (length_filter (fun y => c <= y) (drop (S k) p)) as Hf.
  rewrite length_drop in Hf. cbn [length] in Hmaj.
  pose proof (Nat.div_mod_eq (length p - 1) 2). pose proof (Nat.mod_upper_bound (length p - 1) 2).
  pose proof (Z.div_mod (Z.of_nat (length p)) 2).
  pose proof (Z.mod_pos_bound (Z.of_nat (length p)) 2). lia.
Qed.

Lemma filter_map_length (o : Z -> Z) m l :
  length (filter (fun y => m <= y) (map o l)) =
  length (filter (fun i => (m <=? o i) = true) l).
Proof.
  induction l as [|i l IH]; [done|]. cbn [map]. rewrite !filter_cons.
  destruct (decide (m <= o i)), (decide ((m <=? o i) = true)); simpl; lia.
Qed.

(** ** The array of offsets *)

(** The arrays have the size of the group. *)
Record arrays_ok (s : srv) : Prop := {
  ao_cid : cid_wf (cid (conf s));
  ao_servers : length (servers (conf s)) = NSRV;
  ao_log_offsets : length (log_offsets (ctrl s)) = NSRV;
  ao_offsets : length (offsets (glob s)) = NSRV
}.

Definition known_end (s : srv) (i : Z) : Z := default 0 (fst <$> server_offset s 0 i).
Definition progress (s : srv) (m i : Z) : bool := default false (snd <$> server_offset s m i).

Lemma server_offset_some s m i :
  arrays_ok s -> 0 <= i < MAX_SERVER_COUNT ->
  server_offset s m i = Some (known_end s i, progress s m i).
Proof.
  intros [_ Hs Ho _] Hi. unfold known_end, progress, server_offset.
  destruct (i =? idx (conf s)); [done|]. destruct (negb _); [done|].
  destruct (aget_is_Some (servers (conf s)) i) as [v ->]; [rewrite Hs; exact Hi|].
  cbn. destruct (_ || _); [done|].
  destruct (aget_is_Some (log_offsets (ctrl s)) i) as [o ->]; [rewrite Ho; exact Hi|].
  done.
Qed.

Lemma fill_offsets_app s m l l' a n :
  fill_offsets s m (l ++ l') a n =
  r ← fill_offsets s m l a n; fill_offsets s m l' (fst r) (snd r).
Proof.
  revert a n. induction l as [|i l IH]; intros a n; [done|]. cbn [app fill_offsets].
  destruct (server_offset s m i) as [r|]; [|done]. cbn.
  destruct (aset a i r.1) as [a'|]; [|done]. cbn. apply IH.
Qed.

Lemma fill_offsets_spec s m n a :
  arrays_ok s -> 0 <= n <= MAX_SERVER_COUNT -> length a = NSRV ->
  fill_offsets s m (upto n) a 0 =
  Some (map (known_end s) (upto n) ++ drop (Z.to_nat n) a, count_if (progress s m) n).
Proof.
  intros Hok [Hn Hmax] Ha. revert Hmax. pattern n. revert n Hn.
  apply natlike_ind; [|intros n Hn IH]; intros Hmax.
  { simpl. by rewrite drop_0, count_if_0. }
  unfold Z.succ in *. rewrite upto_S, fill_offsets_app, IH by lia. cbn [mbind option_bind].
  cbn [fill_offsets fst snd]. rewrite (server_offset_some s m n Hok) by lia. cbn.
  assert (length (map (known_end s) (upto n)) = Z.to_nat n) as Hlen
    by (by rewrite length_map, length_upto).
  assert (Z.to_nat n < NSRV)%nat by (unfold NSRV; lia).
  rewrite aset_Some by (rewrite length_app, Hlen, length_drop, Ha; lia). cbn.
  rewrite map_app, <- app_assoc. cbn [map app]. do 2 f_equal.
  - rewrite <- (Nat.add_0_r (Z.to_nat n)), <- Hlen at 1. rewrite insert_app_r.
    destruct (drop (Z.to_nat n) a) as [|x d] eqn:Hd.
    { assert (length (drop (Z.to_nat n) a) = 0%nat) by (by rewrite Hd).
      rewrite length_drop in *. lia. }
    cbn. do 2 f_equal. replace (Z.to_nat (n + 1)) with (Z.to_nat n + 1)%nat by lia.
    by rewrite <- drop_drop, Hd.
  - rewrite count_if_S by done. by destruct (progress s m n); simpl; lia.
Qed.

(** ** The offset found is on a majority *)

(** The median of the sorted offsets. *)
Lemma sorted_median s size a :
  0 <= size <= MAX_SERVER_COUNT -> length a = NSRV ->
  let a' := sort_offsets size (map (known_end s) (upto size) ++ drop (Z.to_nat size) a) in
  exists x, length a' = NSRV /\ aget a' (Z.quot (size - 1) 2) = Some x /\
    (0 < size -> majority (fun i => x <=? known_end s i) size /\
                 (exists i, 0 <= i < size /\ x = known_end s i) /\
                 forall c, majority (fun i => c <=? known_end s i) size -> c <= x).
Proof.
  intros Hsize Ha. set (a1 := map _ _ ++ _). intros a'.
  assert (length (map (known_end s) (upto size)) = Z.to_nat size) as Hlm
    by (by rewrite length_map, length_upto).
  assert (length a1 = NSRV) as Hl1.
  { unfold a1. rewrite length_app, Hlm, length_drop, Ha. unfold NSRV. lia. }
  destruct (sort_offsets_spec size a1) as (p & Hp & Hs & Hperm).
  { rewrite Hl1. unfold NSRV. lia. }
  assert (take (Z.to_nat size) a1 = map (known_end s) (upto size)) as Htake
    by (unfold a1; by apply take_app_length').
  rewrite Htake in Hperm. pose proof (Permutation_length Hperm) as Hlp.
  assert (length a' = NSRV) as Hl2.
  { unfold a'. rewrite Hp, length_app, length_drop, Hlp, Hl1, Hlm. unfold NSRV. lia. }
  assert (0 <= Z.quot (size - 1) 2 < MAX_SERVER_COUNT) as Hq.
  { destruct (Z.eq_dec size 0) as [->|]; [done|].
    rewrite Z.quot_div_nonneg by lia. unfold MAX_SERVER_COUNT in *.
    split; [apply Z.div_pos; lia|apply Z.div_lt_upper_bound; lia]. }
  destruct (aget_is_Some a' (Z.quot (size - 1) 2)) as [x Hx]; [rewrite Hl2; exact Hq|].
  exists x. split; [done|]. split; [done|]. intros Hpos.
  rewrite Z.quot_div_nonneg in Hx by lia. unfold aget in Hx.
  rewrite (proj2 (Z.leb_le 0 _)) in Hx by (apply Z.div_pos; lia).
  unfold a' in Hx. rewrite Hp, lookup_app_l in Hx.
  2: { rewrite Hlp, Hlm. apply Z2Nat.inj_lt;
         [apply Z.div_pos; lia|lia|apply Z.div_lt_upper_bound; lia]. }
  assert (forall c, majority (fun i => c <=? known_end s i) size <->
    Z.of_nat (length p) / 2 < Z.of_nat (length (filter (fun y => c <= y) p))) as Hmaj.
  { intros c. unfold majority, count_if. rewrite <- filter_map_length, <- Hperm.
    by replace (Z.of_nat (length p)) with size by (rewrite Hlp, Hlm; lia). }
  assert (Z.to_nat ((size - 1) / 2) = (length p - 1) / 2)%nat as Hk.
  { rewrite Hlp, Hlm, Z2Nat.inj_div, Z2Nat.inj_sub by lia. done. }
  rewrite Hk in Hx. split_and!.
  - apply Hmaj. by eapply median_majority.
  - apply list_elem_of_lookup_2 in Hx. rewrite Hperm in Hx.
    apply list_elem_of_fmap in Hx as (i & -> & Hi%elem_of_upto). eauto.
  - intros c Hc. apply Hmaj in Hc. by eapply majority_median.
Qed.

(** Server [i] is known to have the leader's log up to [c]. *)
Definition replicated (s : srv) (c i : Z) : bool :=
  if i =? idx (conf s) then c <=? end_ (slog s)
  else
    match aget (servers (conf s)) i, aget (log_offsets (ctrl s)) i with
    | Some v, Some o =>
        CID_IS_SERVER_ON (cid (conf s)) i && (fail_count v <? PERMANENT_FAILURE)
        && (next_lr_step v =? LR_UPDATE_LOG) && (c <=? lo_end o)
    | _, _ => false
    end.

(** The entries in question have not wrapped around: the offsets are numbers
    up to the end of the log. *)
Record linear (s : srv) : Prop := {
  lin_end : end_ (slog s) < len (slog s) < M64;
  lin_commit : 0 <= commit (slog s) <= end_ (slog s);
  lin_ends : forall i, 0 <= i < size0 (cid (conf s)) -> 0 <= known_end s i <= end_ (slog s)
}.

Lemma larger_linear l a b :
  end_ l < len l -> len l < M64 -> 0 <= a <= end_ l -> 0 <= b <= end_ l ->
  log_is_offset_larger l a b = (b <? a).
Proof.
  intros H1 H2 Ha Hb. unfold log_is_offset_larger.
  rewrite (proj2 (Z.eqb_neq (end_ l) (len l))) by lia.
  rewrite !(proj2 (Z.geb_le _ _)) by lia. rewrite !u64_small by lia.
  destruct (Z.ltb_spec b a), (Z.ltb_spec (end_ l - a) (end_ l - b)); done || lia.
Qed.

Section Cases.
Context (s : srv) (i : Z) (Hok : arrays_ok s) (Hi : 0 <= i < MAX_SERVER_COUNT).

Lemma known_end_replicated c :
  commit (slog s) < c -> (c <=? known_end s i) = replicated s c i.
Proof.
  intros Hc. destruct Hok as [_ Hs Ho _]. unfold known_end, replicated, server_offset.
  destruct (i =? idx (conf s)); [done|].
  destruct (aget_is_Some (servers (conf s)) i) as [v ->]; [rewrite Hs; exact Hi|].
  destruct (aget_is_Some (log_offsets (ctrl s)) i) as [o ->]; [rewrite Ho; exact Hi|].
  destruct (CID_IS_SERVER_ON (cid (conf s)) i); cbn; [|apply Z.leb_gt; lia].
  rewrite (Z.leb_antisym (fail_count v)). destruct (fail_count v <? PERMANENT_FAILURE); cbn;
    [|apply Z.leb_gt; lia].
  destruct (next_lr_step v =? LR_UPDATE_LOG); cbn; [done|apply Z.leb_gt; lia].
Qed.

Lemma replicated_progress c :
  linear s -> i < size0 (cid (conf s)) -> i <> idx (conf s) ->
  commit (slog s) < c -> replicated s c i = true -> progress s (commit (slog s)) i = true.
Proof.
  intros [[He1 He2] Hcm Hen] Hlt Hne Hc Hr.
  pose proof (known_end_replicated c Hc) as Hk. rewrite Hr in Hk. apply Z.leb_le in Hk.
  specialize (Hen i ltac:(lia)). revert Hr Hk Hen. destruct Hok as [_ Hs Ho _].
  unfold known_end, progress, replicated, server_offset.
  rewrite (proj2 (Z.eqb_neq _ _) Hne).
  destruct (aget_is_Some (servers (conf s)) i) as [v ->]; [rewrite Hs; exact Hi|].
  destruct (aget_is_Some (log_offsets (ctrl s)) i) as [o ->]; [rewrite Ho; exact Hi|].
  destruct (CID_IS_SERVER_ON (cid (conf s)) i); cbn; [|done].
  rewrite (Z.leb_antisym (fail_count v)). destruct (fail_count v <? PERMANENT_FAILURE); cbn; [|done].
  destruct (next_lr_step v =? LR_UPDATE_LOG); cbn; [|done]. intros _ Hk Hen.
  rewrite larger_linear by done. apply Z.ltb_lt. lia.
Qed.
End Cases.

(** The state after the commit offset is updated to [m]. *)
Definition committed_at (s : srv) (m : Z) (a : list Z) : srv :=
  let s := set_glob (set_offsets a (glob s)) s in
  if log_is_offset_larger (slog s) m (commit (slog s)) then
    set_glob (set_committed 1 (glob s))
      (set_conf (set_cid_offset m (conf s)) (set_slog (set_commit (slog s) m) s))
  else s.

Lemma update_commit_run s m size a :
  find_min_offset s (offsets (glob s)) = Some (m, size, a) ->
  update_commit s = Ret size (committed_at s m a).
Proof.
  intros H. unfold update_commit. rewrite bind_get, H. mred. unfold committed_at. simpl.
  by destruct (log_is_offset_larger _ _ _).
Qed.

Lemma find_min_stable s :
  arrays_ok s -> CID_TRANSIT <> state (cid (conf s)) ->
  let size := size0 (cid (conf s)) in
  let c := commit (slog s) in
  exists x a, find_min_offset s (offsets (glob s)) =
      Some (if count_if (progress s c) size <? size / 2 then c else x, size, a) /\
    (0 < size -> majority (fun i => x <=? known_end s i) size /\
                 (exists i, 0 <= i < size /\ x = known_end s i) /\
                 forall c, majority (fun i => c <=? known_end s i) size -> c <= x).
Proof.
  intros Hok Hst. pose proof (wf_size0 _ (ao_cid _ Hok)) as Hsize.
  unfold find_min_offset, commit_pass. cbn [cid_size Z.eqb].
  set (size := size0 _) in *. set (c := commit _). cbv zeta.
  rewrite (fill_offsets_spec s c size _ Hok Hsize (ao_offsets _ Hok)).
  destruct (sorted_median s size (offsets (glob s)) Hsize (ao_offsets _ Hok))
    as (x & _ & Hx & Hm).
  exists x. rewrite (proj2 (Z.eqb_neq _ _) Hst). cbn [mbind option_bind andb negb].
  destruct (_ <? size / 2); cbn [mbind option_bind]; [eauto|].
  rewrite Hx. cbn. eauto.
Qed.

(** C4. The commit offset is exactly what a majority has.  In a configuration
    that is not transitional, while the entries between the commit and the end
    offset have not wrapped around, [update_commit] returns and: the commit
    offset never decreases and never passes the end; if it advances, a
    majority of the group is known to have the log up to it; and it reaches
    every offset up to which a majority has the log. *)
Theorem commit_offset_is_on_majority s :
  arrays_ok s -> CID_TRANSIT <> state (cid (conf s)) -> 0 < size0 (cid (conf s)) -> linear s ->
  exists s', update_commit s = Ret (size0 (cid (conf s))) s' /\
    commit (slog s) <= commit (slog s') <= end_ (slog s) /\
    (commit (slog s') <> commit (slog s) ->
       majority (replicated s (commit (slog s'))) (size0 (cid (conf s)))) /\
    forall c, commit (slog s) < c -> majority (replicated s c) (size0 (cid (conf s))) ->
      c <= commit (slog s').
Proof.
  intros Hok Hst Hpos Hlin. pose proof Hlin as [[He1 He2] Hcm Hen].
  destruct (find_min_stable s Hok Hst) as (x & a & Hf & Hm).
  eexists. split; [apply update_commit_run, Hf|]. destruct (Hm Hpos) as (Hmaj & (i & Hi & Hxi) & Hmax).
  set (size := size0 (cid (conf s))) in *.
  pose proof (wf_size0 _ (ao_cid _ Hok)) as Hsize. fold size in Hsize.
  assert (0 <= x <= end_ (slog s)) as Hx by (rewrite Hxi; by apply Hen).
  assert (forall c, commit (slog s) < c -> majority (replicated s c) size <->
    majority (fun i => c <=? known_end s i) size) as Hrep.
  { intros c Hc. unfold majority. erewrite count_if_ext; [done|].
    intros j Hj. symmetry. apply known_end_replicated; auto; lia. }
  unfold committed_at; cbn [glob slog set_glob].
  destruct (Z.ltb_spec (count_if (progress s (commit (slog s))) size) (size / 2)) as [Hlow|Hlow].
  - rewrite larger_linear, Z.ltb_irrefl by done. cbn. split_and!; try lia; try done.
    intros c Hc Hr. exfalso. unfold majority in Hr.
    assert (count_if (replicated s c) size <= count_if (progress s (commit (slog s))) size + 1).
    { apply (count_if_except _ _ (idx (conf s))). intros j Hj Hne Hj'.
      apply (replicated_progress s j Hok ltac:(lia) c); auto; lia. }
    lia.
  - rewrite larger_linear by done. destruct (Z.ltb_spec (commit (slog s)) x); cbn.
    + split_and!; try lia; [by intros _; apply Hrep|].
      intros c Hc Hr. apply Hmax. by apply Hrep.
    + split_and!; try lia; try done. intros c Hc Hr. apply Hrep in Hr; [|done].
      specialize (Hmax c Hr). lia.
Qed.

(** Leader 0 with commit offset [c], in configuration [k], that knows the end
    offsets [ends] of the servers (its own first). *)
Definition repl_srv (k : dare_cid_t) (c : Z) (ends : list Z) : srv :=
  let s := demo_srv 5 0 in
  set_slog (set_commit (set_end log_new (default 0 (ends !! 0%nat))) c)
    (set_ctrl (set_log_offsets
       ((fun e => mk_log_offsets 0 0 0 e) <$> (ends ++ drop (length ends) zero_sends)) ctrl_new)
      (set_conf (set_cid k (set_servers
         (replicate NSRV (set_next_lr_step LR_UPDATE_LOG server_new)) (conf s))) s)).

Lemma commit_offset_is_on_majority_witness :
  exists s', update_commit (repl_srv (cid_new 5) 48 [480; 480; 144; 96; 48]) = Ret 5 s' /\
    commit (slog s') = 144.
Proof.
  destruct (commit_offset_is_on_majority (repl_srv (cid_new 5) 48 [480; 480; 144; 96; 48]))
    as (s' & Hrun & _).
  - split; [split; vm_compute; intuition discriminate| | |]; reflexivity.
  - discriminate.
  - reflexivity.
  - split; [vm_compute; auto|vm_compute; intuition discriminate|].
    intros i Hi. assert (i = 0 \/ i = 1 \/ i = 2 \/ i = 3 \/ i = 4) as Hc
      by (change (size0 (cid (conf (repl_srv (cid_new 5) 48 [480; 480; 144; 96; 48])))) with 5 in Hi; lia).
    destruct Hc as [->|[->|[->|[->| ->]]]]; vm_compute; intuition discriminate.
  - exists s'. split; [exact Hrun|]. vm_compute in Hrun. injection Hrun as <-. reflexivity.
Defined.

(** ** The offset found when the log has wrapped around *)

(** Server [i] has the log up to [c] in the order of the log. *)
Definition has_upto (s : srv) (c i : Z) : bool :=
  negb (log_is_offset_larger (slog s) c (known_end s i)).

(** The log has wrapped around behind the commit offset: the end is at the
    start of the buffer. *)
Record wrapped (s : srv) : Prop := {
  wrap_end : 0 <= end_ (slog s) < commit (slog s);
  wrap_len : commit (slog s) < len (slog s) < M64;
  wrap_ends : forall i, 0 <= i < size0 (cid (conf s)) -> 0 <= known_end s i < len (slog s)
}.

(** The distance to the end, as [log_is_offset_larger] compares it. *)
Lemma larger_wrapped l a b :
  0 <= end_ l < len l -> len l < M64 -> 0 <= a < len l -> 0 <= b < len l ->
  log_is_offset_larger l a b = ((end_ l - a) mod len l <? (end_ l - b) mod len l).
Proof.
  intros He Hl Ha Hb. unfold log_is_offset_larger. rewrite (proj2 (Z.eqb_neq _ _)) by lia.
  assert (forall x, 0 <= x < len l ->
    (if end_ l >=? x then end_ l -64 x else len l -64 (x -64 end_ l)) = (end_ l - x) mod len l) as Hx.
  { intros x Hx. rewrite Z.geb_leb. destruct (Z.leb_spec x (end_ l)).
    - rewrite u64_small, Z.mod_small by lia. done.
    - rewrite (u64_small (x - end_ l)), u64_small by lia.
      replace (end_ l - x) with ((len l - (x - end_ l)) + (-1) * len l) by lia.
      rewrite Z.mod_add, Z.mod_small by lia. done. }
  by rewrite !Hx.
Qed.

Lemma has_upto_end s i :
  wrapped s -> 0 <= i < size0 (cid (conf s)) ->
  has_upto s (end_ (slog s)) i = (known_end s i =? end_ (slog s)).
Proof.
  intros [He Hl Hen] Hi. specialize (Hen i Hi). unfold has_upto. rewrite larger_wrapped by lia.
  rewrite Z.sub_diag, Z.mod_0_l by lia. destruct (Z.eqb_spec (known_end s i) (end_ (slog s))) as [->|Hne].
  { by rewrite Z.sub_diag, Z.mod_0_l by lia. }
  apply negb_false_iff, Z.ltb_lt. pose proof (Z.mod_pos_bound (end_ (slog s) - known_end s i) (len (slog s))).
  destruct (Z.eq_dec ((end_ (slog s) - known_end s i) mod len (slog s)) 0) as [Hz|]; [|lia].
  apply Z.mod_divide in Hz as [q Hq]; [|lia]. assert (q = 0) by nia. lia.
Qed.

(** A follower that is past the start of the buffer counts as progress. *)
Lemma wrapped_progress s i :
  arrays_ok s -> wrapped s -> 0 <= i < size0 (cid (conf s)) -> i <> idx (conf s) ->
  known_end s i <= end_ (slog s) -> progress s (commit (slog s)) i = true.
Proof.
  intros Hok [He Hl Hen] Hi Hne Hk. specialize (Hen i Hi). pose proof (wf_size0 _ (ao_cid _ Hok)).
  revert Hk Hen. destruct Hok as [_ Hs Ho _]. unfold known_end, progress, server_offset.
  rewrite (proj2 (Z.eqb_neq _ _) Hne). destruct (negb _); [cbn; lia|].
  destruct (aget_is_Some (servers (conf s)) i) as [v ->]; [rewrite Hs; unfold NSRV; lia|].
  cbn. destruct (_ || _); [cbn; lia|].
  destruct (aget_is_Some (log_offsets (ctrl s)) i) as [o ->]; [rewrite Ho; unfold NSRV; lia|].
  cbn. intros Hk Hen. rewrite larger_wrapped by lia. apply Z.ltb_lt.
  rewrite Z.mod_small by lia. replace (end_ (slog s) - commit (slog s))
    with ((len (slog s) - (commit (slog s) - end_ (slog s))) + (-1) * len (slog s)) by lia.
  rewrite Z.mod_add, Z.mod_small by lia. lia.
Qed.

Lemma count_if_split f g n : 0 <= n ->
  (forall i, 0 <= i < n -> f i = negb (g i)) -> count_if f n + count_if g n = n.
Proof.
  intros Hn. pattern n. revert n Hn. apply natlike_ind; [|intros n Hn IH H].
  { by rewrite !count_if_0. }
  unfold Z.succ in *. rewrite !count_if_S, (H n) by lia.
  assert (count_if f n + count_if g n = n) by (apply IH; intros; apply H; lia).
  destruct (g n); simpl; lia.
Qed.

(** The median is then the end of the leader's own log. *)
Lemma wrapped_median s k x :
  wrapped s -> size0 (cid (conf s)) = 2 * k + 1 -> 0 <= idx (conf s) < 2 * k + 1 ->
  count_if (fun i => end_ (slog s) <? known_end s i) (2 * k + 1) = k ->
  majority (fun i => x <=? known_end s i) (2 * k + 1) ->
  (forall c, majority (fun i => c <=? known_end s i) (2 * k + 1) -> c <= x) ->
  x = end_ (slog s).
Proof.
  intros Hw Hsize Hidx Hcount Hmaj Hmax. unfold majority in *.
  assert ((2 * k + 1) / 2 = k) as Hdiv
    by (symmetry; apply (Z.div_unique _ _ _ 1); lia).
  rewrite Hdiv in *. apply Z.le_antisymm.
  - destruct (Z.le_gt_cases x (end_ (slog s))) as [|Hx]; [done|exfalso].
    enough (count_if (fun i => x <=? known_end s i) (2 * k + 1) <= k) by lia.
    rewrite <- Hcount at 2. apply count_if_le. intros i _ Hi%Z.leb_le. apply Z.ltb_lt. lia.
  - apply Hmax. set (f := fun i => end_ (slog s) <? known_end s i) in *.
    set (g := fun i => (i =? idx (conf s)) || f i).
    assert (count_if g (2 * k + 1) = count_if f (2 * k + 1) + 1) as Hg.
    { apply (count_if_flip f g (idx (conf s)) (2 * k + 1) Hidx); unfold g, f.
      - unfold known_end, server_offset. rewrite Z.eqb_refl. apply Z.ltb_irrefl.
      - by rewrite Z.eqb_refl.
      - intros i Hi. by rewrite (proj2 (Z.eqb_neq _ _) Hi). }
    enough (count_if g (2 * k + 1) <= count_if (fun i => end_ (slog s) <=? known_end s i) (2 * k + 1)) by lia.
    apply count_if_le. unfold g, f. intros i _ [->%Z.eqb_eq|Hi%Z.ltb_lt]%orb_true_iff; apply Z.leb_le; [|lia].
    unfold known_end, server_offset. rewrite Z.eqb_refl. cbn. lia.
Qed.

Lemma only_leader s :
  wrapped s -> 0 <= idx (conf s) < size0 (cid (conf s)) ->
  (forall i, 0 <= i < size0 (cid (conf s)) -> i <> idx (conf s) -> known_end s i <> end_ (slog s)) ->
  count_if (has_upto s (end_ (slog s))) (size0 (cid (conf s))) = 1.
Proof.
  intros Hw Hidx Hno. rewrite (count_if_ext _ (fun i => i =? idx (conf s))).
  - rewrite (count_if_flip (fun _ => false) _ (idx (conf s)) _ Hidx); auto using Z.eqb_refl.
    + unfold count_if. by rewrite filter_none by (apply Forall_forall; done).
    + intros i Hi. symmetry. by apply Z.eqb_neq.
  - intros i Hi. rewrite has_upto_end by done. destruct (Z.eqb_spec i (idx (conf s))) as [->|Hne].
    + unfold known_end, server_offset. rewrite Z.eqb_refl. cbn. apply Z.eqb_refl.
    + apply Z.eqb_neq. by apply Hno.
Qed.

(** C38. Around the end of the buffer the rule fails, because the offsets are
    sorted as numbers although the log is circular.  In a group of 2k+1 servers
    whose configuration is not transitional, with the log wrapped around behind
    the commit offset: if the known ends of exactly k servers are not past the
    start of the buffer, [update_commit] commits the leader's own end offset,
    whatever the others have; and if no follower has that end, the leader is
    the only server of the group that has the log up to the new commit offset. *)
Theorem commit_across_wrap_without_majority s k :
  arrays_ok s -> CID_TRANSIT <> state (cid (conf s)) -> wrapped s ->
  size0 (cid (conf s)) = 2 * k + 1 -> 0 <= idx (conf s) < 2 * k + 1 ->
  count_if (fun i => end_ (slog s) <? known_end s i) (2 * k + 1) = k ->
  exists s', update_commit s = Ret (2 * k + 1) s' /\
    commit (slog s') = end_ (slog s) /\ committed (glob s') = 1 /\
    ((forall i, 0 <= i < 2 * k + 1 -> i <> idx (conf s) -> known_end s i <> end_ (slog s)) ->
       count_if (has_upto s (commit (slog s'))) (2 * k + 1) = 1).
Proof.
  intros Hok Hst Hw Hsize Hidx Hcount. pose proof Hw as [He Hl Hen].
  destruct (find_min_stable s Hok Hst) as (x & a & Hf & Hm).
  rewrite Hsize in Hf, Hm. destruct (Hm ltac:(lia)) as (Hmaj & _ & Hmax).
  rewrite (wrapped_median s k x Hw Hsize Hidx Hcount Hmaj Hmax) in Hf.
  assert ((2 * k + 1) / 2 = k) as Hdiv by (symmetry; apply (Z.div_unique _ _ _ 1); lia).
  rewrite Hdiv, (proj2 (Z.ltb_ge _ _)) in Hf.
  2: { pose proof (count_if_split (fun i => known_end s i <=? end_ (slog s))
         (fun i => end_ (slog s) <? known_end s i) (2 * k + 1) ltac:(lia)
         ltac:(intros; apply Z.leb_antisym)).
       pose proof (count_if_except (fun i => known_end s i <=? end_ (slog s))
         (progress s (commit (slog s))) (idx (conf s)) (2 * k + 1)) as Hx.
       enough (count_if (fun i => known_end s i <=? end_ (slog s)) (2 * k + 1)
         <= count_if (progress s (commit (slog s))) (2 * k + 1) + 1) by lia.
       apply Hx. intros i Hi Hne Hk%Z.leb_le. apply wrapped_progress; auto. lia. }
  eexists. split; [apply update_commit_run, Hf|]. unfold committed_at. cbn [glob slog set_glob].
  rewrite larger_wrapped, Z.sub_diag, Z.mod_0_l by lia. rewrite (proj2 (Z.ltb_lt _ _)).
  2: { rewrite <- (Z.mod_add _ 1), Z.mod_small; lia. }
  cbn. split_and!; try done. intros Hno.
  rewrite <- Hsize in *. by apply only_leader.
Qed.

(** Seven entries without data were appended to a log of 256 bytes; the first
    three are pruned and the last two are at the start of the buffer. *)
Definition noops (n : nat) (l : dare_log_t) : dare_log_t :=
  Nat.iter n (fun l => append_ok l 1 NOOP LD_null) l.
Definition wrapped_log : dare_log_t :=
  noops 2 (set_apply (set_commit (set_head (noops 5 (small_log 256)) 144) 192) 192).
Definition wrapped_entries : list aentry := (fun i => mk_ae i 1 0 0 NOOP LD_null) <$> [4; 5; 6; 7].
Definition wrapped_srv : srv :=
  set_slog wrapped_log (repl_srv (cid_new 5) 192 [96; 48; 48; 240; 192]).

Lemma wrapped_log_inv : log_inv wrapped_log wrapped_entries.
Proof.
  assert (live wrapped_log 192 (drop 1 wrapped_entries)) as H1.
  { eapply (live_wrap _ _ [mk_ae 5 1 0 0 NOOP LD_null] 240); vm_compute; auto; discriminate. }
  assert (boundary wrapped_log wrapped_entries 192) as H2.
  { split; [vm_compute; intuition discriminate|].
    exists (drop 1 wrapped_entries). split; [by exists (take 1 wrapped_entries)|done]. }
  split; [|exact H2..|].
  - split; [split; vm_compute; discriminate|done|vm_compute; discriminate|].
    eapply (live_wrap _ _ (take 2 wrapped_entries) 240); vm_compute; auto; discriminate.
  - right. exists (take 3 wrapped_entries), (mk_ae 7 1 0 0 NOOP LD_null). split; [done|].
    apply live_lin; vm_compute; auto; discriminate.
Qed.

Lemma commit_across_wrap_without_majority_witness :
  log_inv wrapped_log wrapped_entries /\
  exists s', update_commit wrapped_srv = Ret 5 s' /\ commit (slog s') = 96 /\
    count_if (has_upto wrapped_srv 96) 5 = 1.
Proof.
  split; [apply wrapped_log_inv|].
  destruct (commit_across_wrap_without_majority wrapped_srv 2) as (s' & Hrun & Hc & _).
  - split; [split; vm_compute; intuition discriminate| | |]; reflexivity.
  - discriminate.
  - split; [vm_compute; intuition discriminate..|].
    intros i Hi. assert (i = 0 \/ i = 1 \/ i = 2 \/ i = 3 \/ i = 4) as Hi'
      by (change (size0 (cid (conf wrapped_srv))) with 5 in Hi; lia).
    destruct Hi' as [->|[->|[->|[->| ->]]]]; vm_compute; intuition discriminate.
  - reflexivity.
  - vm_compute. intuition discriminate.
  - vm_compute. reflexivity.
  - exists s'. split; [exact Hrun|]. split; [rewrite Hc; vm_compute; reflexivity|].
    vm_compute. reflexivity.
Defined.

(** The transition from three to five servers. *)
Definition cid_3_to_5 : dare_cid_t := mk_cid 1 3 5 CID_TRANSIT 0 31.

(** In a transitional configuration a commit needs a majority of both
    groups, but the second pass compares with the median of the first and
    gives up when no server is beyond it.  Three servers grow to five and only
    servers 0 and 1 have the entry that ends at 100: the leader commits it
    with two of five servers. *)
Theorem transitional_commit_without_second_majority :
  let s := repl_srv cid_3_to_5 50 [100; 100; 50; 50; 50] in
  exists s', update_commit s = Ret 5 s' /\ commit (slog s') = 100 /\
    committed (glob s') = 1 /\ count_if (replicated s 100) 5 = 2.
Proof.
  eexists. split; [vm_compute; reflexivity|]. repeat split; vm_compute; reflexivity.
Qed.

(** ** What is written *)

(** The offsets a segment covers. *)
Definition covered (a : Z * Z) : list Z := seqZ (fst a) (snd a).

Lemma seqZ_mod m n len :
  0 <= m -> m + n <= len -> 0 < len ->
  (fun k => (m + k) mod len) <$> seqZ 0 n = seqZ m n.
Proof.
  intros Hm Hn Hl. replace (seqZ m n) with (Z.add m <$> seqZ 0 n)
    by (rewrite fmap_add_seqZ; f_equal; lia).
  apply list_fmap_ext. intros i x Hx%list_elem_of_lookup_2%elem_of_seqZ.
  rewrite Z.mod_small; lia.
Qed.

(** The one or two writes with which [update_remote_logs] brings a server
    up to date cover exactly the bytes from its end offset to the end of the
    leader's log, in order around the circular buffer; their number is
    [log_offset_end_distance]. *)
Theorem update_covers_missing_bytes l r :
  len l < 2 ^ 32 -> 0 <= end_ l < len l -> 0 <= r < len l -> r <> end_ l ->
  let '(a, b) := missing l r in
  covered a ++ covered b =
  (fun k => (r + k) mod len l) <$> seqZ 0 (log_offset_end_distance l r).
Proof.
  intros Hlen He Hr Hne. unfold missing, log_offset_end_distance.
  rewrite (proj2 (Z.eqb_neq (end_ l) (len l))) by lia.
  destruct (Z.ltb_spec r (end_ l)).
  - rewrite (proj2 (Z.geb_le _ _)) by lia. rewrite u64_small, wrap_small by lia.
    rewrite seqZ_mod by lia. unfold covered; cbn. by rewrite app_nil_r.
  - assert ((end_ l >=? r) = false) as -> by (rewrite Z.geb_leb; apply Z.leb_gt; lia).
    rewrite !u64_small, !wrap_small by (rewrite ?u64_small; lia).
    unfold covered; cbn [fst snd].
    replace (len l - (r - end_ l)) with ((len l - r) + end_ l) by lia.
    rewrite seqZ_app, fmap_app, seqZ_mod by lia. f_equal.
    replace (0 + (len l - r)) with (len l - r + 0) by lia.
    rewrite <- fmap_add_seqZ, <- list_fmap_compose.
    etrans; [symmetry; apply (seqZ_mod 0 (end_ l) (len l)); lia|].
    apply list_fmap_ext. intros i x _. cbn.
    replace (r + (len l - r + x)) with (x + 1 * len l) by lia.
    by rewrite Z.mod_add, Z.add_0_l by lia.
Qed.

Lemma update_covers_missing_bytes_witness :
  let '(a, b) := missing (set_end log_new 96) 67108768 in
  covered a ++ covered b =
  (fun k => (67108768 + k) mod LOG_SIZE) <$>
    seqZ 0 (log_offset_end_distance (set_end log_new 96) 67108768).
Proof.
  apply (update_covers_missing_bytes (set_end log_new 96) 67108768); vm_compute;
    intuition discriminate.
Defined.
