(* ===== verification/Role.v ===== *)
(** * Roles and transitions (dare_server.c)

    The state identifier decides the role of a server.  This file has the
    transitions: starting an election, following a leader, checking
    leadership, and moving to another configuration. *)

From Stdlib Require Import QArith.
From S2P Require Import Prelude Bytes Words Config Log State Hoare Qp Cq RcOps.

Open Scope Z_scope.

(** ** Roles *)

Definition IS_NONE (s : srv) : bool :=
  (SID_GET_IDX (sid (ctrl s)) =? idx (conf s)) && negb (c_true (SID_GET_L (sid (ctrl s))))
  && (SID_GET_TERM (sid (ctrl s)) =? 0).
Definition IS_LEADER (s : srv) : bool :=
  negb (IS_NONE s) && (SID_GET_IDX (sid (ctrl s)) =? idx (conf s))
  && c_true (SID_GET_L (sid (ctrl s))).
Definition IS_CANDIDATE (s : srv) : bool :=
  negb (IS_NONE s) && (SID_GET_IDX (sid (ctrl s)) =? idx (conf s))
  && negb (c_true (SID_GET_L (sid (ctrl s)))).
Definition IS_FOLLOWER (s : srv) : bool :=
  negb (IS_NONE s) && negb (IS_LEADER s) && negb (IS_CANDIDATE s).

Definition is_leader : M Z := b ← get IS_LEADER; mret (c_bool b).
Definition get_node_id : M Z := get (fun s => idx (conf s)).

(** The flags of [dare_state]. *)
Definition TERMINATE : Z := 0x1.
Definition INIT : Z := 0x2.
Definition JOINED : Z := 0x4.
Definition RC_ESTABLISHED : Z := 0x8.
Definition SM_RECOVERED : Z := 0x10.
Definition LOG_RECOVERED : Z := 0x20.
Definition SNAPSHOT : Z := 0x40.
Definition DIE_AF_COMMIT : Z := 0x80.

Definition has_flag (f : Z) : M bool :=
  x ← get (fun s => dare_state (glob s)); mret (c_true (Z.land x f)).
Definition set_flag (f : Z) : M unit :=
  on_glob (fun g => set_dare_state (Z.lor (dare_state g) f) g).
Definition unset_flag (f : Z) : M unit :=
  on_glob (fun g => set_dare_state (Z.land (dare_state g) (u64 (Z.lnot f))) g).

(** Append to the log of the server. *)
Definition append_entry (term req_id clt_id type : Z) (d : log_data) : M Z :=
  l ← get slog;
  g ← get glob;
  n ← get (fun s => fuel (params s));
  r ← of_outcome (log_append_entry n l (prev_log_entry_head g) term req_id clt_id type d);
  let '(i, l, prev) := (r : Z * dare_log_t * Z) in
  on_log (fun _ => l) ;;
  on_glob (set_prev_log_entry_head prev) ;;
  mret i.

(** ** Timers *)

Definition random_election_timeout : M Q :=
  p ← get params;
  let r := default 0 (rand p !! 0%nat) in
  upd (fun s => set_params (set_rand (drop 1 (rand p)) (params s)) s) ;;
  let d := elec_timeout_high p -64 elec_timeout_low p in
  if d =? 0 then fault
  else mret (inject_Z (u64 (r mod d + elec_timeout_low p)) * (1 # 1000000))%Q.

Definition hb_timeout (s : srv) : Q :=
  if negb (hb_timeout_flag (glob s) =? 0) then recomputed_hb_timeout (glob s)
  else (10 * hb_period (params s))%Q.

Definition on_hb_event (f : ev_timer -> ev_timer) : M unit :=
  on_tmr (fun t => set_hb_event (f (hb_event t)) t).
Definition on_prune_event (f : ev_timer -> ev_timer) : M unit :=
  on_tmr (fun t => set_prune_event (f (prune_event t)) t).
Definition on_to_adjust_event (f : ev_timer -> ev_timer) : M unit :=
  on_tmr (fun t => set_to_adjust_event (f (to_adjust_event t)) t).
Definition on_timer_event (f : ev_timer -> ev_timer) : M unit :=
  on_tmr (fun t => set_timer_event (f (timer_event t)) t).

(** ** Transitions *)

Definition server_update_sid (new_sid old_sid : Z) : M Z :=
  sd ← get (fun s => sid (ctrl s));
  if sd =? old_sid then on_ctrl (set_sid new_sid) ;; mret 0 else error_exit.

(** [[t+1|0|own_idx]] *)
Definition election_sid (sd own : Z) : Z :=
  SID_SET_IDX (SID_UNSET_L (SID_SET_TERM 0 (u64 (SID_GET_TERM sd + 1)))) own.

Definition clear_vote (i : Z) : M unit :=
  n ← get (fun s => len (slog s));
  ctrl_put vote_ack set_vote_ack i n ;;
  on_server i (fun v => set_send_flag 1 (set_next_lr_step LR_GET_WRITE v)).

Definition start_election : M unit :=
  sd ← get (fun s => sid (ctrl s));
  own ← get (fun s => idx (conf s));
  server_update_sid (election_sid sd own) sd ;;
  emit (E_log_election (SID_GET_TERM (election_sid sd own))) ;;
  rc ← rc_revoke_log_access;
  if negb (rc =? 0) then error_exit
  else
    size ← get (fun s => get_group_size (cid (conf s)));
    for_each (upto size) clear_vote ;;
    r ← random_election_timeout;
    on_hb_event (fun w => rearm_cb w CB_hb_receive r) ;;
    rc ← rc_send_vote_request;
    if negb (rc =? 0) then error_exit else mret tt.

(** Fill the own buffer of not committed entries. *)
Definition fill_nc_buf : M dare_nc_buf_t :=
  l ← get slog;
  me ← get (fun s => idx (conf s));
  n ← get (fun s => fuel (params s));
  b ← or_fault (aget (nc_buf l) me);
  b ← of_outcome (log_entries_to_nc_buf n l b);
  bufs ← or_fault (aset (nc_buf l) me b);
  on_log (fun l => set_nc_buf l bufs) ;;
  mret b.

(** Stop pruning and restart the adjustment of the timeout. *)
Definition follow_timers : M unit :=
  on_prune_event (fun w => rearm w 0) ;;
  on_glob (set_leader_failed 0) ;;
  g ← get glob;
  when (hb_timeout_flag g =? 0)
    (on_to_adjust_event (fun w => rearm w (recomputed_hb_timeout g))).

(** Send the vote acknowledgement and wait for heartbeats. *)
Definition acknowledge : M unit :=
  rc ← rc_send_vote_ack;
  if rc <? 0 then start_election
  else if negb (rc =? 0) then error_exit
  else
    r ← get hb_timeout;
    on_hb_event (fun w => rearm_cb w CB_hb_receive r).

Definition server_to_follower : M unit :=
  on_hb_event (fun w => rearm w 0) ;;
  follow_timers ;;
  rc_revoke_log_access ;;
  fill_nc_buf ;;
  rc_restore_log_access ;;
  sd ← get (fun s => sid (ctrl s));
  if c_true (SID_GET_L sd) then acknowledge
  else
    r ← get hb_timeout;
    on_hb_event (fun w => rearm_cb w CB_hb_receive r).

(** The best SID read that has a leader, for one server. *)
Definition better_sid (ps : list Z) (i : Z) (new_sid : Z) : M (Z * option unit) :=
  me ← get (fun s => idx (conf s));
  if i =? me then mret (new_sid, None)
  else
    x ← or_fault (aget ps i);
    if negb (x =? 0) then mret (new_sid, None)
    else
      r ← ctrl_get rsid i;
      mret (if (new_sid <? r) && c_true (SID_GET_L r) then r else new_sid, None).

(** The result is the return value and what is written to [*leader]; on an
    error nothing is written. *)
Definition rc_verify_leadership : M (Z * option Z) :=
  size ← get (fun s => get_group_size (cid (conf s)));
  next_ssn ;;
  r ← post_round size 0 L_sid (mret P_read) true (Some zero_sends);
  let '(ps, err) := (r : option (list Z) * option Z) in
  match err with
  | Some _ => mret (1, None)
  | None =>
      r ← wait_for_majority (default [] ps) CTRL_QP;
      let '(rc, ps) := (r : Z * list Z) in
      if rc =? RC_ERROR then mret (1, None)
      else
        sd ← get (fun s => sid (ctrl s));
        r ← for_st (upto size) (better_sid ps) sd;
        let new_sid := fst (r : Z * option unit) in
        if negb (new_sid =? sd) then
          server_update_sid new_sid sd ;;
          server_to_follower ;;
          mret (0, Some 0)
        else mret (0, Some 1)
  end.

(** ** Group reconfiguration *)

(** One server of the loop: departures are disconnected. *)
Definition depart (new : dare_cid_t) (i : Z) : M unit :=
  c ← get conf;
  when (negb (CID_IS_SERVER_ON new i) && CID_IS_SERVER_ON (cid c) i)
    (if i =? idx c then dare_server_shutdown
     else rc_disconnect_server i ;; mret tt).

Definition update_cid (new : dare_cid_t) : M Z :=
  c ← get (fun s => cid (conf s));
  if equal_cid c new then mret 1
  else
    let size := if size0 new <? size1 new then size1 new else size0 new in
    for_each (upto size) (depart new) ;;
    on_conf (set_cid new) ;;
    mret 0.

(** What [poll_config_entries] does with one entry at [offset]; the locals are
    the offset and the head offset. *)
Definition config_entry (l : dare_log_t) (e : Z) : M unit :=
  ci ← get (fun s => cid_idx (conf s));
  when (ci <? entry_idx l e)
    (r ← update_cid (entry_cid l e);
     when (r =? 0)
       (on_conf (fun c => set_clt_id (entry_clt_id l e) (set_req_id (entry_req_id l e) c)))).

Fixpoint config_loop (n : nat) (c offset head_offset : Z) : M (Z * Z) :=
  match n with
  | O => hang
  | S n' =>
      l ← get slog;
      if log_offset_end_distance l offset =? 0 then mret (offset, head_offset)
      else
        let '(r, offset) := log_get_entry l offset in
        e ← or_fault r;
        if negb (log_fit_entry l offset e) then config_loop n' c 0 head_offset
        else
          let next := offset +64 log_entry_len l e in
          if entry_type l e =? CONFIG then
            config_entry l e ;; config_loop n' c next head_offset
          else if (entry_type l e =? HEAD) && negb (log_is_offset_larger l offset c) then
            unset_flag SNAPSHOT ;; config_loop n' c next (entry_head l e)
          else config_loop n' c next head_offset
  end.

Definition poll_config_entries : M unit :=
  l ← get slog;
  off ← get (fun s => cid_offset (conf s));
  n ← get (fun s => fuel (params s));
  r ← config_loop n (commit l) off (head l);
  let '(offset, head_offset) := (r : Z * Z) in
  on_conf (set_cid_offset
    (if log_is_offset_larger l offset (commit l) then commit l else offset)) ;;
  when (log_is_offset_larger l head_offset (head l))
    (on_log (fun l => set_head l head_offset)).
