(* ===== verification/EpDb.v ===== *)
(** * The endpoint database (dare_ep_db.c)

    The clients and joining servers a server has heard from, by LID.  The
    database is its list of endpoints in the order of the keys; a pointer into
    it is the key.  [EpTreeSpec] justifies the list: the code on the red-black
    tree, [EpTree], refines it. *)

From Stdlib Require Import Sorted.
From S2P Require Import Prelude Bytes Words Config Log State Hoare Qp Cq RcOps Role.

Open Scope Z_scope.

Fixpoint ep_search (db : list dare_ep_t) (lid : Z) : option dare_ep_t :=
  match db with
  | [] => None
  | e :: db' =>
      if lid <? ep_lid e then None
      else if ep_lid e <? lid then ep_search db' lid
      else Some e
  end.

Definition ep_fresh (lid : Z) : dare_ep_t := mk_clt lid 0 0 0 0.

(** [None]: there already is an endpoint with this LID. *)
Fixpoint ep_insert (db : list dare_ep_t) (lid : Z) : option (list dare_ep_t) :=
  match db with
  | [] => Some [ep_fresh lid]
  | e :: db' =>
      if lid <? ep_lid e then Some (ep_fresh lid :: e :: db')
      else if ep_lid e <? lid then (fun l => e :: l) <$> ep_insert db' lid
      else None
  end.

Fixpoint ep_erase (db : list dare_ep_t) (lid : Z) : list dare_ep_t :=
  match db with
  | [] => []
  | e :: db' =>
      if lid <? ep_lid e then db
      else if ep_lid e <? lid then e :: ep_erase db' lid
      else db'
  end.

Definition ep_db_free (db : list dare_ep_t) : list dare_ep_t := [].

(** Write through a pointer to the endpoint with this LID. *)
Definition ep_write (f : dare_ep_t -> dare_ep_t) (db : list dare_ep_t) (lid : Z)
    : list dare_ep_t :=
  map (fun e => if ep_lid e =? lid then f e else e) db.

Definition ep_dp_reset_wait_idx (db : list dare_ep_t) : list dare_ep_t :=
  map (set_ep_wait_for_idx 0) db.

Definition on_clts (f : list dare_ep_t -> list dare_ep_t) : M unit :=
  upd (fun s => set_clts (f (clts s)) s).

(** Answer a read request from the state machine (dare_ibv_ud.c); the results
    of [apply_cmd] and of the send are only logged. *)
Definition ud_clt_answer_read_request (lid : Z) : M unit :=
  on_clts (fun db => ep_write (set_ep_wait_for_idx 0) db lid) ;;
  ask ;;
  emit (E_answer_read lid) ;;
  ask ;;
  mret tt.

(** One node of the traversal; [verified] is the local [verify_leadership]. *)
Definition reply_one (i : Z) (lid : Z) (verified : bool) : M (bool * option unit) :=
  db ← get clts;
  e ← or_fault (ep_search db lid);
  if ep_wait_for_idx e =? 0 then mret (verified, None)
  else
    leader ← (if verified then mret 1
              else r ← rc_verify_leadership; mret (default 0 (snd (r : Z * option Z))));
    if leader =? 0 then on_clts ep_dp_reset_wait_idx ;; mret (true, Some tt)
    else
      when (ep_wait_for_idx e <? i) (ud_clt_answer_read_request lid) ;;
      mret (true, None).

Definition ep_dp_reply_read_req (i : Z) : M unit :=
  db ← get clts;
  for_st (map ep_lid db) (reply_one i) false ;;
  mret tt.

(** ** The database is a map from LIDs *)

Definition db_ok (db : list dare_ep_t) : Prop := StronglySorted Z.lt (map ep_lid db).

Lemma db_ok_cons e db :
  db_ok (e :: db) <-> db_ok db /\ Forall (fun x => ep_lid e < ep_lid x) db.
Proof.
  unfold db_ok. simpl. split.
  - intros H. apply StronglySorted_inv in H as [H1 H2]. split; [done|].
    by apply (List.Forall_map ep_lid).
  - intros [H1 H2]. constructor; [done|]. by apply (List.Forall_map ep_lid).
Qed.

Lemma ep_search_Some db lid e :
  db_ok db -> ep_search db lid = Some e <-> e ∈ db /\ ep_lid e = lid.
Proof.
  induction db as [|x db IH]; intros Hok; simpl.
  { split; [done|]. intros [H _]. by apply not_elem_of_nil in H. }
  apply db_ok_cons in Hok as [Hok Hall]. rewrite Forall_forall in Hall.
  setoid_rewrite elem_of_cons. destruct (Z.ltb_spec lid (ep_lid x)).
  { split; [done|]. intros [[->|Hin] Hl]; [lia|]. specialize (Hall e Hin). lia. }
  destruct (Z.ltb_spec (ep_lid x) lid).
  { rewrite IH by done. split; [tauto|]. intros [[->|Hin] Hl]; [lia|done]. }
  split.
  - intros [= ->]. split; [by left|lia].
  - intros [[->|Hin] Hl]; [done|]. specialize (Hall e Hin). lia.
Qed.

Lemma ep_insert_lids db db' lid x :
  ep_insert db lid = Some db' -> x ∈ map ep_lid db' <-> x = lid \/ x ∈ map ep_lid db.
Proof.
  revert db'. induction db as [|e db IH]; intros db'; simpl.
  { intros [= <-]. simpl. set_solver. }
  destruct (Z.ltb_spec lid (ep_lid e)); [intros [= <-]; simpl; set_solver|].
  destruct (Z.ltb_spec (ep_lid e) lid); [|done].
  destruct (ep_insert db lid) as [l|]; [|done]. intros [= <-]. simpl.
  rewrite !elem_of_cons, (IH l eq_refl). tauto.
Qed.

Lemma db_ok_insert db db' lid : db_ok db -> ep_insert db lid = Some db' -> db_ok db'.
Proof.
  revert db'. induction db as [|e db IH]; intros db' Hok; simpl.
  { intros [= <-]. repeat constructor. }
  pose proof Hok as Hall. apply db_ok_cons in Hall as [Hdb Hall].
  destruct (Z.ltb_spec lid (ep_lid e)).
  { intros [= <-]. apply db_ok_cons. split; [done|]. constructor; [done|].
    eapply Forall_impl; [exact Hall|]. simpl. lia. }
  destruct (Z.ltb_spec (ep_lid e) lid); [|done].
  destruct (ep_insert db lid) as [l|] eqn:Hl; [|done]. intros [= <-].
  apply db_ok_cons. split; [by apply IH|]. rewrite Forall_forall in *.
  intros x Hx. assert (ep_lid x ∈ map ep_lid l) as Hin by (by apply list_elem_of_fmap_2).
  apply (ep_insert_lids _ _ _ _ Hl) in Hin as [->|Hin]; [done|].
  apply list_elem_of_fmap in Hin as (y & -> & Hy). auto.
Qed.

Lemma db_ok_lids db db' : map ep_lid db = map ep_lid db' -> db_ok db -> db_ok db'.
Proof. unfold db_ok. by intros ->. Qed.

Lemma ep_write_lids f db lid :
  (forall e, ep_lid (f e) = ep_lid e) -> map ep_lid (ep_write f db lid) = map ep_lid db.
Proof.
  intros Hf. unfold ep_write. rewrite map_map. apply map_ext. intros e.
  by destruct (ep_lid e =? lid).
Qed.

(** The endpoint database is a map from LIDs: an insertion fails exactly
    when the LID is present, and otherwise keeps the order of the keys, makes
    the LID found with a fresh endpoint and leaves all other LIDs as they
    were. *)
Theorem ep_insert_search db lid :
  db_ok db ->
  (ep_insert db lid = None <-> is_Some (ep_search db lid)) /\
  forall db', ep_insert db lid = Some db' ->
    db_ok db' /\ ep_search db' lid = Some (ep_fresh lid) /\
    forall lid', lid' <> lid -> ep_search db' lid' = ep_search db lid'.
Proof.
  intros Hok. split.
  - induction db as [|e db IH]; simpl; [by split; [|intros [? ?]]|].
    apply db_ok_cons in Hok as [Hok _].
    destruct (Z.ltb_spec lid (ep_lid e)); [by split; [|intros [? ?]]|].
    destruct (Z.ltb_spec (ep_lid e) lid); [|by split; eauto].
    rewrite <- IH by done. by destruct (ep_insert db lid).
  - intros db' Hi. split; [by eapply db_ok_insert|].
    revert db' Hi. induction db as [|e db IH]; intros db'; simpl.
    { intros [= <-]. split; simpl; [by rewrite Z.ltb_irrefl|].
      intros lid' Hne. repeat zcase; try done; lia. }
    apply db_ok_cons in Hok as [Hok Hall].
    destruct (Z.ltb_spec lid (ep_lid e)).
    { intros [= <-]. simpl. rewrite Z.ltb_irrefl. split; [done|].
      intros lid' Hne. repeat zcase; try done; lia. }
    destruct (Z.ltb_spec (ep_lid e) lid); [|done].
    destruct (ep_insert db lid) as [l|]; [|done]. intros [= <-]. simpl.
    destruct (IH Hok l eq_refl) as [H1 H2]. split; [by repeat zcase; try lia|].
    intros lid' Hne. repeat zcase; auto.
Qed.

Lemma ep_insert_search_witness :
  exists db', ep_insert [ep_fresh 3; ep_fresh 9] 5 = Some db' /\
    ep_search db' 5 = Some (ep_fresh 5) /\ ep_search db' 9 = Some (ep_fresh 9).
Proof.
  destruct (ep_insert_search [ep_fresh 3; ep_fresh 9] 5) as [_ H].
  { repeat constructor. }
  destruct (H [ep_fresh 3; ep_fresh 5; ep_fresh 9] eq_refl) as (_ & H1 & H2).
  exists [ep_fresh 3; ep_fresh 5; ep_fresh 9]. split; [reflexivity|]. split; [exact H1|].
  rewrite H2 by discriminate. reflexivity.
Defined.
