(* ===== verification/Ud.v ===== *)
(** * Datagrams (dare_ibv_ud.c)

    The messages over unreliable datagrams: the three-way handshake that
    connects the queue pairs, joining the group, and the entries the proxy
    queued for the log.  A message carries what the code decides on; the
    addresses and keys it also exchanges stay with the device. *)

From S2P Require Import Prelude Bytes Words Config Log State Hoare Qp Cq RcOps Role EpDb.

Open Scope Z_scope.

Definition MSG_NONE : Z := 0.
Definition MSG_ERROR : Z := 13.
Definition RC_SYN : Z := 1.
Definition RC_SYNACK : Z := 2.
Definition RC_ACK : Z := 3.
Definition JOIN : Z := 211.
Definition CFG_REPLY : Z := 214.
Definition REQ_MAJORITY : Z := 13.

(** [sizeof(rc_syn_t)] *)
Definition RC_SYN_SIZE : Z := 80.

(** The [type] field of a header. *)
Definition msg_type (m : ud_msg) : Z :=
  match m with
  | UD_JOIN _ _ => JOIN
  | UD_RC_SYN _ _ _ _ => RC_SYN
  | UD_RC_SYNACK _ _ _ => RC_SYNACK
  | UD_RC_ACK _ _ => RC_ACK
  | UD_CFG_REPLY _ _ _ _ _ => CFG_REPLY
  | UD_OTHER t => t
  end.

(** ** Sending *)

Definition ud_send_message (lid : Z) (m : ud_msg) : M Z :=
  emit (E_ud_send lid m) ;;
  rc ← ask;
  check rc.

Definition mcast_send_message (m : ud_msg) : M Z :=
  emit (E_mcast m) ;;
  rc ← ask;
  check rc.

(** ** The queue of the proxy *)

Fixpoint drain (l : list tailq_entry_t) : M unit :=
  match l with
  | [] => mret tt
  | n3 :: l' =>
      term ← get (fun s => SID_GET_TERM (sid (ctrl s)));
      i ← append_entry term (tq_req_id n3) (tq_connection_id n3) (tq_type n3)
            (LD_cmd (tq_cmd n3));
      on_glob (fun g => set_tailq l' (set_last_write_csm_idx i g)) ;;
      drain l'
  end.

Definition get_tailq_message : M unit :=
  l ← get (fun s => tailq (glob s));
  drain l.

(** ** Joining the group *)

Definition ud_join_cluster : M Z :=
  id ← get (fun s => request_id (ib s));
  slid ← get (fun s => unique_slid (params s));
  mcast_send_message (UD_JOIN id slid).

(** The place of a LID among the servers, [size] if there is none. *)
Fixpoint find_lid (lid : Z) (l : list Z) (size : Z) : M Z :=
  match l with
  | [] => mret size
  | i :: l' =>
      e ← ep_at i;
      if ud_lid e =? lid then mret i else find_lid lid l' size
  end.

(** A null endpoint is dereferenced; for other types of replies the length of
    the message is not initialised. *)
Definition ud_send_clt_reply (lid req_id type : Z) : M Z :=
  db ← get clts;
  ep ← or_fault (ep_search db lid);
  on_clts (fun db => ep_write (fun e => set_ep_committed 1 (set_ep_last_req_id req_id e)) db lid) ;;
  if negb (type =? CONFIG) then fault
  else
    c ← get (fun s => cid (conf s));
    h ← get (fun s => head (slog s));
    let size := get_extended_group_size c in
    i ← find_lid lid (upto size) size;
    ud_send_message lid (UD_CFG_REPLY req_id i c (ep_cid_idx ep) h).

(** The search for a place: [inr] is a return, [inl] the first empty place so
    far (the loop goes down). *)
Definition join_place (slid id : Z) (last_req_id committed : Z) (i : Z) (empty : Z)
    : M (Z * option Z) :=
  c ← get (fun s => cid (conf s));
  if CID_IS_SERVER_ON c i then
    e ← ep_at i;
    if ud_lid e =? slid then
      if last_req_id =? id then
        if committed =? 0 then mret (empty, Some 0)
        else
          rc ← ud_send_clt_reply slid id CONFIG;
          mret (empty, Some (if negb (rc =? 0) then 1 else 0))
      else mret (empty, Some 0)
    else mret (empty, None)
  else mret (i, None).

(** The configuration with a server added at [empty]. *)
Definition join_cid (c : dare_cid_t) (empty : Z) : dare_cid_t :=
  let size := size0 c in
  let c := CID_SERVER_ADD c empty in
  if empty =? size
  then mk_cid (u64 (epoch c + 1)) (size0 c) (u8 (size0 c + 1)) CID_EXTENDED (pad c) (bitmask c)
  else c.

(** Make room for the new server and append the CONFIG entry. *)
Definition enrol_server (slid id rslid empty : Z) : M Z :=
  on_conf (fun c => set_clt_id slid (set_req_id id (set_cid (join_cid (cid c) empty) c))) ;;
  on_ep empty (fun e => set_rc_connected 0 (set_ud_lid rslid e)) ;;
  on_server empty (fun v =>
    set_send_count 0 (set_send_flag 1 (set_next_lr_step LR_GET_WRITE (set_fail_count 0 v)))) ;;
  l ← get slog;
  ctrl_put vote_ack set_vote_ack empty (len l) ;;
  ctrl_put apply_offsets set_apply_offsets empty (head l) ;;
  on_clts (fun db => ep_write (set_ep_last_req_id id) db rslid) ;;
  term ← get (fun s => SID_GET_TERM (sid (ctrl s)));
  c ← get (fun s => cid (conf s));
  i ← append_entry term id rslid CONFIG (LD_cid c);
  on_clts (fun db => ep_write (fun e => set_ep_committed 0 (set_ep_cid_idx i e)) db rslid) ;;
  mret 0.

Definition handle_server_join_request (slid id rslid : Z) : M Z :=
  c ← get (fun s => cid (conf s));
  if negb (CID_STABLE =? state c) then mret 0
  else
    on_clts (fun db => match ep_search db rslid with
                       | Some _ => db
                       | None => default db (ep_insert db rslid)
                       end) ;;
    db ← get clts;
    ep ← or_fault (ep_search db rslid);
    let size := size0 c in
    r ← for_st (reverse (upto size))
          (join_place slid id (ep_last_req_id ep) (ep_committed ep)) size;
    match (r : Z * option Z) with
    | (_, Some rc) => mret rc
    | (empty, None) => enrol_server slid id rslid empty
    end.

Definition handle_server_join_reply (id i : Z) (c : dare_cid_t) (ci h : Z) : M unit :=
  n ← get (fun s => request_id (ib s));
  if id <? n then mret tt
  else
    on_ib (set_request_id (u64 (n + 1))) ;;
    on_log (fun l => set_head l h) ;;
    on_conf (fun x => set_cid_offset h (set_cid_idx ci (set_cid c (set_idx i x)))).

(** ** Establishing the connections *)

Definition ud_exchange_rc_info : M Z :=
  c ← get conf;
  b ← get ib;
  p ← get params;
  let size := get_extended_group_size (cid c) in
  if mtu p <? RC_SYN_SIZE + 2 * size * 4 then mret 1
  else mcast_send_message (UD_RC_SYN (request_id b) (unique_slid p) (idx c) size).

(** Is there a server that is on and not connected? *)
Definition unconnected (i : Z) : M (option unit) :=
  c ← get conf;
  if negb (other_server c i) then mret None
  else e ← ep_at i; mret (if rc_connected e =? 0 then Some tt else None).

Definition ud_update_rc_info : M Z :=
  size ← get (fun s => get_extended_group_size (cid (conf s)));
  r ← for_ret (upto size) unconnected;
  match r with
  | None => mret 0
  | Some _ => ud_exchange_rc_info
  end.

(** Connect the control queue pair, and the log queue pair if the server is
    the leader. *)
Definition connect_qps (i : Z) : M Z :=
  rc ← rc_connect_server i CTRL_QP;
  if negb (rc =? 0) then mret 1
  else
    sd ← get (fun s => sid (ctrl s));
    me ← get (fun s => idx (conf s));
    if c_true (SID_GET_L sd) && (SID_GET_IDX sd =? me) then
      rc ← rc_connect_server i LOG_QP; check rc
    else mret 0.

Definition handle_rc_syn (id slid i size : Z) : M Z :=
  c ← get conf;
  if negb (CID_IS_SERVER_ON (cid c) i) then mret 0
  else if size <=? idx c then mret 0
  else
    e ← ep_at i;
    rc ← (if rc_connected e =? 0 then on_ep i (set_ud_lid slid) ;; connect_qps i
          else mret 0);
    if negb (rc =? 0) then mret 1
    else
      e ← ep_at i;
      own ← get (fun s => unique_slid (params s));
      ud_send_message (ud_lid e) (UD_RC_SYNACK id own (idx c)).

(** The connections of the server, and whether they are half of the group. *)
Fixpoint count_connected (l : list Z) (n : Z) : M Z :=
  match l with
  | [] => mret n
  | i :: l' =>
      c ← get conf;
      if negb (other_server c i) then count_connected l' n
      else
        e ← ep_at i;
        count_connected l' (if negb (rc_connected e =? 0) then u8 (n + 1) else n)
  end.

Definition majority_connected : M bool :=
  size ← get (fun s => get_group_size (cid (conf s)));
  n ← count_connected (upto size) 0;
  mret (size / 2 <=? n).

Definition handle_rc_synack (id slid i : Z) : M Z :=
  c ← get conf;
  if negb (CID_IS_SERVER_ON (cid c) i) then mret 0
  else
    e ← ep_at i;
    r ← (if rc_connected e =? 0 then
           on_ep i (fun e => set_rc_connected 1 (set_ud_lid slid e)) ;;
           rc ← connect_qps i;
           if negb (rc =? 0) then mret None
           else b ← majority_connected; mret (Some (if (b : bool) then REQ_MAJORITY else 0))
         else mret (Some 0));
    match (r : option Z) with
    | None => mret 1
    | Some ret =>
        e ← ep_at i;
        rc ← ud_send_message (ud_lid e) (UD_RC_ACK id (idx c));
        mret (if negb (rc =? 0) then 1 else ret)
    end.

Definition handle_rc_ack (i : Z) : M Z :=
  c ← get conf;
  if negb (CID_IS_SERVER_ON (cid c) i) then mret 0
  else
    e ← ep_at i;
    if rc_connected e =? 0 then
      on_ep i (set_rc_connected 1) ;;
      b ← majority_connected;
      mret (if (b : bool) then REQ_MAJORITY else 0)
    else mret 0.

(** ** Receiving *)

(** The type a handler reports. *)
Definition reply_type (t rc : Z) : Z :=
  if rc =? 0 then MSG_NONE else if rc =? REQ_MAJORITY then t else MSG_ERROR.

Definition handle_message_from_client (slid : Z) (m : ud_msg) : M Z :=
  match m with
  | UD_JOIN id rslid =>
      b ← get IS_LEADER;
      if (b : bool) then
        rc ← handle_server_join_request slid id rslid;
        mret (if negb (rc =? 0) then MSG_ERROR else JOIN)
      else mret JOIN
  | UD_RC_SYN id rslid i size =>
      rc ← handle_rc_syn id rslid i size;
      mret (if negb (rc =? 0) then MSG_ERROR else MSG_NONE)
  | UD_RC_SYNACK id rslid i =>
      rc ← handle_rc_synack id rslid i; mret (reply_type RC_SYNACK rc)
  | UD_RC_ACK id i =>
      rc ← handle_rc_ack i; mret (reply_type RC_ACK rc)
  | UD_CFG_REPLY id i c ci h => handle_server_join_reply id i c ci h ;; mret CFG_REPLY
  | UD_OTHER t => mret t
  end.

(** Poll until there is a message from someone else; the receives that are
    posted again are not modelled. *)
Fixpoint ud_next (l : list ud_poll) : M Z :=
  match l with
  | [] => on_ib (set_ud_cq []) ;; mret MSG_NONE
  | UdPollErr :: l' => on_ib (set_ud_cq l') ;; mret MSG_ERROR
  | UdPoll ok recv slid m :: l' =>
      if negb ok then on_ib (set_ud_cq l') ;; mret MSG_ERROR
      else
        lid ← get (fun s => own_lid (params s));
        if (slid =? lid) || negb recv then ud_next l'
        else on_ib (set_ud_cq l') ;; handle_message_from_client slid m
  end.

Definition ud_get_message : M Z :=
  l ← get (fun s => ud_cq (ib s));
  ud_next l.
