(* ===== verification/Normal.v ===== *)
(** * Normal operation (dare_server.c)

    Committing and applying log entries, pruning the log, and removing servers
    that do not answer. *)

From Stdlib Require Import QArith.
From S2P Require Import Prelude Bytes Words Config Log State Hoare Qp Cq RcOps.
From S2P Require Import Replication Role EpDb Ud.

Open Scope Z_scope.

(** ** Failures *)

(** One server: the configuration without the servers removed so far, and the
    number of connections. *)
Definition failure_one (i : Z) (st : dare_cid_t * Z) : M ((dare_cid_t * Z) * option unit) :=
  let '(new, n) := st in
  if negb (CID_IS_SERVER_ON new i) then mret (st, None)
  else
    v ← server_at i;
    if PERMANENT_FAILURE <=? fail_count v then
      s ← get (fun s => s);
      if IS_LEADER s && (CID_STABLE =? state (cid (conf s))) then
        rc_disconnect_server i ;;
        mret ((CID_SERVER_RM new i, n), None)
      else mret (st, None)
    else mret ((new, u8 (n + 1)), None).

Definition check_failure_count : M unit :=
  c ← get (fun s => cid (conf s));
  let size := get_group_size c in
  r ← for_st (upto size) failure_one (c, 0);
  let '(new, n) := fst (r : (dare_cid_t * Z) * option unit) in
  if n <=? size / 2 then dare_server_shutdown
  else
    s ← get (fun s => s);
    when (IS_LEADER s && negb (equal_cid new (cid (conf s))))
      (on_conf (fun x => set_clt_id 0 (set_req_id 0 (set_cid new x))) ;;
       append_entry (SID_GET_TERM (sid (ctrl s))) 0 0 CONFIG (LD_cid new) ;;
       mret tt).

(** ** Committing *)

(** Is server [i] behind? *)
Definition is_behind (i : Z) : M (option unit) :=
  c ← get conf;
  if negb (other_server c i) then mret None
  else
    v ← server_at i;
    ack ← ctrl_get vote_ack i;
    o ← ctrl_get log_offsets i;
    l ← get slog;
    if (PERMANENT_FAILURE <=? fail_count v) || (ack =? len l) then mret None
    else mret (if negb (next_lr_step v =? LR_UPDATE_LOG) || negb (lo_end o =? end_ l)
               then Some tt else None).

Definition commit_new_entries : M unit :=
  l ← get slog;
  if negb (log_offset_end_distance l (commit l) =? 0) then
    rc_write_remote_logs true ;; mret tt
  else if negb (is_log_empty l) then
    size ← get (fun s => get_group_size (cid (conf s)));
    r ← for_ret (upto size) is_behind;
    match r with
    | Some _ => rc_write_remote_logs false ;; mret tt
    | None => mret tt
    end
  else mret tt.

(** ** Applying *)

Definition is_sm_entry (ty : Z) : bool :=
  negb (ty =? CONFIG) && negb (ty =? NOOP) && negb (ty =? HEAD).

(** [apply_entry]: hand a client command to the upper layer. *)
Definition apply_sm (l : dare_log_t) (e : Z) : M unit :=
  when (is_sm_entry (entry_type l e))
    (emit (E_store_cmd (entry_clt_id l e)) ;;
     b ← get IS_LEADER;
     (if (b : bool) then emit E_update_state
      else emit (E_do_action (entry_clt_id l e) (entry_type l e) (entry_cmd l e))) ;;
     on_glob (fun g =>
       set_last_cmt_write_csm_idx (entry_idx l e)
         (set_last_applied_entry
            (mk_det (entry_idx l e) (entry_term l e) (apply l +64 log_entry_len l e)) g))).

(** Remove a server when the group is made smaller. *)
Definition drop_server (i : Z) : M unit :=
  c ← get conf;
  if i =? idx c then
    set_flag DIE_AF_COMMIT ;;
    on_conf (fun c => set_cid (CID_SERVER_RM (cid c) i) c)
  else when (CID_IS_SERVER_ON (cid c) i)
    (on_conf (fun c => set_cid (CID_SERVER_RM (cid c) i) c) ;;
     rc_disconnect_server i ;; mret tt).

(** [size[0] = size[1]; size[1] = 0] *)
Definition shrink (c : dare_cid_t) : dare_cid_t := set_cid_sizes c (size1 c) 0.

Definition set_conf_state (x : Z) : M unit :=
  on_conf (fun c => set_cid (set_cid_state (cid c) x) c).

(** A committed, stable CONFIG entry. *)
Definition stable_config (l : dare_log_t) (e : Z) : M unit :=
  when (negb (entry_req_id l e =? 0))
    (ud_send_clt_reply (entry_clt_id l e) (entry_req_id l e) CONFIG ;;
     d ← has_flag DIE_AF_COMMIT;
     when d dare_server_shutdown).

(** A committed, unstable CONFIG entry: move the configuration on. *)
Definition unstable_config (l : dare_log_t) (e : Z) : M unit :=
  let st := state (entry_cid l e) in
  (if st =? CID_EXTENDED then
     set_conf_state CID_TRANSIT ;;
     (if negb (entry_req_id l e =? 0) then
        ud_send_clt_reply (entry_clt_id l e) (entry_req_id l e) CONFIG ;;
        on_conf (fun c => set_clt_id 0 (set_req_id 0 c))
      else on_conf (fun c => set_clt_id (entry_clt_id l e) (set_req_id (entry_req_id l e) c)))
   else
     when (st =? CID_TRANSIT)
       (set_conf_state CID_STABLE ;;
        c ← get (fun s => cid (conf s));
        for_each (seqZ (size1 c) (size0 c - size1 c)) drop_server ;;
        on_conf (fun c => set_cid (shrink (cid c)) c)) ;;
     on_conf (fun c => set_clt_id (entry_clt_id l e) (set_req_id (entry_req_id l e) c))) ;;
  c ← get conf;
  term ← get (fun s => SID_GET_TERM (sid (ctrl s)));
  append_entry term (req_id c) (clt_id c) CONFIG (LD_cid (cid c)) ;;
  mret tt.

(** One committed entry at [e], by the role of the server. *)
Definition apply_one (l : dare_log_t) (e : Z) : M unit :=
  b ← get IS_LEADER;
  if negb (b : bool) then apply_sm l e
  else if (entry_type l e =? NOOP) || (entry_type l e =? HEAD) then mret tt
  else if negb (entry_type l e =? CONFIG) then apply_sm l e
  else if state (entry_cid l e) =? CID_STABLE then stable_config l e
  else
    c ← get (fun s => cid (conf s));
    if epoch (entry_cid l e) <? epoch c then mret tt
    else unstable_config l e.

Fixpoint apply_loop (n : nat) : M unit :=
  match n with
  | O => hang
  | S n' =>
      l ← get slog;
      if negb (log_is_offset_larger l (commit l) (apply l)) then mret tt
      else
        let '(r, off) := log_get_entry l (apply l) in
        e ← or_fault r;
        if negb (log_fit_entry l off e) then
          on_log (fun l => set_apply l 0) ;; apply_loop n'
        else
          on_log (fun l => set_apply l off) ;;
          l ← get slog;
          apply_one l e ;;
          on_log (fun l' => set_apply l' (apply l' +64 log_entry_len l' e)) ;;
          apply_loop n'
  end.

Definition apply_committed_entries : M unit :=
  old_apply ← get (fun s => apply (slog s));
  n ← get (fun s => fuel (params s));
  apply_loop n ;;
  s ← get (fun s => s);
  when (negb (old_apply =? apply (slog s)) && IS_LEADER s)
    (ep_dp_reply_read_req (last_cmt_write_csm_idx (glob s))).

(** ** Pruning *)

(** The smallest apply offset; servers that are off do not count. *)
Definition min_apply (i : Z) (min_offset : Z) : M (Z * option unit) :=
  c ← get (fun s => cid (conf s));
  l ← get slog;
  when (negb (CID_IS_SERVER_ON c i)) (ctrl_put apply_offsets set_apply_offsets i (apply l)) ;;
  a ← ctrl_get apply_offsets i;
  mret (if log_is_offset_larger l min_offset a then a else min_offset, None).

(** Move the head and tell the others by a HEAD entry. *)
Definition advance_head (min_offset : Z) : M unit :=
  on_log (fun l => set_head l min_offset) ;;
  unset_flag SNAPSHOT ;;
  term ← get (fun s => SID_GET_TERM (sid (ctrl s)));
  append_entry term 0 0 HEAD (LD_head min_offset) ;;
  on_glob (set_prev_log_entry_head 1).

Definition log_pruning : M Z :=
  b ← get IS_LEADER;
  if negb (b : bool) then mret 0
  else
    size ← get (fun s => get_extended_group_size (cid (conf s)));
    a ← get (fun s => apply (slog s));
    r ← for_st (upto size) min_apply a;
    let m := fst (r : Z * option unit) in
    l ← get slog;
    n ← get (fun s => fuel (params s));
    m ← (if log_offset_end_distance l m =? 0
         then of_outcome (log_get_tail n l) else mret m);
    prev ← get (fun s => prev_log_entry_head (glob s));
    when (log_is_offset_larger l m (head l) && (prev =? 0)) (advance_head m) ;;
    rc ← rc_get_remote_apply_offsets;
    check rc.

Definition prune_log_cb : M unit :=
  rc ← log_pruning;
  if negb (rc =? 0) then
    on_prune_event (fun w => rearm w 0) ;; dare_server_shutdown
  else
    p ← get (fun s => log_pruning_period (params s));
    on_prune_event (fun w => rearm w p).

(** The server with the smallest apply offset, from the own one on. *)
Definition slowest (i : Z) (st : Z * Z) : M ((Z * Z) * option unit) :=
  let '(target, min_offset) := st in
  l ← get slog;
  a ← ctrl_get apply_offsets i;
  mret (if log_is_offset_larger l min_offset a then (i, a) else (target, min_offset), None).

(** [log_size < 0.75 * len] in the integers. *)
Definition below_threshold (l : dare_log_t) : bool :=
  4 * log_offset_end_distance l (head l) <? 3 * len l.

(** The loop leaves its index at [size]; the apply offset of that slot is
    overwritten. *)
Definition remove_slow (target size : Z) : M unit :=
  on_conf (fun c => set_cid (CID_SERVER_RM (cid c) target) c) ;;
  rc_disconnect_server target ;;
  on_conf (fun c => set_clt_id 0 (set_req_id 0 c)) ;;
  term ← get (fun s => SID_GET_TERM (sid (ctrl s)));
  c ← get (fun s => cid (conf s));
  append_entry term 0 0 CONFIG (LD_cid c) ;;
  a ← get (fun s => apply (slog s));
  ctrl_put apply_offsets set_apply_offsets size a ;;
  log_pruning ;;
  mret tt.

Definition force_log_pruning : M unit :=
  l ← get slog;
  if below_threshold l then mret tt
  else
    c ← get conf;
    let size := get_extended_group_size (cid c) in
    r ← for_st (upto size) slowest (idx c, apply l);
    let target := fst (fst (r : (Z * Z) * option unit)) in
    if negb (target =? idx c) then
      if negb (CID_IS_SERVER_ON (cid c) target) then log_pruning ;; mret tt
      else remove_slow target size
    else log_pruning ;; mret tt.
