(* ===== verification/Election.v ===== *)
(** * Leader election (dare_server.c)

    Counting the votes and becoming leader, and voting for a candidate. *)

From Stdlib Require Import QArith.
From S2P Require Import Prelude Bytes Words Config Log State Init Hoare Qp Cq RcOps.
From S2P Require Import Role EpDb Ud Normal.

Open Scope Z_scope.

(** ** Counting votes *)

(** One server: count its vote in both groups and take over its commit
    offset. *)
Definition count_vote (i : Z) (st : Z * Z) : M ((Z * Z) * option unit) :=
  let '(n0, n1) := st in
  c ← get conf;
  if i =? idx c then mret (st, None)
  else
    remote_commit ← ctrl_get vote_ack i;
    l ← get slog;
    if len l =? remote_commit then mret (st, None)
    else
      o ← ctrl_get log_offsets i;
      ctrl_put log_offsets set_log_offsets i (set_lo_commit remote_commit o) ;;
      on_server i (set_next_lr_step LR_GET_NCE_LEN) ;;
      when (log_is_offset_larger l remote_commit (commit l))
        (on_log (fun l => set_commit l remote_commit)) ;;
      mret ((if i <? size0 (cid c) then u8 (n0 + 1) else n0,
             if i <? size1 (cid c) then u8 (n1 + 1) else n1), None).

(** Enough votes, in both groups unless the configuration is stable? *)
Definition won (c : dare_cid_t) (n0 n1 : Z) : bool :=
  (size0 c / 2 + 1 <=? n0) && ((CID_STABLE =? state c) || (size1 c / 2 + 1 <=? n1)).

(** Look for a CONFIG entry that is not applied, from [offset]; the result is
    the offset where the search ends and the last entry it looked at. *)
Fixpoint find_config_loop (n : nat) (l : dare_log_t) (ci offset : Z) (entry : option Z)
    : outcome (Z * option Z) :=
  match n with
  | O => Spin
  | S n' =>
      if log_offset_end_distance l offset =? 0 then Ok (offset, entry)
      else
        let '(r, offset) := log_get_entry l offset in
        match r with
        | None => Undef
        | Some e =>
            if negb (log_fit_entry l offset e) then find_config_loop n' l ci 0 (Some e)
            else if (entry_type l e =? CONFIG) && (ci <? entry_idx l e)
            then Ok (offset, Some e)
            else find_config_loop n' l ci (offset +64 log_entry_len l e) (Some e)
        end
  end.

(** [for (i = size[0] - 1; i > size[1]; i--)] *)
Definition removed_servers (c : dare_cid_t) : list Z :=
  reverse (seqZ (size1 c + 1) (u8 (size0 c - 1) - size1 c)).

(** The configuration is unstable and all its CONFIG entries are applied: add
    the next one.  [entry] is used without a check. *)
Definition next_config (entry : option Z) : M Z :=
  l ← get slog;
  e ← or_fault entry;
  (if state (entry_cid l e) =? CID_EXTENDED then set_conf_state CID_TRANSIT
   else
     set_conf_state CID_STABLE ;;
     c ← get (fun s => cid (conf s));
     for_each (removed_servers c) drop_server ;;
     on_conf (fun c => set_cid (shrink (cid c)) c)) ;;
  c ← get conf;
  term ← get (fun s => SID_GET_TERM (sid (ctrl s)));
  append_entry term (req_id c) (clt_id c) CONFIG (LD_cid (cid c)).

(** The entry with which a new leader commits those of earlier terms. *)
Definition blank_entry : M Z :=
  c ← get conf;
  term ← get (fun s => SID_GET_TERM (sid (ctrl s)));
  if CID_STABLE =? state (cid c) then
    on_conf (fun c => set_clt_id 0 (set_req_id 0 c)) ;;
    append_entry term 0 0 CONFIG (LD_cid (cid c))
  else
    l ← get slog;
    n ← get (fun s => fuel (params s));
    r ← of_outcome (find_config_loop n l (cid_idx c) (cid_offset c) None);
    let '(offset, entry) := (r : Z * option Z) in
    if negb (log_offset_end_distance l offset =? 0)
    then append_entry term 0 0 NOOP LD_null
    else next_config entry.

(** [become_leader]: timers, pruning and log access of a leader. *)
Definition lead : M unit :=
  on_clts ep_dp_reset_wait_idx ;;
  on_hb_event (fun w => rearm_cb w CB_hb_send NOW) ;;
  on_to_adjust_event (fun w => rearm w 0) ;;
  size ← get (fun s => get_extended_group_size (cid (conf s)));
  h ← get (fun s => head (slog s));
  for_each (upto size) (fun i => ctrl_put apply_offsets set_apply_offsets i h) ;;
  on_prune_event (fun w => rearm w NOW) ;;
  rc ← rc_restore_log_access;
  if negb (rc =? 0) then error_exit else mret tt.

Definition win_election : M unit :=
  sd ← get (fun s => sid (ctrl s));
  server_update_sid (SID_SET_L sd) sd ;;
  emit (E_log_leader (SID_GET_TERM (SID_SET_L sd))) ;;
  emit E_become_leader ;;
  poll_config_entries ;;
  apply_committed_entries ;;
  emit E_append_no_op ;;
  i ← blank_entry;
  on_glob (set_last_write_csm_idx i) ;;
  lead.

Definition poll_vote_count : M unit :=
  c ← get (fun s => cid (conf s));
  r ← for_st (upto (get_group_size c)) count_vote (1, 1);
  let '(n0, n1) := fst (r : (Z * Z) * option unit) in
  if won c n0 n1 then win_election else mret tt.

(** ** Voting *)

(** The first scan: the best SID among the requests; the others are dropped. *)
Fixpoint best_sid (me : Z) (l : list Z) (reqs : list vote_req_t) (best : Z)
    : option (list vote_req_t * Z) :=
  match l with
  | [] => Some (reqs, best)
  | i :: l' =>
      if i =? me then best_sid me l' reqs best
      else
        r ← aget reqs i;
        if vr_sid r <=? best then
          reqs ← aset reqs i (set_vr_sid 0 r);
          best_sid me l' reqs best
        else best_sid me l' reqs (vr_sid r)
  end.

(** Is the log described by [a] better than the one described by [b]? *)
Definition log_better (a b : vote_req_t) : bool :=
  (vr_term b <? vr_term a) || ((vr_term b =? vr_term a) && (vr_index b <? vr_index a)).

(** The second scan: the best candidate whose log is good enough; the highest
    term among the requests considered. *)
Fixpoint best_request (l : list Z) (reqs : list vote_req_t) (best : vote_req_t)
    (highest : Z) : option (list vote_req_t * vote_req_t * Z) :=
  match l with
  | [] => Some (reqs, best, highest)
  | i :: l' =>
      r ← aget reqs i;
      reqs ← aset reqs i (set_vr_sid 0 r);
      if vr_sid r <? vr_sid best then best_request l' reqs best highest
      else
        let highest := Z.max highest (SID_GET_TERM (vr_sid r)) in
        if log_better best r then best_request l' reqs best highest
        else best_request l' reqs r highest
  end.

(** The index and term of the last local entry, from the buffer of not
    committed entries if there are any. *)
Definition local_request (old_sid : Z) : M vote_req_t :=
  b ← fill_nc_buf;
  l ← get slog;
  if nc_len b =? 0 then
    n ← get (fun s => fuel (params s));
    t ← of_outcome (log_get_tail n l);
    if t =? len l then mret (mk_vote_req old_sid 0 0 cid_zero)
    else
      e ← or_fault (fst (log_get_entry l t));
      mret (mk_vote_req old_sid (entry_idx l e) (entry_term l e) cid_zero)
  else
    d ← or_fault (aget (nc_entries b) (nc_len b - 1));
    mret (mk_vote_req old_sid (det_idx d) (det_term d) cid_zero).

(** The local log is better: raise the own term, vote for no one. *)
Definition raise_term (highest : Z) : M unit :=
  sd ← get (fun s => sid (ctrl s));
  me ← get (fun s => idx (conf s));
  server_update_sid (SID_SET_IDX (SID_SET_TERM sd highest) me) sd ;;
  mret tt.

Definition cast_vote (best : vote_req_t) : M unit :=
  emit (E_log_vote (SID_GET_TERM (vr_sid best)) (SID_GET_IDX (vr_sid best))) ;;
  on_hb_event (fun w => rearm w 0) ;;
  sd ← get (fun s => sid (ctrl s));
  server_update_sid (vr_sid best) sd ;;
  update_cid (vr_cid best) ;;
  rc ← rc_replicate_vote;
  if negb (rc =? 0) then error_exit
  else
    follow_timers ;;
    rc ← rc_restore_log_access;
    if negb (rc =? 0) then error_exit else acknowledge.

(** The requests against the local log. *)
Definition examine_requests (size old_sid best : Z) : M unit :=
  rc ← rc_revoke_log_access;
  if negb (rc =? 0) then error_exit
  else
    own ← local_request old_sid;
    reqs ← get (fun s => vote_req (ctrl s));
    r ← or_fault (best_request (upto size) reqs own (SID_GET_TERM best));
    let '(reqs, best, highest) := (r : list vote_req_t * vote_req_t * Z) in
    on_ctrl (set_vote_req reqs) ;;
    if vr_sid best =? old_sid then raise_term highest else cast_vote best.

Definition poll_vote_requests : M unit :=
  size ← get (fun s => get_group_size (cid (conf s)));
  sd ← get (fun s => sid (ctrl s));
  if c_true (SID_GET_L sd) then mret tt
  else
    x ← ctrl_get hb (SID_GET_IDX sd);
    if negb (x =? 0) && (SID_GET_TERM x =? SID_GET_TERM sd) then
      server_update_sid x sd ;; mret tt
    else
      me ← get (fun s => idx (conf s));
      reqs ← get (fun s => vote_req (ctrl s));
      let old_sid := SID_SET_L sd in
      r ← or_fault (best_sid me (upto size) reqs old_sid);
      let '(reqs, best) := (r : list vote_req_t * Z) in
      on_ctrl (set_vote_req reqs) ;;
      if best =? old_sid then mret tt else examine_requests size old_sid best.
