(* ===== verification/Server.v ===== *)
(** * The server (dare_server.c)

    Start-up and recovery, the heartbeats, and the polling loop that drives
    everything else. *)

From Stdlib Require Import QArith.
From S2P Require Import Prelude Bytes Words Config Log State Init Hoare Qp Cq RcOps.
From S2P Require Import Role EpDb Ud Normal Election.

Open Scope Z_scope.

(** ** Start-up and recovery *)

(** The error path of the timer callbacks: stop the timer and shut down. *)
Definition timer_shutdown : M unit :=
  on_timer_event (fun w => rearm w 0) ;; dare_server_shutdown.

Definition next_step (c : callback) : M unit :=
  on_timer_event (fun w => rearm_cb w c NOW).

(** Run again after a period. *)
Definition again_after (f : params_t -> Q) : M unit :=
  r ← get (fun s => f (params s));
  on_timer_event (fun w => rearm w r).

(** Calls that are made in turn until one fails. *)
Fixpoint all_succeed (n : nat) : M bool :=
  match n with
  | O => mret true
  | S n' => rc ← ask; if negb (rc =? 0) then mret false else all_succeed n'
  end.

(** The initialisation of the device, of the connections and of UD are four
    calls that are not modelled; [srv_type] is the field of the input, which has
    been freed. *)
Definition init_network_cb (srv_type : Z) : M unit :=
  ok ← all_succeed 4;
  if negb (ok : bool) then timer_shutdown
  else
    set_flag INIT ;;
    on_tmr (set_poll_event true) ;;
    n ← get (fun s => size0 (cid (conf s)));
    if srv_type =? SRV_TYPE_JOIN then next_step CB_join_cluster
    else if n =? 1 then
      on_ctrl (fun x => set_sid (SID_SET_IDX (SID_SET_L (SID_SET_TERM (sid x) 1)) 0) x) ;;
      on_timer_event (fun w => rearm w 0)
    else next_step CB_exchange_rc_info.

Definition join_cluster_cb : M unit :=
  rc ← ud_join_cluster;
  if negb (rc =? 0) then timer_shutdown else again_after retransmit_period.

Definition exchange_rc_info_cb : M unit :=
  rc ← ud_exchange_rc_info;
  if negb (rc =? 0) then timer_shutdown else again_after retransmit_period.

Definition update_rc_info_cb : M unit :=
  rc ← ud_update_rc_info;
  if negb (rc =? 0) then timer_shutdown else again_after rc_info_period.

Definition get_replicated_vote_cb : M unit :=
  me ← get (fun s => idx (conf s));
  on_ctrl (fun x => set_sid (SID_SET_L (SID_SET_IDX (SID_SET_TERM (sid x) 0) me)) x) ;;
  n ← get (fun s => size0 (cid (conf s)));
  if n =? 2 then next_step CB_send_sm_request
  else
    rc ← rc_get_replicated_vote;
    if 1 <? rc then timer_shutdown
    else if negb (rc =? 0) then again_after retransmit_period
    else next_step CB_send_sm_request.

Definition send_sm_request_cb : M unit :=
  rc ← rc_send_sm_request;
  if negb (rc =? 0) then timer_shutdown else again_after retransmit_period.

(** A new snapshot for a server that asks for one. *)
Definition take_snapshot : M (snap * bool) :=
  n ← ask;   (* proxy_get_db_size *)
  let n := u32 n in
  b ← (if n <=? PREREG_SNAPSHOT_SIZE then mret Snap_prereg
       else
         rc ← ask;   (* posix_memalign *)
         if negb (rc =? 0) then dare_server_shutdown else mret Snap_alloc);
  emit (E_create_snapshot b) ;;
  g ← get glob;
  let v := mk_snapshot n (last_applied_entry g) in
  on_glob (match b with
           | Snap_prereg => set_prereg_snapshot v
           | Snap_alloc => set_heap_snapshot v
           end) ;;
  set_flag SNAPSHOT ;;
  mret (b, match b with Snap_prereg => false | Snap_alloc => true end).

(** One requesting server; the locals are the pointer to the snapshot, not
    initialised at first, and [reg_mem]. *)
Definition sm_request_one (i : Z) (st : option snap * bool)
    : M ((option snap * bool) * option unit) :=
  let '(b, reg_mem) := st in
  me ← get (fun s => idx (conf s));
  if i =? me then mret (st, None)
  else
    x ← ctrl_get sm_req i;
    if x =? 0 then mret (st, None)
    else
      ctrl_put sm_req set_sm_req i 0 ;;
      f ← has_flag SNAPSHOT;
      st ← (if (f : bool) then mret (b, reg_mem)
            else r ← take_snapshot;
                 mret (Some (fst (r : snap * bool)), reg_mem || snd (r : snap * bool)));
      let '(b, reg_mem) := (st : option snap * bool) in
      b ← or_fault b;
      rc ← rc_send_sm_reply i b reg_mem;
      if negb (rc =? 0) then dare_server_shutdown else mret (st, None).

Definition poll_sm_requests : M unit :=
  size ← get (fun s => get_group_size (cid (conf s)));
  for_st (upto size) sm_request_one (None, false) ;;
  mret tt.

(** The first usable reply; its SID is adopted. *)
Definition sm_reply_one (i : Z) : M (option Z) :=
  me ← get (fun s => idx (conf s));
  if i =? me then mret None
  else
    r ← ctrl_get sm_rep i;
    sd ← get (fun s => sid (ctrl s));
    if (sd <? sr_sid r) && c_true (sr_raddr r) && c_true (sr_rkey r) && c_true (sr_len r)
    then on_ctrl (set_sid (sr_sid r)) ;; mret (Some i)
    else mret None.

Definition poll_sm_reply : M unit :=
  size ← get (fun s => get_group_size (cid (conf s)));
  r ← for_ret (upto size) sm_reply_one;
  match r with
  | None => mret tt
  | Some target =>
      rc ← rc_recover_sm target;
      if 1 <? rc then dare_server_shutdown
      else if negb (rc =? 0) then mret tt
      else
        on_ctrl (set_sm_rep (replicate NSRV (mk_sm_rep 0 0 0 0))) ;;
        set_flag SM_RECOVERED ;;
        next_step CB_recover_log
  end.

Definition recover_log_cb : M unit :=
  rc ← rc_recover_log;
  if 1 <? rc then timer_shutdown
  else if negb (rc =? 0) then again_after retransmit_period
  else
    set_flag LOG_RECOVERED ;;
    p ← get (fun s => rc_info_period (params s));
    on_timer_event (fun w => rearm_cb w CB_update_rc_info p) ;;
    sd ← get (fun s => sid (ctrl s));
    if SID_GET_TERM sd =? 0 then start_election else server_to_follower.

(** ** Heartbeats *)

Definition to_adjust_cb : M unit :=
  g ← get glob;
  if negb (hb_timeout_flag g =? 0) then on_to_adjust_event (fun w => rearm w 0)
  else
    on_glob (fun g => set_total_count (u64 (total_count g + 1)) g) ;;
    leader ← get (fun s => SID_GET_IDX (sid (ctrl s)));
    x ← take_hb leader;
    p ← get (fun s => hb_period (params s));
    on_glob (fun g =>
      if negb (x =? 0) then
        let g := set_latest_hb_received x g in
        if negb (leader_failed g =? 0) then
          set_recomputed_hb_timeout (recomputed_hb_timeout g + p)%Q
            (set_leader_failed 0 (set_fp_count (u64 (fp_count g + 1)) g))
        else g
      else set_leader_failed 1 g) ;;
    g ← get glob;
    if (100000 <? total_count g) && (10000 * fp_count g <? total_count g) then
      on_glob (set_hb_timeout_flag 1) ;;
      on_to_adjust_event (fun w => rearm w 0)
    else on_to_adjust_event (fun w => rearm w (recomputed_hb_timeout g)).

(** The heartbeat of server [i]; the leader's may have been taken already. *)
Definition read_hb (i leader : Z) : M Z :=
  if i =? leader then
    g ← get glob;
    x ← (if latest_hb_received g =? 0 then take_hb leader
         else mret (latest_hb_received g));
    on_glob (set_latest_hb_received 0) ;;
    mret x
  else take_hb i.

(** One server; the locals are [timeout] and [new_sid]. *)
Definition hb_one (leader : Z) (i : Z) (st : bool * Z) : M ((bool * Z) * option unit) :=
  let '(timeout, new_sid) := st in
  c ← get conf;
  if negb (other_server c i) then mret (st, None)
  else
    x ← read_hb i leader;
    if x =? 0 then mret (st, None)
    else if x <? new_sid then
      when (c_true (SID_GET_L x))
        (rc_send_hb_reply i ;;
         p ← get (fun s => hb_period (params s));
         on_glob (fun g =>
           set_recomputed_hb_timeout (recomputed_hb_timeout g + p * (1 # 10))%Q g)) ;;
      mret (st, None)
    else mret ((false, if c_true (SID_GET_L x) then x else new_sid), None).

(** A heartbeat of a better leader. *)
Definition follow_sid (new_sid : Z) : M unit :=
  sd ← get (fun s => sid (ctrl s));
  server_update_sid new_sid sd ;;
  when (negb (SID_GET_TERM sd =? SID_GET_TERM new_sid)) server_to_follower.

Definition hb_receive_cb : M unit :=
  c ← get conf;
  let size := get_group_size (cid c) in
  r ← get hb_timeout;
  if size <=? idx c then on_hb_event (fun w => rearm w r)
  else
    on_log (fun l => set_tail l (len l)) ;;
    sd ← get (fun s => sid (ctrl s));
    res ← for_st (upto size) (hb_one (SID_GET_IDX sd)) (true, sd);
    let '(timeout, new_sid) := fst (res : (bool * Z) * option unit) in
    if (timeout : bool) then on_hb_event (fun w => rearm w 0) ;; start_election
    else
      sd ← get (fun s => sid (ctrl s));
      if negb (new_sid =? sd) then follow_sid new_sid
      else r ← get hb_timeout; on_hb_event (fun w => rearm w r).

(** A heartbeat reply: [new_sid] is still the own SID. *)
Definition hb_send_one (new_sid i : Z) : M (option unit) :=
  c ← get conf;
  if negb (other_server c i) then mret None
  else
    x ← take_hb i;
    if x <? new_sid then mret None
    else
      sd ← get (fun s => sid (ctrl s));
      server_update_sid new_sid sd ;;
      server_to_follower ;;
      mret (Some tt).

(** The measurement of late heartbeats is not modelled. *)
Definition hb_send_cb : M unit :=
  sd ← get (fun s => sid (ctrl s));
  size ← get (fun s => get_group_size (cid (conf s)));
  r ← for_ret (upto size) (hb_send_one sd);
  match r with
  | Some _ => mret tt
  | None =>
      rc ← rc_send_hb;
      if negb (rc =? 0) then on_hb_event (fun w => rearm w 0) ;; dare_server_shutdown
      else
        p ← get (fun s => hb_period (params s));
        on_hb_event (fun w => rearm w p)
  end.

(** ** Polling *)

(** A majority of connections: skip recovery at the initial start-up. *)
Definition rc_established : M unit :=
  e ← has_flag RC_ESTABLISHED;
  if (e : bool) then mret tt
  else
    set_flag RC_ESTABLISHED ;;
    j ← has_flag JOINED;
    if negb (j : bool) then
      p ← get (fun s => rc_info_period (params s));
      on_timer_event (fun w => rearm_cb w CB_update_rc_info p) ;;
      set_flag (Z.lor LOG_RECOVERED SM_RECOVERED) ;;
      start_election
    else next_step CB_get_replicated_vote.

Definition poll_ud : M unit :=
  get_tailq_message ;;
  type ← ud_get_message;
  if type =? MSG_ERROR then dare_server_shutdown
  else if type =? CFG_REPLY then
    set_flag JOINED ;; next_step CB_exchange_rc_info
  else if (type =? RC_SYNACK) || (type =? RC_ACK) then rc_established
  else mret tt.

(** What a recovered server does. *)
Definition serve : M unit :=
  b ← get IS_LEADER;
  when (negb (b : bool)) poll_sm_requests ;;
  check_failure_count ;;
  b ← get IS_LEADER;
  (if (b : bool) then commit_new_entries else poll_config_entries) ;;
  apply_committed_entries ;;
  b ← get IS_CANDIDATE;
  when b poll_vote_count ;;
  poll_vote_requests ;;
  b ← get IS_LEADER;
  when b force_log_pruning.

Definition polling : M unit :=
  t ← has_flag TERMINATE;
  when t dare_server_shutdown ;;
  poll_ud ;;
  e ← has_flag RC_ESTABLISHED;
  r ← has_flag SM_RECOVERED;
  when (e && negb r) poll_sm_reply ;;
  l ← has_flag LOG_RECOVERED;
  if negb (l : bool) then mret tt else serve.

Definition poll_cb : M unit := polling.

Definition int_handler : M unit := set_flag TERMINATE.
