(* ===== verification/PostSpec.v ===== *)
(** * Rounds of requests on an idle device

    When the control queue pairs are ready and nothing is outstanding, a round
    of requests returns, posts one request to every other connected server of
    the group in order, and changes only the device and the counters of the
    queue pairs. *)

From S2P Require Import Prelude Bytes Words Config Log LogRep LogOps State Init Hoare.
From S2P Require Import Qp QpSpec Cq RcOps.

Open Scope Z_scope.

(** A queue pair that takes one more request without waiting. *)
Definition sendable (max : Z) (q : rc_qp_t) : Prop :=
  qp_st q = RC_QP_ACTIVE /\ 0 <= qp_send_count q /\
  qp_send_count q + 1 < Z.shiftr (3 * max) 2 < 2 ^ 32.

(** Nothing outstanding on the control queue pairs. *)
Record idle (s : srv) : Prop := {
  idle_cq : ctrl_cq (ib s) = [];
  idle_post : post_res (ib s) = [];
  idle_wa : wa_flag (ib s) = false
}.

(** A request to [i] that carries [p] for [loc]. *)
Definition request (i : Z) (loc : rloc) (p : payload) (w : wr) : Prop :=
  wr_server w = i /\ wr_qp w = CTRL_QP /\ wr_loc w = loc /\ wr_payload w = p.

Lemma ecq_idle qp i ps s :
  get_cq qp (ib s) = [] -> empty_completion_queue i qp false ps s = Ret ps s.
Proof.
  intros H. unfold empty_completion_queue. rewrite bind_get, H. cbn [length ecq_loop].
  unfold ibv_poll_cq. by rewrite bind_assoc, bind_get, H.
Qed.

Lemma ibv_post_idle w s :
  post_res (ib s) = [] ->
  ibv_post_send w s = Ret 0 (set_ib (set_posted (w :: posted (ib s)) (ib s)) s).
Proof.
  intros H. unfold ibv_post_send. rewrite bind_get, H.
  destruct s as [? ? ? ? [] ? ? ? ? ?]; simpl in *. by rewrite H.
Qed.

Lemma count_send_free max w q :
  sendable max q ->
  exists q' tagged, count_send max w (set_qp_send_count (u32 (qp_send_count q + 1)) q) =
    (q', tagged, false) /\
    qp_st q' = RC_QP_ACTIVE /\ 0 <= qp_send_count q' <= qp_send_count q + 1.
Proof.
  intros (Hst & H0 & H1 & H2). unfold count_send. cbv zeta. rewrite wrap_small by lia.
  set (q1 := if negb _ && _ then _ else _).
  assert (qp_send_count q1 = qp_send_count q + 1 /\ qp_st q1 = RC_QP_ACTIVE) as [Hc Hq]
    by (unfold q1; by destruct (_ && _)).
  rewrite Hc, (proj2 (Z.eqb_neq _ (Z.shiftr (3 * max) 2))) by lia. cbn [andb].
  clearbody q1. destruct (_ && _); eexists _, _; (split; [done|]); cbn; rewrite ?Hc; split; done || lia.
Qed.

(** The state after a request was posted to [i]. *)
Definition after_post (i : Z) (e : dare_ib_ep_t) (w : wr) (s : srv) : srv :=
  set_eps (<[Z.to_nat i := e]> (eps s))
    (set_ib (set_posted (w :: posted (ib s)) (ib s)) s).

(** The request has the next identifier, tagged when the queue pair asks for a
    special signal. *)
Lemma post_send_ready qp i loc p b ps s e :
  get_cq qp (ib s) = [] -> post_res (ib s) = [] -> aget (eps s) i = Some e ->
  sendable (rc_max_send_wr (ib s)) (get_qp qp e) ->
  exists q' tagged, let wid := next_wrid (ssn (ib s)) i (wa_flag (ib s)) in
    post_send i qp loc p b ps s =
    Ret (0, ps) (after_post i (set_qp qp q' e)
      (mk_wr i qp loc p (b || tagged) (if tagged then WRID_SET_TAG wid else wid))
      (set_ib (set_wa_flag false (ib s)) s)) /\
    qp_st q' = RC_QP_ACTIVE /\ 0 <= qp_send_count q' <= qp_send_count (get_qp qp e) + 1.
Proof.
  intros Hcq Hpost He Hs. pose proof Hs as (Hst & _ & _). unfold post_send.
  rewrite (bind_run _ _ _ _ _ (ep_at_run i s e He)), Hst.
  rewrite (bind_run _ _ s tt s eq_refl), (bind_run _ _ _ _ _ (ep_at_run i s e He)), Hst.
  rewrite (bind_run _ _ s tt s eq_refl). unfold on_qp.
  erewrite bind_run by (by eapply on_ep_run). rewrite bind_get.
  set (e1 := set_qp _ _ e). set (wid := next_wrid _ _ _).
  erewrite (bind_run (on_ib _)) by reflexivity.
  erewrite bind_run by (eapply ep_at_run; unfold put_ep; simpl; by eapply aget_insert_eq).
  unfold e1 at 2. rewrite get_set_qp.
  destruct (count_send_free (rc_max_send_wr (ib s)) wid _ Hs) as (q' & tagged & Hq & Hq').
  cbn [ib put_ep set_eps] in *. rewrite Hq. exists q', tagged. split; [|done].
  erewrite bind_run by (eapply on_ep_run; unfold put_ep; simpl; by eapply aget_insert_eq).
  erewrite bind_run by (apply ibv_post_idle; exact Hpost). cbn [Z.eqb negb].
  erewrite bind_run by (apply ecq_idle; exact Hcq).
  unfold after_post, put_ep, set_eps, set_ib; simpl. rewrite list_insert_insert_eq.
  unfold e1. by rewrite set_set_qp.
Qed.

Lemma post_send_idle i loc p b ps s e :
  idle s -> aget (eps s) i = Some e -> sendable (rc_max_send_wr (ib s)) (ctrl_qp e) ->
  exists q' w, request i loc p w /\
    post_send i CTRL_QP loc p b ps s = Ret (0, ps) (after_post i (set_ctrl_qp q' e) w s).
Proof.
  intros [Hcq Hpost Hwa] He Hs.
  destruct (post_send_ready CTRL_QP i loc p b ps s e Hcq Hpost He Hs) as (q' & tagged & Hr & _).
  replace (set_ib (set_wa_flag false (ib s)) s) with s in Hr
    by (destruct s as [? ? ? ? [] ? ? ? ? ?]; simpl in *; by rewrite Hwa).
  by eexists q', (mk_wr _ _ _ _ _ _).
Qed.

(** The servers a round posts to. *)
Definition target (s : srv) (i : Z) : bool :=
  other_server (conf s) i &&
  match aget (eps s) i with Some e => negb (rc_connected e =? 0) | None => false end.

(** Endpoints that differ in their control queue pairs only. *)
Definition same_but_ctrl (e e' : dare_ib_ep_t) : Prop :=
  set_ctrl_qp (ctrl_qp e') e = e'.

Record round_done (n : Z) (loc : rloc) (v : payload) (s s' : srv) (ws : list wr) : Prop := {
  rd_state : s' = set_eps (eps s') (set_ib (set_posted (reverse ws ++ posted (ib s)) (ib s)) s);
  rd_sent : Forall2 (fun i w => request i loc v w)
              (filter (fun i => target s i = true) (upto n)) ws;
  rd_eps : Forall2 same_but_ctrl (eps s) (eps s');
  rd_rest : forall i, n <= i -> aget (eps s') i = aget (eps s) i
}.

Lemma for_st_app {S A} l l' (f : Z -> S -> M (S * option A)) st s :
  for_st (l ++ l') f st s =
  (r ← for_st l f st;
   match r with (st', Some a) => mret (st', Some a) | (st', None) => for_st l' f st' end) s.
Proof.
  revert st s. induction l as [|i l IH]; intros st s; [done|]. simpl. rewrite bind_assoc.
  unfold mbind, M_bind. destruct (f i st s) as [[st' [a|]] s1|s1| |]; first [done|apply IH].
Qed.

Lemma same_but_ctrl_refl e : same_but_ctrl e e.
Proof. by destruct e. Qed.

Lemma round_skip n loc v s s' ws :
  0 <= n -> target s n = false -> round_done n loc v s s' ws ->
  round_done (n + 1) loc v s s' ws.
Proof.
  intros Hn Ht [H1 H2 H3 H4]. split; auto; [|intros; apply H4; lia].
  rewrite upto_S, filter_app, filter_cons_False, filter_nil, app_nil_r by (done || by rewrite Ht).
  done.
Qed.

Lemma round_post n loc v s s' ws e q w :
  0 <= n -> target s n = true -> aget (eps s) n = Some e -> request n loc v w ->
  round_done n loc v s s' ws ->
  round_done (n + 1) loc v s (after_post n (set_ctrl_qp q e) w s') (ws ++ [w]).
Proof.
  intros Hn Ht He Hw [H1 H2 H3 H4]. pose proof (aget_Some _ _ _ He) as Hlt. split.
  - rewrite H1. unfold after_post; simpl. by rewrite reverse_snoc.
  - rewrite upto_S, filter_app, filter_cons_True, filter_nil by done.
    apply Forall2_app; [done|]. constructor; [done|constructor].
  - unfold after_post; simpl. unfold aget in He. destruct (0 <=? n); [|done].
    rewrite <- (list_insert_id (eps s) (Z.to_nat n) e He).
    apply Forall2_insert; [done|by destruct e].
  - intros i Hi. rewrite <- H4 by lia. unfold after_post, aget; simpl.
    destruct (0 <=? i); [|done]. by rewrite list_lookup_insert_ne by lia.
Qed.

(** A round on an idle device: every other connected server of the group is
    sent the payload, in order, and nothing else happens. *)
Lemma post_round_idle size loc p v b s :
  idle s -> 0 <= size <= Z.of_nat (length (eps s)) ->
  (forall i e, 0 <= i < size -> aget (eps s) i = Some e ->
     sendable (rc_max_send_wr (ib s)) (ctrl_qp e)) ->
  (forall s', conf s' = conf s -> ctrl s' = ctrl s -> slog s' = slog s -> p s' = Ret v s') ->
  exists s' ws, post_round size 0 loc p b None s = Ret (None, None) s' /\
    round_done size loc v s s' ws.
Proof.
  intros Hidle [Hn Hlen] Hsend Hp. unfold post_round. revert Hsend Hlen. pattern size.
  revert size Hn. apply natlike_ind; [|intros n Hn IH]; intros Hsend Hlen.
  { exists s, []. split; [done|]. split; auto.
    - by destruct s as [? ? ? ? [] ? ? ? ? ?].
    - clear. induction (eps s); constructor; auto using same_but_ctrl_refl. }
  unfold Z.succ in *. destruct IH as (s1 & ws & Hrun & Hd); [intros; eapply Hsend; eauto; lia|lia|].
  rewrite upto_S, for_st_app by done. rewrite (bind_run _ _ _ _ _ Hrun). cbn [for_st].
  pose proof (rd_state _ _ _ _ _ _ Hd) as Hs1.
  assert (conf s1 = conf s /\ ctrl s1 = ctrl s /\ slog s1 = slog s) as (Hc & Hct & Hlg)
    by (rewrite Hs1; done).
  destruct (aget_is_Some (eps s) n) as [e He]; [lia|].
  assert (aget (eps s1) n = Some e) as He1 by (rewrite (rd_rest _ _ _ _ _ _ Hd); done || lia).
  unfold post_one. rewrite bind_assoc, bind_get, Hc.
  destruct (target s n) eqn:Ht.
  - pose proof Ht as Ht'. unfold target, other_server in Ht'. rewrite He in Ht'.
    apply andb_true_iff in Ht' as [[Hne Hon]%andb_true_iff Hcon].
    rewrite negb_true_iff in Hne, Hcon. rewrite Hne, Hon. cbn [negb].
    rewrite bind_assoc, (bind_run _ _ _ _ _ (ep_at_run n s1 e He1)), Hcon.
    cbn [put_send sends_update]. rewrite bind_assoc, (bind_run _ _ s1 None s1 eq_refl).
    rewrite bind_assoc, (bind_run _ _ _ _ _ (Hp s1 Hc Hct Hlg)).
    destruct (post_send_idle n loc v b None s1 e) as (q & w & Hw & Hps); [|done| |].
    + rewrite Hs1. by destruct Hidle.
    + rewrite Hs1. eapply Hsend; eauto; lia.
    + rewrite bind_assoc, (bind_run _ _ _ _ _ Hps). cbn.
      exists (after_post n (set_ctrl_qp q e) w s1), (ws ++ [w]). split; [done|].
      by apply round_post.
  - exists s1, ws. split; [|by apply round_skip].
    unfold target, other_server in Ht. rewrite He in Ht.
    destruct (n =? idx (conf s)); [done|]. cbn [negb andb] in Ht.
    destruct (CID_IS_SERVER_ON (cid (conf s)) n); cbn [negb andb] in *; [|done].
    rewrite bind_assoc, (bind_run _ _ _ _ _ (ep_at_run n s1 e He1)).
    apply negb_false_iff in Ht. by rewrite Ht.
Qed.
