(* ===== verification/RoleSpec.v ===== *)
(** * Becoming a candidate (dare_server.c)

    [start_election] on a device that answers and has nothing outstanding: the
    server becomes the candidate of the next term, with exclusive access to
    its log and no votes, and asks every other connected server for its
    vote. *)

From Stdlib Require Import QArith.
From S2P Require Import Prelude Bytes Words Config Log LogRep LogOps State Init Hoare.
From S2P Require Import Qp QpSpec Cq RcOps PostSpec Role.

Open Scope Z_scope.

(** ** The last entry *)

(** The entries a log holds, none when it is new. *)
Definition holds (l : dare_log_t) (es : list aentry) : Prop :=
  es = [] /\ log_fresh l \/ log_inv l es.

(** The index and the term a server announces. *)
Definition last_of (es : list aentry) : Z * Z :=
  match last es with Some x => (ae_idx x, ae_term x) | None => (0, 0) end.

Lemma tail_entry l t x :
  len_ok l -> live l t [x] ->
  exists e, log_get_entry l t = (Some e, e) /\ entry_idx l e = ae_idx x /\
    entry_term l e = ae_term x.
Proof. intros Hlen [e He]%live_step; [|done]. destruct He. eauto. Qed.

Lemma last_entry_run es s :
  holds (slog s) es -> (length es < fuel (params s))%nat ->
  last_entry s = Ret (last_of es) s.
Proof.
  intros [[-> Hf]|Hinv] Hfuel; unfold last_entry; rewrite bind_get.
  { unfold is_log_empty. by rewrite (fresh_end _ Hf), Z.eqb_refl. }
  destruct es as [|x es _] using rev_ind.
  { by destruct (rep_nonempty _ _ (inv_rep _ _ Hinv)). }
  rewrite length_app in Hfuel. simpl in Hfuel.
  destruct (log_get_tail_spec (fuel (params s)) _ es x Hinv) as (t & Ht & Hlive & _); [lia|].
  pose proof (rep_len _ _ (inv_rep _ _ Hinv)) as Hlen.
  pose proof (live_range _ _ _ Hlive) as [He _].
  unfold is_log_empty. rewrite (proj2 (Z.eqb_neq (end_ (slog s)) (len (slog s)))) by lia.
  rewrite bind_get, Ht. rewrite (bind_run _ _ _ t s eq_refl).
  destruct (tail_entry _ _ _ Hlen Hlive) as (e & -> & Hi & Htm).
  rewrite (bind_run _ _ _ e s eq_refl), Hi, Htm. unfold last_of. by rewrite last_snoc.
Qed.

(** ** Clearing the votes *)

Definition cleared (va : list Z) (sv : list server_t) (s : srv) : srv :=
  set_conf (set_servers sv (conf s)) (set_ctrl (set_vote_ack va (ctrl s)) s).

(** No vote from server [i], and its log replication starts over. *)
Definition fresh_peer (s : srv) (i : Z) : Prop :=
  aget (vote_ack (ctrl s)) i = Some (len (slog s)) /\
  exists v, aget (servers (conf s)) i = Some v /\
    next_lr_step v = LR_GET_WRITE /\ send_flag v = 1.

Lemma clear_votes_wp size s E :
  0 <= size <= Z.of_nat (length (vote_ack (ctrl s))) ->
  size <= Z.of_nat (length (servers (conf s))) ->
  wp true (for_each (upto size) clear_vote)
    (fun _ s' => (exists va sv, s' = cleared va sv s) /\ forall i, 0 <= i < size -> fresh_peer s' i)
    E s.
Proof.
  intros [H0 Hva] Hsv.
  apply (wp_for_each true (fun l s' =>
    (exists va sv, s' = cleared va sv s /\ length va = length (vote_ack (ctrl s)) /\
       length sv = length (servers (conf s))) /\
    (forall i, i ∈ l -> 0 <= i < size) /\
    (forall i, 0 <= i < size -> i ∉ l -> fresh_peer s' i))).
  - intros i l s' ((va & sv & -> & Hv1 & Hv2) & Hin & Hdone).
    assert (0 <= i < size) as Hi by (apply Hin; left).
    destruct (aget_is_Some sv i) as [v Hv]; [lia|].
    unfold clear_vote. apply wp_bind, wp_get, wp_bind. eapply wp_run.
    { apply ctrl_put_run. simpl. lia. }
    eapply wp_run; [apply on_server_run; exact Hv|]. simpl.
    split; [|split; [intros j Hj; apply Hin; by right|]].
    + eexists _, _. split; [reflexivity|]. by rewrite !length_insert.
    + intros j Hj Hnl. unfold fresh_peer. simpl. rewrite !aget_insert by lia.
      destruct (Z.eqb_spec i j) as [->|Hne]; [by eauto|].
      apply (Hdone j Hj). rewrite not_elem_of_cons. by split.
  - split; [|split; [intros i; apply elem_of_upto|intros i Hi []; by apply elem_of_upto]].
    exists (vote_ack (ctrl s)), (servers (conf s)). split; [|done].
    destruct s as [[] [] ? ? ? ? ? ? ? ?]; done.
  - intros s' ((va & sv & -> & _) & _ & Hd). split; [by eauto|].
    intros i Hi. apply Hd; [done|]. by intros ?%elem_of_nil.
Qed.

(** ** The vote requests *)

Abbreviation request_of loc v := (fun i w => request i loc v w).

(** The state when the requests are about to be posted. *)
Definition requesting (r : vote_req_t) (s : srv) : srv :=
  set_ib (set_ssn (u64 (ssn (ib s) + 1)) (ib s))
    (set_ctrl (set_vote_req (<[Z.to_nat (idx (conf s)) := r]> (vote_req (ctrl s))) (ctrl s)) s).

Definition own_request (es : list aentry) (s : srv) : vote_req_t :=
  mk_vote_req (sid (ctrl s)) (last_of es).1 (last_of es).2 (cid (conf s)).

Lemma vote_request_run es s :
  idle s -> holds (slog s) es -> (length es < fuel (params s))%nat ->
  0 <= idx (conf s) < Z.of_nat (length (vote_req (ctrl s))) ->
  0 <= get_group_size (cid (conf s)) <= Z.of_nat (length (eps s)) ->
  (forall i e, aget (eps s) i = Some e -> sendable (rc_max_send_wr (ib s)) (ctrl_qp e)) ->
  exists s' ws, rc_send_vote_request s = Ret 0 s' /\
    round_done (get_group_size (cid (conf s))) (L_vote_req (idx (conf s)))
      (P_vote_req (own_request es s)) (requesting (own_request es s) s) s' ws.
Proof.
  intros Hidle Hh Hfuel Hidx Hsize Hsend. unfold rc_send_vote_request. rewrite !bind_get.
  rewrite (bind_run _ _ _ _ _ (last_entry_run es s Hh Hfuel)). cbv zeta.
  change (mk_vote_req _ _ _ _) with (own_request es s).
  erewrite bind_run by (by apply ctrl_put_run).
  rewrite (bind_run next_ssn _ _ tt (requesting (own_request es s) s) eq_refl).
  destruct (post_round_idle (get_group_size (cid (conf s))) (L_vote_req (idx (conf s)))
    (v ← ctrl_get vote_req (idx (conf s)); mret (P_vote_req v)) (P_vote_req (own_request es s))
    false (requesting (own_request es s) s)) as (s' & ws & Hrun & Hd).
  - by destruct Hidle.
  - done.
  - intros i e _ He. by eapply Hsend.
  - intros s1 _ Hc _. erewrite bind_run; [reflexivity|]. apply ctrl_get_run. rewrite Hc. simpl.
    by rewrite aget_insert, Z.eqb_refl.
  - exists s', ws. split; [|done]. by rewrite (bind_run _ _ _ _ _ Hrun).
Qed.

Lemma timeout_run s :
  0 < elec_timeout_low (params s) < elec_timeout_high (params s) ->
  elec_timeout_high (params s) < 2 ^ 64 ->
  exists r, random_election_timeout s =
    Ret r (set_params (set_rand (drop 1 (rand (params s))) (params s)) s) /\
    Qeq_bool r 0 = false.
Proof.
  intros Hlow Hhigh. unfold random_election_timeout. rewrite bind_get. cbv zeta.
  rewrite bind_upd. set (lo := elec_timeout_low (params s)) in *.
  set (hi := elec_timeout_high (params s)) in *. set (r := default 0 _).
  rewrite (wrap_small 64 (hi - lo)) by lia.
  rewrite (proj2 (Z.eqb_neq (hi - lo) 0)) by lia. eexists. split; [reflexivity|].
  pose proof (Z.mod_pos_bound r (hi - lo)). rewrite wrap_small by lia.
  apply not_true_is_false. intros H1%Qeq_bool_eq. unfold Qeq in H1. simpl in H1. lia.
Qed.

(** ** Starting an election *)

(** A server that can talk to the others: the device answers, nothing is
    outstanding, the bookkeeping is right, and the tables have their sizes. *)
Record ready (es : list aentry) (s : srv) : Prop := {
  rdy_fabric : fabric_ok s;
  rdy_access : access_inv s;
  rdy_idle : idle s;
  rdy_send : forall i e, aget (eps s) i = Some e ->
               sendable (rc_max_send_wr (ib s)) (ctrl_qp e);
  rdy_cid : cid_wf (cid (conf s));
  rdy_idx : 0 <= idx (conf s) < MAX_SERVER_COUNT;
  rdy_eps : length (eps s) = NSRV;
  rdy_servers : length (servers (conf s)) = NSRV;
  rdy_acks : length (vote_ack (ctrl s)) = NSRV;
  rdy_reqs : length (vote_req (ctrl s)) = NSRV;
  rdy_log : holds (slog s) es;
  rdy_fuel : (length es < fuel (params s))%nat;
  rdy_low : 0 < elec_timeout_low (params s) < elec_timeout_high (params s);
  rdy_high : elec_timeout_high (params s) < 2 ^ 64
}.

Lemma election_sid_fields sd me :
  0 <= sd < M64 -> SID_GET_TERM sd + 1 < 2 ^ 55 -> 0 <= me < MAX_SERVER_COUNT ->
  election_sid sd me = mk_sid (SID_GET_TERM sd + 1) false me.
Proof.
  intros Hsd Ht Hme. unfold election_sid, MAX_SERVER_COUNT in *.
  assert (0 <= SID_GET_TERM sd) by (apply Z.shiftr_nonneg; lia).
  rewrite wrap_small by lia. apply sid_build_fields; lia.
Qed.

Lemma candidate_sid s t :
  sid (ctrl s) = mk_sid t false (idx (conf s)) -> 0 < t < 2 ^ 55 ->
  0 <= idx (conf s) < 2 ^ 8 -> IS_CANDIDATE s = true.
Proof.
  intros Hs Ht Hi. unfold IS_CANDIDATE, IS_NONE.
  rewrite Hs, sid_get_idx, sid_get_l, sid_get_term, Z.eqb_refl by lia. cbn [c_bool Z.mul c_true].
  by rewrite (proj2 (Z.eqb_neq t 0)) by lia.
Qed.

(** Revoking does not change whom a round is posted to, nor the control
    queue pairs. *)
Lemma revoked_ep c n l i e' :
  aget (map_upto (revoke_ep c) n l) i = Some e' ->
  exists e, aget l i = Some e /\ rc_connected e' = rc_connected e /\ ctrl_qp e' = ctrl_qp e.
Proof.
  intros (e & He & ->)%aget_map_upto. exists e. split; [done|].
  unfold revoke_ep. destruct (i <? n); [|done]. by destruct (_ && _ && _).
Qed.

Lemma target_revoked s i : target (revoked s) i = target s i.
Proof.
  unfold target. simpl. destruct (other_server (conf s) i); [|done]. cbn [andb].
  destruct (aget (map_upto _ _ _) i) as [e'|] eqn:He'.
  - by apply revoked_ep in He' as (e & -> & -> & _).
  - destruct (aget (eps s) i) as [e|] eqn:He; [|done].
    unfold aget in *. destruct (0 <=? i); [|done].
    by rewrite map_upto_lookup, He in He'.
Qed.

(** The new state identifier, and the line in the log file. *)
Definition standing (sd : Z) (s : srv) : srv :=
  set_out (E_log_election (SID_GET_TERM sd) :: out s) (set_ctrl (set_sid sd (ctrl s)) s).

(** The part before the requests are sent: the candidate with its log locked
    and its votes cleared. *)
Definition candidate (sd : Z) (va : list Z) (sv : list server_t) (w : ev_timer) (rs : list Z)
    (s : srv) : srv :=
  set_tmr (set_hb_event w (tmr s))
    (set_params (set_rand rs (params s))
       (cleared va sv (revoked (standing sd s)))).

Lemma update_sid_run sd s :
  server_update_sid sd (sid (ctrl s)) s = Ret 0 (set_ctrl (set_sid sd (ctrl s)) s).
Proof. unfold server_update_sid. by rewrite bind_get, Z.eqb_refl. Qed.

Lemma start_election_run es s :
  ready es s ->
  exists va sv w rs,
    let s1 := candidate (election_sid (sid (ctrl s)) (idx (conf s))) va sv w rs s in
    start_election s =
      (rc ← rc_send_vote_request; if negb (rc =? 0) then error_exit else mret tt) s1 /\
    (forall i, 0 <= i < get_group_size (cid (conf s)) -> fresh_peer s1 i) /\
    cb w = CB_hb_receive /\ active w = true.
Proof.
  intros [Hfab Hacc Hidle Hsend Hwf Hidx Heps Hsv Hva Hvr Hlog Hfuel Hlo Hhi].
  unfold start_election. rewrite !bind_get. set (sd := election_sid _ _).
  rewrite (bind_run _ _ _ _ _ (update_sid_run sd s)).
  set (s1 := standing sd s). rewrite (bind_run _ _ (set_ctrl (set_sid sd (ctrl s)) s) tt s1 eq_refl).
  pose proof (group_size_range _ Hwf) as Hsize. unfold NSRV, MAX_SERVER_COUNT in *.
  rewrite (bind_run _ _ s1 0 (revoked s1)) by (apply revoke_run; by destruct Hfab).
  cbn [Z.eqb negb]. rewrite bind_get.
  destruct (run_wp _ _ _ (clear_votes_wp (get_group_size (cid (conf s))) (revoked s1)
    (fun _ => False) ltac:(simpl; lia) ltac:(simpl; lia))) as ([] & s2 & Hrun & (va & sv & ->) & Hf).
  change (cid (conf (revoked s1))) with (cid (conf s)). rewrite (bind_run _ _ _ _ _ Hrun).
  destruct (timeout_run (cleared va sv (revoked s1)) Hlo Hhi) as (r & Hr & Hr0).
  rewrite (bind_run _ _ _ _ _ Hr).
  exists va, sv, (rearm_cb (hb_event (tmr s)) CB_hb_receive r), (drop 1 (rand (params s))).
  split; [done|]. split; [exact Hf|]. split; [done|]. simpl. by rewrite Hr0.
Qed.

Lemma same_ctrl_ep l l' i e' :
  Forall2 same_but_ctrl l l' -> aget l' i = Some e' ->
  exists e, aget l i = Some e /\ rc_connected e = rc_connected e' /\ log_qp e = log_qp e'.
Proof.
  intros HF. unfold aget. destruct (0 <=? i); [|done]. intros He'.
  destruct (Forall2_lookup_r _ _ _ _ _ HF He') as (e & He & <-). exists e. by destruct e.
Qed.


Lemma demo_ready : ready [] (demo_srv 3 0).
Proof.
  split; try done.
  - intros i e He _. by rewrite (demo_eps _ _ _ _ He).
  - intros i e He. rewrite (demo_eps _ _ _ _ He). by vm_compute.
  - left. split; [done|]. by split; vm_compute.
  - vm_compute. lia.
Qed.

