(* ===== verification/ElectionSpec.v ===== *)
(** * Elections (dare_server.c)

    Whom a server votes for, and what it takes to become leader. *)

From Stdlib Require Import QArith.
From S2P Require Import Prelude Bytes Words Config Log LogRep LogOps State Init Hoare.
From S2P Require Import Qp QpSpec Cq RcOps Frame PostSpec Role RoleSpec EpDb Ud Normal Election.

Open Scope Z_scope.

(** ** The scans over the requests *)

(** Requests of which some were dropped. *)
Definition dropped (r r' : vote_req_t) : Prop := r' = r \/ r' = set_vr_sid 0 r.

Lemma dropped_trans a b c : dropped a b -> dropped b c -> dropped a c.
Proof. intros [->| ->] [->| ->]; unfold dropped; destruct a; auto. Qed.

Lemma drop_request l i r l' :
  aget l i = Some r -> aset l i (set_vr_sid 0 r) = Some l' -> Forall2 dropped l l'.
Proof.
  intros Hi [_ ->]%aset_inv. unfold aget in Hi. destruct (0 <=? i); [|done].
  rewrite <- (list_insert_id l (Z.to_nat i) r) at 1 by done.
  apply Forall2_insert; [|by right]. clear. induction l; constructor; [by left|done].
Qed.

Lemma dropped_list_trans a b c :
  Forall2 dropped a b -> Forall2 dropped b c -> Forall2 dropped a c.
Proof.
  intros H1. revert c. induction H1 as [|x y a b Hxy _ IH]; intros c H2.
  - by apply Forall2_nil_inv_l in H2 as ->.
  - apply Forall2_cons_inv_l in H2 as (z & c' & Hyz & H2 & ->).
    constructor; [by eapply dropped_trans|auto].
Qed.

Lemma dropped_list_refl l : Forall2 dropped l l.
Proof. induction l; constructor; [by left|done]. Qed.

(** A request that is still there was there before. *)
Lemma dropped_aget l l' i r :
  Forall2 dropped l l' -> aget l' i = Some r -> vr_sid r <> 0 -> aget l i = Some r.
Proof.
  intros HF. unfold aget. destruct (0 <=? i); [|done]. intros Hr Hne.
  destruct (Forall2_lookup_r _ _ _ _ _ HF Hr) as (r0 & H0 & [->| ->]); [done|].
  by destruct r0.
Qed.

Lemma best_sid_dropped me l reqs best reqs' b :
  best_sid me l reqs best = Some (reqs', b) -> Forall2 dropped reqs reqs' /\ best <= b.
Proof.
  revert reqs best. induction l as [|i l IH]; intros reqs best; cbn [best_sid].
  { intros [= -> ->]. split; [apply dropped_list_refl|lia]. }
  destruct (i =? me); [apply IH|]. destruct (aget reqs i) as [r|] eqn:Hr; [|done]. cbn.
  destruct (Z.leb_spec (vr_sid r) best).
  - destruct (aset reqs i _) as [reqs1|] eqn:Hs; [|done]. cbn. intros [Hd Hb]%IH.
    split; [|done]. eapply dropped_list_trans; [by eapply drop_request|done].
  - intros [Hd Hb]%IH. split; [done|lia].
Qed.

Lemma log_better_trans a b c :
  log_better a b = false -> log_better b c = false -> log_better a c = false.
Proof. unfold log_better. rewrite !orb_false_iff, !andb_false_iff. zbool. lia. Qed.

(** The candidate chosen beats the local SID, and its log is at least as good
    as the local one and was announced by a request. *)
Lemma best_request_spec l reqs own h reqs' b h' :
  best_request l reqs own h = Some (reqs', b, h') ->
  b = own \/ vr_sid own <= vr_sid b /\ log_better own b = false /\
    (0 < vr_sid b -> exists i, i ∈ l /\ aget reqs i = Some b).
Proof.
  revert reqs own h. induction l as [|i l IH]; intros reqs own h; cbn [best_request].
  { intros [= _ -> _]. by left. }
  destruct (aget reqs i) as [r|] eqn:Hr; [|done]. cbn.
  destruct (aset reqs i _) as [reqs1|] eqn:Hs; [|done]. cbn.
  pose proof (drop_request _ _ _ _ Hr Hs) as Hd.
  assert (forall b, 0 < vr_sid b -> (exists j, j ∈ l /\ aget reqs1 j = Some b) ->
            exists j, j ∈ i :: l /\ aget reqs j = Some b) as Hback.
  { intros x Hx (j & Hj & Hb). exists j. split; [by right|].
    eapply dropped_aget; eauto. lia. }
  destruct (Z.ltb_spec (vr_sid r) (vr_sid own)).
  { intros [->|(H1 & H2 & H3)]%IH; [by left|right]. auto 6. }
  destruct (log_better own r) eqn:Hlog.
  { intros [->|(H1 & H2 & H3)]%IH; [by left|right]. auto 6. }
  intros [->|(H1 & H2 & H3)]%IH; right.
  - split; [done|]. split; [done|]. intros _. exists i. split; [by left|done].
  - split; [lia|]. split; [by eapply log_better_trans|]. auto.
Qed.

(** ** The last local entry *)

(** The own buffer of not committed entries has its size and suffices. *)
Record nc_ok (es : list aentry) (s : srv) : Prop := {
  nco_bufs : length (nc_buf (slog s)) = NSRV;
  nco_size : forall i b, aget (nc_buf (slog s)) i = Some b ->
               Z.of_nat (length (nc_entries b)) = MAX_NC_ENTRIES;
  nco_fit : Z.of_nat (length es) <= MAX_NC_ENTRIES;
  nco_fuel : (length es < fuel (params s))%nat;
  nco_idx : 0 <= idx (conf s) < MAX_SERVER_COUNT
}.

Lemma holds_set_nc l es bufs : holds l es -> holds (set_nc_buf l bufs) es.
Proof.
  intros [[-> []]|Hinv]; [left; by split|right].
  assert (forall o suf, live l o suf -> live (set_nc_buf l bufs) o suf) as Hl
    by (intros o suf; by apply live_same).
  assert (forall o, boundary l es o -> boundary (set_nc_buf l bufs) es o) as Hb
    by (intros o (H1 & suf & H2 & H3); split; [exact H1|]; eauto).
  destruct Hinv as [[Hlen Hne Hh Hlive] Hc Ha Ht]. split; [by split; auto|by apply Hb..|].
  destruct Ht as [|(es0 & x & H1 & H2)]; [by left|right]. eauto.
Qed.

Lemma dets_last l es ds x :
  dets_of l es ds -> last es = Some x ->
  length ds = length es /\
  exists d, ds !! (length es - 1)%nat = Some d /\ det_idx d = ae_idx x /\ det_term d = ae_term x.
Proof.
  revert ds. induction es as [|y es IH]; intros [|d ds]; try done.
  intros (Hi & Ht & _ & Hd) Hx. destruct es as [|z es].
  - injection Hx as <-. destruct ds; [|done]. split; [done|]. by exists d.
  - destruct (IH ds Hd Hx) as (Hlen & d' & Hd' & Hi' & Ht'). simpl in *.
    rewrite Nat.sub_0_r in Hd'. split; [lia|]. by exists d'.
Qed.

(** What the buffer says about the last entry: nothing, or the entry. *)
Definition nc_last (es : list aentry) (b : dare_nc_buf_t) : Prop :=
  nc_len b = 0 \/
  nc_len b <> 0 /\ exists d, aget (nc_entries b) (nc_len b - 1) = Some d /\
    (det_idx d, det_term d) = last_of es.

Lemma to_nc_buf_last es l nc n :
  holds l es -> (length es < n)%nat -> Z.of_nat (length es) <= MAX_NC_ENTRIES ->
  Z.of_nat (length (nc_entries nc)) = MAX_NC_ENTRIES ->
  exists b, log_entries_to_nc_buf n l nc = Ok b /\ nc_last es b.
Proof.
  intros [[-> Hf]|Hinv] Hn Hmax Hnc; unfold log_entries_to_nc_buf.
  { destruct n as [|n]; [lia|]. simpl. unfold log_get_entry, is_log_empty.
    rewrite (fresh_end _ Hf), Z.eqb_refl. eexists. split; [done|]. by left. }
  destruct (inv_commit _ _ Hinv) as (_ & suf & [pre ->] & Hlive).
  rewrite length_app in Hn, Hmax.
  destruct (nc_buf_loop_spec l suf (rep_len _ _ (inv_rep _ _ Hinv)) n (commit l) 0
    (nc_entries nc)) as (ds & -> & Hds); [done|lia|lia|lia|].
  eexists. split; [done|]. destruct suf as [|x suf _] using rev_ind; [by left|right].
  destruct (dets_last _ _ _ x Hds) as (Hlen & d & Hd & Hi & Ht); [by rewrite last_snoc|].
  cbn [nc_len nc_entries take app Z.to_nat]. rewrite length_app in *. simpl in Hd, Hlen |- *.
  split; [lia|]. exists d. split.
  - unfold aget. rewrite (proj2 (Z.leb_le _ _)) by lia.
    rewrite lookup_app_l by lia. by replace (Z.to_nat _) with (length suf + 1 - 1)%nat by lia.
  - unfold last_of. by rewrite app_assoc, last_snoc, Hi, Ht.
Qed.

Lemma fill_nc_buf_run es s :
  holds (slog s) es -> nc_ok es s ->
  exists b bufs, fill_nc_buf s = Ret b (set_slog (set_nc_buf (slog s) bufs) s) /\ nc_last es b.
Proof.
  intros Hh [Hb Hsz Hfit Hfuel Hidx]. unfold fill_nc_buf. unfold NSRV, MAX_SERVER_COUNT in *.
  destruct (aget_is_Some (nc_buf (slog s)) (idx (conf s))) as [b0 Hb0]; [lia|].
  destruct (to_nc_buf_last es (slog s) b0 (fuel (params s)) Hh Hfuel Hfit (Hsz _ _ Hb0))
    as (b & Hrun & Hlast).
  rewrite !bind_get, Hb0, (bind_run _ _ s b0 s eq_refl), Hrun, (bind_run _ _ s b s eq_refl).
  rewrite aset_Some by lia. eexists b, _. split; [reflexivity|done].
Qed.

Lemma tail_fresh n l : log_fresh l -> log_get_tail n l = Ok (len l).
Proof.
  intros Hf. unfold log_get_tail, is_log_empty.
  by rewrite (fresh_tail _ Hf), (fresh_end _ Hf), Z.eqb_refl.
Qed.

(** The index and the term are those of the last entry. *)
Lemma local_request_run es sd s :
  holds (slog s) es -> nc_ok es s ->
  exists r bufs, local_request sd s = Ret r (set_slog (set_nc_buf (slog s) bufs) s) /\
    vr_sid r = sd /\ (vr_index r, vr_term r) = last_of es.
Proof.
  intros Hh Hnc. unfold local_request.
  destruct (fill_nc_buf_run es s Hh Hnc) as (b & bufs & Hfill & Hlast).
  rewrite (bind_run _ _ _ _ _ Hfill), bind_get. set (s1 := set_slog _ s).
  exists (mk_vote_req sd (last_of es).1 (last_of es).2 cid_zero), bufs.
  split; [|by destruct (last_of es)].
  destruct Hlast as [->|(Hne & d & Hd & Hdl)].
  2:{ rewrite (proj2 (Z.eqb_neq _ _) Hne), Hd, (bind_run _ _ s1 d s1 eq_refl).
      by rewrite <- Hdl. }
  rewrite Z.eqb_refl, bind_get.
  apply (holds_set_nc _ _ bufs) in Hh. destruct Hh as [[-> Hf]|Hinv].
  { change (slog s1) with (set_nc_buf (slog s) bufs). rewrite tail_fresh by done.
    by rewrite (bind_run _ _ s1 (len (slog s1)) s1 eq_refl), Z.eqb_refl. }
  destruct es as [|x es _] using rev_ind.
  { by destruct (rep_nonempty _ _ (inv_rep _ _ Hinv)). }
  pose proof (nco_fuel _ _ Hnc) as Hfuel. rewrite length_app in Hfuel. simpl in Hfuel.
  destruct (log_get_tail_spec (fuel (params s)) _ es x Hinv) as (t & Ht & Hlive & Hne); [lia|].
  change (slog s1) with (set_nc_buf (slog s) bufs). change (params s1) with (params s).
  rewrite Ht, (bind_run _ _ s1 t s1 eq_refl), (proj2 (Z.eqb_neq _ _) Hne).
  destruct (tail_entry _ _ _ (rep_len _ _ (inv_rep _ _ Hinv)) Hlive) as (e & -> & Hi & Htm).
  rewrite (bind_run _ _ s1 e s1 eq_refl), Hi, Htm. unfold last_of. by rewrite last_snoc.
Qed.

(** ** What an election posts *)

(** All requests posted since satisfy [P]. *)
Definition sent (P : wr -> Prop) (s s' : srv) : Prop :=
  exists ws, posted (ib s') = ws ++ posted (ib s) /\ Forall P ws.
(** In addition the state identifier and the index are the same. *)
Definition sent_as (P : wr -> Prop) (s s' : srv) : Prop :=
  (sid (ctrl s), idx (conf s)) = (sid (ctrl s'), idx (conf s')) /\ sent P s s'.

#[export] Instance sent_refl P : Reflexive (sent P).
Proof. intros s. by exists []. Qed.
#[export] Instance sent_trans P : Transitive (sent P).
Proof.
  intros a b c (w1 & H2 & H3) (w2 & H5 & H6).
  exists (w2 ++ w1). split; [by rewrite H5, H2, app_assoc|by apply Forall_app].
Qed.
#[export] Instance sent_as_refl P : Reflexive (sent_as P).
Proof. by split. Qed.
#[export] Instance sent_as_trans P : Transitive (sent_as P).
Proof. intros a b c [H1 H2] [H3 H4]. split; [congruence|by etrans]. Qed.

Lemma pres_mono (R R' : srv -> srv -> Prop) {A} (m : M A) :
  pres R m -> (forall s s', R s s' -> R' s s') -> pres R' m.
Proof. intros Hm HR s. eapply wp_mono; [apply Hm| |]; cbn; auto. Qed.

Lemma dev_sent_as P {A} (m : M A) : pres (dev P) m -> pres (sent_as P) m.
Proof.
  intros Hm. eapply pres_mono; [done|]. intros s s' (Hv & _ & Hs). split; [|done].
  by rewrite (view_sid _ _ Hv), (view_idx _ _ Hv).
Qed.

(** Rounds with any payload. *)
Lemma pv_round (P : wr -> Prop) size self loc p b ps :
  pres (dev P) p -> (forall i v b' n, P (mk_wr i CTRL_QP loc v b' n)) ->
  pres (dev P) (post_round size self loc p b ps).
Proof. intros Hp HP. unfold post_round, post_one. pres_all. Qed.

(** Requests for votes of server [me] that stands with [sd]. *)
Definition stands (me sd : Z) (w : wr) : Prop :=
  match wr_loc w with
  | L_vote_req i => i = me /\ exists r, wr_payload w = P_vote_req r /\ vr_sid r = sd
  | _ => False
  end.

(** Frames for [sent_as]: the operations of the device have theirs,
    the other updates post nothing. *)
Ltac sent_prim :=
  match goal with
  | |- pres (sent_as _) (post_round _ _ _ _ _ _) => apply dev_sent_as, pv_round; [|done]
  | |- pres (sent_as _) (upd _) => apply pres_upd; intro; split; [done|by exists []]
  | |- pres _ (ctrl_put _ _ _ _) => unfold ctrl_put
  | |- pres _ (on_ctrl _) => unfold on_ctrl
  | |- pres _ (on_conf _) => unfold on_conf
  | |- pres _ (on_glob _) => unfold on_glob
  | |- pres _ (on_tmr _) => unfold on_tmr
  | |- pres _ (on_hb_event _) => unfold on_hb_event
  | |- pres _ (on_prune_event _) => unfold on_prune_event
  | |- pres _ (on_to_adjust_event _) => unfold on_to_adjust_event
  | |- pres _ (emit _) => unfold emit
  | |- pres _ error_exit => unfold error_exit
  | |- pres _ dare_server_shutdown => unfold dare_server_shutdown
  | |- pres (sent_as _) _ => apply dev_sent_as; solve [auto with pres]
  end.
Ltac sent_all := repeat (sent_prim || pres_step).

(** Setting the state identifier from its current value. *)
Lemma wp_update_sid {B} v (f : Z -> M B) Q E s :
  wp false (f 0) Q E (set_ctrl (set_sid v (ctrl s)) s) ->
  wp false (server_update_sid v (sid (ctrl s)) ≫= f) Q E s.
Proof. intros H. apply wp_bind. eapply wp_run; [apply update_sid_run|done]. Qed.

(** Going on after a computation that keeps the state identifier. *)
Lemma wp_sent_bind {A B} P (m : M A) (f : A -> M B) Q E s s1 :
  pres (sent_as P) m -> sent_as P s s1 -> (forall s2, sent_as P s s2 -> E s2) ->
  (forall a s2, sent_as P s s2 -> wp false (f a) Q E s2) ->
  wp false (m ≫= f) Q E s1.
Proof.
  intros Hm Hs HE Hf. apply wp_bind. eapply wp_mono; [apply Hm| |]; cbn; intros.
  - apply Hf. by etrans.
  - apply HE. by etrans.
Qed.

Lemma vote_request_sent s :
  let P := stands (idx (conf s)) (sid (ctrl s)) in
  wp false rc_send_vote_request (fun _ => sent_as P s) (sent_as P s) s.
Proof.
  intros P. unfold rc_send_vote_request. apply wp_bind, wp_get, wp_bind, wp_get.
  eapply wp_sent_bind; [unfold last_entry; sent_all|reflexivity|done|].
  intros e s0 Hs0. cbv zeta. set (r := mk_vote_req _ _ _ _). apply wp_bind.
  unfold ctrl_put. apply wp_bind, wp_get, wp_bind, wp_or_fault; [|done].
  intros l [Hr ->]%aset_inv. apply wp_upd. set (s1 := set_ctrl _ s0).
  assert (forall s2, dev P s1 s2 -> sent_as P s s2) as Hd.
  { intros s2 (Hview & _ & Hs). etrans; [exact Hs0|]. split; [|exact Hs].
    by rewrite <- (view_sid _ _ Hview), <- (view_idx _ _ Hview). }
  eapply wp_dev_bind; [apply pv_next_ssn|reflexivity|exact Hd|]. intros [] s2 Hs2. apply wp_bind.
  eapply wp_mono; [apply (wp_post_round P (P_vote_req r))| |].
  - intros s3 Hs3. erewrite bind_run; [reflexivity|]. apply ctrl_get_run.
    assert (vote_req (ctrl s3) = vote_req (ctrl s1)) as ->.
    { transitivity (vote_req (ctrl s2)).
      - exact (eq_sym (f_equal (fun v => vote_req (v_ctrl v)) Hs3)).
      - exact (eq_sym (f_equal (fun v => vote_req (v_ctrl v)) (proj1 Hs2))). }
    simpl. by rewrite aget_insert, Z.eqb_refl by done.
  - intros i b n. split; [done|]. by exists r.
  - intros ps s3 Hs3. apply wp_ret, Hd. by etrans.
  - intros s3 Hs3. apply Hd. by etrans.
Qed.

(** The server stands for the term after [sd]. *)
Definition stood (sd : Z) (s s' : srv) : Prop :=
  let e := election_sid sd (idx (conf s)) in
  sid (ctrl s') = e /\ sent (stands (idx (conf s)) e) s s'.

Lemma start_election_sent s :
  wp false start_election (fun _ => stood (sid (ctrl s)) s) (stood (sid (ctrl s)) s) s.
Proof.
  unfold start_election. apply wp_bind, wp_get, wp_bind, wp_get, wp_update_sid.
  set (e := election_sid _ _). set (s1 := set_ctrl _ s). set (P := stands (idx (conf s)) e).
  assert (forall s2, sent_as P s1 s2 -> stood (sid (ctrl s)) s s2) as Hd
    by (by intros s2 [[= H1 _] H2]).
  eapply wp_sent_bind; [sent_all|reflexivity|exact Hd|]. intros _ s2 H2.
  eapply wp_sent_bind; [sent_all|exact H2|exact Hd|]. intros rc s3 H3.
  apply wp_if; intros _; [by apply Hd|]. apply wp_bind, wp_get.
  eapply wp_sent_bind; [unfold clear_vote; sent_all|exact H3|exact Hd|]. intros _ s4 H4.
  eapply wp_sent_bind; [unfold random_election_timeout; sent_all|exact H4|exact Hd|]. intros r s5 H5.
  eapply wp_sent_bind; [sent_all|exact H5|exact Hd|]. intros _ s6 H6.
  apply wp_bind. pose proof H6 as [[= Hsid Hidx] _].
  assert (stands (idx (conf s6)) (sid (ctrl s6)) = P) as HP by (by rewrite <- Hsid, <- Hidx).
  eapply wp_mono; [apply vote_request_sent| |]; cbv zeta; rewrite HP.
  - intros rc' s7 H7. apply wp_if; intros _; apply Hd; by etrans.
  - intros s7 H7. apply Hd. by etrans.
Qed.

Lemma update_cid_sent P new : pres (sent_as P) (update_cid new).
Proof. unfold update_cid, depart. sent_all. Qed.

Lemma follow_timers_sent P : pres (sent_as P) follow_timers.
Proof. unfold follow_timers. sent_all. Qed.

(** The requests of a vote for [v]: it is replicated as the vote of this
    server, and acknowledged to the candidate alone. *)
Definition ballot (v : Z) (w : wr) : Prop :=
  match wr_loc w with
  | L_vote_sid _ => wr_payload w = P_u64 v
  | L_vote_ack _ => wr_server w = SID_GET_IDX v
  | _ => False
  end.

Lemma replicate_vote_sent v s :
  sid (ctrl s) = v ->
  wp false rc_replicate_vote (fun _ => sent_as (ballot v) s) (sent_as (ballot v) s) s.
Proof.
  intros Hv. unfold rc_replicate_vote. apply wp_bind, wp_get, wp_bind, wp_get, wp_bind.
  unfold ctrl_put. apply wp_bind, wp_get, wp_bind.
  apply wp_or_fault; [|done]. intros l [Hr ->]%aset_inv. apply wp_upd.
  set (s1 := set_ctrl _ s).
  assert (forall s2, dev (ballot v) s1 s2 -> sent_as (ballot v) s s2) as Hd.
  { intros s2 (Hview & _ & Hs). split; [|exact Hs]. by rewrite <- (view_sid _ _ Hview), <- (view_idx _ _ Hview). }
  eapply wp_dev_bind; [apply pv_next_ssn|reflexivity|exact Hd|]. intros [] s2 Hs2.
  apply wp_bind. eapply wp_mono.
  { apply (wp_post_round (ballot v) (P_u64 v)); [|done]. intros s3 Hs3.
    erewrite bind_run; [reflexivity|]. apply ctrl_get_run.
    assert (prv_data (ctrl s3) = prv_data (ctrl s1)) as ->.
    { transitivity (prv_data (ctrl s2)).
      - exact (eq_sym (f_equal (fun v => prv_data (v_ctrl v)) Hs3)).
      - exact (eq_sym (f_equal (fun v => prv_data (v_ctrl v)) (proj1 Hs2))). }
    simpl. by rewrite aget_insert, Z.eqb_refl, Hv. }
  2:{ intros s3 Hs3. apply Hd. by etrans. }
  intros [ps [err|]] s3 Hs3; [apply wp_ret, Hd; by etrans|].
  apply wp_bind. eapply wp_mono; [apply (pv_wait_for_majority (ballot v))| |].
  - intros r s4 Hs4. apply wp_ret, Hd. etrans; [exact Hs2|]. by etrans.
  - intros s4 Hs4. apply Hd. etrans; [exact Hs2|]. by etrans.
Qed.

Lemma vote_ack_sent v s :
  sid (ctrl s) = v ->
  wp false rc_send_vote_ack (fun _ => sent_as (ballot v) s) (sent_as (ballot v) s) s.
Proof.
  intros Hv. unfold rc_send_vote_ack. apply wp_bind, wp_get, wp_bind, wp_get.
  rewrite Hv. apply (dev_sent_as (ballot v)).
  assert (forall me p b n,
    ballot v (mk_wr (SID_GET_IDX v) CTRL_QP (L_vote_ack me) p b n)) as Hb by done.
  unfold read_u64. cbv zeta. pres_all.
Qed.

(** The vote was sent, and then the server stood itself for the term after
    it. *)
Definition stood_after (v : Z) (s s' : srv) : Prop :=
  let e := election_sid v (idx (conf s)) in
  sid (ctrl s') = e /\
  exists ws vs, posted (ib s') = ws ++ vs ++ posted (ib s) /\
    Forall (ballot v) vs /\ Forall (stands (idx (conf s)) e) ws.

(** A vote for [v] under way, and when it is cast: its requests and the state
    identifier it leaves, that of the candidate or that of the next election. *)
Definition voting (v : Z) (s s' : srv) : Prop := sent (ballot v) s s' \/ stood_after v s s'.
Definition voted (v : Z) (s s' : srv) : Prop :=
  (sid (ctrl s') = v /\ sent (ballot v) s s') \/ stood_after v s s'.

Lemma stood_stood_after v s s1 s' :
  sent (ballot v) s s1 -> idx (conf s1) = idx (conf s) -> stood v s1 s' -> stood_after v s s'.
Proof.
  intros (vs & Hvs & Hb) Hi (Hsid & ws & Hws & Hs). rewrite Hi in *. split; [done|].
  exists ws, vs. by rewrite Hws, Hvs.
Qed.

Lemma stood_after_from v s s1 s' :
  sent (ballot v) s s1 -> idx (conf s1) = idx (conf s) -> stood_after v s1 s' -> stood_after v s s'.
Proof.
  intros (us & Hus & Hb) Hi (Hsid & ws & vs & Hws & Hv & Hs). rewrite Hi in *. split; [done|].
  exists ws, (vs ++ us). rewrite Hws, Hus, <- app_assoc. split_and!; try done. by apply Forall_app.
Qed.

Lemma acknowledge_voted v s :
  sid (ctrl s) = v -> wp false acknowledge (fun _ => voted v s) (voting v s) s.
Proof.
  intros Hv. unfold acknowledge. apply wp_bind.
  eapply wp_mono; [by apply vote_ack_sent| |by intros s' []; left].
  intros rc s1 [[= Hs1 Hi1] Hsent]. apply wp_if; intros _.
  - assert (forall s2, stood (sid (ctrl s1)) s1 s2 -> stood_after v s s2) as Hd.
    { intros s2. rewrite <- Hs1, Hv. by apply stood_stood_after. }
    eapply wp_mono; [apply start_election_sent| |]; right; by apply Hd.
  - match goal with |- wp false ?m _ _ _ => assert (pres (sent_as (ballot v)) m) as Hm end.
    { sent_all. }
    eapply wp_mono; [apply Hm| |]; cbn.
    + intros _ s2 [[= H1 _] H2]. left. split; [congruence|by etrans].
    + intros s2 [_ H2]. left. by etrans.
Qed.

Lemma cast_vote_voted b s :
  wp false (cast_vote b) (fun _ => voted (vr_sid b) s) (voting (vr_sid b) s) s.
Proof.
  unfold cast_vote, on_hb_event, on_tmr, emit. set (v := vr_sid b).
  apply wp_bind, wp_upd, wp_bind, wp_upd, wp_bind, wp_get, wp_update_sid.
  set (s1 := set_ctrl _ _). assert ((sid (ctrl s1), idx (conf s1)) = (v, idx (conf s))) as Hs1 by done.
  assert (forall s2, sent_as (ballot v) s1 s2 -> sent (ballot v) s s2) as Hsent by (by intros s2 [_ H]).
  assert (forall s2, sent_as (ballot v) s1 s2 -> voting v s s2) as Hd by (left; auto).
  eapply wp_sent_bind; [apply update_cid_sent|reflexivity|exact Hd|]. intros _ s2 Hs2.
  apply wp_bind. eapply wp_mono; [apply (replicate_vote_sent v); destruct Hs2; congruence| |].
  2:{ intros s3 Hs3. apply Hd. by etrans. }
  intros rc s3 Hs3. assert (sent_as (ballot v) s1 s3) as H3 by (by etrans). clear s2 Hs2 Hs3.
  apply wp_if; intros _; [by apply Hd|].
  eapply wp_sent_bind; [apply follow_timers_sent|exact H3|exact Hd|]. intros _ s4 H4.
  eapply wp_sent_bind; [apply dev_sent_as, pv_restore|exact H4|exact Hd|]. intros rc' s5 H5.
  apply wp_if; intros _; [by apply Hd|].
  pose proof (Hsent _ H5) as H5'. assert (idx (conf s5) = idx (conf s)) as Hi by (destruct H5; congruence).
  eapply wp_mono; [apply (acknowledge_voted v); destruct H5; congruence| |].
  - intros _ s6 [[H6 H7]|H6]; [left|right; by eapply stood_after_from]. split; [done|by etrans].
  - intros s6 [H6|H6]; [left; by etrans|right; by eapply stood_after_from].
Qed.

(** ** Voting *)

(** Only the queue pairs change. *)
Definition qp_only (s s' : srv) : Prop :=
  exists l ms, s' = set_eps l (set_ib (set_modify_res ms (ib s)) s).

#[export] Instance qp_only_refl : Reflexive qp_only.
Proof. intros s. exists (eps s), (modify_res (ib s)). by destruct s as [? ? ? ? [] ? ? ? ? ?]. Qed.
#[export] Instance qp_only_trans : Transitive qp_only.
Proof. intros a b c (l1 & m1 & ->) (l2 & m2 & ->). by exists l2, m2. Qed.

Lemma qp_only_eps l s : qp_only s (set_eps l s).
Proof. exists l, (modify_res (ib s)). by destruct s as [? ? ? ? [] ? ? ? ? ?]. Qed.
Lemma qp_only_ms ms s : qp_only s (set_ib (set_modify_res ms (ib s)) s).
Proof. exists (eps s), ms. by destruct s. Qed.

Lemma revoke_qp_only : pres qp_only rc_revoke_log_access.
Proof.
  unfold rc_revoke_log_access, revoke_one, rc_qp_reset, ibv_modify_qp, check, on_qp, on_ep, ep_at,
    on_ib.
  pres_solve; apply pres_upd; intros s; first [apply qp_only_eps|apply qp_only_ms].
Qed.

(** [v] is the state identifier of a request, later than the own one, from a
    candidate whose log is at least as good as one with the entries [es]: it
    ends in a later term, or in the same term and is not shorter. *)
Definition good_vote (es : list aentry) (s : srv) (v : Z) : Prop :=
  SID_SET_L (sid (ctrl s)) < v /\
  exists i r, 0 <= i < get_group_size (cid (conf s)) /\
    aget (vote_req (ctrl s)) i = Some r /\ vr_sid r = v /\
    ((last_of es).2 < vr_term r \/
     (last_of es).2 = vr_term r /\ (last_of es).1 <= vr_index r).

Lemma log_better_false a b :
  log_better a b = false <->
  vr_term a < vr_term b \/ vr_term a = vr_term b /\ vr_index a <= vr_index b.
Proof. unfold log_better. rewrite orb_false_iff, andb_false_iff. zbool. lia. Qed.

(** What voting may have posted: nothing, or a good vote. *)
Definition posted_vote (es : list aentry) (s s' : srv) : Prop :=
  posted (ib s') = posted (ib s) \/ exists v, good_vote es s v /\ voting v s s'.

Definition vote_cast (es : list aentry) (s s' : srv) : Prop :=
  posted (ib s') = posted (ib s) \/ exists v, good_vote es s v /\ voted v s s'.

Lemma examine_requests_votes es reqs s old best :
  holds (slog s) es -> nc_ok es s -> 0 <= sid (ctrl s) -> old = SID_SET_L (sid (ctrl s)) ->
  Forall2 dropped reqs (vote_req (ctrl s)) ->
  let s0 := set_ctrl (set_vote_req reqs (ctrl s)) s in
  wp false (examine_requests (get_group_size (cid (conf s))) old best)
    (fun _ => vote_cast es s0) (posted_vote es s0) s.
Proof.
  intros Hh Hnc Hsid -> Hd s0. unfold examine_requests. set (old := SID_SET_L _).
  apply wp_bind. eapply wp_mono; [apply revoke_qp_only| |].
  2:{ intros s1 (l & ms & ->). by left. }
  intros rc s1 (l & ms & ->). apply wp_if; intros _; [by left|].
  destruct (local_request_run es old (set_eps l (set_ib (set_modify_res ms (ib s)) s)))
    as (own & bufs & Hrun & Hown & Hlast); [done|by destruct Hnc|].
  apply wp_bind. eapply wp_run; [exact Hrun|]. apply wp_bind, wp_get, wp_bind.
  apply wp_or_fault; [|done]. intros [[reqs' b] h] Hbest.
  cbn [ctrl set_slog set_eps set_ib] in Hbest. unfold on_ctrl. apply wp_bind, wp_upd.
  apply wp_if; intros Hold.
  { unfold raise_term. apply wp_bind, wp_get, wp_bind, wp_get, wp_update_sid, wp_ret. by left. }
  apply Z.eqb_neq in Hold.
  assert (good_vote es s0 (vr_sid b)) as Hgood.
  { destruct (best_request_spec _ _ _ _ _ _ _ Hbest) as [->|(Hge & Hlog & Hex)]; [done|].
    assert (0 <= old) by (by apply Z.lor_nonneg).
    destruct Hex as (i & Hi & Hb); [lia|]. split; [change (old < vr_sid b); lia|].
    exists i, b. split; [by apply elem_of_upto|]. split; [|split; [done|]].
    - eapply dropped_aget; eauto. lia.
    - apply log_better_false in Hlog. rewrite <- Hlast. simpl. lia. }
  eapply wp_mono; [apply cast_vote_voted| |].
  - intros a s2 Hv. right. by exists (vr_sid b).
  - intros s2 Hv. right. by exists (vr_sid b).
Qed.

Lemma poll_vote_requests_wp es s :
  holds (slog s) es -> nc_ok es s -> 0 <= sid (ctrl s) ->
  wp false poll_vote_requests (fun _ => vote_cast es s) (posted_vote es s) s.
Proof.
  intros Hh Hnc Hsid. unfold poll_vote_requests, ctrl_get. apply wp_bind, wp_get, wp_bind, wp_get.
  apply wp_if; intros _; [by left|].
  apply wp_bind, wp_bind, wp_get, wp_or_fault; [|done]. intros x _.
  apply wp_if; intros _; [apply wp_update_sid, wp_ret; by left|].
  apply wp_bind, wp_get, wp_bind, wp_get. cbv zeta. apply wp_bind, wp_or_fault; [|done].
  intros [reqs b] [Hd _]%best_sid_dropped. unfold on_ctrl. apply wp_bind, wp_upd.
  apply wp_if; intros _; [by left|].
  set (s1 := set_ctrl _ s).
  pose proof (examine_requests_votes es (vote_req (ctrl s)) s1 (SID_SET_L (sid (ctrl s))) b) as Hex.
  cbv zeta in Hex. replace (set_ctrl (set_vote_req (vote_req (ctrl s)) (ctrl s1)) s1) with s in Hex.
  2:{ by destruct s as [? [] ? ? ? ? ? ? ? ?]. }
  apply Hex; try done. by destruct Hnc.
Qed.

(** C14. Votes.  The log has at most as many entries as the buffer of not
    committed entries holds (1024).  When [poll_vote_requests] returns, or
    leaves the process, it has posted nothing, or it has voted for one
    candidate: one whose request is in the request array, whose state
    identifier is above the own one even with the leader flag set, and whose
    log is at least as good as the own one.  The requests it has posted are the
    vote: the state identifier of the candidate is what is replicated, and the
    acknowledgement goes to the candidate alone.  When it returns the server
    has the state identifier of the candidate, or that of its own election in
    the term after it; requests for votes are posted in that second case only,
    behind the vote and with that state identifier. *)
Theorem votes_for_one_good_candidate es s :
  holds (slog s) es -> nc_ok es s -> 0 <= sid (ctrl s) ->
  wp false poll_vote_requests (fun _ => vote_cast es s) (posted_vote es s) s.
Proof. apply poll_vote_requests_wp. Qed.

(** A server of a group of three whose request array is [rs], with the
    completions [cq] to come. *)
Definition asked (sd : Z) (rs : list vote_req_t) (cq : list poll) : srv :=
  let s := demo_srv 3 0 in
  set_ib (set_ctrl_cq cq (ib s)) (set_ctrl (set_sid sd (set_vote_req rs (ctrl s))) s).

(** Server 1 is a candidate of term [t] with an empty log. *)
Definition request_from_1 (t : Z) : list vote_req_t :=
  <[1%nat := mk_vote_req (mk_sid t false 1) 0 0 (cid (conf (demo_srv 3 0)))]> (vote_req ctrl_new).

Definition ack_from_1 (n : Z) : poll :=
  Poll [mk_wc (mk_wrid n false false 1) IBV_WC_SUCCESS []].

(** A server at [sd] that is asked for its vote in term [t]. *)
Definition voter (sd t : Z) : srv :=
  asked sd (request_from_1 t) [Poll []; Poll []; ack_from_1 1; Poll []; ack_from_1 2].

Lemma asked_holds sd rs cq : holds (slog (asked sd rs cq)) [].
Proof. left. split; [done|]. by split; vm_compute. Qed.

Lemma asked_nc_ok sd rs cq : nc_ok [] (asked sd rs cq).
Proof.
  split; try done.
  - intros i b. unfold aget. destruct (0 <=? i); [|done].
    change (nc_buf (slog (asked sd rs cq))) with (nc_buf log_new). intros H.
    apply lookup_replicate in H as [-> _]. by vm_compute.
  - vm_compute. lia.
Qed.

(** The outcome of a vote for server 1: two replicas and an
    acknowledgement. *)
Definition votes_for_1 (t : Z) (s s' : srv) : Prop :=
  poll_vote_requests s = Ret tt s' /\ sid (ctrl s') = mk_sid t false 1 /\
  map (fun w => (wr_server w, wr_loc w, wr_payload w)) (posted (ib s')) =
    [(1, L_vote_ack 0, P_u64 0); (2, L_vote_sid 0, P_u64 (mk_sid t false 1));
     (1, L_vote_sid 0, P_u64 (mk_sid t false 1))].

Lemma voter_votes : exists s', votes_for_1 2 (voter (mk_sid 1 false 0) 2) s'.
Proof. eexists. split; [vm_compute; reflexivity|]. split; vm_compute; reflexivity. Qed.

Lemma voter_votes_again : exists s', votes_for_1 3 (voter (mk_sid 2 false 1) 3) s'.
Proof. eexists. split; [vm_compute; reflexivity|]. split; vm_compute; reflexivity. Qed.

Lemma votes_for_one_good_candidate_witness :
  let s := voter (mk_sid 1 false 0) 2 in exists s', votes_for_1 2 s s' /\ vote_cast [] s s'.
Proof.
  destruct voter_votes as (s' & Hv). exists s'. split; [exact Hv|].
  refine (wp_elim _ _ _ _ _ _ _ (votes_for_one_good_candidate [] _ _ _ _) (proj1 Hv)).
  - apply asked_holds.
  - apply asked_nc_ok.
  - vm_compute. discriminate.
Defined.

(** ** One vote per term *)

(** Between [s] and [s'] this server replicated [v] as its vote. *)
Definition votes_in (s s' : srv) (v : Z) : Prop :=
  exists ws w i, posted (ib s') = ws ++ posted (ib s) /\ w ∈ ws /\
    wr_loc w = L_vote_sid i /\ wr_payload w = P_u64 v.

(** The requests candidates write: no leader flag, fields within their
    widths. *)
Definition requests_ok (s : srv) : Prop :=
  forall i r, aget (vote_req (ctrl s)) i = Some r ->
    exists t j, (0 <= t < 2 ^ 55 - 1) /\ (0 <= j < 2 ^ 8) /\ vr_sid r = mk_sid t false j.

Lemma votes_in_cast es s s' v :
  vote_cast es s s' -> votes_in s s' v -> good_vote es s v /\ voted v s s'.
Proof.
  intros Hc (us & w & i & Hp & Hw & Hl & Hv).
  destruct Hc as [He|(v' & Hg & Hvot)].
  - rewrite He in Hp. apply (app_inv_tail _ []) in Hp as <-. by apply elem_of_nil in Hw.
  - enough (v' = v) as <- by done.
    destruct Hvot as [(_ & vs & Hp' & HF)|(_ & ws & vs & Hp' & HF & Hs)].
    + rewrite Hp in Hp'. apply app_inv_tail in Hp' as <-. eapply Forall_forall in HF; [|done].
      unfold ballot in HF. rewrite Hl, Hv in HF. congruence.
    + rewrite Hp, app_assoc in Hp'. apply app_inv_tail in Hp' as ->.
      apply elem_of_app in Hw as [Hw|Hw].
      * eapply Forall_forall in Hs; [|done]. unfold stands in Hs. by rewrite Hl in Hs.
      * eapply Forall_forall in HF; [|done]. unfold ballot in HF. rewrite Hl, Hv in HF. congruence.
Qed.

(** A vote is for a later term, and leaves the server in that term or the one
    after it. *)
Lemma vote_moves_term es s s' v :
  good_vote es s v -> voted v s s' -> requests_ok s -> 0 <= sid (ctrl s) < M64 ->
  0 <= idx (conf s) < MAX_SERVER_COUNT ->
  SID_GET_TERM (sid (ctrl s)) < SID_GET_TERM v <= SID_GET_TERM (sid (ctrl s')).
Proof.
  intros [Hlt (i & r & _ & Hr & <- & _)] Hs' Hok Hsid Hidx.
  destruct (Hok i r Hr) as (t & j & Ht & Hj & Hv). rewrite Hv in *.
  rewrite sid_get_term by lia. split; [apply (sid_beats_flagged _ t j); lia|].
  destruct Hs' as [[-> _]|[-> _]]; [by rewrite sid_get_term by lia|].
  assert (SID_GET_TERM (mk_sid t false j) = t) as Hterm by (apply sid_get_term; lia).
  rewrite election_sid_fields; rewrite ?Hterm; [|apply mk_sid_range; lia|lia|done].
  unfold MAX_SERVER_COUNT in *. rewrite sid_get_term; lia.
Qed.

(** At most one vote per term.  If a server votes for [v] in one call of
    [poll_vote_requests] and for [v'] in a later one, and its term did not
    decrease in between, then [v'] is a state identifier of a later term than
    [v]. *)
Theorem one_vote_per_term es es' s1 s1' s2 s2' v v' :
  poll_vote_requests s1 = Ret tt s1' -> poll_vote_requests s2 = Ret tt s2' ->
  holds (slog s1) es -> nc_ok es s1 -> 0 <= sid (ctrl s1) < M64 -> requests_ok s1 ->
  holds (slog s2) es' -> nc_ok es' s2 -> 0 <= sid (ctrl s2) < M64 -> requests_ok s2 ->
  SID_GET_TERM (sid (ctrl s1')) <= SID_GET_TERM (sid (ctrl s2)) ->
  votes_in s1 s1' v -> votes_in s2 s2' v' ->
  SID_GET_TERM v < SID_GET_TERM v'.
Proof.
  intros Hr1 Hr2 Hh1 Hn1 Hs1 Hq1 Hh2 Hn2 Hs2 Hq2 Hle Hv1 Hv2.
  assert (forall es s s' v, poll_vote_requests s = Ret tt s' -> holds (slog s) es ->
    nc_ok es s -> 0 <= sid (ctrl s) < M64 -> requests_ok s -> votes_in s s' v ->
    SID_GET_TERM (sid (ctrl s)) < SID_GET_TERM v <= SID_GET_TERM (sid (ctrl s'))) as Hterm.
  { clear. intros es s s' v Hr Hh Hn Hs Hq Hv.
    pose proof (poll_vote_requests_wp es s Hh Hn ltac:(lia)) as Hw.
    apply wp_elim with (2 := Hr) in Hw. destruct (votes_in_cast _ _ _ _ Hw Hv).
    eapply vote_moves_term; eauto using nco_idx. }
  pose proof (Hterm _ _ _ _ Hr1 Hh1 Hn1 Hs1 Hq1 Hv1).
  pose proof (Hterm _ _ _ _ Hr2 Hh2 Hn2 Hs2 Hq2 Hv2). lia.
Qed.

Lemma voter_requests sd t : 0 <= t < 2 ^ 55 - 1 -> requests_ok (voter sd t).
Proof.
  intros Ht i r. unfold aget. destruct (0 <=? i); [|done].
  change (vote_req (ctrl (voter sd t))) with (request_from_1 t). unfold request_from_1.
  rewrite list_lookup_insert_Some. intros [(_ & <- & _)|(_ & H)].
  - exists t, 1. simpl. lia.
  - apply lookup_replicate in H as [-> _]. by exists 0, 0.
Qed.

Lemma votes_for_1_in t sd t' s' :
  votes_for_1 t (voter sd t') s' -> votes_in (voter sd t') s' (mk_sid t false 1).
Proof.
  intros (_ & _ & Hp). destruct (posted (ib s')) as [|w1 [|w2 [|w3 [|]]]] eqn:He; try done.
  injection Hp as _ _ _ Hs Hl Hpay _ _ _. exists [w1; w2; w3], w2, 0. rewrite He.
  split; [done|]. split; [set_solver|done].
Qed.

Lemma one_vote_per_term_witness :
  exists s1' s2', votes_for_1 2 (voter (mk_sid 1 false 0) 2) s1' /\
    votes_for_1 3 (voter (mk_sid 2 false 1) 3) s2' /\
    SID_GET_TERM (mk_sid 2 false 1) < SID_GET_TERM (mk_sid 3 false 1).
Proof.
  destruct voter_votes as (s1' & Hv1), voter_votes_again as (s2' & Hv2).
  exists s1', s2'. split; [exact Hv1|]. split; [exact Hv2|].
  apply (one_vote_per_term [] [] _ s1' _ s2' _ _ (proj1 Hv1) (proj1 Hv2));
    try first [apply asked_holds|apply asked_nc_ok|apply voter_requests; lia
              |eapply votes_for_1_in; eassumption|done].
  rewrite (proj1 (proj2 Hv1)). done.
Defined.
