(* ===== verification/LeaderSpec.v ===== *)
(** * Becoming leader (dare_server.c)

    What [poll_vote_count] does with the votes: the server becomes leader
    exactly when it has the majorities the configuration asks for, and takes
    over the largest commit offset of its voters.  And what is not right about
    it: an acknowledgement does not say for which term it is. *)

From Stdlib Require Import QArith.
From S2P Require Import Prelude Bytes Words Config Log LogRep LogOps State Init Hoare.
From S2P Require Import Qp QpSpec Cq RcOps Frame PostSpec Role RoleSpec EpDb Ud Normal Election ElectionSpec.

Open Scope Z_scope.

(** A loop with local variables: [I l st s] holds when [l] is still to be
    done, and the body never leaves the loop. *)
Lemma wp_for_st {S A} t (I : list Z -> S -> srv -> Prop) (f : Z -> S -> M (S * option A)) E l :
  (forall i l' st s, I (i :: l') st s ->
     wp t (f i st) (fun r s' => exists st', r = (st', None) /\ I l' st' s') E s) ->
  forall st s Q, I l st s -> (forall st' s', I [] st' s' -> Q (st', None) s') ->
  wp t (for_st l f st) Q E s.
Proof.
  intros Hf. induction l as [|i l IH]; intros st s Q Hs HQ; [by apply wp_ret, HQ|].
  apply wp_bind. eapply wp_mono; [by apply Hf| |auto].
  intros r s' (st' & -> & Hs'). by apply IH.
Qed.

(** The vote of server [i]: the commit offset it acknowledged with. *)
Definition vote (s : srv) (i : Z) : option Z :=
  if i =? idx (conf s) then None
  else match aget (vote_ack (ctrl s)) i with
       | Some x => if len (slog s) =? x then None else Some x
       | None => None
       end.

(** The votes of the servers [l] that are below [n]. *)
Definition votes (s : srv) (n : Z) (l : list Z) : Z :=
  Z.of_nat (length (filter (fun i => is_Some (vote s i) /\ i < n) l)).

Lemma votes_cons s n i l :
  votes s n (i :: l) = (match vote s i with Some _ => if i <? n then 1 else 0 | None => 0 end) + votes s n l.
Proof.
  unfold votes. rewrite filter_cons. destruct (vote s i) as [x|] eqn:Hv.
  - destruct (Z.ltb_spec i n); case_decide as Hd; simpl; try lia.
    destruct Hd. by eauto.
  - case_decide as Hd; [by destruct Hd as [[]]|]. lia.
Qed.

Lemma votes_bound s n l : 0 <= votes s n l <= Z.of_nat (length l).
Proof. unfold votes. pose proof (length_filter (fun i => is_Some (vote s i) /\ i < n) l). lia. Qed.

(** Counting touches the offsets and the replication step of the servers, and
    the commit offset of the log. *)
Definition counted (lo : list log_offsets_t) (sv : list server_t) (c : Z) (s : srv) : srv :=
  set_slog (set_commit (slog s) c)
    (set_conf (set_servers sv (conf s)) (set_ctrl (set_log_offsets lo (ctrl s)) s)).

(** [c] is the largest of the own commit offset and those of the voters that
    are not in [l]. *)
Definition top_commit (s : srv) (l : list Z) (c : Z) : Prop :=
  (c = commit (slog s) \/ exists i, vote s i = Some c) /\
  log_is_offset_larger (slog s) (commit (slog s)) c = false /\
  forall i x, 0 <= i < get_group_size (cid (conf s)) -> i ∉ l -> vote s i = Some x ->
    log_is_offset_larger (slog s) x c = false.

(** The order of the offsets. *)
Lemma larger_not_trans l a b d :
  log_is_offset_larger l a b = false -> log_is_offset_larger l b d = false ->
  log_is_offset_larger l a d = false.
Proof. rewrite !larger_distance, !Z.ltb_ge. lia. Qed.

Lemma larger_asym l a b :
  log_is_offset_larger l a b = true -> log_is_offset_larger l b a = false.
Proof. rewrite !larger_distance, Z.ltb_lt, Z.ltb_ge. lia. Qed.

Lemma larger_irrefl l a : log_is_offset_larger l a a = false.
Proof. rewrite larger_distance. apply Z.ltb_irrefl. Qed.

Section Count.
Context (s : srv) (Hwf : cid_wf (cid (conf s))).
Context (Hacks : length (vote_ack (ctrl s)) = NSRV) (Hlo : length (log_offsets (ctrl s)) = NSRV).
Context (Hsv : length (servers (conf s)) = NSRV).

Abbreviation c := (cid (conf s)).
Abbreviation size := (get_group_size c).

(** The counters so far, with the servers [l] still to come. *)
Record counting (l : list Z) (st : Z * Z) (s' : srv) : Prop := {
  cnt_state : exists lo sv co, s' = counted lo sv co s /\ length lo = NSRV /\
                length sv = NSRV /\ top_commit s l co;
  cnt_dom : forall i, i ∈ l -> 0 <= i < size;
  cnt_0 : 0 <= fst st /\ fst st + votes s (size0 c) l = 1 + votes s (size0 c) (upto size);
  cnt_1 : 0 <= snd st /\ snd st + votes s (size1 c) l = 1 + votes s (size1 c) (upto size)
}.

(** Taking the next vote into account. *)
Lemma top_commit_none i l co :
  vote s i = None -> top_commit s (i :: l) co -> top_commit s l co.
Proof.
  intros Hv (H1 & H2 & H3). split; [done|]. split; [done|]. intros j x Hj Hl Hx.
  apply (H3 j x Hj); [|done]. intros [->|?]%elem_of_cons; congruence.
Qed.

Lemma top_commit_vote i l co x :
  vote s i = Some x -> top_commit s (i :: l) co ->
  top_commit s l (if log_is_offset_larger (slog s) x co then x else co).
Proof.
  intros Hv (H1 & H2 & H3). destruct (log_is_offset_larger (slog s) x co) eqn:Hx.
  - pose proof (larger_asym _ _ _ Hx) as Hcx. split; [by eauto|].
    split; [by eapply larger_not_trans|]. intros j y Hj Hl Hy.
    destruct (Z.eq_dec j i) as [->|Hne].
    + assert (y = x) as -> by congruence. apply larger_irrefl.
    + eapply larger_not_trans; [|exact Hcx]. apply (H3 j y Hj); [|done]. by rewrite not_elem_of_cons.
  - split; [done|]. split; [done|]. intros j y Hj Hl Hy.
    destruct (Z.eq_dec j i) as [->|Hne]; [congruence|].
    apply (H3 j y Hj); [|done]. by rewrite not_elem_of_cons.
Qed.

Lemma size_small : 0 <= size <= 13.
Proof. by apply group_size_range. Qed.

(** The counters stay far below the width of their type. *)
Lemma counter_small n l (k : Z) :
  0 <= k -> k + votes s n l = 1 + votes s n (upto size) -> u8 (k + 1) = k + 1.
Proof.
  intros Hk H. pose proof (votes_bound s n l). pose proof (votes_bound s n (upto size)) as Hb.
  assert (length (upto size) = Z.to_nat size) as Hlen by apply length_seqZ.
  pose proof size_small.
  apply wrap_small. lia.
Qed.

Lemma counter_step n i l k x :
  vote s i = Some x ->
  0 <= k /\ k + votes s n (i :: l) = 1 + votes s n (upto size) ->
  let k' := if i <? n then u8 (k + 1) else k in
  0 <= k' /\ k' + votes s n l = 1 + votes s n (upto size).
Proof.
  intros Hv [Hk H] k'. pose proof (counter_small _ _ _ Hk H) as Hu.
  rewrite votes_cons, Hv in H. unfold k'. destruct (i <? n); [rewrite Hu|]; lia.
Qed.

Lemma count_vote_step E i l st s' :
  counting (i :: l) st s' ->
  wp true (count_vote i st) (fun r s1 => exists st', r = (st', None) /\ counting l st' s1) E s'.
Proof.
  intros [(lo & sv & co & -> & Hl1 & Hl2 & Htop) Hdom H0 H1]. destruct st as [n0 n1].
  assert (0 <= i < 13) as Hi by (pose proof (Hdom i ltac:(left)); pose proof size_small; lia).
  cbn [fst snd] in *.
  destruct (aget_is_Some (vote_ack (ctrl s)) i) as [x Hx]; [rewrite Hacks; exact Hi|].
  destruct (aget_is_Some lo i) as [o Ho]; [rewrite Hl1; exact Hi|].
  destruct (aget_is_Some sv i) as [v Hv]; [rewrite Hl2; exact Hi|].
  assert (forall j, j ∈ l -> 0 <= j < size) as Hdom' by (intros; apply Hdom; by right).
  assert (vote s i = None -> counting l (n0, n1) (counted lo sv co s)) as Hskip.
  { intros Hn. rewrite votes_cons, Hn in H0, H1. split; try done.
    exists lo, sv, co. split; [done|]. split; [done|]. split; [done|].
    by eapply top_commit_none. }
  unfold count_vote. apply wp_bind, wp_get. cbn [conf counted set_slog set_conf idx set_servers].
  unfold vote in Hskip. destruct (i =? idx (conf s)) eqn:Hme; [apply wp_ret; eauto|].
  apply wp_bind. eapply wp_run; [apply ctrl_get_run; exact Hx|]. apply wp_bind, wp_get.
  cbn [slog counted set_slog len set_commit]. rewrite Hx in Hskip.
  destruct (len (slog s) =? x) eqn:Hlen; [apply wp_ret; eauto|].
  assert (vote s i = Some x) as Hvote by (unfold vote; by rewrite Hme, Hx, Hlen).
  clear Hskip.
  apply wp_bind. eapply wp_run; [apply ctrl_get_run; exact Ho|].
  apply wp_bind. eapply wp_run; [apply ctrl_put_run; simpl; rewrite Hl1; exact Hi|].
  apply wp_bind. eapply wp_run; [apply on_server_run; exact Hv|].
  set (l1 := <[Z.to_nat i := set_lo_commit x o]> lo).
  set (v1 := <[Z.to_nat i := set_next_lr_step LR_GET_NCE_LEN v]> sv).
  apply wp_bind. eapply wp_run with (a := tt)
    (s' := counted l1 v1 (if log_is_offset_larger (slog s) x co then x else co) s).
  { simpl. change (log_is_offset_larger _ x co) with (log_is_offset_larger (slog s) x co).
    by destruct (log_is_offset_larger (slog s) x co). }
  apply wp_ret. eexists. split; [done|]. split; cbn [fst snd]; [|done|..].
  - exists l1, v1, (if log_is_offset_larger (slog s) x co then x else co).
    split; [done|]. unfold l1, v1. rewrite !length_insert. split; [done|]. split; [done|].
    by apply (top_commit_vote i).
  - exact (counter_step _ _ _ _ _ Hvote H0).
  - exact (counter_step _ _ _ _ _ Hvote H1).
Qed.
End Count.

(** The majorities [poll_vote_count] asks for; the server counts itself in both
    groups. *)
Definition elected (s : srv) : Prop :=
  let c := cid (conf s) in
  let l := upto (get_group_size c) in
  size0 c < 2 * (1 + votes s (size0 c) l) /\
  (state c = CID_STABLE \/ size1 c < 2 * (1 + votes s (size1 c) l)).

#[export] Instance elected_dec s : Decision (elected s).
Proof. unfold elected. apply _. Defined.

Lemma half_plus_one n k : n / 2 + 1 <= k <-> n < 2 * k.
Proof. pose proof (Z.div_mod n 2). pose proof (Z.mod_pos_bound n 2). lia. Qed.

Lemma won_elected s n0 n1 :
  let c := cid (conf s) in
  n0 = 1 + votes s (size0 c) (upto (get_group_size c)) ->
  n1 = 1 + votes s (size1 c) (upto (get_group_size c)) ->
  won c n0 n1 = bool_decide (elected s).
Proof.
  intros c -> ->. apply eq_bool_prop_intro. unfold won, elected. fold c.
  rewrite Is_true_true, bool_decide_spec, andb_true_iff, orb_true_iff, !Z.leb_le, !half_plus_one.
  rewrite Z.eqb_eq. intuition congruence.
Qed.


(** A candidate of term 1 in a group of three with the acknowledgements
    [acks]. *)
Definition counting_srv (acks : list Z) : srv :=
  let s := demo_srv 3 0 in
  set_ctrl (set_sid (mk_sid 1 false 0) (set_vote_ack acks (ctrl s))) s.

Definition no_acks : list Z := replicate NSRV (len log_new).

Definition one_ack : srv := counting_srv (<[1%nat := 0]> no_acks).

Lemma one_ack_wins :
  exists s', poll_vote_count one_ack = Ret tt s' /\ IS_LEADER s' = true.
Proof. eexists. split; vm_compute; reflexivity. Qed.


(** A follower in term 1 whose log has an entry, asked for its vote in term 2
    by a server with an empty log.  It never started an election: its array of
    acknowledgements is as it was allocated, all zero. *)
Definition better_log : srv :=
  let s := asked (mk_sid 1 false 2) (request_from_1 2) [] in
  match append_entry 1 0 0 NOOP LD_null s with Ret _ s' => s' | _ => s end.

(** A leader nobody voted for.  A server that does not vote because its log
    is better takes over the term with its own index, which makes it a
    candidate; unlike [start_election] this does not clear the
    acknowledgements.  Polling once more it counts what is left in the array,
    here zeros, and becomes leader of term 2 without having asked anyone for a
    vote, while the server that did ask can win the same term. *)
Theorem leader_without_votes :
  exists s1 s2, poll_vote_requests better_log = Ret tt s1 /\ poll_vote_count s1 = Ret tt s2 /\
    IS_LEADER s2 = true /\ SID_GET_TERM (sid (ctrl s2)) = 2 /\ posted (ib s2) = [].
Proof. eexists _, _. split; [vm_compute; reflexivity|]. vm_compute. auto. Qed.

(** A server that leaves: index 4 in the transition from five servers to
    three, a candidate with the acknowledgements of servers 0 and 3. *)
Definition leaving_srv : srv :=
  let s := demo_srv 5 4 in
  let acks := <[0%nat := 0]> (<[3%nat := 0]> no_acks) in
  set_conf (set_cid (mk_cid 1 5 3 CID_TRANSIT 0 31) (conf s))
    (set_ctrl (set_sid (mk_sid 1 false 4) (set_vote_ack acks (ctrl s))) s).

(** A candidate counts itself in a group it is not part of.  In the
    transition from five servers to three, server 4 has the votes it needs
    although only server 0 of the three voted. *)
Theorem outsider_counts_itself :
  elected leaving_srv /\ 3 <= idx (conf leaving_srv) /\
  filter (fun i => is_Some (vote leaving_srv i)) (upto 3) = [0].
Proof.
  split; [eapply bool_decide_eq_true_1; vm_compute; reflexivity|].
  split; [done|vm_compute; reflexivity].
Qed.

(** The state identifier a server starts with has the index 255, beyond the
    heartbeat array of 13 entries: until it is replaced, polling for vote
    requests reads past the array. *)
Theorem null_sid_reads_past_heartbeats s :
  sid (ctrl s) = SID_NULL -> length (hb (ctrl s)) = NSRV -> poll_vote_requests s = Fault.
Proof.
  intros Hs Hh. unfold poll_vote_requests. rewrite !bind_get, Hs.
  change (c_true (SID_GET_L SID_NULL)) with false. change (SID_GET_IDX SID_NULL) with 255.
  unfold ctrl_get. rewrite bind_assoc, bind_get. unfold aget. change (0 <=? 255) with true. cbn iota.
  rewrite lookup_ge_None_2; [done|]. rewrite Hh. vm_compute. lia.
Qed.

Lemma null_sid_reads_past_heartbeats_witness :
  sid (ctrl (demo_srv 3 0)) = SID_NULL /\ poll_vote_requests (demo_srv 3 0) = Fault.
Proof. split; [reflexivity|]. apply null_sid_reads_past_heartbeats; reflexivity. Defined.
