(* ===== verification/Moves.v ===== *)
(** * What a server does to an election

    The code of a running server, seen from the others: its state identifier,
    the requests and heartbeats in its memory, what it writes to the memory of
    the others, and what its log file says.  Seen this way everything the
    server runs is a sequence of a few moves: starting an election, raising
    the term, voting, confirming or following a leader, or nothing that
    matters to an election. *)

From Stdlib Require Import QArith.
From S2P Require Import Prelude Bytes Words Config Log State Hoare Qp Cq RcOps Frame Replication.
From S2P Require Import Role RoleSpec EpDb Ud Normal Election ElectionSpec LeaderSpec Server.

Open Scope Z_scope.

(** ** What the others see *)

Definition electoral (e : event) : bool :=
  match e with E_log_election _ | E_log_vote _ _ | E_log_leader _ => true | _ => false end.

(** The lines about elections in the log file, latest first. *)
Definition elog (s : srv) : list event := List.filter electoral (out s).

Definition candidate_sid_of (s : srv) : Prop :=
  SID_GET_L (sid (ctrl s)) = 0 /\ SID_GET_IDX (sid (ctrl s)) = idx (conf s).

(** What a server may write to the others about elections: requests for votes
    while it is a candidate, and heartbeats, both with its state identifier. *)
Definition speaks (s : srv) (w : wr) : Prop :=
  wr_qp w = CTRL_QP ->
  match wr_loc w with
  | L_vote_req i =>
      i = idx (conf s) /\ candidate_sid_of s /\
      exists r, wr_payload w = P_vote_req r /\ vr_sid r = sid (ctrl s)
  | L_hb i => i = idx (conf s) /\ wr_payload w = P_u64 (sid (ctrl s))
  | _ => True
  end.

(** ** Moves *)

(** Nothing happens but that requests and heartbeats are consumed, the own
    request is noted and messages are sent. *)
Record quiet (s s' : srv) : Prop := {
  q_sid : sid (ctrl s') = sid (ctrl s);
  q_idx : idx (conf s') = idx (conf s);
  q_log : elog s' = elog s;
  q_reqs : forall i r, aget (vote_req (ctrl s')) i = Some r ->
             vr_sid r = 0 \/ aget (vote_req (ctrl s)) i = Some r \/
             i = idx (conf s) /\ vr_sid r = sid (ctrl s) /\ candidate_sid_of s;
  q_hb : forall i x, aget (hb (ctrl s')) i = Some x -> x = 0 \/ aget (hb (ctrl s)) i = Some x;
  q_sent : sent (speaks s) s s'
}.

(** Apart from the state identifier and the log file. *)
Record unmoved_rest (s s' : srv) : Prop := {
  u_idx : idx (conf s') = idx (conf s);
  u_reqs : vote_req (ctrl s') = vote_req (ctrl s);
  u_hb : hb (ctrl s') = hb (ctrl s);
  u_posted : posted (ib s') = posted (ib s)
}.

(** The request of some server has this state identifier. *)
Definition requested (s : srv) (v : Z) : Prop :=
  exists i r, aget (vote_req (ctrl s)) i = Some r /\ vr_sid r = v.

Inductive sid_move (s : srv) : Z -> list event -> Prop :=
| move_follow x :
    SID_GET_L x <> 0 -> sid (ctrl s) <= x < M64 -> sid_move s x []
| move_confirm x :
    SID_GET_L (sid (ctrl s)) = 0 ->
    aget (hb (ctrl s)) (SID_GET_IDX (sid (ctrl s))) = Some x -> x <> 0 ->
    SID_GET_TERM x = SID_GET_TERM (sid (ctrl s)) -> sid_move s x []
| move_start x :
    x = election_sid (sid (ctrl s)) (idx (conf s)) ->
    sid_move s x [E_log_election (SID_GET_TERM x)]
| move_raise h b r x :
    SID_GET_L (sid (ctrl s)) = 0 -> requested s b -> SID_SET_L (sid (ctrl s)) < b ->
    SID_GET_TERM b <= h -> requested s r -> h = SID_GET_TERM r ->
    x = SID_SET_IDX (SID_SET_TERM (sid (ctrl s)) h) (idx (conf s)) -> sid_move s x []
| move_vote v :
    SID_GET_L (sid (ctrl s)) = 0 -> requested s v -> SID_SET_L (sid (ctrl s)) < v ->
    sid_move s v [E_log_vote (SID_GET_TERM v) (SID_GET_IDX v)].

Inductive move (s s' : srv) : Prop :=
| move_quiet : quiet s s' -> move s s'
| move_sid es :
    unmoved_rest s s' -> sid_move s (sid (ctrl s')) es -> elog s' = es ++ elog s -> move s s'.

(** The words of the memory that others write fit their types. *)
Definition word (x : Z) : Prop := 0 <= x < M64.

Record typed (s : srv) : Prop := {
  t_idx : 0 <= idx (conf s) < MAX_SERVER_COUNT;
  t_sid : word (sid (ctrl s));
  t_reqs : Forall (fun r => word (vr_sid r)) (vote_req (ctrl s));
  t_hb : Forall word (hb (ctrl s));
  t_rsid : rsid_ok s;
  t_latest : word (latest_hb_received (glob s))
}.

(** A sequence of moves. *)
Definition evolves (s s' : srv) : Prop := typed s -> typed s' /\ rtc move s s'.

#[export] Instance evolves_refl : Reflexive evolves.
Proof. intros s H. split; [done|constructor]. Qed.
#[export] Instance evolves_trans : Transitive evolves.
Proof. intros a b c H1 H2 [H3 H4]%H1. apply H2 in H3 as [H5 H6]. split; [done|by etrans]. Qed.

(** ** Calm computations *)

Definition plain (w : wr) : Prop :=
  wr_qp w = CTRL_QP -> match wr_loc w with L_vote_req _ | L_hb _ => False | _ => True end.

Definition eview (s : srv) :=
  (sid (ctrl s), idx (conf s), vote_req (ctrl s), hb (ctrl s), latest_hb_received (glob s),
   elog s).

(** Nothing that matters to an election changes or is sent. *)
Definition calm (s s' : srv) : Prop :=
  eview s = eview s' /\ (rsid_ok s -> rsid_ok s') /\ sent plain s s'.

#[export] Instance calm_refl : Reflexive calm.
Proof. by split. Qed.
#[export] Instance calm_trans : Transitive calm.
Proof.
  intros a b c (H1 & H2 & H3) (H4 & H5 & H6). split; [congruence|]. split; [auto|]. by etrans.
Qed.

Lemma calm_same s s' :
  eview s = eview s' -> rsid (ctrl s) = rsid (ctrl s') -> posted (ib s) = posted (ib s') ->
  calm s s'.
Proof.
  intros H1 H2 H3. split; [done|]. split; [unfold rsid_ok; by rewrite H2|]. by exists [].
Qed.

Lemma dev_calm s s' : dev plain s s' -> calm s s'.
Proof.
  intros (Hv & Hr & Hp). split; [|done].
  exact (f_equal (fun v => (sid (v_ctrl v), idx (v_conf v), vote_req (v_ctrl v), hb (v_ctrl v),
    latest_hb_received (v_glob v), List.filter electoral (v_out v))) Hv).
Qed.

Lemma pv_calm {A} (m : M A) : pres (dev plain) m -> pres calm m.
Proof. intros Hm. by eapply pres_mono; [|apply dev_calm]. Qed.

Lemma sent_mono (P Q : wr -> Prop) s s' : sent P s s' -> (forall w, P w -> Q w) -> sent Q s s'.
Proof. intros (ws & H1 & H2) H. exists ws. split; [done|]. by eapply Forall_impl. Qed.

Lemma plain_speaks s w : plain w -> speaks s w.
Proof. intros H Hq. specialize (H Hq). by destruct (wr_loc w). Qed.

Lemma calm_quiet s s' : calm s s' -> quiet s s'.
Proof.
  intros ([= H1 H2 H3 H4 _ H5] & _ & H6). split; try done.
  - intros i r. rewrite <- H3. auto.
  - intros i x. rewrite <- H4. auto.
  - eapply sent_mono; [done|]. intros w. apply plain_speaks.
Qed.

Lemma quiet_evolves s s' :
  quiet s s' -> (typed s -> typed s') -> evolves s s'.
Proof. intros Hq Ht H. split; [auto|]. by apply rtc_once, move_quiet. Qed.

Lemma calm_evolves s s' : calm s s' -> evolves s s'.
Proof.
  intros Hc. apply quiet_evolves; [by apply calm_quiet|].
  destruct Hc as ([= H1 H2 H3 H4 H5 _] & Hr & _). intros [T0 T1 T2 T3 T4 T5].
  split; [by rewrite <- H2|by rewrite <- H1|by rewrite <- H3|by rewrite <- H4|auto|by rewrite <- H5].
Qed.

Lemma pres_calm {A} (m : M A) : pres calm m -> pres evolves m.
Proof. intros Hm. by eapply pres_mono; [|apply calm_evolves]. Qed.

(** Decompose a calm computation. *)
Create HintDb calm.
#[export] Hint Extern 0 (plain _) => (intros ?; (exact I || discriminate)) : pres.

Ltac calm_prim :=
  match goal with
  | |- pres calm (post_round _ _ _ _ _ _) => apply pv_calm, pv_round; [|by intros]
  | |- pres calm (upd _) =>
      apply pres_upd; intro; apply calm_same; first [reflexivity|by repeat case_match]
  | |- pres _ (each _ _) => apply pres_each; [typeclasses eauto..|intro]
  | |- pres _ (for_st _ _ _) => apply pres_for_st; [typeclasses eauto..|intros]
  | |- pres _ (ctrl_put _ _ _ _) => unfold ctrl_put
  | |- pres _ (on_ctrl _) => unfold on_ctrl
  | |- pres _ (on_conf _) => unfold on_conf
  | |- pres _ (on_glob _) => unfold on_glob
  | |- pres _ (on_log _) => unfold on_log
  | |- pres _ (on_ib _) => unfold on_ib
  | |- pres _ (on_tmr _) => unfold on_tmr
  | |- pres _ (on_clts _) => unfold on_clts
  | |- pres _ (on_hb_event _) => unfold on_hb_event
  | |- pres _ (on_prune_event _) => unfold on_prune_event
  | |- pres _ (on_to_adjust_event _) => unfold on_to_adjust_event
  | |- pres _ (emit _) => unfold emit
  | |- pres _ (set_flag _) => unfold set_flag
  | |- pres _ (unset_flag _) => unfold unset_flag
  | |- pres _ (has_flag _) => unfold has_flag
  | |- pres _ error_exit => unfold error_exit
  | |- pres _ dare_server_shutdown => unfold dare_server_shutdown
  | |- pres calm _ => solve [auto with calm]
  | |- pres calm _ => apply pv_calm; solve [auto with pres]
  end.
Ltac calm_all := repeat (calm_prim || pres_step).
Ltac calm_def d := intros; unfold d; calm_all.

(** ** The parts of the server that are calm *)

Lemma calm_append t rq c ty d : pres calm (append_entry t rq c ty d).
Proof. calm_def append_entry. Qed.
#[export] Hint Resolve calm_append : calm.

Lemma calm_update_cid new : pres calm (update_cid new).
Proof. unfold update_cid, depart. calm_all. Qed.
#[export] Hint Resolve calm_update_cid : calm.

Lemma calm_follow_timers : pres calm follow_timers.
Proof. calm_def follow_timers. Qed.
Lemma calm_fill_nc_buf : pres calm fill_nc_buf.
Proof. calm_def fill_nc_buf. Qed.
Lemma calm_timeout : pres calm random_election_timeout.
Proof. calm_def random_election_timeout. Qed.
#[export] Hint Resolve calm_follow_timers calm_fill_nc_buf calm_timeout : calm.

(** Snapshots for the servers that recover. *)
Lemma calm_poll_sm_requests : pres calm poll_sm_requests.
Proof.
  unfold poll_sm_requests, sm_request_one, take_snapshot, rc_send_sm_reply, register_snapshot.
  calm_all.
Qed.

Lemma calm_check_failure_count : pres calm check_failure_count.
Proof. unfold check_failure_count, failure_one. calm_all. Qed.

(** Log replication. *)
Lemma calm_open_round b : pres calm (open_round b).
Proof. calm_def open_round. Qed.
Lemma calm_on_offsets i f : pres calm (on_offsets i f).
Proof. calm_def on_offsets. Qed.
Lemma calm_await i : pres calm (await_request i).
Proof. calm_def await_request. Qed.
#[export] Hint Resolve calm_open_round calm_on_offsets calm_await : calm.

Lemma calm_adjustment : pres calm log_adjustment.
Proof.
  unfold log_adjustment, adjust_one, adjust_step, adjust_nce_len, adjust_nce, adjust_set_end.
  calm_all.
Qed.

Lemma calm_update_logs : pres calm update_remote_logs.
Proof.
  unfold update_remote_logs, update_one, write_entries, write_wrapped, write_end, update_commit,
    lazy_one.
  calm_all.
Qed.
#[export] Hint Resolve calm_adjustment calm_update_logs : calm.

Lemma calm_write_loop n w : pres calm (write_loop n w).
Proof. induction n; cbn [write_loop]; calm_all. Qed.
#[export] Hint Resolve calm_write_loop : calm.

Lemma calm_commit_new_entries : pres calm commit_new_entries.
Proof. unfold commit_new_entries, is_behind, rc_write_remote_logs. calm_all. Qed.

(** Configurations. *)
Lemma calm_config_loop n c o h : pres calm (config_loop n c o h).
Proof.
  revert o h. induction n as [|n IH]; intros o h; cbn [config_loop]; [calm_all|].
  unfold config_entry. calm_all; apply IH.
Qed.
#[export] Hint Resolve calm_config_loop : calm.

Lemma calm_poll_config_entries : pres calm poll_config_entries.
Proof. calm_def poll_config_entries. Qed.
#[export] Hint Resolve calm_poll_config_entries : calm.

Lemma calm_drop_server i : pres calm (drop_server i).
Proof. calm_def drop_server. Qed.
#[export] Hint Resolve calm_drop_server : calm.

(** Applying entries. *)
Lemma calm_find_lid lid l n : pres calm (find_lid lid l n).
Proof. induction l; cbn [find_lid]; calm_all. Qed.
#[export] Hint Resolve calm_find_lid : calm.

Lemma calm_clt_reply lid r ty : pres calm (ud_send_clt_reply lid r ty).
Proof. unfold ud_send_clt_reply, ud_send_message. calm_all. Qed.
#[export] Hint Resolve calm_clt_reply : calm.

Lemma calm_apply_loop n : pres calm (apply_loop n).
Proof.
  induction n as [|n IH]; cbn [apply_loop]; [calm_all|].
  unfold apply_one, apply_sm, stable_config, unstable_config, set_conf_state.
  calm_all; apply IH.
Qed.
#[export] Hint Resolve calm_apply_loop : calm.

(** Pruning. *)
Lemma calm_log_pruning : pres calm log_pruning.
Proof.
  unfold log_pruning, min_apply, advance_head, rc_get_remote_apply_offsets, apply_offset_one.
  calm_all.
Qed.
#[export] Hint Resolve calm_log_pruning : calm.

Lemma calm_prune_log_cb : pres calm prune_log_cb.
Proof. calm_def prune_log_cb. Qed.

Lemma calm_force_log_pruning : pres calm force_log_pruning.
Proof. unfold force_log_pruning, slowest, remove_slow. calm_all. Qed.

(** Looking for servers that are not connected. *)
Lemma calm_update_rc_info_cb : pres calm update_rc_info_cb.
Proof.
  unfold update_rc_info_cb, ud_update_rc_info, unconnected, ud_exchange_rc_info, mcast_send_message,
    timer_shutdown, again_after, on_timer_event.
  calm_all.
Qed.

(** The requests of the proxy. *)
Lemma calm_get_tailq_message : pres calm get_tailq_message.
Proof.
  unfold get_tailq_message. pres_step; [calm_all|].
  match goal with |- pres calm (drain ?l) => induction l as [|x l IH] end;
    cbn [drain]; calm_all; done.
Qed.

(** The first entry and the timers of a leader. *)
Lemma calm_blank_entry : pres calm blank_entry.
Proof. unfold blank_entry, next_config, set_conf_state. calm_all. Qed.
Lemma calm_lead : pres calm lead.
Proof. calm_def lead. Qed.
#[export] Hint Resolve calm_blank_entry calm_lead : calm.

(** ** The moves *)

(** Going on after a computation with a frame. *)
Lemma wp_pres_bind R `{!Transitive R} {A B} (m : M A) (f : A -> M B) Q E s s1 :
  pres R m -> R s s1 -> (forall s2, R s s2 -> E s2) ->
  (forall a s2, R s s2 -> wp false (f a) Q E s2) -> wp false (m ≫= f) Q E s1.
Proof.
  intros Hm Hs HE Hf. apply wp_bind. eapply wp_mono; [apply Hm| |]; cbn; intros.
  - apply Hf. by etrans.
  - apply HE. by etrans.
Qed.

Lemma wp_pres R `{!Transitive R} {A} (m : M A) s s1 :
  pres R m -> R s s1 -> wp false m (fun _ => R s) (R s) s1.
Proof. intros Hm Hs. eapply wp_mono; [apply Hm| |]; cbn; intros; by etrans. Qed.

(** What the others write may be assumed to fit. *)
Lemma pres_typed {A} (m : M A) :
  (forall s, typed s -> wp false m (fun _ => evolves s) (evolves s) s) -> pres evolves m.
Proof.
  intros H s. unfold wp in *. destruct (m s) eqn:Hm; try done; intros Ht;
    specialize (H s Ht); rewrite Hm in H; by apply H.
Qed.

(** A postcondition that follows from one for a later start. *)
Lemma wp_evolves_from {A} (m : M A) s s1 :
  evolves s s1 -> wp false m (fun _ => evolves s1) (evolves s1) s1 ->
  wp false m (fun _ => evolves s) (evolves s) s1.
Proof. intros Hs Hm. eapply wp_mono; [exact Hm| |]; cbn; intros; by etrans. Qed.

(** Messages that say what the server is. *)
Lemma dev_evolves s s' : dev (speaks s) s s' -> evolves s s'.
Proof.
  intros (Hv & Hr & Hp).
  assert (eview s = eview s') as [= H1 H2 H3 H4 H5 H6].
  { exact (f_equal (fun v => (sid (v_ctrl v), idx (v_conf v), vote_req (v_ctrl v), hb (v_ctrl v),
      latest_hb_received (v_glob v), List.filter electoral (v_out v))) Hv). }
  apply quiet_evolves.
  - split; try done.
    + intros i r. rewrite <- H3. auto.
    + intros i x. rewrite <- H4. auto.
  - intros [T0 T1 T2 T3 T4 T5].
    split; [by rewrite <- H2|by rewrite <- H1|by rewrite <- H3|by rewrite <- H4|auto|by rewrite <- H5].
Qed.

Lemma pv_evolves {A} (m : M A) : pres (dev plain) m -> pres evolves m.
Proof. intros Hm. by apply pres_calm, pv_calm. Qed.

(** Setting the state identifier. *)
Definition with_sid (x : Z) (s : srv) : srv := set_ctrl (set_sid x (ctrl s)) s.
Definition with_line (e : event) (s : srv) : srv := set_out (e :: out s) s.

Lemma with_sid_evolves x s : sid_move s x [] -> (typed s -> word x) -> evolves s (with_sid x s).
Proof.
  intros Hm Hw Ht. split.
  - specialize (Hw Ht). destruct Ht. by split.
  - by apply rtc_once, (move_sid _ _ []).
Qed.

Lemma with_line_evolves x e s :
  sid_move s x [e] -> electoral e = true -> (typed s -> word x) ->
  evolves s (with_line e (with_sid x s)).
Proof.
  intros Hm He Hw Ht. split.
  - specialize (Hw Ht). destruct Ht. by split.
  - apply rtc_once, (move_sid _ _ [e]); [done|done|]. unfold elog. simpl. by rewrite He.
Qed.

(** *** Starting an election *)

(** The term is one larger, unless it was the largest there is. *)
Lemma election_sid_wraps sd me :
  word sd -> 0 <= me < MAX_SERVER_COUNT ->
  election_sid sd me = mk_sid ((SID_GET_TERM sd + 1) mod 2 ^ 55) false me.
Proof.
  intros Hsd Hme. assert (0 <= SID_GET_TERM sd < 2 ^ 55) as Ht.
  { destruct (sid_fields sd Hsd) as (t & l & i & Ht & Hi & ->). by rewrite sid_get_term. }
  destruct (Z.eq_dec (SID_GET_TERM sd) (2 ^ 55 - 1)) as [He|Hne].
  - unfold election_sid. rewrite He.
    change (SID_UNSET_L _) with (mk_sid 0 false 0). unfold MAX_SERVER_COUNT in Hme.
    rewrite sid_set_idx by lia. by rewrite Z.mod_same.
  - rewrite Z.mod_small by lia. apply election_sid_fields; [exact Hsd|lia|done].
Qed.

Lemma election_sid_word sd me :
  word sd -> 0 <= me < MAX_SERVER_COUNT -> word (election_sid sd me).
Proof.
  intros Hsd Hme. rewrite election_sid_wraps by done. unfold MAX_SERVER_COUNT in Hme.
  apply mk_sid_range; [apply Z.mod_pos_bound; lia|lia].
Qed.

Lemma vote_request_evolves s :
  candidate_sid_of s ->
  wp false rc_send_vote_request (fun _ => evolves s) (evolves s) s.
Proof.
  intros Hc. unfold rc_send_vote_request. apply wp_bind, wp_get, wp_bind, wp_get.
  eapply (wp_pres_bind calm); [unfold last_entry; calm_all|reflexivity|apply calm_evolves|].
  intros e s0 Hs0. cbv zeta. set (r := mk_vote_req _ _ _ _). apply wp_bind.
  unfold ctrl_put. apply wp_bind, wp_get, wp_bind, wp_or_fault; [|done].
  intros l [Hr ->]%aset_inv. apply wp_upd. set (s1 := set_ctrl _ s0).
  pose proof Hs0 as ([= Hsid Hidx Hreqs _ _ _] & _ & _).
  assert (candidate_sid_of s0) as Hc0 by (unfold candidate_sid_of; by rewrite <- Hsid, <- Hidx).
  assert (evolves s s1) as H1.
  { etrans; [by apply calm_evolves|]. apply quiet_evolves.
    - split; auto; [|by exists []]. intros i v. unfold s1. simpl.
      rewrite aget_insert by done. destruct (Z.eqb_spec (idx (conf s)) i) as [<-|_]; [|auto].
      intros [= <-]. auto.
    - intros [T0 T1 T2 T3 T4 T5]. split; try done. simpl. apply Forall_insert; [done|].
      simpl. by rewrite Hsid. }
  eapply wp_evolves_from; [exact H1|].
  eapply (wp_pres_bind (dev (speaks s1))); [apply pv_next_ssn|reflexivity|apply dev_evolves|].
  intros [] s2 Hs2. apply wp_bind.
  eapply wp_mono; [apply (wp_post_round (speaks s1) (P_vote_req r))| |].
  - intros s3 Hs3. erewrite bind_run; [reflexivity|]. apply ctrl_get_run.
    assert (vote_req (ctrl s3) = vote_req (ctrl s1)) as ->.
    { transitivity (vote_req (ctrl s2)).
      - exact (eq_sym (f_equal (fun v => vote_req (v_ctrl v)) Hs3)).
      - exact (eq_sym (f_equal (fun v => vote_req (v_ctrl v)) (proj1 Hs2))). }
    simpl. by rewrite aget_insert, Z.eqb_refl by done.
  - intros i b n _. split; [exact Hidx|]. split; [exact Hc0|]. exists r. by split.
  - intros ps s3 Hs3. apply wp_ret, dev_evolves. by etrans.
  - intros s3 Hs3. apply dev_evolves. by etrans.
Qed.

Lemma start_election_evolves : pres evolves start_election.
Proof.
  apply pres_typed. intros s Ht. unfold start_election, emit.
  apply wp_bind, wp_get, wp_bind, wp_get, wp_update_sid.
  set (sd := election_sid _ _). apply wp_bind, wp_upd. pose proof Ht as [Hme Hsd _ _ _ _].
  change (set_out _ _) with (with_line (E_log_election (SID_GET_TERM sd)) (with_sid sd s)).
  set (s1 := with_line _ _).
  assert (evolves s s1) as H1.
  { apply with_line_evolves; [by apply move_start|done|]. intros _. by apply election_sid_word. }
  assert (candidate_sid_of s1) as Hc.
  { unfold candidate_sid_of. simpl. unfold sd. rewrite election_sid_wraps by done.
    unfold MAX_SERVER_COUNT in Hme. pose proof (Z.mod_pos_bound (SID_GET_TERM (sid (ctrl s)) + 1) (2 ^ 55)).
    by rewrite sid_get_l, sid_get_idx by lia. }
  clearbody s1. eapply wp_evolves_from; [exact H1|]. clear H1.
  eapply (wp_pres_bind calm); [calm_all|reflexivity|apply calm_evolves|]. intros rc s2 H2.
  apply wp_if; intros _; [by apply calm_evolves|].
  apply wp_bind, wp_get.
  eapply (wp_pres_bind calm); [unfold clear_vote; calm_all|exact H2|apply calm_evolves|]. intros _ s3 H3.
  eapply (wp_pres_bind calm); [calm_all|exact H3|apply calm_evolves|]. intros r s4 H4.
  eapply (wp_pres_bind calm); [calm_all|exact H4|apply calm_evolves|]. intros _ s5 H5.
  apply wp_bind. pose proof H5 as ([= Hsid Hidx _ _ _ _] & _ & _).
  eapply wp_mono; [apply vote_request_evolves| |].
  - unfold candidate_sid_of. by rewrite <- Hsid, <- Hidx.
  - intros rc' s6 H6. apply (wp_pres evolves); [apply pres_calm; calm_all|].
    etrans; [by apply calm_evolves|done].
  - intros s6 H6. etrans; [by apply calm_evolves|done].
Qed.

Create HintDb evolves.
#[export] Hint Resolve start_election_evolves : evolves.

(** Decompose a computation into moves. *)
Ltac ev_prim :=
  match goal with
  | |- pres evolves _ => solve [auto with evolves]
  | |- pres evolves _ => apply pres_calm; solve [calm_all]
  | |- pres _ (for_st _ _ _) => apply pres_for_st; [typeclasses eauto..|intros]
  end.
Ltac ev_all := repeat (ev_prim || pres_step).

(** *** Following a leader *)

Lemma calm_vote_ack : pres calm rc_send_vote_ack.
Proof. unfold rc_send_vote_ack, read_u64. cbv zeta. calm_all. Qed.
#[export] Hint Resolve calm_vote_ack : calm.

Lemma acknowledge_evolves : pres evolves acknowledge.
Proof. unfold acknowledge. ev_all. Qed.
#[export] Hint Resolve acknowledge_evolves : evolves.

Lemma to_follower_evolves : pres evolves server_to_follower.
Proof. unfold server_to_follower. ev_all. Qed.
#[export] Hint Resolve to_follower_evolves : evolves.

(** The own state identifier, or a larger one of a leader. *)
Definition better (sd x : Z) : Prop := x = sd \/ SID_GET_L x <> 0 /\ sd <= x /\ word x.

Lemma better_evolves x s : better (sid (ctrl s)) x -> evolves s (with_sid x s).
Proof.
  intros [->|(Hl & Hle & Hx)].
  - apply calm_evolves, calm_same; done.
  - apply with_sid_evolves; [|done]. apply move_follow; [done|]. unfold word in Hx. lia.
Qed.

Lemma c_true_L x : c_true x = true <-> x <> 0.
Proof. unfold c_true. rewrite negb_true_iff. apply Z.eqb_neq. Qed.

Lemma verify_leadership_evolves : pres evolves rc_verify_leadership.
Proof.
  apply pres_typed. intros s Ht. unfold rc_verify_leadership. apply wp_bind, wp_get.
  eapply (wp_pres_bind calm); [calm_all|reflexivity|apply calm_evolves|]. intros _ s1 H1.
  eapply (wp_pres_bind calm); [calm_all|exact H1|apply calm_evolves|]. intros [ps [err|]] s2 H2.
  { by apply wp_ret, calm_evolves. }
  eapply (wp_pres_bind calm); [calm_all|exact H2|apply calm_evolves|]. intros [rc ps'] s3 H3.
  apply wp_if; intros _; [by apply wp_ret, calm_evolves|].
  apply calm_evolves in H3 as H4. destruct (H4 Ht) as [Ht3 _]. clear H1 H2 H3 Ht.
  eapply wp_evolves_from; [exact H4|]. generalize (get_group_size (cid (conf s))) as size.
  clear s H4 s1 s2. intros size. rename s3 into s, Ht3 into Ht.
  apply wp_bind, wp_get, wp_bind.
  apply (wp_for_st false (fun _ x s' => s' = s /\ better (sid (ctrl s)) x)); [| |].
  - intros i l x s' [-> Hx]. unfold better_sid. apply wp_bind, wp_get.
    apply wp_if; intros _; [apply wp_ret; by eauto|].
    apply wp_bind, wp_or_fault; [|done]. intros y _.
    apply wp_if; intros _; [apply wp_ret; by eauto|].
    unfold ctrl_get. apply wp_bind, wp_bind, wp_get, wp_or_fault; [|done]. intros r Hr.
    apply wp_ret. eexists. split; [reflexivity|]. split; [done|].
    destruct (Z.ltb_spec x r); [|done]. destruct (c_true _) eqn:Hl; [|done].
    cbn [andb]. right.     apply c_true_L in Hl. split; [done|]. split; [destruct Hx as [->|(_ & ? & _)]; lia|].
    eapply Forall_lookup_1; [apply (t_rsid _ Ht)|]. unfold aget in Hr. by destruct (0 <=? i).
  - split; [done|]. by left.
  - intros x s' [-> Hx]. cbn [fst]. apply wp_if; intros _; [|by apply wp_ret].
    apply wp_update_sid. apply (wp_pres evolves); [ev_all|]. by apply better_evolves.
Qed.
#[export] Hint Resolve verify_leadership_evolves : evolves.

Lemma apply_committed_evolves : pres evolves apply_committed_entries.
Proof.
  unfold apply_committed_entries, ep_dp_reply_read_req, reply_one, ud_clt_answer_read_request.
  ev_all.
Qed.
#[export] Hint Resolve apply_committed_evolves : evolves.

(** *** Heartbeats *)

(** Moves that leave the state identifier alone. *)
Definition keeps (s s' : srv) : Prop := evolves s s' /\ sid (ctrl s') = sid (ctrl s).

#[export] Instance keeps_refl : Reflexive keeps.
Proof. by split. Qed.
#[export] Instance keeps_trans : Transitive keeps.
Proof. intros a b c [H1 H2] [H3 H4]. split; [by etrans|congruence]. Qed.

Lemma keeps_evolves s s' : keeps s s' -> evolves s s'.
Proof. by intros []. Qed.
Lemma keeps_typed s s' : keeps s s' -> typed s -> typed s'.
Proof. intros [H _] Ht. by apply H. Qed.

Lemma calm_keeps s s' : calm s s' -> keeps s s'.
Proof. intros Hc. split; [by apply calm_evolves|]. by destruct Hc as ([= H1 _ _ _ _ _] & _). Qed.
Lemma pres_keeps {A} (m : M A) : pres calm m -> pres keeps m.
Proof. intros Hm. by eapply pres_mono; [|apply calm_keeps]. Qed.
Lemma dev_keeps s s' : dev (speaks s) s s' -> keeps s s'.
Proof. intros Hd. split; [by apply dev_evolves|]. symmetry. apply view_sid, Hd. Qed.

Definition taken (i : Z) (s : srv) : srv :=
  set_ctrl (set_hb (<[Z.to_nat i := 0]> (hb (ctrl s))) (ctrl s)) s.

Lemma take_hb_wp i Q E s :
  (forall x, aget (hb (ctrl s)) i = Some x -> keeps s (taken i s) -> Q x (taken i s)) ->
  wp false (take_hb i) Q E s.
Proof.
  intros HQ. unfold take_hb, ctrl_get, ctrl_put.
  apply wp_bind, wp_bind, wp_get, wp_or_fault; [|done]. intros x Hx.
  apply wp_bind, wp_bind, wp_get, wp_bind, wp_or_fault; [|done]. intros l [Hi ->]%aset_inv.
  apply wp_upd, wp_ret, (HQ x Hx). split; [|done]. apply quiet_evolves.
  - split; auto; [|by exists []]. intros j y. simpl. rewrite aget_insert by done.
    destruct (i =? j); [|auto]. intros [= <-]. auto.
  - intros [T0 T1 T2 T3 T4 T5]. split; try done. simpl. by apply Forall_insert.
Qed.

Lemma hb_word i x s : typed s -> aget (hb (ctrl s)) i = Some x -> word x.
Proof.
  intros Ht Hx. eapply Forall_lookup_1; [apply (t_hb _ Ht)|].
  unfold aget in Hx. by destruct (0 <=? i).
Qed.

Lemma note_latest_keeps g s : word (latest_hb_received g) -> keeps s (set_glob g s).
Proof.
  intros Hx. split; [|done]. apply quiet_evolves; [by split; auto; exists []|].
  intros [T0 T1 T2 T3 T4 T5]. by split.
Qed.

Lemma read_hb_wp i leader s :
  typed s ->
  wp false (read_hb i leader) (fun x s' => word x /\ keeps s s') (keeps s) s.
Proof.
  intros Ht. unfold read_hb, on_glob. apply wp_if; intros _.
  - apply wp_bind, wp_get, wp_bind.
    apply (wp_mono _ _ (fun x s' => word x /\ keeps s s') _ (keeps s)); [|intros x s1 [Hx Hk]|done].
    + apply wp_if; intros _; [|apply wp_ret; split; [apply Ht|reflexivity]].
      apply take_hb_wp. intros x Hx Hk. split; [by eapply hb_word|done].
    + apply wp_bind, wp_upd, wp_ret. split; [done|]. etrans; [exact Hk|]. by apply note_latest_keeps.
  - apply take_hb_wp. intros x Hx Hk. split; [by eapply hb_word|done].
Qed.

Lemma hb_reply_keeps i : pres keeps (rc_send_hb_reply i).
Proof.
  intros s. unfold rc_send_hb_reply. apply wp_bind, wp_get.
  apply wp_if; intros _; [by apply wp_ret|].
  eapply (wp_pres_bind (dev (speaks s))); [apply pv_next_ssn|reflexivity|apply dev_keeps|].
  intros _ s1 H1. apply wp_if; intros _; [by apply wp_ret, dev_keeps|].
  eapply (wp_pres_bind (dev (speaks s))); [apply pv_ep_at|exact H1|apply dev_keeps|].
  intros e s2 H2. apply wp_if; intros _; [by apply wp_ret, dev_keeps|].
  unfold read_u64. apply wp_bind, wp_bind, wp_get, wp_ret.
  eapply (wp_pres_bind (dev (speaks s))); [apply pv_post|exact H2|apply dev_keeps|].
  - intros b n _. split; [done|]. simpl. by rewrite (view_sid _ _ (proj1 H2)).
  - intros r s3 H3. by apply wp_ret, dev_keeps.
Qed.

(** The heartbeats of the servers: the state identifier found is the own one,
    or a larger one of a leader. *)
Lemma hb_one_wp leader i st s :
  typed s -> better (sid (ctrl s)) (snd st) ->
  wp false (hb_one leader i st)
    (fun r s' => exists st', r = (st', None) /\ keeps s s' /\ better (sid (ctrl s)) (snd st'))
    (keeps s) s.
Proof.
  intros Ht Hst. destruct st as [to x0]. unfold hb_one.
  assert (forall s1, keeps s s1 -> exists st', ((to, x0), @None unit) = (st', None) /\
    keeps s s1 /\ better (sid (ctrl s)) (snd st')) as Hskip by (intros; by exists (to, x0)).
  apply wp_bind, wp_get.
  apply wp_if; intros _; [by apply wp_ret, Hskip|].
  apply wp_bind. eapply wp_mono; [by apply read_hb_wp| |done]. intros x s1 [Hx H1].
  apply wp_if; intros _; [by apply wp_ret, Hskip|].
  destruct (Z.ltb_spec x x0) as [Hlt|Hge].
  - eapply (wp_pres_bind keeps); [|exact H1|done|].
    + apply pres_when; [typeclasses eauto|].
      apply (pres_bind keeps); [apply hb_reply_keeps|intros _; apply pres_keeps; calm_all].
    + intros _ s2 H2. by apply wp_ret, Hskip.
  - apply wp_ret. eexists. split; [done|]. split; [done|]. cbn [snd] in *.
    destruct (c_true _) eqn:Hl; [|done]. apply c_true_L in Hl. right.
    split; [done|]. split; [|done]. destruct Hst as [->|(_ & ? & _)]; lia.
Qed.

Lemma hb_receive_evolves : pres evolves hb_receive_cb.
Proof.
  apply pres_typed. intros s Ht. unfold hb_receive_cb.
  apply wp_bind, wp_get. cbv zeta. apply wp_bind, wp_get.
  apply wp_if; intros _; [apply (wp_pres evolves); [ev_all|reflexivity]|].
  eapply (wp_pres_bind calm); [calm_all|reflexivity|apply calm_evolves|].
  intros _ s1 H1. apply wp_bind, wp_get, wp_bind. apply calm_keeps in H1.
  apply (wp_for_st false (fun _ st s' => keeps s s' /\ better (sid (ctrl s)) (snd st))).
  - intros i l st s' [Hk Hb]. pose proof (proj2 Hk) as Hsid.
    eapply wp_mono; [apply hb_one_wp; [by eapply keeps_typed|by rewrite Hsid]| |].
    + intros r s2 (st' & -> & Hk' & Hb'). exists st'. split; [done|].
      split; [by etrans|by rewrite <- Hsid].
    + intros s2 Hk'. apply keeps_evolves. by etrans.
  - split; [done|]. left. apply H1.
  - clear s1 H1. intros [to x] s1 [Hk Hb]. cbn [fst snd] in *. pose proof Hk as [He Hsid].
    apply wp_if; intros _; [apply (wp_pres evolves); [ev_all|done]|].
    apply wp_bind, wp_get. apply wp_if; intros _; [|apply (wp_pres evolves); [ev_all|done]].
    unfold follow_sid. apply wp_bind, wp_get, wp_update_sid.
    apply (wp_pres evolves); [ev_all|]. etrans; [exact He|]. apply better_evolves. by rewrite Hsid.
Qed.


Lemma send_hb_evolves : pres evolves rc_send_hb.
Proof.
  intros s. unfold rc_send_hb. apply wp_bind, wp_get, wp_bind, wp_get.
  eapply (wp_pres_bind (dev (speaks s))); [apply pv_next_ssn|reflexivity|apply dev_evolves|].
  intros _ s1 H1. apply wp_bind.
  eapply wp_mono; [apply (wp_post_round (speaks s) (P_u64 (sid (ctrl s))))| |].
  - intros s2 H2. unfold read_u64. rewrite bind_get, <- (view_sid _ _ H2).
    by rewrite (view_sid _ _ (proj1 H1)).
  - intros i b n _. by split.
  - intros ps s2 H2. apply wp_ret, dev_evolves. by etrans.
  - intros s2 H2. apply dev_evolves. by etrans.
Qed.
#[export] Hint Resolve send_hb_evolves : evolves.

Lemma hb_send_evolves : pres evolves hb_send_cb.
Proof.
  intros s. unfold hb_send_cb. apply wp_bind, wp_get, wp_bind, wp_get, wp_bind.
  apply (wp_for_ret false (fun _ => keeps s) (fun _ => evolves s)).
  - intros i l s1 H1. unfold hb_send_one. apply wp_bind, wp_get.
    apply wp_if; intros _; [by apply wp_ret|].
    apply wp_bind, take_hb_wp. intros x _ H2. assert (keeps s (taken i s1)) as H3 by (by etrans).
    apply wp_if; intros _; [by apply wp_ret|]. apply wp_bind, wp_get, wp_update_sid.
    change (set_ctrl _ _) with (with_sid (sid (ctrl s)) (taken i s1)).
    assert (evolves s (with_sid (sid (ctrl s)) (taken i s1))) as H4.
    { etrans; [apply H3|]. apply better_evolves. left. symmetry. apply H3. }
    eapply (wp_pres_bind evolves); [apply to_follower_evolves|exact H4|done|].
    intros _ s2 Hs2. by apply wp_ret.
  - reflexivity.
  - intros s1 H1. apply (wp_pres evolves); [ev_all|by apply keeps_evolves].
  - intros [] s1 H1. by apply wp_ret.
Qed.

Lemma to_adjust_evolves : pres evolves to_adjust_cb.
Proof.
  apply pres_typed. intros s Ht. unfold to_adjust_cb. apply wp_bind, wp_get.
  apply wp_if; intros _; [apply (wp_pres evolves); [ev_all|reflexivity]|].
  eapply (wp_pres_bind calm); [calm_all|reflexivity|apply calm_evolves|]. intros _ s1 H1.
  apply calm_keeps in H1. apply wp_bind, wp_get, wp_bind, take_hb_wp. intros x Hx H2.
  assert (keeps s (taken (SID_GET_IDX (sid (ctrl s1))) s1)) as H3 by (by etrans).
  apply wp_bind, wp_get. unfold on_glob. apply wp_bind, wp_upd.
  apply (wp_pres evolves); [ev_all|]. apply keeps_evolves. etrans; [exact H3|].
  apply note_latest_keeps. apply keeps_typed in H1 as Ht1; [|done].
  pose proof (hb_word _ _ _ Ht1 Hx). repeat case_match; try done. simpl. apply Ht1.
Qed.

(** *** Voting *)

(** Requests are dropped, and nothing else matters to an election. *)
Record dropping (s s' : srv) : Prop := {
  d_sid : sid (ctrl s') = sid (ctrl s);
  d_idx : idx (conf s') = idx (conf s);
  d_hb : hb (ctrl s') = hb (ctrl s);
  d_latest : latest_hb_received (glob s') = latest_hb_received (glob s);
  d_log : elog s' = elog s;
  d_rsid : rsid_ok s -> rsid_ok s';
  d_reqs : Forall2 dropped (vote_req (ctrl s)) (vote_req (ctrl s'));
  d_sent : sent plain s s'
}.

#[export] Instance dropping_refl : Reflexive dropping.
Proof. intros s. split; try done. apply dropped_list_refl. Qed.
#[export] Instance dropping_trans : Transitive dropping.
Proof.
  intros a b c [] []. split; try congruence; auto; [by eapply dropped_list_trans|by etrans].
Qed.

Lemma calm_dropping s s' : calm s s' -> dropping s s'.
Proof.
  intros ([= H1 H2 H3 H4 H5 H6] & H7 & H8). split; try done. rewrite H3. apply dropped_list_refl.
Qed.

Lemma dropping_reqs s s' reqs :
  dropping s s' -> Forall2 dropped (vote_req (ctrl s')) reqs ->
  dropping s (set_ctrl (set_vote_req reqs (ctrl s')) s').
Proof. intros [] H. split; try done. by eapply dropped_list_trans. Qed.

Lemma dropped_sids l l' i r' :
  Forall2 dropped l l' -> aget l' i = Some r' -> vr_sid r' = 0 \/ aget l i = Some r'.
Proof.
  intros HF H. destruct (Z.eq_dec (vr_sid r') 0) as [|Hne]; [by left|right].
  by eapply dropped_aget.
Qed.

Lemma dropping_typed s s' : dropping s s' -> typed s -> typed s'.
Proof.
  intros [D1 D2 D3 D4 D5 D6 D7 D8] [T0 T1 T2 T3 T4 T5].
  split; try (rewrite ?D1, ?D2, ?D3, ?D4; by auto).
  apply Forall_lookup_2. intros i r Hi.
  destruct (Forall2_lookup_r _ _ _ _ _ D7 Hi) as (r0 & H0 & [->| ->]).
  - by eapply (Forall_lookup_1 _ _ _ _ T2).
  - by destruct r0.
Qed.

Lemma dropping_evolves s s' : dropping s s' -> evolves s s'.
Proof.
  intros Hd. apply quiet_evolves; [|by apply dropping_typed].
  destruct Hd as [D1 D2 D3 D4 D5 D6 D7 D8]. split; try done.
  - intros i r [?|?]%(dropped_sids _ _ _ _ D7); auto.
  - intros i x. rewrite D3. auto.
  - eapply sent_mono; [done|]. intros w. apply plain_speaks.
Qed.

(** Taking over a state identifier after requests were dropped: as if they had
    been dropped afterwards. *)
Lemma move_dropping s s1 s2 x es :
  dropping s s1 -> sid_move s x es -> Forall (fun e => electoral e = true) es ->
  (typed s -> word x) -> unmoved_rest s1 s2 -> sid (ctrl s2) = x -> elog s2 = es ++ elog s1 ->
  latest_hb_received (glob s2) = latest_hb_received (glob s1) ->
  rsid (ctrl s2) = rsid (ctrl s1) -> evolves s s2.
Proof.
  intros Hd Hm Hes Hw [U1 U2 U3 U4] Hx Hlog Hlat Hrsid Ht.
  pose proof (dropping_typed _ _ Hd Ht) as [T0 T1 T2 T3 T4 T5]. split.
  { split; [by rewrite U1|rewrite Hx; auto|by rewrite U2|by rewrite U3
           |unfold rsid_ok; by rewrite Hrsid|by rewrite Hlat]. }
  pose proof Hd as [D1 D2 D3 D4 D5 D6 D7 D8].
  set (sv := set_out (es ++ out s) (with_sid x s)).
  assert (elog sv = es ++ elog s) as Hsv.
  { unfold elog. simpl. rewrite List.filter_app. f_equal. clear -Hes.
    induction Hes as [|e es He _ IH]; simpl; [done|]. by rewrite He, IH. }
  eapply rtc_l; [by eapply (move_sid s sv es)|]. apply rtc_once, move_quiet. split.
  - done.
  - by rewrite U1, D2.
  - by rewrite Hlog, Hsv, D5.
  - intros i r. rewrite U2. intros [?|?]%(dropped_sids _ _ _ _ D7); auto.
  - intros i y. rewrite U3, D3. auto.
  - destruct D8 as (ws & H1 & H2). exists ws. split; [by rewrite U4|].
    eapply Forall_impl; [exact H2|]. intros w. apply plain_speaks.
Qed.

Lemma best_sid_requested me l reqs best reqs' b :
  0 <= best -> best_sid me l reqs best = Some (reqs', b) ->
  b = best \/ best < b /\ exists i r, aget reqs i = Some r /\ vr_sid r = b.
Proof.
  revert reqs best. induction l as [|i l IH]; intros reqs best H0; cbn [best_sid].
  { intros [= _ ->]. by left. }
  destruct (i =? me); [by apply IH|]. destruct (aget reqs i) as [r|] eqn:Hr; [|done]. cbn.
  destruct (Z.leb_spec (vr_sid r) best) as [Hle|Hlt].
  - destruct (aset reqs i _) as [reqs1|] eqn:Hs; [|done]. cbn.
    intros [->|(Hb & j & r' & Hj & Hr')]%IH; [by left| |done]. right. split; [done|].
    exists j, r'. split; [|done]. eapply dropped_aget; [by eapply drop_request|done|lia].
  - intros [->|(Hb & Hex)]%IH; [|right; split; [lia|done]|lia]. right. eauto.
Qed.

(** The second scan drops requests, and the highest term is that of one. *)
Lemma best_request_highest l reqs own h reqs' b h' :
  0 < vr_sid own -> best_request l reqs own h = Some (reqs', b, h') ->
  Forall2 dropped reqs reqs' /\ h <= h' /\
  (h' = h \/ exists i r, aget reqs i = Some r /\ vr_sid r <> 0 /\ h' = SID_GET_TERM (vr_sid r)).
Proof.
  revert reqs own h. induction l as [|i l IH]; intros reqs own h H0; cbn [best_request].
  { intros [= -> _ ->]. split; [apply dropped_list_refl|]. split; [lia|by left]. }
  destruct (aget reqs i) as [r|] eqn:Hr; [|done]. cbn.
  destruct (aset reqs i _) as [reqs1|] eqn:Hs; [|done]. cbn.
  pose proof (drop_request _ _ _ _ Hr Hs) as Hd.
  assert (forall own h1, h <= h1 -> 0 < vr_sid own ->
    (h1 = h \/ vr_sid r <> 0 /\ h1 = SID_GET_TERM (vr_sid r)) ->
    best_request l reqs1 own h1 = Some (reqs', b, h') ->
    Forall2 dropped reqs reqs' /\ h <= h' /\
    (h' = h \/ exists i r, aget reqs i = Some r /\ vr_sid r <> 0 /\ h' = SID_GET_TERM (vr_sid r)))
    as Hgo.
  { intros own1 h1 Hle H1 Hh (Hd' & Hle' & Hex)%IH; [|done].
    split; [by eapply dropped_list_trans|]. split; [lia|]. destruct Hex as [->|(j & r' & Hj & Hn & ->)].
    - destruct Hh as [->|[Hn ->]]; eauto 6.
    - right. exists j, r'. split; [by eapply dropped_aget|done]. }
  destruct (Z.ltb_spec (vr_sid r) (vr_sid own)); [apply Hgo; auto; lia|].
  assert (Z.max h (SID_GET_TERM (vr_sid r)) = h \/
    vr_sid r <> 0 /\ Z.max h (SID_GET_TERM (vr_sid r)) = SID_GET_TERM (vr_sid r)) as Hmax by lia.
  destruct (log_better own r); apply Hgo; auto; lia.
Qed.

Lemma local_request_calm old s :
  wp false (local_request old) (fun r s' => vr_sid r = old /\ calm s s') (calm s) s.
Proof.
  unfold local_request.
  eapply (wp_pres_bind calm); [calm_all|reflexivity|done|]. intros b s1 H1.
  apply wp_bind, wp_get. apply wp_if; intros _.
  - apply wp_bind, wp_get. eapply (wp_pres_bind calm); [calm_all|exact H1|done|]. intros t s2 H2.
    apply wp_if; intros _; [by apply wp_ret|].
    eapply (wp_pres_bind calm); [calm_all|exact H2|done|]. intros e s3 H3. by apply wp_ret.
  - eapply (wp_pres_bind calm); [calm_all|exact H1|done|]. intros d s2 H2. by apply wp_ret.
Qed.

Lemma calm_replicate_vote : pres calm rc_replicate_vote.
Proof. unfold rc_replicate_vote. calm_all. Qed.
#[export] Hint Resolve calm_replicate_vote : calm.

Lemma requested_word s v : typed s -> requested s v -> word v.
Proof.
  intros Ht (i & r & Hr & <-). eapply (Forall_lookup_1 _ _ _ _ (t_reqs _ Ht)).
  unfold aget in Hr. by destruct (0 <=? i).
Qed.

Lemma cast_vote_evolves b s s1 :
  dropping s s1 -> SID_GET_L (sid (ctrl s)) = 0 -> requested s (vr_sid b) ->
  SID_SET_L (sid (ctrl s)) < vr_sid b ->
  wp false (cast_vote b) (fun _ => evolves s) (evolves s) s1.
Proof.
  intros Hd HL Hr Hlt. unfold cast_vote, emit, on_hb_event, on_tmr.
  apply wp_bind, wp_upd, wp_bind, wp_upd, wp_bind, wp_get, wp_update_sid.
  apply (wp_pres evolves); [ev_all|].
  eapply (move_dropping s s1 _ (vr_sid b) [_] Hd); [by apply move_vote|by constructor| |by split|done..].
  intros Ht. by eapply requested_word.
Qed.

Lemma raise_term_evolves h b r s s1 :
  dropping s s1 -> SID_GET_L (sid (ctrl s)) = 0 -> requested s b -> SID_SET_L (sid (ctrl s)) < b ->
  SID_GET_TERM b <= h -> requested s r -> h = SID_GET_TERM r ->
  wp false (raise_term h) (fun _ => evolves s) (evolves s) s1.
Proof.
  intros Hd HL Hb Hlt Hle Hr Hh. unfold raise_term.
  apply wp_bind, wp_get, wp_bind, wp_get, wp_update_sid, wp_ret.
  pose proof (d_sid _ _ Hd) as Hsid. pose proof (d_idx _ _ Hd) as Hidx.
  eapply (move_dropping s s1 _ _ [] Hd); [by eapply (move_raise s h b r)|done| |by split|..|done|done|done].
  2:{ simpl. by rewrite Hsid, Hidx. }
  intros Ht. pose proof Ht as [Hme Hsd _ _ _ _]. unfold MAX_SERVER_COUNT in Hme.
  destruct (sid_fields r) as (t & l & i & Ht' & Hi & ->); [by eapply requested_word|].
  rewrite sid_get_term in Hh by done. subst h.
  destruct (sid_fields (sid (ctrl s)) Hsd) as (t0 & l0 & i0 & Ht0 & Hi0 & ->).
  rewrite sid_set_term, sid_set_idx by lia. apply mk_sid_range; lia.
Qed.

Lemma set_L_pos x : 0 <= x -> 0 < SID_SET_L x.
Proof.
  intros Hx. unfold SID_SET_L. assert (0 <= Z.lor x (Z.shiftl 1 8)) by (by apply Z.lor_nonneg).
  assert (Z.lor x (Z.shiftl 1 8) <> 0) by (by intros [_ ?]%Z.lor_eq_0_iff). lia.
Qed.

Lemma examine_requests_evolves size best s s1 :
  typed s -> dropping s s1 -> SID_GET_L (sid (ctrl s)) = 0 -> requested s best ->
  SID_SET_L (sid (ctrl s)) < best ->
  wp false (examine_requests size (SID_SET_L (sid (ctrl s))) best) (fun _ => evolves s)
    (evolves s) s1.
Proof.
  intros Ht Hd HL Hb Hlt. set (old := SID_SET_L _) in *. unfold examine_requests.
  eapply (wp_pres_bind dropping); [|exact Hd|apply dropping_evolves|].
  { eapply pres_mono; [|apply calm_dropping]. calm_all. }
  intros rc s2 H2. apply wp_if; intros _.
  { apply (wp_pres evolves); [ev_all|by apply dropping_evolves]. }
  apply wp_bind. eapply wp_mono; [apply local_request_calm| |].
  2:{ intros s3 H3. apply dropping_evolves. etrans; [exact H2|by apply calm_dropping]. }
  intros own s3 [Hown H3]. apply calm_dropping in H3. apply (transitivity H2) in H3. clear s2 H2 s1 Hd.
  apply wp_bind, wp_get, wp_bind, wp_or_fault; [|done]. intros [[reqs b] h] Hbest.
  unfold on_ctrl. apply wp_bind, wp_upd.
  pose proof (set_L_pos _ (proj1 (t_sid _ Ht))) as Hp. fold old in Hp. rewrite <- Hown in Hp.
  destruct (best_request_highest _ _ _ _ _ _ _ Hp Hbest) as (Hdr & Hle & Hh).
  pose proof (dropping_reqs _ _ _ H3 Hdr) as H4.
  assert (forall i r, aget (vote_req (ctrl s3)) i = Some r -> vr_sid r <> 0 ->
    requested s (vr_sid r)) as Hreq.
  { intros i r Hi Hr. exists i, r. split; [|done]. eapply dropped_aget; [apply (d_reqs _ _ H3)|done|done]. }
  apply wp_if; intros Hold.
  - destruct Hh as [->|(i & r & Hi & Hr & ->)].
    + by eapply raise_term_evolves.
    + by eapply (raise_term_evolves _ best (vr_sid r)); eauto.
  - apply Z.eqb_neq in Hold.
    destruct (best_request_spec _ _ _ _ _ _ _ Hbest) as [->|(Hge & _ & Hex)]; [done|].
    destruct Hex as (i & _ & Hi); [lia|]. apply cast_vote_evolves; eauto; [|fold old; lia].
    eapply Hreq; [done|lia].
Qed.

Lemma poll_vote_requests_evolves : pres evolves poll_vote_requests.
Proof.
  apply pres_typed. intros s Ht. unfold poll_vote_requests, ctrl_get.
  apply wp_bind, wp_get, wp_bind, wp_get.
  apply wp_if; intros HL; [by apply wp_ret|].
  assert (SID_GET_L (sid (ctrl s)) = 0) as HL0.
  { destruct (Z.eq_dec (SID_GET_L (sid (ctrl s))) 0) as [|Hne]; [done|].
    apply c_true_L in Hne. congruence. }
  apply wp_bind, wp_bind, wp_get, wp_or_fault; [|done]. intros x Hx.
  apply wp_if.
  { intros [Hx0%negb_true_iff%Z.eqb_neq Hterm%Z.eqb_eq]%andb_true_iff. apply wp_update_sid, wp_ret.
    apply with_sid_evolves; [by apply move_confirm|]. intros _. by eapply hb_word. }
  intros _. apply wp_bind, wp_get, wp_bind, wp_get. cbv zeta. apply wp_bind, wp_or_fault; [|done].
  intros [reqs b] Hb. unfold on_ctrl. apply wp_bind, wp_upd.
  pose proof (best_sid_dropped _ _ _ _ _ _ Hb) as [Hdr _].
  pose proof (dropping_reqs s s reqs (reflexivity s) Hdr) as Hd.
  pose proof (set_L_pos _ (proj1 (t_sid _ Ht))) as Hp.
  destruct (best_sid_requested _ _ _ _ _ _ (Z.lt_le_incl _ _ Hp) Hb) as [->|(Hlt & Hreq)].
  - rewrite Z.eqb_refl. by apply wp_ret, dropping_evolves.
  - rewrite (proj2 (Z.eqb_neq _ _)) by lia. by apply examine_requests_evolves.
Qed.

(** *** Counting votes *)

(** Enough votes in the (first) group. *)
Definition majority (s : srv) : Prop :=
  let c := cid (conf s) in size0 c < 2 * (1 + votes s (size0 c) (upto (get_group_size c))).

(** What the votes are counted from. *)
Definition same_votes (s s' : srv) : Prop :=
  calm s s' /\ cid (conf s') = cid (conf s) /\ vote_ack (ctrl s') = vote_ack (ctrl s) /\
  len (slog s') = len (slog s).

#[export] Instance same_votes_refl : Reflexive same_votes.
Proof. by split. Qed.
#[export] Instance same_votes_trans : Transitive same_votes.
Proof.
  intros a b c (H1 & H2 & H3 & H4) (H5 & H6 & H7 & H8).
  split; [by etrans|]. split; [congruence|]. split; congruence.
Qed.

Ltac votes_all :=
  unfold ctrl_get, ctrl_put, on_server, on_ctrl, on_conf, on_log;
  repeat first [pres_step|apply pres_upd; intro; split; [by apply calm_same|done]].

Lemma count_vote_wp n size i l st s s' :
  n = size0 (cid (conf s)) -> same_votes s s' -> 0 <= fst st ->
  fst st + votes s n (i :: l) <= 1 + votes s n (upto size) ->
  wp false (count_vote i st)
    (fun r s1 => exists st', r = (st', None) /\ same_votes s s1 /\ 0 <= fst st' /\
       fst st' + votes s n l <= 1 + votes s n (upto size))
    (same_votes s) s'.
Proof.
  intros Hn Hs H0 Hle. destruct st as [n0 n1]. cbn [fst] in *.
  pose proof Hs as (([= _ Hidx _ _ _ _] & _) & Hcid & Hack & Hlen).
  rewrite votes_cons in Hle. unfold vote in Hle.
  unfold count_vote. apply wp_bind, wp_get. rewrite <- Hidx.
  destruct (i =? idx (conf s)); [apply wp_ret; exists (n0, n1); cbn; auto with lia|].
  unfold ctrl_get at 1. apply wp_bind, wp_bind, wp_get, wp_or_fault; [|done]. intros x Hx.
  apply wp_bind, wp_get. rewrite Hlen. rewrite Hack in Hx. rewrite Hx in Hle.
  destruct (len (slog s) =? x); [apply wp_ret; exists (n0, n1); cbn; auto with lia|].
  eapply (wp_pres_bind same_votes); [votes_all|exact Hs|done|]. intros o s1 H1.
  eapply (wp_pres_bind same_votes); [votes_all|exact H1|done|]. intros _ s2 H2.
  eapply (wp_pres_bind same_votes); [votes_all|exact H2|done|]. intros _ s3 H3.
  eapply (wp_pres_bind same_votes); [votes_all|exact H3|done|]. intros _ s4 H4.
  apply wp_ret. eexists. split; [done|]. split; [done|]. cbn [fst]. rewrite Hcid, <- Hn.
  destruct (i <? n); [|lia]. pose proof (Z.mod_le (n0 + 1) (2 ^ 8)).
  pose proof (Z.mod_pos_bound (n0 + 1) (2 ^ 8)). unfold wrap. lia.
Qed.

(** A candidate with enough votes takes the leader flag, and says so. *)
Record wins (s s' : srv) : Prop := {
  win_candidate : IS_CANDIDATE s = true;
  win_rest : unmoved_rest s s';
  win_sid : sid (ctrl s') = SID_SET_L (sid (ctrl s));
  win_log : elog s' = E_log_leader (SID_GET_TERM (SID_SET_L (sid (ctrl s)))) :: elog s;
  win_typed : typed s -> typed s'
}.

(** What [poll_vote_count] does on a candidate: nothing that matters, or the
    candidate has a majority and wins. *)
Definition counts (s s' : srv) : Prop :=
  calm s s' \/
  majority s /\ exists s1 s2, same_votes s s1 /\ wins s1 s2 /\ evolves s2 s'.

Lemma win_election_counts s s1 :
  majority s -> same_votes s s1 -> IS_CANDIDATE s1 = true ->
  wp false win_election (fun _ => counts s) (counts s) s1.
Proof.
  intros Hm Hs Hcan. unfold win_election, emit at 1. apply wp_bind, wp_get, wp_update_sid.
  apply wp_bind, wp_upd. set (s2 := set_out _ _).
  assert (wins s1 s2) as Hw.
  { split; try done. intros [T0 T1 T2 T3 T4 T5]. split; try done. simpl.
    destruct (sid_fields _ T1) as (t & l & i & Ht & Hi & ->). rewrite sid_set_l by done.
    by apply mk_sid_range. }
  assert (forall s3, evolves s2 s3 -> counts s s3) as Hc by (intros; right; eauto 6).
  eapply wp_mono; [apply (wp_pres evolves _ s2); [|reflexivity]|intros ?; exact Hc|exact Hc].
  ev_all.
Qed.

Lemma poll_vote_count_counts s :
  IS_CANDIDATE s = true -> wp false poll_vote_count (fun _ => counts s) (counts s) s.
Proof.
  intros Hcan. unfold poll_vote_count. apply wp_bind, wp_get, wp_bind.
  set (c := cid (conf s)). set (size := get_group_size c).
  apply (wp_for_st false (fun l st s' => same_votes s s' /\ 0 <= fst st /\
    fst st + votes s (size0 c) l <= 1 + votes s (size0 c) (upto size))).
  - intros i l st s' (Hs & H0 & Hle).
    eapply wp_mono; [by apply (count_vote_wp (size0 c) size i l st s s')|done|].
    intros s1 [Hc _]. by left.
  - split; [reflexivity|]. simpl. lia.
  - intros [n0 n1] s1 (Hs & H0 & Hle). cbn [fst] in *.
    destruct (won c n0 n1) eqn:Hwon; [|apply wp_ret; left; apply Hs].
    apply win_election_counts; [|done|].
    + unfold won in Hwon. apply andb_true_iff in Hwon as [Hwon%Z.leb_le _].
      apply half_plus_one in Hwon. unfold majority. fold c size.
      change (votes s (size0 c) []) with 0 in Hle. lia.
    + rewrite <- Hcan. pose proof Hs as (([= Hsid Hidx _ _ _ _] & _) & _).
      unfold IS_CANDIDATE, IS_NONE. by rewrite Hsid, Hidx.
Qed.
