(* ===== verification/System.v ===== *)
(** * A group of servers

    The servers of a group and what connects them: each runs the parts of its
    loop and its timers' callbacks on its own state, and what it posted lands
    in the memory of the others, at any time, in any order, any number of
    times, or never.  This is the level at which a vote of one server is a vote
    for another. *)

From Stdlib Require Import QArith.
From S2P Require Import Prelude Bytes Words Config Log State Init Hoare Qp Cq RcOps.
From S2P Require Import Role EpDb Ud Normal Election LeaderSpec Server.

Open Scope Z_scope.

(** ** The parts of a server *)

(** What a recovered server runs: the parts of [polling] in their order, and
    the callbacks of its timers. *)
Inductive part :=
| P_requests
| P_snapshots
| P_failures
| P_log
| P_apply
| P_count
| P_votes
| P_prune
| P_hb_receive
| P_hb_send
| P_to_adjust
| P_prune_log
| P_rc_info
| P_election.

Definition run_part (p : part) : M unit :=
  match p with
  | P_requests => get_tailq_message
  | P_snapshots => b ← get IS_LEADER; when (negb (b : bool)) poll_sm_requests
  | P_failures => check_failure_count
  | P_log => b ← get IS_LEADER; if (b : bool) then commit_new_entries else poll_config_entries
  | P_apply => apply_committed_entries
  | P_count => b ← get IS_CANDIDATE; when b poll_vote_count
  | P_votes => poll_vote_requests
  | P_prune => b ← get IS_LEADER; when b force_log_pruning
  | P_hb_receive => hb_receive_cb
  | P_hb_send => hb_send_cb
  | P_to_adjust => to_adjust_cb
  | P_prune_log => prune_log_cb
  | P_rc_info => update_rc_info_cb
  | P_election => start_election
  end.

Fixpoint run_parts (l : list part) : M unit :=
  match l with
  | [] => mret tt
  | p :: l' => run_part p ;; run_parts l'
  end.

Lemma bind_ext {A B} (m : M A) (f g : A -> M B) s :
  (forall a s', f a s' = g a s') -> (m ≫= f) s = (m ≫= g) s.
Proof. intros H. unfold mbind, M_bind. by destruct (m s). Qed.

Lemma bind_ret_tt (m : M unit) s : (m ;; mret tt) s = m s.
Proof. unfold mbind, M_bind. by destruct (m s) as [[]| | |]. Qed.

(** A turn of the loop is its parts one after the other. *)
Lemma serve_parts s :
  serve s = run_parts [P_snapshots; P_failures; P_log; P_apply; P_count; P_votes; P_prune] s.
Proof.
  unfold serve. cbn [run_parts run_part]. rewrite !(bind_assoc (get _)).
  apply bind_ext. intros b1 s1. apply bind_ext. intros _ s2. apply bind_ext. intros _ s3.
  rewrite !(bind_assoc (get _)). apply bind_ext. intros b2 s4. apply bind_ext. intros _ s5.
  apply bind_ext. intros _ s6. rewrite !(bind_assoc (get _)).
  apply bind_ext. intros b3 s7. apply bind_ext. intros _ s8. apply bind_ext. intros _ s9.
  by rewrite bind_ret_tt.
Qed.

(** ** The network *)

(** Where a write on the control queue pair lands in the control data of the
    target, as words of 64 bits, ... *)
Definition place (w : wr) (c : ctrl_data_t) : ctrl_data_t :=
  match wr_loc w, wr_payload w with
  | L_vote_req i, P_vote_req r =>
      set_vote_req (<[Z.to_nat i := set_vr_sid (u64 (vr_sid r)) r]> (vote_req c)) c
  | L_vote_ack i, P_u64 x => set_vote_ack (<[Z.to_nat i := u64 x]> (vote_ack c)) c
  | L_hb i, P_u64 x => set_hb (<[Z.to_nat i := u64 x]> (hb c)) c
  | L_vote_sid i, P_u64 x => set_prv_data (<[Z.to_nat i := u64 x]> (prv_data c)) c
  | _, _ => c
  end.

(** ... and a write on the other queue pair in its log. *)
Definition place_log (w : wr) (l : dare_log_t) : dare_log_t :=
  match wr_loc w, wr_payload w with
  | L_log_entries o _, P_bytes bs => set_entries l (wr_bytes (entries l) o bs)
  | L_log_end, P_u64 x => set_end l (u64 x)
  | L_log_commit, P_u64 x => set_commit l (u64 x)
  | _, _ => l
  end.

Definition receives (w : wr) (s : srv) : srv :=
  if wr_qp w =? CTRL_QP then set_ctrl (place w (ctrl s)) s
  else set_slog (place_log w (slog s)) s.

(** What happens to a server otherwise: its log and offsets are written, the
    device makes progress, requests of clients arrive, time passes. *)
Definition bystander (c : ctrl_data_t) : ctrl_data_t :=
  set_log_offsets [] (set_apply_offsets [] (set_sm_req [] (set_sm_rep [] c))).

Record elsewhere (s s' : srv) : Prop := {
  else_conf : conf s' = conf s;
  else_ctrl : bystander (ctrl s') = bystander (ctrl s);
  else_out : out s' = out s;
  else_posted : posted (ib s') = posted (ib s);
  else_latest : latest_hb_received (glob s') = latest_hb_received (glob s)
}.

(** ** The group *)

(** The servers by their index. *)
Definition system : Type := Z -> srv.

Definition put_srv (j : Z) (s : srv) (g : system) : system :=
  fun k => if j =? k then s else g k.

Lemma put_srv_eq j s g : put_srv j s g j = s.
Proof. unfold put_srv. by rewrite Z.eqb_refl. Qed.
Lemma put_srv_ne j s g k : j <> k -> put_srv j s g k = g k.
Proof. intros H. unfold put_srv. by rewrite (proj2 (Z.eqb_neq j k)). Qed.

(** A part runs to its end or ends the process. *)
Definition runs (p : part) (s s' : srv) : Prop :=
  run_part p s = Ret tt s' \/ run_part p s = Exit s'.

Section Group.
Context (n : Z) (counts_ok : system -> Z -> Prop).

(** A step of one of the servers, or of the network; [counts_ok] restricts
    when votes are counted. *)
Inductive step (g : system) : system -> Prop :=
| step_run j p s' :
    0 <= j < n -> (p = P_count -> IS_CANDIDATE (g j) = true -> counts_ok g j) ->
    runs p (g j) s' -> step g (put_srv j s' g)
| step_deliver j w :
    0 <= j < n -> w ∈ posted (ib (g j)) -> 0 <= wr_server w < n ->
    step g (put_srv (wr_server w) (receives w (g (wr_server w))) g)
| step_elsewhere j s' :
    0 <= j < n -> elsewhere (g j) s' -> step g (put_srv j s' g).
End Group.

(** A server just started. *)
Record started (j : Z) (s : srv) : Prop := {
  st_idx : idx (conf s) = j;
  st_sid : sid (ctrl s) = SID_NULL;
  st_reqs : Forall (fun r => vr_sid r = 0) (vote_req (ctrl s));
  st_hb : Forall (fun x => x = 0) (hb (ctrl s));
  st_rsid : Forall (fun x => x = 0) (rsid (ctrl s));
  st_latest : latest_hb_received (glob s) = 0;
  st_posted : posted (ib s) = [];
  st_out : out s = []
}.

Definition starts (n : Z) (g : system) : Prop := forall j, 0 <= j < n -> started j (g j).

(** This is how [init_server_data] leaves it. *)
Lemma init_started i p m b1 b2 b3 b4 b5 s :
  init_server_data i p m b1 b2 b3 b4 b5 = Ok (Some s) -> started (server_idx i) s.
Proof.
  unfold init_server_data. repeat case_match; try done. intros [= <-].
  split; try done; by apply Forall_replicate.
Qed.

(** The votes a server counts were all cast for it in its term, in a stable
    group of [n]; what a server voted is what it wrote to its log file. *)
Definition fresh_votes (n : Z) (g : system) (j : Z) : Prop :=
  let s := g j in
  state (cid (conf s)) = CID_STABLE /\ size0 (cid (conf s)) = n /\
  forall k, 0 <= k < n -> is_Some (vote s k) ->
    E_log_vote (SID_GET_TERM (sid (ctrl s))) j ∈ out (g k).

(** ** Runs *)

(** What happens, one thing after the other: a part runs and returns, a write
    lands (the latest is number 0), the device has new answers. *)
Inductive action :=
| A_run (j : Z) (p : part)
| A_deliver (j : Z) (k : nat)
| A_device (j : Z) (cq : list poll).

Definition act (g : system) (a : action) : option system :=
  match a with
  | A_run j p =>
      match run_part p (g j) with Ret _ s' => Some (put_srv j s' g) | _ => None end
  | A_deliver j k =>
      w ← posted (ib (g j)) !! k;
      Some (put_srv (wr_server w) (receives w (g (wr_server w))) g)
  | A_device j cq => Some (put_srv j (set_ib (set_ctrl_cq cq (ib (g j))) (g j)) g)
  end.

Fixpoint act_all (g : system) (l : list action) : option system :=
  match l with
  | [] => Some g
  | a :: l' => g' ← act g a; act_all g' l'
  end.

(** The indices are those of servers of the group, and votes are counted when
    they may be. *)
Definition allowed (n : Z) (ok : system -> Z -> bool) (g : system) (a : action) : bool :=
  match a with
  | A_run j P_count => (0 <=? j) && (j <? n) && (negb (IS_CANDIDATE (g j)) || ok g j)
  | A_run j _ | A_device j _ => (0 <=? j) && (j <? n)
  | A_deliver j k =>
      (0 <=? j) && (j <? n) &&
      match posted (ib (g j)) !! k with
      | Some w => (0 <=? wr_server w) && (wr_server w <? n)
      | None => false
      end
  end.

Fixpoint allowed_all (n : Z) (ok : system -> Z -> bool) (g : system) (l : list action) : bool :=
  match l with
  | [] => true
  | a :: l' =>
      allowed n ok g a && match act g a with Some g' => allowed_all n ok g' l' | None => true end
  end.

Lemma act_step n ok okb g a g' :
  (forall g j, okb g j = true -> ok g j) ->
  allowed n okb g a = true -> act g a = Some g' -> step n ok g g'.
Proof.
  intros Hok Ha. destruct a as [j p|j k|j cq]; cbn [act allowed] in *.
  - destruct (run_part p (g j)) as [[] s'| | |] eqn:Hr; [|done..]. intros [= <-].
    assert (0 <= j < n) as Hj by (destruct p; rewrite ?andb_true_iff, ?Z.leb_le, ?Z.ltb_lt in Ha; lia).
    apply (step_run n ok g j p); [done| |by left]. intros -> Hc. apply Hok.
    rewrite Hc in Ha. by apply andb_true_iff in Ha as [_ ?].
  - destruct (posted (ib (g j)) !! k) as [w|] eqn:Hw; [|done]. intros [= <-].
    rewrite !andb_true_iff, !Z.leb_le, !Z.ltb_lt in Ha.
    apply (step_deliver n ok g j); [lia|by eapply list_elem_of_lookup_2|lia].
  - intros [= <-]. rewrite andb_true_iff, Z.leb_le, Z.ltb_lt in Ha.
    by apply (step_elsewhere n ok g j).
Qed.

Lemma act_all_steps n ok okb l g g' :
  (forall g j, okb g j = true -> ok g j) ->
  allowed_all n okb g l = true -> act_all g l = Some g' -> rtc (step n ok) g g'.
Proof.
  intros Hok. revert g. induction l as [|a l IH]; intros g; cbn [allowed_all act_all].
  { intros _ [= <-]. constructor. }
  intros [Ha Hl]%andb_true_iff. destruct (act g a) as [g1|] eqn:Hg; [|done]. cbn.
  intros Hr. eapply rtc_l; [by eapply act_step|by apply IH].
Qed.

(** Fresh votes can be checked. *)
Definition says_vote (T i : Z) (e : event) : bool :=
  match e with E_log_vote t m => (t =? T) && (m =? i) | _ => false end.

Definition fresh_votes_b (n : Z) (g : system) (j : Z) : bool :=
  let s := g j in
  (state (cid (conf s)) =? CID_STABLE) && (size0 (cid (conf s)) =? n) &&
  forallb (fun k => match vote s k with
                    | Some _ => existsb (says_vote (SID_GET_TERM (sid (ctrl s))) j) (out (g k))
                    | None => true
                    end) (upto n).

Lemma fresh_votes_check n g j : fresh_votes_b n g j = true -> fresh_votes n g j.
Proof.
  unfold fresh_votes_b, fresh_votes. rewrite !andb_true_iff, !Z.eqb_eq, forallb_forall.
  intros [[H1 H2] H3]. split; [done|]. split; [done|]. intros k Hk [x Hx].
  specialize (H3 k). rewrite Hx in H3.
  assert (In k (upto n)) as Hin by (by apply list_elem_of_In, elem_of_upto).
  apply H3, existsb_exists in Hin as (e & He & Hs). apply list_elem_of_In in He.
  destruct e; try done. cbn [says_vote] in Hs. rewrite andb_true_iff, !Z.eqb_eq in Hs.
  by destruct Hs as [-> ->].
Qed.
