(* ===== verification/SystemSpec.v ===== *)
(** * Elections in a group

    Whatever the servers of a group do and however their messages are delayed,
    reordered or repeated, no term has two leaders, as long as the votes that
    are counted were cast in the term they are counted in.  The proof is an
    invariant over all memories, messages and log files of the group; what the
    code of a server contributes is that it evolves by moves ([Moves]).  The
    code does not make sure of the condition, and then a term can have two
    leaders. *)

From Stdlib Require Import QArith.
From S2P Require Import Prelude Bytes Words Config Log LogSpec State Init Hoare Qp Cq RcOps Frame.
From S2P Require Import Role RoleSpec Election ElectionSpec LeaderSpec Server Moves System.

Open Scope Z_scope.

(** ** The protocol *)

(** What a server does as the others see it: a move, or taking the lead with
    a majority of the votes. *)
Inductive protocol_step (s s' : srv) : Prop :=
| protocol_move : move s s' -> protocol_step s s'
| protocol_win : majority s -> wins s s' -> protocol_step s s'.

Lemma moves_protocol s s' : rtc move s s' -> rtc protocol_step s s'.
Proof. apply rtc_subrel. by constructor. Qed.

Lemma majority_same s s' : same_votes s s' -> majority s -> majority s'.
Proof.
  intros (([= _ Hidx _ _ _ _] & _) & Hc & Ha & Hl). unfold majority. rewrite Hc.
  replace (votes s' _ _) with (votes s (size0 (cid (conf s))) (upto (get_group_size (cid (conf s))))); [done|].
  unfold votes, vote. by rewrite <- Hidx, Ha, Hl.
Qed.

Lemma counts_protocol s s' : typed s -> counts s s' -> typed s' /\ rtc protocol_step s s'.
Proof.
  intros Ht [Hc|(Hm & s1 & s2 & Hs & Hw & He)].
  - destruct (calm_evolves _ _ Hc Ht) as [H1 H2]. split; [done|by apply moves_protocol].
  - destruct (calm_evolves _ _ (proj1 Hs) Ht) as [H1 H2].
    destruct (He (win_typed _ _ Hw H1)) as [H3 H4]. split; [done|].
    etrans; [by apply moves_protocol|]. eapply rtc_l; [|by apply moves_protocol].
    apply protocol_win; [by eapply majority_same|done].
Qed.

(** Everything a server runs evolves by moves, but for counting. *)
Lemma part_evolves p s s' : p <> P_count -> runs p s s' -> evolves s s'.
Proof.
  intros Hp Hr. assert (pres evolves (run_part p)) as Hm.
  { destruct p; cbn [run_part]; try done;
      eauto using apply_committed_evolves, poll_vote_requests_evolves, hb_receive_evolves,
        hb_send_evolves, to_adjust_evolves, start_election_evolves; apply pres_calm;
      eauto using calm_get_tailq_message, calm_check_failure_count, calm_prune_log_cb,
        calm_update_rc_info_cb.
    all: apply pres_bind; [typeclasses eauto|calm_all|intros b; destruct b; cbn [negb when]].
    all: first [apply calm_poll_sm_requests|apply calm_commit_new_entries
               |apply calm_poll_config_entries|apply calm_force_log_pruning|calm_all]. }
  specialize (Hm s). unfold wp in Hm. by destruct Hr as [E|E]; rewrite E in Hm.
Qed.

Lemma count_counts s s' : runs P_count s s' -> IS_CANDIDATE s = true /\ counts s s' \/ s' = s.
Proof.
  unfold runs. cbn [run_part]. rewrite bind_get. destruct (IS_CANDIDATE s) eqn:Hc; cbn [when].
  - intros Hr. left. split; [done|]. pose proof (poll_vote_count_counts s Hc) as Hm.
    unfold wp in Hm. by destruct Hr as [E|E]; rewrite E in Hm.
  - intros [[= ->]|[=]]. by right.
Qed.

Lemma part_protocol p s s' : typed s -> runs p s s' -> typed s' /\ rtc protocol_step s s'.
Proof.
  intros Ht Hr. assert (p <> P_count -> typed s' /\ rtc protocol_step s s') as Hp.
  { intros Hne. destruct (part_evolves p s s' Hne Hr Ht) as [H1 H2].
    split; [done|by apply moves_protocol]. }
  destruct p; try by apply Hp. destruct (count_counts _ _ Hr) as [[_ Hc]| ->].
  - by apply counts_protocol.
  - split; [done|constructor].
Qed.

Lemma parts_protocol l s s' :
  typed s -> run_parts l s = Ret tt s' \/ run_parts l s = Exit s' ->
  typed s' /\ rtc protocol_step s s'.
Proof.
  revert s. induction l as [|p l IH]; intros s Ht; cbn [run_parts].
  { intros [[= ->]|[=]]. split; [done|constructor]. }
  unfold mbind, M_bind. destruct (run_part p s) as [[] s1|s1| |] eqn:Hp; intros Hr.
  - destruct (part_protocol p s s1 Ht) as [H1 H2]; [by left|].
    destruct (IH s1 H1 Hr) as [H3 H4]. split; [done|by etrans].
  - destruct Hr as [[=]|[= <-]]. by apply (part_protocol p); [|right].
  - by destruct Hr.
  - by destruct Hr.
Qed.

(** C3. The code of a recovered server follows the protocol.  This is about
    what a server runs once its log is recovered: the turn of the loop behind
    the test of LOG_RECOVERED ([serve]), its parts, the callbacks its timers
    then have, taking the queued requests, and [start_election].  When they
    return or end the process, they have taken the server through a sequence of
    protocol steps: it stood in the next term, raised its term after a better
    request, voted for a later request while it knew of no leader, took over a
    leader with a larger state identifier or one its candidate confirmed, took
    the lead with a majority of votes, or did nothing the others can see but
    dropping requests and heartbeats and telling the others the state identifier
    it has; and its memory stays well typed.  The messages of UD and the steps
    of joining and recovery, which take the index and the state identifier from
    elsewhere, are not among them. *)
Theorem server_follows_protocol (m : M unit) s s' :
  m = serve \/ (exists p, m = run_part p) -> typed s -> m s = Ret tt s' \/ m s = Exit s' ->
  typed s' /\ rtc protocol_step s s'.
Proof.
  intros [->|[p ->]] Ht Hr; [|by eapply part_protocol].
  rewrite serve_parts in Hr. by eapply parts_protocol.
Qed.

(** A candidate of term 1 in a group of three that has a vote. *)
Lemma one_ack_typed : typed one_ack.
Proof.
  split; [by vm_compute|by vm_compute| | | |by vm_compute].
  - change (vote_req (ctrl one_ack)) with (replicate NSRV (mk_vote_req 0 0 0 cid_zero)).
    by apply Forall_replicate.
  - change (hb (ctrl one_ack)) with (replicate NSRV 0). by apply Forall_replicate.
  - unfold rsid_ok. change (rsid (ctrl one_ack)) with (replicate NSRV 0).
    by apply Forall_replicate.
Qed.

Lemma one_ack_serves :
  exists s', serve one_ack = Ret tt s' /\ IS_LEADER s' = true.
Proof. eexists. split; [vm_compute; reflexivity|]. vm_compute. reflexivity. Qed.

Lemma server_follows_protocol_witness :
  exists s', serve one_ack = Ret tt s' /\ IS_LEADER s' = true /\ rtc protocol_step one_ack s'.
Proof.
  destruct one_ack_serves as (s' & Hr & Hl). exists s'. split; [exact Hr|]. split; [exact Hl|].
  exact (proj2 (server_follows_protocol serve one_ack s' (or_introl eq_refl) one_ack_typed
    (or_introl Hr))).
Defined.

(** The lines about elections are those of the log file. *)
Lemma elem_of_elog e s : electoral e = true -> e ∈ elog s <-> e ∈ out s.
Proof.
  intros He. unfold elog. rewrite !list_elem_of_In, List.filter_In. tauto.
Qed.

(** ** The invariant *)

Section Invariant.
Context (n : Z) (Hn : 0 < n <= MAX_SERVER_COUNT).

(** The candidates of every term, and the votes. *)
Implicit Types (C : Z -> Z -> Prop) (V : Z -> Z -> Z -> Prop).

Section Facts.
Context (C : Z -> Z -> Prop) (V : Z -> Z -> Z -> Prop).

(** Server [k] may have held [x] without a leader: it was a candidate, or it
    voted for one. *)
Definition held (k x : Z) : Prop :=
  exists T m, x = mk_sid T false m /\ 0 <= T < 2 ^ 55 /\ 0 <= m < 2 ^ 8 /\
    (T = 0 \/ m = k /\ C k T \/ V k T m).

(** [x] is the state identifier of a request of server [k]. *)
Definition stood (k x : Z) : Prop :=
  exists T, x = mk_sid T false k /\ 0 <= T < 2 ^ 55 /\ (T = 0 \/ C k T).

(** What server [k] may have sent. *)
Definition message (k : Z) (w : wr) : Prop :=
  wr_qp w = CTRL_QP ->
  match wr_loc w with
  | L_vote_req i => i = k /\ exists r, wr_payload w = P_vote_req r /\ stood k (vr_sid r)
  | L_hb i =>
      i = k /\ exists x, wr_payload w = P_u64 x /\ word x /\ (SID_GET_L x = 0 -> held k x)
  | _ => True
  end.

(** More than half of the servers supported [i] in term [T]. *)
Definition quorum (i T : Z) : Prop :=
  exists Q : list Z, NoDup Q /\ n < 2 * Z.of_nat (length Q) /\
    forall k, k ∈ Q -> 0 <= k < n /\ (k = i /\ C i T \/ V k T i).

Record server_ok (j : Z) (s : srv) : Prop := {
  o_idx : idx (conf s) = j;
  o_sid : word (sid (ctrl s));
  o_held : SID_GET_L (sid (ctrl s)) = 0 -> held j (sid (ctrl s));
  o_cand : forall T, C j T -> 0 < T <= SID_GET_TERM (sid (ctrl s));
  o_votes : forall T m, V j T m ->
              0 < T <= SID_GET_TERM (sid (ctrl s)) /\ 0 <= m < n /\ C m T;
  o_excl : forall T m, C j T -> V j T m -> False;
  o_once : forall T m m', V j T m -> V j T m' -> m = m';
  o_lines : forall T m, V j T m <-> E_log_vote T m ∈ elog s;
  o_reqs : forall k r, aget (vote_req (ctrl s)) k = Some r ->
             vr_sid r = 0 \/ 0 <= k < n /\ stood k (vr_sid r);
  o_hb : forall k x, aget (hb (ctrl s)) k = Some x ->
           x = 0 \/ SID_GET_L x <> 0 \/ 0 <= k < n /\ held k x;
  o_posted : Forall (message j) (posted (ib s));
  o_leads : forall T, E_log_leader T ∈ elog s -> quorum j T
}.
End Facts.

(** Facts stay true when there are more candidates and votes. *)
Section Mono.
Context C C' V V' (HC : forall k T, C k T -> C' k T) (HV : forall k T m, V k T m -> V' k T m).

Lemma held_mono k x : held C V k x -> held C' V' k x.
Proof. intros (T & m & H1 & H2 & H3 & H4). exists T, m. intuition auto. Qed.

Lemma stood_mono k x : stood C k x -> stood C' k x.
Proof. intros (T & H1 & H2 & H3). exists T. intuition auto. Qed.

Lemma message_mono k w : message C V k w -> message C' V' k w.
Proof.
  intros Hm Hq. specialize (Hm Hq). destruct (wr_loc w); try done.
  - destruct Hm as (-> & x & H1 & H2 & H3). split; [done|]. exists x. eauto using held_mono.
  - destruct Hm as (-> & r & H1 & H2). split; [done|]. exists r. eauto using stood_mono.
Qed.

Lemma quorum_mono i T : quorum C V i T -> quorum C' V' i T.
Proof.
  intros (Q & H1 & H2 & H3). exists Q. split; [done|]. split; [done|].
  intros k [Hk [[-> ?]|?]]%H3; auto 6.
Qed.

Lemma server_ok_mono j s :
  (forall T, C' j T -> C j T) -> (forall T m, V' j T m -> V j T m) ->
  server_ok C V j s -> server_ok C' V' j s.
Proof.
  intros HCj HVj [H1 H2 H3 H4 H5 H6 H7 H8 H9 H10 H11 H12]. split; auto.
  - intros. by apply held_mono, H3.
  - intros T m Hv. destruct (H5 T m) as (? & ? & ?); auto.
  - intros T m. eauto.
  - intros T m m'. eauto.
  - intros T m. rewrite <- H8. split; auto.
  - intros k r [?|[? ?]]%H9; eauto using stood_mono.
  - intros k x [?|[?|[? ?]]]%H10; eauto using held_mono.
  - eapply Forall_impl; [exact H11|]. apply message_mono.
  - intros T ?%H12. by apply quorum_mono.
Qed.
End Mono.

(** The votes are those in the log files. *)
Definition votes_of (g : system) : Z -> Z -> Z -> Prop := fun k T m => E_log_vote T m ∈ elog (g k).

Definition agreed C (g : system) : Prop :=
  forall j, 0 <= j < n -> server_ok C (votes_of g) j (g j).

(** ** Keeping it *)

(** One server changes. *)
Lemma agreed_put C C' g j s' :
  agreed C g -> 0 <= j < n ->
  (forall k T, C k T -> C' k T) -> (forall k T, k <> j -> C' k T -> C k T) ->
  (forall T m, E_log_vote T m ∈ elog (g j) -> E_log_vote T m ∈ elog s') ->
  server_ok C' (votes_of (put_srv j s' g)) j s' -> agreed C' (put_srv j s' g).
Proof.
  intros Hg Hj HC HCo HV Hs k Hk.
  destruct (Z.eq_dec j k) as [<-|Hne]; [by rewrite put_srv_eq|]. rewrite put_srv_ne by done.
  apply (server_ok_mono C C' (votes_of g)); [done| | |..|by apply Hg].
  - intros i T m. unfold votes_of. destruct (Z.eq_dec j i) as [<-|Hne'].
    + rewrite put_srv_eq. apply HV.
    + by rewrite put_srv_ne.
  - intros T. apply HCo. done.
  - intros T m. unfold votes_of. by rewrite put_srv_ne.
Qed.

Lemma votes_put g j s' T m : votes_of (put_srv j s' g) j T m <-> E_log_vote T m ∈ elog s'.
Proof. unfold votes_of. by rewrite put_srv_eq. Qed.

Lemma votes_put_mono g j s' :
  (forall T m, E_log_vote T m ∈ elog (g j) -> E_log_vote T m ∈ elog s') ->
  forall k T m, votes_of g k T m -> votes_of (put_srv j s' g) k T m.
Proof.
  intros H k T m. unfold votes_of. destruct (Z.eq_dec j k) as [<-|Hne].
  - rewrite put_srv_eq. apply H.
  - by rewrite put_srv_ne.
Qed.

(** The state identifier of a candidate. *)
Lemma held_candidate C V j s :
  server_ok C V j s -> candidate_sid_of s -> stood C j (sid (ctrl s)).
Proof.
  intros Hs [HL Hi]. destruct (o_held _ _ _ _ Hs HL) as (T & m & Hx & HT & Hm & Hc).
  rewrite (o_idx _ _ _ _ Hs) in Hi. rewrite Hx, sid_get_idx in Hi by lia. subst m.
  exists T. split; [done|]. split; [done|].
  destruct Hc as [?|[[_ ?]|Hv]]; auto. right. by apply (o_votes _ _ _ _ Hs).
Qed.

Lemma speaks_message C V j s w : server_ok C V j s -> speaks s w -> message C V j w.
Proof.
  intros Hs Hw Hq. specialize (Hw Hq). pose proof (o_idx _ _ _ _ Hs) as Hi.
  destruct (wr_loc w); try done.
  - destruct Hw as [-> ->]. split; [done|]. eexists. split; [done|].
    split; [apply Hs|]. apply (o_held _ _ _ _ Hs).
  - destruct Hw as (-> & Hc & r & -> & Hr). split; [done|]. exists r. split; [done|].
    rewrite Hr. by eapply held_candidate.
Qed.

Lemma quiet_agreed C g j s' :
  agreed C g -> 0 <= j < n -> quiet (g j) s' -> agreed C (put_srv j s' g).
Proof.
  intros Hg Hj [Q1 Q2 Q3 Q4 Q5 Q6]. pose proof (Hg j Hj) as Hs.
  assert (forall T m, E_log_vote T m ∈ elog (g j) -> E_log_vote T m ∈ elog s') as HV
    by (by rewrite Q3).
  apply (agreed_put C C); try done. pose proof (votes_put_mono _ _ _ HV) as HVm.
  assert (forall T m, votes_of (put_srv j s' g) j T m -> votes_of g j T m) as HVj.
  { intros T m. rewrite votes_put, Q3. done. }
  apply (server_ok_mono C C _ (votes_of (put_srv j s' g))) in Hs as
    [H1 H2 H3 H4 H5 H6 H7 H8 H9 H10 H11 H12]; try done.
  split; rewrite ?Q1, ?Q2; auto.
  - intros T m. by rewrite Q3.
  - intros k r [?|[?|(-> & -> & Hc)]]%Q4; auto. right. rewrite H1. split; [done|].
    by eapply held_candidate; [apply (Hg j Hj)|].
  - intros k x [?|?]%Q5; auto.
  - destruct Q6 as (ws & -> & Hws). apply Forall_app. split; [|done].
    eapply Forall_impl; [exact Hws|]. intros w Hw.
    eapply message_mono; [by intros|exact HVm|]. eapply speaks_message; [apply (Hg j Hj)|done].
  - intros T. rewrite Q3. auto.
Qed.

(** A server takes over a state identifier, of a term that is not smaller.  A
    new candidacy or vote is for a larger term, and not both. *)
Lemma sid_agreed C C' g j s' es :
  let s := g j in
  let t := SID_GET_TERM (sid (ctrl s)) in
  let t' := SID_GET_TERM (sid (ctrl s')) in
  agreed C g -> 0 <= j < n -> unmoved_rest s s' -> elog s' = es ++ elog s ->
  (forall k T, C k T -> C' k T) ->
  (forall k T, C' k T -> C k T \/ k = j /\ t < T <= t' /\ forall T m, E_log_vote T m ∉ es) ->
  word (sid (ctrl s')) -> t <= t' ->
  (SID_GET_L (sid (ctrl s')) = 0 -> held C' (votes_of (put_srv j s' g)) j (sid (ctrl s'))) ->
  (forall T m, E_log_vote T m ∈ es ->
     es = [E_log_vote T m] /\ t < T <= t' /\ 0 <= m < n /\ C' m T) ->
  (forall T, E_log_leader T ∈ es -> quorum C' (votes_of (put_srv j s' g)) j T) ->
  agreed C' (put_srv j s' g).
Proof.
  intros s t t' Hg Hj [U1 U2 U3 U4] He HC HC' Hw Ht Hheld Hvote Hlead.
  pose proof (Hg j Hj) as Hs. fold s in Hs.
  assert (forall T m, E_log_vote T m ∈ elog s -> E_log_vote T m ∈ elog s') as HV
    by (intros T m; rewrite He, elem_of_app; auto).
  pose proof (votes_put_mono g j s' HV) as HVm. set (V' := votes_of (put_srv j s' g)) in *.
  assert (forall T m, V' j T m <-> E_log_vote T m ∈ es \/ votes_of g j T m) as HVj.
  { intros T m. unfold V'. by rewrite votes_put, He, elem_of_app. }
  assert (0 <= t) as Ht0 by (apply Z.shiftr_nonneg, Hs).
  destruct Hs as [H1 H2 H3 H4 H5 H6 H7 H8 H9 H10 H11 H12].
  apply (agreed_put C); auto.
  { intros k T Hne [?|[? _]]%HC'; done. }
  split; rewrite ?U1, ?U2, ?U3, ?U4; auto; fold t'.
  - intros T [HT%H4|(_ & HT & _)]%HC'; [fold t in HT|]; lia.
  - intros T m [(_ & HT & Hm)%Hvote|(HT & Hm & Hc)%H5]%HVj; [|fold t in HT; split; [lia|auto]].
    split; [lia|done].
  - intros T m HCT HVT. apply HC' in HCT as [HCT|(_ & HT & Hno)].
    + apply HVj in HVT as [(_ & HT & _)%Hvote|HVT]; [apply H4 in HCT; fold t in HCT; lia|eauto].
    + apply HVj in HVT as [HVT|(HT' & _)%H5]; [by eapply Hno|]. fold t in HT'. lia.
  - intros T m m' HVT HVT'. apply HVj in HVT as [HVT|HVT], HVT' as [HVT'|HVT'].
    + apply Hvote in HVT as (-> & _). apply list_elem_of_singleton in HVT'. congruence.
    + apply Hvote in HVT as (_ & HT & _). apply H5 in HVT' as [HT' _]. fold t in HT'. lia.
    + apply Hvote in HVT' as (_ & HT & _). apply H5 in HVT as [HT' _]. fold t in HT'. lia.
    + eauto.
  - intros T m. unfold V'. by rewrite votes_put.
  - intros k r [?|[? ?]]%H9; eauto using stood_mono.
  - intros k x [?|[?|[? ?]]]%H10; eauto using held_mono.
  - eapply Forall_impl; [exact H11|]. intros w. by apply message_mono.
  - intros T. rewrite He, elem_of_app. intros [?|HT%H12]; [auto|]. by eapply quorum_mono.
Qed.

(** The cases, by what changes. *)

(** A leader is followed. *)
Lemma follow_agreed C g j s' :
  agreed C g -> 0 <= j < n -> unmoved_rest (g j) s' -> elog s' = elog (g j) ->
  word (sid (ctrl s')) -> SID_GET_TERM (sid (ctrl (g j))) <= SID_GET_TERM (sid (ctrl s')) ->
  (SID_GET_L (sid (ctrl s')) = 0 -> held C (votes_of g) j (sid (ctrl s'))) ->
  agreed C (put_srv j s' g).
Proof.
  intros Hg Hj Hu He Hw Ht Hh. apply (sid_agreed C C g j s' []); auto.
  - intros HL. eapply held_mono; [done| |by apply Hh]. apply votes_put_mono. by rewrite He.
  - by intros T m ?%not_elem_of_nil.
  - by intros T ?%not_elem_of_nil.
Qed.

(** What a server that voted hears from the candidate in the same term: the
    state identifier it holds already, or that of a leader. *)
Lemma confirm_held C g j x :
  agreed C g -> 0 <= j < n -> SID_GET_L (sid (ctrl (g j))) = 0 ->
  aget (hb (ctrl (g j))) (SID_GET_IDX (sid (ctrl (g j)))) = Some x -> x <> 0 ->
  SID_GET_TERM x = SID_GET_TERM (sid (ctrl (g j))) -> SID_GET_L x = 0 ->
  held C (votes_of g) j x.
Proof.
  intros Hg Hj HL Hx Hx0 Ht HLx. pose proof (Hg j Hj) as Hs.
  destruct (o_held _ _ _ _ Hs HL) as (T & m & Hsid & HT & Hm & Hc).
  rewrite Hsid in Ht, Hx. rewrite sid_get_term in Ht by lia. rewrite sid_get_idx in Hx by lia.
  destruct (o_hb _ _ _ _ Hs _ _ Hx) as [?|[?|[Hmn Hh]]]; [done..|].
  destruct Hh as (T' & m' & -> & HT' & Hm' & Hc'). rewrite sid_get_term in Ht by lia. subst T'.
  exists T, m'. split; [done|]. split; [done|]. split; [done|].
  destruct Hc' as [?|[[-> _]|HV]]; [by left|exact Hc|].
  destruct Hc as [?|[[-> HC]|HVj]]; [by left|..].
  - right. by right.
  - apply (o_votes _ _ _ _ Hs) in HVj as (_ & _ & HCm).
    exfalso. by eapply (o_excl _ _ _ _ (Hg m Hmn)).
Qed.

Definition also C (j T0 : Z) : Z -> Z -> Prop := fun k T => C k T \/ k = j /\ T = T0.

(** A server becomes a candidate of a larger term. *)
Lemma stand_agreed C g j s' es T :
  agreed C g -> 0 <= j < n -> unmoved_rest (g j) s' -> elog s' = es ++ elog (g j) ->
  es = [] \/ es = [E_log_election T] ->
  sid (ctrl s') = mk_sid T false j -> SID_GET_TERM (sid (ctrl (g j))) < T < 2 ^ 55 ->
  agreed (also C j T) (put_srv j s' g).
Proof.
  intros Hg Hj Hu He Hes Hx HT. pose proof (Hg j Hj) as Hs. unfold MAX_SERVER_COUNT in Hn.
  assert (0 <= SID_GET_TERM (sid (ctrl (g j)))) as Ht0 by (apply Z.shiftr_nonneg, Hs).
  assert (forall T m, E_log_vote T m ∉ es) as Hno.
  { intros T1 m. destruct Hes as [->| ->]; [apply not_elem_of_nil|].
    by rewrite list_elem_of_singleton. }
  apply (sid_agreed C (also C j T) g j s' es); auto; rewrite ?Hx, ?sid_get_term by lia.
  - by left.
  - intros k T1 [?|[-> ->]]; auto with lia.
  - apply mk_sid_range; lia.
  - lia.
  - intros _. exists T, j. split; [done|]. split; [lia|]. split; [lia|]. right. left.
    split; [done|]. by right.
  - intros T1 m Hin. by destruct (Hno T1 m).
  - intros T1 Hin. destruct Hes as [->| ->]; [by apply not_elem_of_nil in Hin|].
    by apply list_elem_of_singleton in Hin.
Qed.

(** A request is later than the own state identifier: it is for a larger
    term. *)
Lemma requested_later C g j v :
  agreed C g -> 0 <= j < n -> requested (g j) v -> SID_SET_L (sid (ctrl (g j))) < v ->
  exists T k, v = mk_sid T false k /\ SID_GET_TERM (sid (ctrl (g j))) < T < 2 ^ 55 /\
    0 <= k < n /\ C k T.
Proof.
  intros Hg Hj (k & r & Hr & <-) Hlt. pose proof (Hg j Hj) as Hs. unfold MAX_SERVER_COUNT in Hn.
  pose proof (o_sid _ _ _ _ Hs) as Hw. pose proof (set_L_pos _ (proj1 Hw)) as Hp.
  destruct (o_reqs _ _ _ _ Hs _ _ Hr) as [?|[Hk (T & Hv & HT & Hc)]]; [lia|].
  rewrite Hv in Hlt. apply sid_beats_flagged in Hlt; [|unfold word in Hw; lia..].
  assert (0 <= SID_GET_TERM (sid (ctrl (g j)))) by (apply Z.shiftr_nonneg, Hw).
  exists T, k. split; [done|]. split; [lia|]. split; [done|]. destruct Hc; [lia|done].
Qed.

Lemma vote_agreed C g j s' :
  let v := sid (ctrl s') in
  agreed C g -> 0 <= j < n -> unmoved_rest (g j) s' ->
  elog s' = [E_log_vote (SID_GET_TERM v) (SID_GET_IDX v)] ++ elog (g j) ->
  requested (g j) v -> SID_SET_L (sid (ctrl (g j))) < v -> agreed C (put_srv j s' g).
Proof.
  intros v Hg Hj Hu He Hr Hlt. unfold MAX_SERVER_COUNT in Hn.
  destruct (requested_later C g j v Hg Hj Hr Hlt) as (T & k & Hv & HT & Hk & HC).
  pose proof (Hg j Hj) as Hs.
  assert (0 <= SID_GET_TERM (sid (ctrl (g j)))) as Ht0 by (apply Z.shiftr_nonneg, Hs).
  assert (SID_GET_TERM v = T) as HTv by (rewrite Hv; apply sid_get_term; lia).
  assert (SID_GET_IDX v = k) as Hkv by (rewrite Hv; apply sid_get_idx; lia).
  rewrite HTv, Hkv in He.
  apply (sid_agreed C C g j s' [E_log_vote T k]); auto; fold v; rewrite ?HTv.
  - rewrite Hv. apply mk_sid_range; lia.
  - lia.
  - intros _. exists T, k. split; [done|]. split; [lia|]. split; [lia|]. right. right.
    rewrite votes_put, He. apply list_elem_of_here.
  - intros T1 m [= -> ->]%list_elem_of_singleton. auto with lia.
  - by intros T1 ?%list_elem_of_singleton.
Qed.

Lemma term_mono x y : x <= y -> SID_GET_TERM x <= SID_GET_TERM y.
Proof.
  intros H. unfold SID_GET_TERM. rewrite !Z.shiftr_div_pow2 by lia. by apply Z.div_le_mono.
Qed.

Lemma same_term_word x y : SID_GET_TERM x = SID_GET_TERM y -> word y -> word x.
Proof.
  unfold SID_GET_TERM, word. rewrite !Z.shiftr_div_pow2 by lia. change (2 ^ 9) with 512.
  pose proof (Z.div_mod x 512). pose proof (Z.div_mod y 512).
  pose proof (Z.mod_pos_bound x 512). pose proof (Z.mod_pos_bound y 512). lia.
Qed.

Lemma start_agreed C g j s' :
  let x := election_sid (sid (ctrl (g j))) (idx (conf (g j))) in
  agreed C g -> 0 <= j < n -> unmoved_rest (g j) s' -> sid (ctrl s') = x ->
  elog s' = [E_log_election (SID_GET_TERM x)] ++ elog (g j) -> E_log_election 0 ∉ elog s' ->
  exists C', agreed C' (put_srv j s' g).
Proof.
  intros x Hg Hj Hu Hx He Hno. pose proof (Hg j Hj) as Hs.
  pose proof (o_sid _ _ _ _ Hs) as Hw. pose proof (o_idx _ _ _ _ Hs) as Hidx.
  set (t := SID_GET_TERM (sid (ctrl (g j)))).
  assert (x = mk_sid ((t + 1) mod 2 ^ 55) false j) as Hxs.
  { unfold x. rewrite Hidx. apply election_sid_wraps; [done|lia]. }
  assert (0 <= t < 2 ^ 55) as Ht.
  { destruct (sid_fields _ Hw) as (t0 & l & i & ? & ? & E). unfold t. by rewrite E, sid_get_term. }
  pose proof (Z.mod_pos_bound (t + 1) (2 ^ 55) ltac:(lia)) as HT. unfold MAX_SERVER_COUNT in Hn.
  assert (SID_GET_TERM x = (t + 1) mod 2 ^ 55) as Hterm by (rewrite Hxs; apply sid_get_term; lia).
  destruct (Z.eq_dec (t + 1) (2 ^ 55)) as [E|Hne].
  { destruct Hno. rewrite He, Hterm, E, Z.mod_same by lia. apply list_elem_of_here. }
  rewrite Z.mod_small in * by lia. exists (also C j (t + 1)).
  apply (stand_agreed C g j s' [E_log_election (t + 1)]); rewrite ?Hx; auto; [by rewrite <- Hterm|lia].
Qed.

Lemma raise_agreed C g j s' b r :
  let h := SID_GET_TERM r in
  agreed C g -> 0 <= j < n -> unmoved_rest (g j) s' -> elog s' = elog (g j) ->
  SID_GET_L (sid (ctrl (g j))) = 0 -> requested (g j) b -> SID_SET_L (sid (ctrl (g j))) < b ->
  SID_GET_TERM b <= h -> requested (g j) r ->
  sid (ctrl s') = SID_SET_IDX (SID_SET_TERM (sid (ctrl (g j))) h) (idx (conf (g j))) ->
  exists C', agreed C' (put_srv j s' g).
Proof.
  intros h Hg Hj Hu He HL Hb Hlt Hle (i & r0 & Hr & Hr0) Hx. pose proof (Hg j Hj) as Hs.
  destruct (requested_later C g j b Hg Hj Hb Hlt) as (T & k & -> & HT & Hk & _).
  unfold MAX_SERVER_COUNT in Hn.
  destruct (o_held _ _ _ _ Hs HL) as (t & m & Hsid & Ht & Hm & _).
  rewrite Hsid in HT, Hx. rewrite sid_get_term in HT, Hle by lia.
  assert (h < 2 ^ 55) as Hh.
  { destruct (o_reqs _ _ _ _ Hs _ _ Hr) as [E|[Hi (T1 & E & HT1 & _)]].
    - unfold h. rewrite <- Hr0, E. reflexivity.
    - unfold h. rewrite <- Hr0, E, sid_get_term; lia. }
  rewrite (o_idx _ _ _ _ Hs), sid_set_term, sid_set_idx in Hx by lia.
  exists (also C j h). apply (stand_agreed C g j s' []); auto.
  rewrite Hsid, sid_get_term by lia. lia.
Qed.

Lemma move_agreed C g j s' :
  agreed C g -> 0 <= j < n -> move (g j) s' -> E_log_election 0 ∉ elog s' ->
  exists C', agreed C' (put_srv j s' g).
Proof.
  intros Hg Hj Hm Hno. pose proof (Hg j Hj) as Hs. pose proof (o_sid _ _ _ _ Hs) as Hw.
  pose proof (o_idx _ _ _ _ Hs) as Hidx.
  destruct Hm as [Hq|es Hu Hm He]; [exists C; by apply quiet_agreed|].
  remember (sid (ctrl s')) as x eqn:Hx.
  destruct Hm as [x HL Hle|x HL Hhb Hx0 Ht|x Hst|h b r x HL Hb Hlt Hh Hr Hhr Hst|v HL Hr Hlt].
  - exists C. apply follow_agreed; rewrite <- ?Hx; auto; unfold word in *;
      [lia|apply term_mono; lia|done].
  - exists C. apply follow_agreed; rewrite <- ?Hx; auto; [by eapply same_term_word|lia|].
    by apply confirm_held.
  - rewrite Hst in Hx, He. by apply (start_agreed C).
  - subst h. apply (raise_agreed C g j s' b r); auto. by rewrite <- Hx.
  - exists C. apply vote_agreed; rewrite <- ?Hx; auto.
Qed.

(** ** Steps of the group *)

Lemma agreed_ext C g g' : (forall k, g k = g' k) -> agreed C g -> agreed C g'.
Proof.
  intros He Hg j Hj. rewrite <- He.
  apply (server_ok_mono C C (votes_of g)); auto; unfold votes_of; intros *; by rewrite He.
Qed.

Lemma put_put C j s1 s2 g : agreed C (put_srv j s2 (put_srv j s1 g)) -> agreed C (put_srv j s2 g).
Proof. apply agreed_ext. intros k. unfold put_srv. by destruct (j =? k). Qed.

Lemma move_log s s' e : move s s' -> e ∈ elog s -> e ∈ elog s'.
Proof.
  intros [Hq|es _ _ ->] He; [by rewrite (q_log _ _ Hq)|]. apply elem_of_app. by right.
Qed.

Lemma moves_agreed C g j s' :
  agreed C g -> 0 <= j < n -> rtc move (g j) s' -> E_log_election 0 ∉ elog s' ->
  exists C', agreed C' (put_srv j s' g).
Proof.
  intros Hg Hj Hm. revert s' Hm. apply (rtc_ind_r (fun s' => E_log_election 0 ∉ elog s' ->
    exists C', agreed C' (put_srv j s' g))).
  - intros _. exists C. eapply agreed_ext; [|exact Hg]. intros k. unfold put_srv.
    by destruct (Z.eqb_spec j k) as [->|].
  - intros s1 s2 _ Hm IH Hno. destruct IH as [C1 H1].
    { intros He. by eapply Hno, move_log. }
    destruct (move_agreed C1 (put_srv j s1 g) j s2) as [C2 H2]; auto.
    { by rewrite put_srv_eq. }
    exists C2. by eapply put_put.
Qed.

(** Winning, with a majority of fresh votes. *)
Lemma win_quorum C g j :
  agreed C g -> 0 <= j < n -> IS_CANDIDATE (g j) = true -> majority (g j) -> fresh_votes n g j ->
  quorum C (votes_of g) j (SID_GET_TERM (sid (ctrl (g j)))).
Proof.
  intros Hg Hj Hc Hm (Hst & Hsz & Hf). pose proof (Hg j Hj) as Hs.
  unfold majority in Hm. rewrite group_size_stable, Hsz in Hm by done.
  set (T := SID_GET_TERM (sid (ctrl (g j)))) in *. set (P := fun k => is_Some (vote (g j) k) /\ k < n).
  assert (C j T) as HC.
  { unfold IS_CANDIDATE, IS_NONE in Hc.
    apply andb_true_iff in Hc as [[Hnone Hi]%andb_true_iff HL]. rewrite Hi, HL in Hnone. 
    cbn [andb] in Hnone. apply negb_true_iff, Z.eqb_neq in Hnone. apply Z.eqb_eq in Hi.
    destruct (held_candidate C (votes_of g) j (g j) Hs) as (T' & Hx & HT' & [->|HC]).
    - split; [|done]. destruct (Z.eq_dec (SID_GET_L (sid (ctrl (g j)))) 0) as [|Hne]; [done|].
      apply c_true_L in Hne. by rewrite Hne in HL.
    - destruct Hnone. fold T. unfold T. rewrite Hx. apply sid_get_term; unfold MAX_SERVER_COUNT in Hn; lia.
    - unfold T. rewrite Hx, sid_get_term; unfold MAX_SERVER_COUNT in Hn; [done|lia..]. }
  exists (j :: filter P (upto n)). split; [|split].
  - constructor.
    + intros [[[x Hv] _] _]%list_elem_of_filter. unfold vote in Hv.
      by rewrite (o_idx _ _ _ _ Hs), Z.eqb_refl in Hv.
    + apply NoDup_filter. apply NoDup_seqZ.
  - unfold votes in Hm. cbn [length]. unfold P. lia.
  - intros k [->|[[Hv Hlt] Hk%elem_of_upto]%list_elem_of_filter]%elem_of_cons; [auto|].
    split; [done|]. right. by apply elem_of_elog, Hf.
Qed.

Lemma win_agreed C g j s' :
  agreed C g -> 0 <= j < n -> wins (g j) s' ->
  quorum C (votes_of g) j (SID_GET_TERM (sid (ctrl (g j)))) -> agreed C (put_srv j s' g).
Proof.
  intros Hg Hj [Hc Hu Hsid He _] Hq. pose proof (Hg j Hj) as Hs.
  destruct (sid_fields _ (o_sid _ _ _ _ Hs)) as (T & l & i & HT & Hi & Hx).
  rewrite Hx, sid_set_l in Hsid, He by done. rewrite sid_get_term in He by done.
  rewrite Hx, sid_get_term in Hq by done.
  assert (forall T m, E_log_vote T m ∈ elog (g j) -> E_log_vote T m ∈ elog s') as HV.
  { intros. rewrite He. by apply list_elem_of_further. }
  apply (sid_agreed C C g j s' [E_log_leader T]); auto; rewrite ?Hsid, ?Hx, ?sid_get_term by done.
  - by apply mk_sid_range.
  - done.
  - by rewrite sid_get_l.
  - by intros T1 m ?%list_elem_of_singleton.
  - intros T1 [= ->]%list_elem_of_singleton. eapply quorum_mono; [done| |exact Hq].
    by apply votes_put_mono.
Qed.

Lemma calm_agreed C g j s' :
  agreed C g -> 0 <= j < n -> calm (g j) s' -> agreed C (put_srv j s' g).
Proof. intros Hg Hj Hc. apply quiet_agreed; [done|done|by apply calm_quiet]. Qed.

(** ** Steps of the group *)

(** The invariant, with memories that are well typed. *)
Definition group_ok (g : system) : Prop :=
  (forall j, 0 <= j < n -> typed (g j)) /\ exists C, agreed C g.

Lemma typed_put g j s' :
  (forall k, 0 <= k < n -> typed (g k)) -> typed s' ->
  forall k, 0 <= k < n -> typed (put_srv j s' g k).
Proof. intros Hg Hs k Hk. unfold put_srv. destruct (j =? k); auto. Qed.

Lemma evolves_ok g j s' :
  group_ok g -> 0 <= j < n -> evolves (g j) s' -> E_log_election 0 ∉ elog s' ->
  group_ok (put_srv j s' g).
Proof.
  intros [Ht [C Hg]] Hj He Hno. destruct (He (Ht j Hj)) as [Ht' Hm].
  split; [by apply typed_put|]. by eapply moves_agreed.
Qed.

Lemma counts_ok g j s' :
  group_ok g -> 0 <= j < n -> IS_CANDIDATE (g j) = true -> fresh_votes n g j ->
  counts (g j) s' -> E_log_election 0 ∉ elog s' -> group_ok (put_srv j s' g).
Proof.
  intros Hok Hj Hcan Hf [Hc|(Hm & s1 & s2 & [Hc _] & Hw & He)] Hno.
  { apply evolves_ok; auto. by apply calm_evolves. }
  destruct Hok as [Ht [C Hg]].
  assert (typed s2) as Ht2 by (apply (win_typed _ _ Hw), (calm_evolves _ _ Hc), Ht, Hj).
  pose proof (win_quorum C g j Hg Hj Hcan Hm Hf) as Hq.
  pose proof (calm_agreed C g j s1 Hg Hj Hc) as Hg1.
  destruct Hc as ([= Hsid _ _ _ _ Hlog] & _). rewrite Hsid in Hq.
  apply (win_agreed C (put_srv j s1 g) j s2) in Hg1 as Hg2; rewrite ?put_srv_eq; auto.
  2:{ eapply quorum_mono; [done| |exact Hq]. apply votes_put_mono. by rewrite Hlog. }
  apply put_put in Hg2. destruct (He Ht2) as [Ht' Hmv].
  split; [by apply typed_put|].
  destruct (moves_agreed C (put_srv j s2 g) j s') as [C' Hg']; rewrite ?put_srv_eq; auto.
  exists C'. by eapply put_put.
Qed.

(** A write lands in the memory of a server. *)
Lemma aget_put {A} (l : list A) i x k y :
  aget (<[Z.to_nat i := x]> l) k = Some y -> 0 <= i -> k = i /\ y = x \/ aget l k = Some y.
Proof.
  unfold aget. intros H Hi. destruct (Z.leb_spec 0 k); [|done].
  apply list_lookup_insert_Some in H as [(He & <- & _)|[_ H]]; [left|by right]. split; [lia|done].
Qed.

Lemma memory_agreed C g k s' :
  let s := g k in
  agreed C g -> 0 <= k < n ->
  sid (ctrl s') = sid (ctrl s) -> idx (conf s') = idx (conf s) -> elog s' = elog s ->
  posted (ib s') = posted (ib s) ->
  (forall i r, aget (vote_req (ctrl s')) i = Some r ->
     aget (vote_req (ctrl s)) i = Some r \/ 0 <= i < n /\ stood C i (vr_sid r)) ->
  (forall i x, aget (hb (ctrl s')) i = Some x ->
     aget (hb (ctrl s)) i = Some x \/ 0 <= i < n /\ (SID_GET_L x = 0 -> held C (votes_of g) i x)) ->
  agreed C (put_srv k s' g).
Proof.
  intros s Hg Hk Hsid Hidx Hlog Hp Hreqs Hhb. pose proof (Hg k Hk) as Hs. fold s in Hs.
  assert (forall T m, E_log_vote T m ∈ elog s -> E_log_vote T m ∈ elog s') as HV
    by (by rewrite Hlog).
  pose proof (votes_put_mono g k s' HV) as HVm. apply (agreed_put C C); try done.
  assert (forall T m, votes_of (put_srv k s' g) k T m -> votes_of g k T m) as HVj.
  { intros T m. rewrite votes_put, Hlog. done. }
  apply (server_ok_mono C C _ (votes_of (put_srv k s' g))) in Hs as
    [H1 H2 H3 H4 H5 H6 H7 H8 H9 H10 H11 H12]; try done.
  split; rewrite ?Hsid, ?Hidx, ?Hlog, ?Hp; auto.
  - intros i r [?%H9|?]%Hreqs; auto.
  - intros i x [?%H10|[Hi Hh]]%Hhb; [done|].
    destruct (Z.eq_dec (SID_GET_L x) 0) as [HL|]; [|by auto]. right. right.
    split; [done|]. eapply held_mono; [done|exact HVm|auto].
Qed.

Lemma u64_word x : word (u64 x).
Proof. by apply Z.mod_pos_bound. Qed.

Lemma receives_typed w s : typed s -> typed (receives w s).
Proof.
  intros Ht. unfold receives, place. destruct (wr_qp w =? CTRL_QP); [|by destruct Ht].
  destruct (wr_loc w), (wr_payload w) as [|x|r|r|bs]; try done; destruct Ht; split; try done; simpl;
    apply Forall_insert; try done; apply u64_word.
Qed.

Lemma receives_ok g j w :
  group_ok g -> 0 <= j < n -> w ∈ posted (ib (g j)) -> 0 <= wr_server w < n ->
  group_ok (put_srv (wr_server w) (receives w (g (wr_server w))) g).
Proof.
  intros [Ht [C Hg]] Hj Hw Hk. set (k := wr_server w) in *. clearbody k.
  pose proof (proj1 (Forall_forall _ _) (o_posted _ _ _ _ (Hg j Hj)) w Hw) as Hm.
  unfold MAX_SERVER_COUNT in Hn. split; [apply typed_put, receives_typed; auto|]. exists C.
  unfold receives. destruct (Z.eqb_spec (wr_qp w) CTRL_QP) as [Hq|_]; [|apply memory_agreed; by auto].
  specialize (Hm Hq). unfold place.
  destruct (wr_loc w), (wr_payload w) as [|x|r|r|bs]; try (apply memory_agreed; by auto).
  - destruct Hm as (-> & y & [= <-] & Hy & Hh). rewrite wrap_small by done.
    apply memory_agreed; auto. intros i y [[-> ->]|?]%aget_put; auto; lia.
  - destruct Hm as (-> & y & [= <-] & Hst). apply memory_agreed; auto.
    intros i y [[-> ->]|?]%aget_put; auto; [|lia]. right. split; [done|]. cbn [vr_sid set_vr_sid].
    rewrite wrap_small; [done|]. destruct Hst as (T & -> & HT & _). apply mk_sid_range; lia.
Qed.

Lemma elsewhere_ok g j s' :
  group_ok g -> 0 <= j < n -> elsewhere (g j) s' -> group_ok (put_srv j s' g).
Proof.
  intros [Ht [C Hg]] Hj [H1 H2 H3 H4 H5].
  pose proof (f_equal sid H2) as E1. pose proof (f_equal vote_req H2) as E2.
  pose proof (f_equal hb H2) as E3. pose proof (f_equal rsid H2) as E4. simpl in E1, E2, E3, E4.
  split; [apply typed_put; [done|]|exists C; apply memory_agreed; auto].
  - destruct (Ht j Hj) as [T0 T1 T2 T3 T4 T5].
    split; rewrite ?H1, ?E1, ?E2, ?E3, ?H5; try done. unfold rsid_ok. by rewrite E4.
  - by rewrite H1.
  - unfold elog. by rewrite H3.
  - rewrite E2. auto.
  - rewrite E3. auto.
Qed.

(** Memories stay well typed and log files only grow, whatever happens. *)
Lemma moves_log s s' e : rtc move s s' -> e ∈ elog s -> e ∈ elog s'.
Proof. induction 1 as [|x y z Hm _ IH]; [done|]. intros He. eapply IH, move_log; done. Qed.

Lemma run_grows p s s' :
  typed s -> runs p s s' -> typed s' /\ forall e, e ∈ elog s -> e ∈ elog s'.
Proof.
  intros Ht Hr. assert (forall s s', typed s -> evolves s s' ->
    typed s' /\ forall e, e ∈ elog s -> e ∈ elog s') as Hev.
  { intros a b Ha [Hb Hm]%(fun H => H Ha). eauto using moves_log. }
  destruct p; try (apply Hev; [done|]; by refine (part_evolves _ _ _ _ Hr)).
  destruct (count_counts _ _ Hr) as [[_ Hc]| ->]; [|done].
  destruct Hc as [Hc|(_ & s1 & s2 & [Hc _] & Hw & He)]; [by apply Hev, calm_evolves|].
  destruct (Hev s s1) as [H1 L1]; [done|by apply calm_evolves|].
  destruct (Hev s2 s') as [H2 L2]; [by apply (win_typed _ _ Hw)|done|].
  split; [done|]. intros e He0. apply L2. rewrite (win_log _ _ Hw). by apply list_elem_of_further, L1.
Qed.

Lemma step_grows ok g g' :
  (forall j, 0 <= j < n -> typed (g j)) -> step n ok g g' ->
  (forall j, 0 <= j < n -> typed (g' j)) /\ forall j e, e ∈ elog (g j) -> e ∈ elog (g' j).
Proof.
  intros Ht Hs.
  assert (forall j s', 0 <= j < n -> typed s' /\ (forall e, e ∈ elog (g j) -> e ∈ elog s') ->
    (forall k, 0 <= k < n -> typed (put_srv j s' g k)) /\
    forall k e, e ∈ elog (g k) -> e ∈ elog (put_srv j s' g k)) as Hput.
  { intros j s' Hj [H1 H2]. split; [by apply typed_put|]. intros k e. unfold put_srv.
    destruct (Z.eqb_spec j k) as [->|]; auto. }
  destruct Hs as [j p s' Hj _ Hr|j w Hj _ Hk|j s' Hj He]; apply Hput; auto.
  - eapply run_grows; eauto.
  - split; [apply receives_typed; auto|]. intros e. unfold receives. by destruct (_ =? _).
  - split; [|intros e; unfold elog; by rewrite (else_out _ _ He)].
    destruct He as [H1 H2 H3 H4 H5]. destruct (Ht j Hj) as [T0 T1 T2 T3 T4 T5].
    pose proof (f_equal sid H2) as E1. pose proof (f_equal vote_req H2) as E2.
    pose proof (f_equal hb H2) as E3. pose proof (f_equal rsid H2) as E4. simpl in E1, E2, E3, E4.
    split; rewrite ?H1, ?E1, ?E2, ?E3, ?H5; try done. unfold rsid_ok. by rewrite E4.
Qed.

(** No term was larger than the largest. *)
Definition no_wrap (g : system) : Prop := forall j, 0 <= j < n -> E_log_election 0 ∉ out (g j).

Lemma step_ok g g' :
  group_ok g -> step n (fresh_votes n) g g' -> no_wrap g' -> group_ok g'.
Proof.
  intros Hg Hs Hno. destruct Hs as [j p s' Hj Hp Hr|j w Hj Hw Hk|j s' Hj He].
  - assert (E_log_election 0 ∉ elog s') as Hn'.
    { rewrite elem_of_elog by done. specialize (Hno j Hj). by rewrite put_srv_eq in Hno. }
    destruct p; try (apply evolves_ok; auto; by refine (part_evolves _ _ _ _ Hr)).
    destruct (count_counts _ _ Hr) as [[Hc Hcs]| ->].
    + apply counts_ok; auto.
    + apply evolves_ok; auto. reflexivity.
  - by apply (receives_ok g j).
  - by apply elsewhere_ok.
Qed.

(** The start. *)
Lemma started_ok g : starts n g -> group_ok g.
Proof.
  intros Hg. split.
  - intros j Hj. destruct (Hg j Hj) as [S1 S2 S3 S4 S5 S6 S7 S8].
    split; rewrite ?S1, ?S2, ?S6; try done; [lia|..].
    + eapply Forall_impl; [exact S3|]. by intros r ->.
    + eapply Forall_impl; [exact S4|]. by intros x ->.
    + eapply Forall_impl; [exact S5|]. by intros x ->.
  - exists (fun _ _ => False). intros j Hj. destruct (Hg j Hj) as [S1 S2 S3 S4 S5 S6 S7 S8].
    assert (elog (g j) = []) as Hl by (unfold elog; by rewrite S8).
    split; rewrite ?S2, ?S7, ?Hl; try done.
    + intros _. exists 0, 255. split; [done|]. split; [lia|]. split; [lia|]. by left.
    + intros T m. unfold votes_of. by rewrite Hl, elem_of_nil.
    + intros T m m'. unfold votes_of. by rewrite Hl, elem_of_nil.
    + intros T m. unfold votes_of. by rewrite Hl.
    + intros k r Hr. left. unfold aget in Hr. destruct (0 <=? k); [|done].
      by eapply (Forall_lookup_1 _ _ _ _ S3).
    + intros k x Hx. left. unfold aget in Hx. destruct (0 <=? k); [|done].
      by eapply (Forall_lookup_1 _ _ _ _ S4).
    + by intros T ?%elem_of_nil.
Qed.

Lemma run_ok g g' :
  starts n g -> rtc (step n (fresh_votes n)) g g' -> no_wrap g' -> group_ok g'.
Proof.
  intros Hg Hs. enough ((forall j, 0 <= j < n -> typed (g' j)) /\ (no_wrap g' -> group_ok g'))
    by tauto.
  revert g' Hs. apply (rtc_ind_r (fun g' => _ /\ (no_wrap g' -> group_ok g'))).
  - pose proof (started_ok g Hg) as Hok. split; [apply Hok|done].
  - intros g1 g2 _ Hs [Ht IH]. destruct (step_grows _ _ _ Ht Hs) as [Ht2 Hl].
    split; [done|]. intros Hno. eapply step_ok; [apply IH|done|done].
    intros j Hj. specialize (Hno j Hj). rewrite <- elem_of_elog in Hno |- * by done. eauto.
Qed.

(** Two majorities have a server in common. *)
Lemma majorities_meet (Q Q' : list Z) :
  NoDup Q -> NoDup Q' -> n < 2 * Z.of_nat (length Q) -> n < 2 * Z.of_nat (length Q') ->
  (forall k, k ∈ Q -> 0 <= k < n) -> (forall k, k ∈ Q' -> 0 <= k < n) ->
  exists k, k ∈ Q /\ k ∈ Q'.
Proof.
  intros HQ HQ' Hl Hl' Hr Hr'.
  destruct (decide (Exists (fun k => k ∈ Q') Q)) as [He|Hno].
  { apply Exists_exists in He as (k & H1 & H2). by exists k. }
  exfalso. assert (NoDup (Q ++ Q')) as Hnd.
  { apply NoDup_app. split; [done|]. split; [|done]. intros k H1 H2. apply Hno.
    apply Exists_exists. by exists k. }
  assert (Q ++ Q' ⊆+ upto n) as Hsub%submseteq_length.
  { apply NoDup_submseteq; [done|]. intros k [?|?]%elem_of_app; apply elem_of_upto; auto. }
  rewrite length_app in Hsub. unfold upto in Hsub. rewrite length_seqZ in Hsub. lia.
Qed.

(** Whoever leads a term has the support of a majority, and no server supports
    two in one term. *)
Lemma one_leader_in C g T i i' :
  agreed C g -> 0 <= i < n -> 0 <= i' < n ->
  E_log_leader T ∈ elog (g i) -> E_log_leader T ∈ elog (g i') -> i = i'.
Proof.
  intros Hg Hi Hi' HT HT'.
  destruct (o_leads _ _ _ _ (Hg i Hi) T HT) as (Q & HQ & Hlen & Hsup).
  destruct (o_leads _ _ _ _ (Hg i' Hi') T HT') as (Q' & HQ' & Hlen' & Hsup').
  destruct (majorities_meet Q Q') as (k & Hk & Hk'); auto.
  { intros k Hk. by apply Hsup. }
  { intros k Hk. by apply Hsup'. }
  apply Hsup in Hk as [Hkn [[-> HC]|HV]]; apply Hsup' in Hk' as [_ [[-> HC']|HV']].
  - done.
  - exfalso. by eapply (o_excl _ _ _ _ (Hg _ Hkn)).
  - exfalso. by eapply (o_excl _ _ _ _ (Hg _ Hkn)).
  - by eapply (o_once _ _ _ _ (Hg _ Hkn)).
Qed.
End Invariant.

(** ** At most one leader per term *)

(** C2. Election safety.  In a group of [n] servers that start fresh, however
    their loops and timers interleave and however what they write to each other
    is delayed, reordered, repeated or lost, and whatever the device, the
    clients and the log do: no two servers ever become leader of the same term
    (as their log files say), provided that servers count only votes that were
    cast for them in their term, with the stable configuration of all [n], and
    that no term exceeded the 55 bits it has. *)
Theorem one_leader_per_term n g0 g T i i' :
  0 < n <= MAX_SERVER_COUNT -> starts n g0 -> rtc (step n (fresh_votes n)) g0 g ->
  (forall j, 0 <= j < n -> E_log_election 0 ∉ out (g j)) ->
  0 <= i < n -> 0 <= i' < n ->
  E_log_leader T ∈ out (g i) -> E_log_leader T ∈ out (g i') -> i = i'.
Proof.
  intros Hn Hg Hs Hno Hi Hi' HT HT'.
  destruct (run_ok n Hn g0 g Hg Hs Hno) as [_ [C Hok]].
  apply (one_leader_in n Hn C g T); try done; by apply elem_of_elog.
Qed.

(** ** Runs of a group of three *)

Definition demo_group : system := demo_srv 3.

Lemma demo_starts : starts 3 demo_group.
Proof. intros j Hj. split; try done; by apply Forall_replicate. Qed.

(** What the device of a server answers while it votes for server [i]: the
    vote is replicated to a majority and acknowledged; [k] rounds were sent
    before. *)
Definition completes (k i : Z) : poll := Poll [mk_wc (mk_wrid k false false i) IBV_WC_SUCCESS []].
Definition votes_answers (k i : Z) : list poll :=
  [Poll []; Poll []; completes (k + 1) i; Poll []; completes (k + 2) i].

(** All three stand in term 1, as every server does at the start; server 0
    stands again in term 2, server 1 votes for it and server 0 counts. *)
Definition plain_election : list action :=
  [A_run 0 P_election; A_run 1 P_election; A_run 2 P_election;
   A_run 0 P_hb_receive; A_deliver 0 1; A_device 1 (votes_answers 1 0); A_run 1 P_votes;
   A_deliver 1 0; A_run 0 P_count].

(** The log files at the end of a run. *)
Definition log_files (l : list action) : option (list event * list event * list event) :=
  (fun g => (out (g 0), out (g 1), out (g 2))) <$> act_all demo_group l.

Lemma log_files_run l r :
  log_files l = Some r ->
  exists g, act_all demo_group l = Some g /\ (out (g 0), out (g 1), out (g 2)) = r.
Proof. unfold log_files. intros (g & Hg & ->)%fmap_Some. by exists g. Qed.

Lemma plain_election_logs :
  log_files plain_election =
    Some ([E_append_no_op; E_become_leader; E_log_leader 2; E_log_election 2; E_log_election 1],
          [E_log_vote 2 0; E_log_election 1], [E_log_election 1]).
Proof. vm_compute. reflexivity. Qed.

Lemma plain_election_allowed :
  allowed_all 3 (fresh_votes_b 3) demo_group plain_election = true.
Proof. vm_compute. reflexivity. Qed.

Lemma one_leader_per_term_witness :
  exists g, rtc (step 3 (fresh_votes 3)) demo_group g /\ E_log_leader 2 ∈ out (g 0) /\
    forall i, 0 <= i < 3 -> E_log_leader 2 ∈ out (g i) -> 0 = i.
Proof.
  destruct (log_files_run _ _ plain_election_logs) as (g & Hg & [= H0 H1 H2]). exists g.
  assert (rtc (step 3 (fresh_votes 3)) demo_group g) as Hs
    by exact (act_all_steps _ _ _ _ _ _ (fresh_votes_check 3) plain_election_allowed Hg).
  clear Hg.
  assert (E_log_leader 2 ∈ out (g 0)) as HT by (rewrite H0, !elem_of_cons; auto).
  split; [exact Hs|]. split; [exact HT|]. intros i Hi HTi.
  apply (one_leader_per_term 3 demo_group g 2 0 i);
    [done|exact demo_starts|exact Hs| |done|exact Hi|exact HT|exact HTi].
  intros j Hj. assert (j = 0 \/ j = 1 \/ j = 2) as [->|[->| ->]] by lia;
    rewrite ?H0, ?H1, ?H2, ?elem_of_cons, elem_of_nil; intuition discriminate.
Defined.

(** ** Two leaders *)

(** Server 1 votes for server 0 in term 2, but before the acknowledgement lands
    server 0 has started the election of term 3 and cleared its votes; server 2
    stands in term 3 as well, and server 1 votes for it. *)
Definition stale_vote : list action :=
  [A_run 0 P_election; A_run 1 P_election; A_run 2 P_election;
   A_run 0 P_hb_receive; A_deliver 0 1; A_device 1 (votes_answers 1 0); A_run 1 P_votes;
   A_run 0 P_hb_receive; A_deliver 1 0; A_run 0 P_count;
   A_run 2 P_hb_receive; A_run 2 P_hb_receive; A_deliver 2 0;
   A_device 1 (votes_answers 3 2); A_run 1 P_votes; A_deliver 1 0; A_run 2 P_count].

Lemma stale_vote_logs :
  log_files stale_vote =
    Some ([E_append_no_op; E_become_leader; E_log_leader 3; E_log_election 3; E_log_election 2;
           E_log_election 1],
          [E_log_vote 3 2; E_log_vote 2 0; E_log_election 1],
          [E_append_no_op; E_become_leader; E_log_leader 3; E_log_election 3; E_log_election 2;
           E_log_election 1]).
Proof. vm_compute. reflexivity. Qed.

Lemma stale_vote_roles :
  (fun g => (IS_LEADER (g 0), IS_LEADER (g 2), sid (ctrl (g 0)), sid (ctrl (g 2))))
    <$> act_all demo_group stale_vote = Some (true, true, mk_sid 3 true 0, mk_sid 3 true 2).
Proof. vm_compute. reflexivity. Qed.

Lemma stale_vote_allowed :
  allowed_all 3 (fun _ _ => true) demo_group stale_vote = true.
Proof. vm_compute. reflexivity. Qed.

(** C39. Two leaders in one term.  An acknowledgement is a commit offset; it does
    not say which vote it is for.  In a group of three that starts fresh, with
    every write landing once, the vote of server 1 for server 0 in term 2
    arrives after server 0 has moved on to term 3 and cleared its votes, and is
    counted again there: server 0 leads term 3 without any vote in it, and so
    does server 2, for which server 1 voted.  Both are leaders at the end. *)
Theorem two_leaders_in_one_term :
  exists g, starts 3 demo_group /\ rtc (step 3 (fun _ _ => True)) demo_group g /\
    IS_LEADER (g 0) = true /\ sid (ctrl (g 0)) = mk_sid 3 true 0 /\
    IS_LEADER (g 2) = true /\ sid (ctrl (g 2)) = mk_sid 3 true 2 /\
    out (g 1) = [E_log_vote 3 2; E_log_vote 2 0; E_log_election 1].
Proof.
  destruct (log_files_run _ _ stale_vote_logs) as (g & Hg & [= _ H1 _]). exists g.
  split; [exact demo_starts|].
  split; [by refine (act_all_steps _ _ _ _ _ _ _ stale_vote_allowed Hg)|].
  pose proof stale_vote_roles as Hr. rewrite Hg in Hr. clear Hg.
  injection Hr as H2 H3 H4 H5. repeat split; assumption.
Qed.

(** ** The candidate that loses *)

(** Servers 0 and 1 both stand in term 2, server 2 votes for server 0, which
    wins; then twice it sends a heartbeat to server 1 and replicates its log. *)
Definition lead_round : list action :=
  [A_run 0 P_hb_send; A_deliver 0 1; A_run 1 P_hb_receive; A_run 0 P_log].
Definition lost_election : list action :=
  [A_run 0 P_election; A_run 1 P_election; A_run 2 P_election;
   A_run 0 P_hb_receive; A_run 1 P_hb_receive;
   A_deliver 0 0; A_device 2 (votes_answers 1 0); A_run 2 P_votes; A_deliver 2 0; A_run 0 P_count]
  ++ lead_round ++ lead_round.

(** The targets of what a server posted for their logs. *)
Definition log_targets (s : srv) : list Z :=
  wr_server <$> List.filter (fun w => wr_qp w =? LOG_QP) (posted (ib s)).

Lemma lost_election_end :
  (fun g => (IS_LEADER (g 0), IS_FOLLOWER (g 1), sid (ctrl (g 1)), vote (g 0) 1, log_targets (g 0)))
    <$> act_all demo_group lost_election = Some (true, true, mk_sid 2 true 0, None, [2]).
Proof. vm_compute. reflexivity. Qed.

Lemma lost_election_allowed :
  allowed_all 3 (fresh_votes_b 3) demo_group lost_election = true.
Proof. vm_compute. reflexivity. Qed.

(** A candidate that hears of the leader of its own term takes over its state
    identifier and nothing else: it does not acknowledge, as it would for a
    leader of a later term.  The leader, which replicates its log only to
    servers that acknowledged, leaves it out for the rest of the term, although
    it follows. *)
Theorem losing_candidate_is_left_out :
  exists g, rtc (step 3 (fresh_votes 3)) demo_group g /\
    IS_LEADER (g 0) = true /\ IS_FOLLOWER (g 1) = true /\ sid (ctrl (g 1)) = mk_sid 2 true 0 /\
    vote (g 0) 1 = None /\ log_targets (g 0) = [2].
Proof.
  destruct (fmap_Some_1 _ _ _ lost_election_end) as (g & Hg & Hr). exists g.
  split; [by refine (act_all_steps _ _ _ _ _ _ (fresh_votes_check 3) lost_election_allowed Hg)|].
  clear Hg. injection Hr as H1 H2 H3 H4 H5. repeat split; symmetry; assumption.
Qed.
