(* ===== verification/ReplSpec.v ===== *)
(** * Copying the log (dare_ibv_rc.c, [update_remote_logs])

    The leader's update of one follower from both ends: what the leader posts,
    how it takes the completions, and what the log of the follower holds when
    the writes have landed in its memory.  The follower has every entry the
    leader has, in order, around the end of the circular buffer as well; until
    the last write lands it has what it had before.  The second part is about a
    follower whose log has to be cut first. *)

From S2P Require Import Prelude Bytes Words Config Log LogRep LogOps LogSpec State Init Hoare.
From S2P Require Import Qp QpSpec Cq RcOps Replication CqSpec PostSpec System.

Open Scope Z_scope.

(** ** The memory of the follower *)

Lemma rd_copied m m' o n a :
  rd (wr_bytes m o (rd_bytes m' o n)) a =
  if (o <=? a) && (a <? o + Z.of_nat n) then rd m' a else rd m a.
Proof.
  revert o. induction n as [|n IH]; intros o; cbn [rd_bytes wr_bytes].
  { repeat zcase; done || lia. }
  destruct (Z.eq_dec o a) as [->|Hne].
  - rewrite Z.leb_refl, (proj2 (Z.ltb_lt _ _)) by lia. unfold rd at 1.
    rewrite lookup_insert_eq. simpl. rewrite wrap_idemp by done.
    by rewrite u8_small by apply rd_range.
  - unfold rd at 1. rewrite lookup_insert_ne by done. fold (rd (wr_bytes m (o + 1) (rd_bytes m' (o + 1) n)) a).
    rewrite IH. repeat zcase; done || lia.
Qed.

(** The offsets of the bytes a follower with its end at [o] does not have. *)
Definition lacks (l : dare_log_t) (o a : Z) : bool :=
  if o <? end_ l then (o <=? a) && (a <? end_ l)
  else (o <=? a) && (a <? len l) || (0 <=? a) && (a <? end_ l).

(** [fl'] is [fl] with those bytes of [l]. *)
Record copied (l fl : dare_log_t) (o : Z) (fl' : dare_log_t) : Prop := {
  cp_bytes a : rd (entries fl') a = rd (entries (if lacks l o a then l else fl)) a;
  cp_len : len fl' = len fl
}.

(** Going around the buffer from [h] one comes to [o] and then to [e]. *)
Definition clockwise (h o e : Z) : Prop := h <= o <= e \/ o <= e < h \/ e < h <= o.

(** The three positions of the follower's entries, the new ones and the end of
    the buffer. *)
Inductive shape (l fl : dare_log_t) (o h : Z) (ps es : list aentry) : Prop :=
| shape_lin :
    h <= o < end_ l -> cseg fl h ps o -> cseg l o es (end_ l) -> shape l fl o h ps es
| shape_old ps1 m ps2 :
    o < end_ l < h -> ps = ps1 ++ ps2 -> ps2 <> [] -> m <= len l -> wraps_at fl m ->
    cseg fl h ps1 m -> cseg fl 0 ps2 o -> cseg l o es (end_ l) -> shape l fl o h ps es
| shape_new es1 m es2 :
    end_ l < h <= o -> es = es1 ++ es2 -> es2 <> [] -> m <= len l -> wraps_at l m ->
    cseg fl h ps o -> cseg l o es1 m -> cseg l 0 es2 (end_ l) -> shape l fl o h ps es.

Lemma cseg_nonempty l a es b : cseg l a es b -> es <> [] -> a + ENTRY_SIZE <= b.
Proof. intros H Hne. apply cseg_le in H. destruct es; [done|]. simpl in H. log_lia. Qed.

Lemma copy_shape l fl o h ps es :
  end_ fl = o -> live l o es -> live fl h ps -> len fl = len l -> es <> [] ->
  clockwise h o (end_ l) -> shape l fl o h ps es.
Proof.
  unfold clockwise. intros <- Hl Hf Hlen.
  destruct Hf as [ps' Hh Hfe Hfs|ps1 m ps2 Ho Hfs Hm Hw Hn Hfs2 Hfe];
    destruct Hl as [es' Ho' Hle Hls|es1 m' es2 Ho' Hls Hm' Hw' Hn' Hls2 Hle]; intros Hne Hcw;
    pose proof (cseg_le _ _ _ _ Hfs); pose proof (cseg_le _ _ _ _ Hls).
  - pose proof (cseg_nonempty _ _ _ _ Hls Hne). apply shape_lin; auto; log_lia.
  - eapply shape_new; eauto; lia.
  - pose proof (cseg_nonempty _ _ _ _ Hls Hne). eapply shape_old; eauto; log_lia.
  - lia.
Qed.

Section Copy.
Context (l fl fl' : dare_log_t) (o h : Z) (ps es : list aentry).
Context (Ho : end_ fl = o) (Hl : live l o es) (Hf : live fl h ps)
  (Hlen : len fl = len l) (Hne : es <> []) (Hcw : clockwise h o (end_ l)) (Hcp : copied l fl o fl').

Lemma copied_new a b :
  (forall x, a <= x < b -> lacks l o x = true) -> agree (entries l) (entries fl') a b.
Proof. intros H x Hx. by rewrite (cp_bytes _ _ _ _ Hcp), H. Qed.

Lemma copied_old a b :
  (forall x, a <= x < b -> lacks l o x = false) -> agree (entries fl) (entries fl') a b.
Proof. intros H x Hx. by rewrite (cp_bytes _ _ _ _ Hcp), H. Qed.

(** The entries the follower had stay, ... *)
Lemma copied_keeps : end_ fl' = o -> live fl' h ps.
Proof.
  intros He. pose proof (live_offset _ _ _ Hf). pose proof (live_range _ _ _ Hf).
  pose proof (cp_len _ _ _ _ Hcp) as Hln.
  destruct (copy_shape l fl o h ps es Ho Hl Hf Hlen Hne Hcw)
    as [H1 H2 H3|ps1 m ps2 H1 -> H3 H4 H5 H6 H7 H8|es1 m es2 H1 -> H3 H4 H5 H6 H7 H8].
  - apply live_lin; [lia|lia|]. rewrite He. eapply cseg_frame; [|exact H2].
    apply copied_old. intros x Hx. unfold lacks. repeat zcase; done || lia.
  - pose proof (cseg_nonempty _ _ _ _ H7 H3). pose proof (cseg_le _ _ _ _ H6).
    assert (forall a b, h <= a -> agree (entries fl) (entries fl') a b) as Hag.
    { intros a b Ha. apply copied_old. intros x Hx. unfold lacks. repeat zcase; done || lia. }
    assert (agree (entries fl) (entries fl') 0 o).
    { apply copied_old. intros x Hx. unfold lacks. repeat zcase; done || lia. }
    apply live_wrap with m; try lia; [by eapply cseg_frame, H6; apply Hag| |done|].
    + eapply wraps_at_frame, H5; [done|apply Hag; lia|]. eapply agree_sub; eauto; log_lia.
    + rewrite He. by eapply cseg_frame.
  - apply live_lin; [lia|lia|]. rewrite He. eapply cseg_frame; [|exact H6].
    apply copied_old. intros x Hx. unfold lacks. repeat zcase; done || lia.
Qed.

(** ... and the new ones are behind them once the end moves. *)
Lemma copied_extends : end_ fl' = end_ l -> live fl' h (ps ++ es).
Proof.
  intros He. pose proof (live_offset _ _ _ Hf) as Hho. pose proof (live_range _ _ _ Hf) as Hrf.
  pose proof (live_range _ _ _ Hl) as Hrl. pose proof (cp_len _ _ _ _ Hcp) as Hln.
  destruct (copy_shape l fl o h ps es Ho Hl Hf Hlen Hne Hcw)
    as [H1 H2 H3|ps1 m ps2 H1 -> H3 H4 H5 H6 H7 H8|es1 m es2 H1 -> H3 H4 H5 H6 H7 H8].
  - apply live_lin; [lia|lia|]. rewrite He.
    apply cseg_app with o; eapply cseg_frame; [|exact H2| |exact H3];
      [apply copied_old|apply copied_new]; intros x Hx; unfold lacks; repeat zcase; done || lia.
  - pose proof (cseg_nonempty _ _ _ _ H7 H3). pose proof (cseg_le _ _ _ _ H6).
    assert (forall a b, h <= a -> agree (entries fl) (entries fl') a b) as Hag.
    { intros a b Ha. apply copied_old. intros x Hx. unfold lacks. repeat zcase; done || lia. }
    assert (agree (entries fl) (entries fl') 0 o) as Hag0.
    { apply copied_old. intros x Hx. unfold lacks. repeat zcase; done || lia. }
    rewrite <- app_assoc.
    apply live_wrap with m; try lia; [by eapply cseg_frame, H6; apply Hag| | |].
    + eapply wraps_at_frame, H5; [done|apply Hag; lia|]. eapply agree_sub; eauto; log_lia.
    + by destruct ps2.
    + rewrite He. apply cseg_app with o; [by eapply cseg_frame|].
      eapply cseg_frame, H8. apply copied_new. intros x Hx. unfold lacks. repeat zcase; done || lia.
  - pose proof (cseg_nonempty _ _ _ _ H8 H3). pose proof (cseg_le _ _ _ _ H7).
    assert (agree (entries l) (entries fl') o (len l)) as Hag.
    { apply copied_new. intros x Hx. unfold lacks. repeat zcase; done || lia. }
    assert (agree (entries l) (entries fl') 0 (end_ l)) as Hag0.
    { apply copied_new. intros x Hx. unfold lacks. repeat zcase; done || lia. }
    rewrite app_assoc. apply live_wrap with m; try lia; [| |done|].
    + apply cseg_app with o; eapply cseg_frame; [|exact H6| |exact H7];
        [apply copied_old|apply (agree_sub _ _ _ _ _ _ Hag); lia].
      intros x Hx. unfold lacks. repeat zcase; done || lia.
    + destruct (Z.lt_ge_cases (len l - m) ENTRY_SIZE); [left; lia|].
      eapply wraps_at_frame, H5; [lia|apply (agree_sub _ _ _ _ _ _ Hag)|
        apply (agree_sub _ _ _ _ _ _ Hag0)]; log_lia.
    + rewrite He. by eapply cseg_frame.
Qed.
End Copy.

(** ** The writes *)

(** What a work request writes, and where. *)
Definition written (w : wr) : rloc * payload := (wr_loc w, wr_payload w).

(** The one or two writes of an update. *)
Definition update_writes (l : dare_log_t) (o : Z) : list (rloc * payload) :=
  let '(a, b) := missing l o in
  (L_log_entries (fst a) (snd a), segment l a) ::
  (if 0 <? snd b then [(L_log_entries 0 (snd b), segment l b)] else []).

(** Requests on the log queue pair of [i]. *)
Definition log_request (i : Z) (w : wr) : Prop := wr_server w = i /\ wr_qp w = LOG_QP.

Definition lands (ws : list wr) (f : srv) : srv := foldl (fun f w => receives w f) f ws.

Lemma receives_entries i w o n bs f :
  log_request i w -> wr_loc w = L_log_entries o n -> wr_payload w = P_bytes bs ->
  slog (receives w f) = set_entries (slog f) (wr_bytes (entries (slog f)) o bs).
Proof. intros [_ Hq] H1 H2. unfold receives, place_log. by rewrite Hq, H1, H2. Qed.

Lemma receives_end i w x f :
  log_request i w -> wr_loc w = L_log_end -> wr_payload w = P_u64 x ->
  slog (receives w f) = set_end (slog f) (u64 x).
Proof. intros [_ Hq] H1 H2. unfold receives, place_log. by rewrite Hq, H1, H2. Qed.

(** They bring exactly the bytes the follower lacks, and leave its end. *)
Lemma lands_copied i l o ws f :
  0 <= end_ l < len l -> len l < 2 ^ 32 -> 0 <= o <= len l ->
  Forall (log_request i) ws -> written <$> ws = update_writes l o ->
  copied l (slog f) o (slog (lands ws f)) /\ end_ (slog (lands ws f)) = end_ (slog f).
Proof.
  intros He Hlen Ho Hws. unfold update_writes, missing, segment.
  assert (forall fl m, (forall a, rd m a = rd (entries (if lacks l o a then l else fl)) a) ->
    copied l fl o (set_entries fl m) /\ end_ (set_entries fl m) = end_ fl) as Hcp by done.
  destruct (Z.ltb_spec o (end_ l)) as [Hlt|Hge]; cbn [fst snd].
  - rewrite u64_small, wrap_small by lia. cbn [Z.ltb Z.compare].
    destruct ws as [|w [|? ?]]; [done| |done]. intros [= Hl Hp].
    inversion_clear Hws as [|? ? Hq _]. cbn [lands foldl].
    rewrite (receives_entries _ _ _ _ _ _ Hq Hl Hp). apply Hcp. intros a.
    rewrite rd_copied. unfold lacks. rewrite (proj2 (Z.ltb_lt o _)) by done.
    repeat zcase; done || lia.
  - rewrite u64_small, !wrap_small by (rewrite ?u64_small; lia).
    destruct ws as [|w ws]; [done|]. intros [= Hl Hp Hw'].
    inversion_clear Hws as [|? ? Hq Hqs]. destruct (Z.ltb_spec 0 (end_ l)).
    + destruct ws as [|w' [|? ?]]; [done| |done]. injection Hw' as Hl' Hp'.
      inversion_clear Hqs as [|? ? Hq' _]. cbn [lands foldl].
      rewrite (receives_entries _ _ _ _ _ _ Hq' Hl' Hp'), (receives_entries _ _ _ _ _ _ Hq Hl Hp).
      cbn [entries set_entries]. set (m := wr_bytes _ 0 _). apply (Hcp (slog f) m). intros a.
      unfold m. rewrite !rd_copied. unfold lacks.
      rewrite (proj2 (Z.ltb_ge o _)) by done. repeat zcase; done || lia.
    + destruct ws; [|done]. cbn [lands foldl]. rewrite (receives_entries _ _ _ _ _ _ Hq Hl Hp).
      apply Hcp. intros a. rewrite rd_copied. unfold lacks.
      rewrite (proj2 (Z.ltb_ge o _)) by done. repeat zcase; done || lia.
Qed.

(** ** The leader *)

(** What the code of an update looks at: server [i] is another server that is
    on and connected, [v] and [o] is what the leader keeps of it, its log queue
    pair takes [k] more requests, nothing is outstanding; [n] is the number of
    the round, [P] what was posted. *)
Record link (i : Z) (l : dare_log_t) (v : server_t) (o : log_offsets_t) (n : Z) (wa : bool)
    (P : list wr) (k : Z) (s : srv) : Prop := {
  lk_other : other_server (conf s) i = true;
  lk_log : slog s = l;
  lk_server : aget (servers (conf s)) i = Some v;
  lk_offsets : aget (log_offsets (ctrl s)) i = Some o;
  lk_ep : exists e, aget (eps s) i = Some e /\ rc_connected e <> 0 /\
    qp_st (log_qp e) = RC_QP_ACTIVE /\ 0 <= qp_send_count (log_qp e) /\
    qp_send_count (log_qp e) + k < Z.shiftr (3 * rc_max_send_wr (ib s)) 2 < 2 ^ 32;
  lk_cq : log_cq (ib s) = [];
  lk_post : post_res (ib s) = [];
  lk_ssn : ssn (ib s) = n;
  lk_wa : wa_flag (ib s) = wa;
  lk_posted : posted (ib s) = P
}.

Lemma aget_put_eq {A} (l : list A) i x y : aget l i = Some x -> aget (<[Z.to_nat i := y]> l) i = Some y.
Proof.
  intros H. pose proof (aget_Some _ _ _ H). unfold aget. rewrite (proj2 (Z.leb_le _ _)) by lia.
  apply list_lookup_insert_eq. lia.
Qed.

Lemma link_fewer i l v o n wa P k k' s :
  k' <= k -> link i l v o n wa P k s -> link i l v o n wa P k' s.
Proof.
  intros Hk [H1 H2 H3 H4 (e & He & Hc & Hst & H0 & Hlim) H6 H7 H8 H9 H10]. split; try done.
  exists e. split_and!; done || lia.
Qed.

Section Leader.
Context (i : Z) (l : dare_log_t) (Hi : 0 <= i < 256).
Implicit Types (v : server_t) (o : log_offsets_t).

Lemma link_on_server f v o n wa P k s :
  link i l v o n wa P k s -> exists s', on_server i f s = Ret tt s' /\ link i l (f v) o n wa P k s'.
Proof.
  intros [H1 H2 H3 H4 H5 H6 H7 H8 H9 H10]. eexists. split; [by apply on_server_run|].
  split; try done. simpl. by eapply aget_put_eq.
Qed.

Lemma link_on_ib_wa wa' v o n wa P k s :
  link i l v o n wa P k s ->
  exists s', on_ib (set_wa_flag wa') s = Ret tt s' /\ link i l v o n wa' P k s'.
Proof. intros [H1 H2 H3 H4 H5 H6 H7 H8 H9 H10]. eexists. split; [done|]. by split. Qed.

Lemma link_open init v o n wa P k s :
  link i l v o n wa P k s ->
  exists s', open_round init s = Ret true s' /\
    link i l v o (if init then n else u64 (n + 1)) wa P k s'.
Proof.
  intros [H1 H2 H3 H4 H5 H6 H7 H8 H9 H10]. destruct init; (eexists; split; [done|]); split; try done.
  simpl. by rewrite H8.
Qed.

Lemma link_on_offsets f v o n wa P k s :
  link i l v o n wa P k s ->
  exists s', on_offsets i f s = Ret tt s' /\ link i l v (f o) n wa P k s'.
Proof.
  intros [H1 H2 H3 H4 H5 H6 H7 H8 H9 H10]. eexists. split.
  - unfold on_offsets. rewrite (bind_run _ _ _ _ _ (ctrl_get_run _ _ _ _ H4)).
    apply ctrl_put_run. by eapply aget_Some.
  - split; try done. simpl. by eapply aget_put_eq.
Qed.

(** The identifier of the awaited request, and those of the posted ones. *)
Definition awaited v n : server_t :=
  set_next_wr_id (WRID_SET_CONN (WRID_SET_SSN (next_wr_id v) n) i) (set_send_flag 0 v).

Lemma link_await v o n wa P k s :
  link i l v o n wa P k s ->
  exists s', await_request i s = Ret tt s' /\ link i l (awaited v n) o n wa P k s'.
Proof.
  intros H. unfold await_request. rewrite bind_get, (lk_ssn _ _ _ _ _ _ _ _ _ H).
  exact (link_on_server _ _ _ _ _ _ _ _ H).
Qed.

Lemma link_post loc p v o n wa P k s :
  0 <= n < 2 ^ 54 -> 0 <= k -> link i l v o n wa P (k + 1) s ->
  exists s' w tag, post_send i LOG_QP loc p true None s = Ret (0, None) s' /\
    link i l v o n false (w :: P) k s' /\ log_request i w /\ written w = (loc, p) /\
    wr_wr_id w = mk_wrid n wa tag i.
Proof.
  intros Hn Hk [H1 H2 H3 H4 (e & He & Hc & Hst & H0 & Hlim) H6 H7 H8 H9 H10].
  destruct (post_send_ready LOG_QP i loc p true None s e) as (q & tag & Hr & Hq & Hcnt);
    [done|done|done|unfold sendable; change (get_qp LOG_QP e) with (log_qp e); split_and!; done || lia|].
  eexists _, (mk_wr _ _ _ _ _ _), tag. split; [exact Hr|].
  split; [|split; [split; reflexivity|split; [reflexivity|]]].
  - split; try done; simpl; [|f_equal; exact H10]. exists (set_log_qp q e). simpl.
    split; [by eapply aget_put_eq|]. change (get_qp LOG_QP e) with (log_qp e) in Hcnt.
    split_and!; try done; lia.
  - simpl. rewrite H8, H9, next_wrid_spec by done. destruct tag; [by rewrite wrid_set_tag|done].
Qed.

(** What the leader keeps of the server once the writes of an update are
    posted. *)
Definition updating v o n : server_t :=
  awaited (set_send_count (if lo_end o <? end_ l then 1 else 2)
             (set_cached_end_offset (end_ l) v)) n.

(** The requests of a round. *)
Definition of_round n (ws : list wr) : Prop :=
  Forall (fun w => exists wa tag, wr_wr_id w = mk_wrid n wa tag i) ws.

Lemma write_entries_run v o n P k s :
  0 <= n < 2 ^ 54 -> 0 <= k -> link i l v o n false P (k + 1) s ->
  exists s' w, write_entries i s = Ret tt s' /\
    link i l (updating v o n) o n false (w :: P) k s' /\ log_request i w /\
    written w = (let a := fst (missing l (lo_end o)) in (L_log_entries (fst a) (snd a), segment l a)) /\
    of_round n [w].
Proof.
  intros Hn Hk H. unfold write_entries.
  rewrite (bind_run _ _ _ _ _ (ctrl_get_run _ _ _ _ (lk_offsets _ _ _ _ _ _ _ _ _ H))).
  rewrite bind_get, (lk_log _ _ _ _ _ _ _ _ _ H). destruct (missing l (lo_end o)) as [a b].
  edestruct link_on_server as (s1 & R1 & H1); [exact H|]. rewrite (bind_run _ _ _ _ _ R1).
  edestruct link_await as (s2 & R2 & H2); [exact H1|]. rewrite (bind_run _ _ _ _ _ R2).
  edestruct link_post as (s3 & w & tag & R3 & H3 & Hw & Hwr & Hid); [exact Hn|exact Hk|exact H2|].
  erewrite (bind_run _ _ _ _ _ R3). exists s3, w. split; [done|]. split; [exact H3|].
  split_and!; [done|done|]. apply Forall_singleton. by eexists _, _.
Qed.

Lemma write_wrapped_run b v o n P k s :
  0 <= n < 2 ^ 54 -> 0 <= k -> link i l v o n false P (k + 1) s -> send_flag v = 0 ->
  exists s' w, write_wrapped i b s = Ret None s' /\
    link i l v o n false (w :: P) k s' /\ log_request i w /\
    written w = (L_log_entries 0 (snd b), segment l b) /\ of_round n [w].
Proof.
  intros Hn Hk H Hv. unfold write_wrapped. rewrite bind_get, (lk_log _ _ _ _ _ _ _ _ _ H).
  edestruct link_on_server as (s1 & R1 & H1); [exact H|]. rewrite (bind_run _ _ _ _ _ R1).
  edestruct link_on_ib_wa as (s2 & R2 & H2); [exact H1|]. rewrite (bind_run _ _ _ _ _ R2).
  edestruct link_post as (s3 & w & tag & R3 & H3 & Hw & Hwr & Hid); [exact Hn|exact Hk|exact H2|].
  erewrite (bind_run _ _ _ _ _ R3). exists s3, w. split; [done|].
  split; [by destruct v; cbn in Hv; subst|]. split_and!; [done|done|].
  apply Forall_singleton. by eexists _, _.
Qed.

(** The leader may send to the server. *)
Definition may_send v : Prop := send_flag v <> 0 /\ fail_count v < PERMANENT_FAILURE.

Lemma update_enter v o n wa P k s :
  link i l v o n wa P k s -> may_send v ->
  exists e, aget (eps s) i = Some e /\ (negb (lr_active v e) || (send_flag v =? 0)) = false.
Proof.
  intros H [H1 H2]. destruct (lk_ep _ _ _ _ _ _ _ _ _ H) as (e & He & Hc & _). exists e.
  split; [done|]. unfold lr_active. rewrite (proj2 (Z.ltb_lt _ _)) by done.
  by rewrite !(proj2 (Z.eqb_neq _ _)) by done.
Qed.

(** The first half of an update: the missing bytes are posted. *)
Lemma update_log_run (init : bool) v o n P k s :
  let n' := if init then n else u64 (n + 1) in
  0 <= n' < 2 ^ 54 -> 0 <= k -> 0 < end_ l < len l -> len l < 2 ^ 32 ->
  link i l v o n false P (k + 1 + 1) s -> may_send v -> next_lr_step v = LR_UPDATE_LOG ->
  log_offset_end_distance l (lo_end o) <> 0 ->
  exists s' ws, update_one i init s = Ret (true, None) s' /\
    link i l (updating v o n') o n' false (reverse ws ++ P) k s' /\
    Forall (log_request i) ws /\ written <$> ws = update_writes l (lo_end o) /\
    of_round n' ws /\ Z.of_nat (length ws) = send_count (updating v o n').
Proof.
  intros n' Hn Hk He Hlen H Hv Hst Hd. unfold update_one.
  rewrite bind_get, (lk_other _ _ _ _ _ _ _ _ _ H). cbn [negb].
  rewrite (bind_run _ _ _ _ _ (server_at_run _ _ _ (lk_server _ _ _ _ _ _ _ _ _ H))).
  destruct (update_enter _ _ _ _ _ _ _ H Hv) as (e & Hep & Hen).
  rewrite (bind_run _ _ _ _ _ (ep_at_run _ _ _ Hep)), Hen, Hst, Z.eqb_refl.
  rewrite (bind_run _ _ _ _ _ (ctrl_get_run _ _ _ _ (lk_offsets _ _ _ _ _ _ _ _ _ H))).
  rewrite bind_get, (lk_log _ _ _ _ _ _ _ _ _ H), (proj2 (Z.eqb_neq _ _)) by done.
  destruct (link_open init _ _ _ _ _ _ _ H) as (s1 & R1 & H1). rewrite (bind_run _ _ _ _ _ R1).
  fold n' in H1.
  edestruct write_entries_run as (s2 & w & R2 & H2 & Hw & Hwr & Hid); [exact Hn| |exact H1|]; [lia|].
  rewrite (bind_run _ _ _ _ _ R2). unfold update_writes.
  assert ((0 <? snd (snd (missing l (lo_end o)))) = negb (lo_end o <? end_ l)) as Hb.
  { unfold missing. destruct (lo_end o <? end_ l); [done|]. cbn [snd]. rewrite wrap_small by lia.
    apply Z.ltb_lt. lia. }
  unfold updating, awaited in *. rewrite Hb. destruct (missing l (lo_end o)) as [a b]. cbn [fst snd] in *.
  destruct (lo_end o <? end_ l); cbn [negb] in *.
  - exists s2, [w]. split; [done|]. cbn [fmap list_fmap]. rewrite Hwr, Hb.
    split; [revert H2; apply link_fewer; lia|]. split; [by apply Forall_singleton|done].
  - destruct (write_wrapped_run b _ _ _ _ _ _ Hn Hk H2 eq_refl) as (s3 & w' & R3 & H3 & Hw' & Hwr' & Hid').
    rewrite (bind_run _ _ _ _ _ R3). exists s3, [w; w'].
    split; [done|]. split; [exact H3|]. cbn [fmap list_fmap]. rewrite Hwr, Hwr', Hb.
    split; [apply Forall_cons; split; [done|by apply Forall_singleton]|]. split; [done|]. split; [|done].
    unfold of_round in *. rewrite Forall_cons. split; [by rewrite Forall_singleton in Hid|done].
Qed.

(** *** Completions *)

(** The device has finished the requests. *)
Definition done_wc (w : wr) : wc := mk_wc (wr_wr_id w) IBV_WC_SUCCESS [].
Definition completes (ws : list wr) (s : srv) : srv :=
  set_ib (set_log_cq [Poll (done_wc <$> ws)] (ib s)) s.

(** Completions also end the wait for a read of an earlier round. *)
Definition seen n v : server_t :=
  if last_get_read_ssn v <=? n then set_last_get_read_ssn 0 v else v.

Definition finished n v : server_t := set_fail_count 0 (lr_success (seen n v)).

Lemma link_with_server f v o n wa P k s :
  link i l v o n wa P k s ->
  exists s', on_server i f s = Ret tt s' /\ link i l (f v) o n wa P k s' /\ ib s' = ib s.
Proof.
  intros H. destruct (link_on_server f _ _ _ _ _ _ _ H) as (s' & R & H'). exists s'.
  split_and!; try done. rewrite (on_server_run _ _ _ _ (lk_server _ _ _ _ _ _ _ _ _ H)) in R.
  by injection R as <-.
Qed.

Lemma link_on_qp f v o n wa P k s :
  (forall q, qp_st q = RC_QP_ACTIVE ->
     qp_st (f q) = RC_QP_ACTIVE /\ qp_send_count (f q) = qp_send_count q) ->
  link i l v o n wa P k s ->
  exists s', on_qp i LOG_QP f s = Ret tt s' /\ link i l v o n wa P k s' /\ ib s' = ib s.
Proof.
  intros Hf [H1 H2 H3 H4 (e & He & Hc & Hst & H0 & Hlim) H6 H7 H8 H9 H10]. eexists.
  split; [by apply on_ep_run|]. split; [|done]. split; try done. simpl.
  exists (set_log_qp (f (log_qp e)) e). split; [by eapply aget_put_eq|]. simpl.
  destruct (Hf (log_qp e) Hst) as [-> ->]. split_and!; done || lia.
Qed.

Lemma link_note wid v o n wa P k s :
  WRID_GET_CONN wid = i -> WRID_GET_SSN wid = n -> link i l v o n wa P k s ->
  exists r s', note_completion LOG_QP wid s = Ret r s' /\
    link i l (seen n v) o n wa P k s' /\ ib s' = ib s.
Proof.
  intros Hc Hn H. unfold note_completion. rewrite Hc, Hn.
  rewrite (bind_run _ _ _ _ _ (server_at_run _ _ _ (lk_server _ _ _ _ _ _ _ _ _ H))).
  destruct (lk_ep _ _ _ _ _ _ _ _ _ H) as (e & He & _ & Hst & _).
  rewrite (bind_run _ _ _ _ _ (ep_at_run _ _ _ He)). rewrite Z.eqb_refl. cbn [andb].
  assert (exists s1, when (last_get_read_ssn v <=? n) (on_server i (set_last_get_read_ssn 0)) s =
    Ret tt s1 /\ link i l (seen n v) o n wa P k s1 /\ ib s1 = ib s) as (s1 & R1 & H1 & Hb).
  { unfold seen, when. destruct (_ <=? _); [by apply link_with_server|by exists s]. }
  rewrite (bind_run _ _ _ _ _ R1). change (get_qp LOG_QP e) with (log_qp e).
  destruct (negb _); [|by eexists _, _]. destruct (wid =? _); [|by eexists _, _].
  edestruct link_on_qp as (s2 & R2 & H2 & Hb2); [|exact H1|rewrite (bind_run _ _ _ _ _ R2)].
  - intros q Hq. cbn. by rewrite Hq.
  - eexists _, s2. split; [done|]. split; [exact H2|congruence].
Qed.

(** A completion of the awaited round, at place [c] of the array. *)
Lemma completion_run j (c : nat) w wa tag v o n P k s :
  0 <= n < 2 ^ 54 -> (c < 256)%nat -> wr_wr_id w = mk_wrid n wa tag i ->
  next_wr_id v = mk_wrid n false false i -> wc_array (ib s) !! c = Some (done_wc w) ->
  link i l v o n false P k s ->
  exists s', ecq_one j LOG_QP (Z.of_nat c) (done_wc w) (false, None) s = Ret (false, None) s' /\
    link i l (finished n v) o n false P k s' /\ wc_array (ib s') = wc_array (ib s).
Proof.
  intros Hn Hc Hid Hv Hw H. unfold ecq_one. cbn [wc_wr_id done_wc]. rewrite Hid.
  rewrite !wrid_get_conn, wrid_get_ssn by done.
  destruct (link_note (mk_wrid n wa tag i) _ _ _ _ _ _ _ (wrid_get_conn _ _ _ _ Hi)
    (wrid_get_ssn _ _ _ _ Hi) H) as ([can found] & s1 & R1 & H1 & Hb1).
  rewrite (bind_run _ _ _ _ _ R1). cbn [handle_work_completion wc_status].
  edestruct (link_with_server lr_success) as (s2 & R2 & H2 & Hb2); [exact H1|].
  assert (handle_lr_work_completion (Z.of_nat c) WC_SUCCESS s1 = Ret tt s2) as Hh.
  { unfold handle_lr_work_completion. rewrite bind_get, Hb1.
    rewrite wrap_small by lia.
    assert (aget (wc_array (ib s)) (Z.of_nat c) = Some (done_wc w)) as Ha.
    { unfold aget. by rewrite (proj2 (Z.leb_le _ _)), Nat2Z.id by lia. }
    rewrite Ha, (bind_run _ _ s1 (done_wc w) s1 eq_refl). cbn [wc_wr_id done_wc]. rewrite Hid.
    rewrite wrid_unset_tag, wrid_unset_wa, wrid_get_conn by done.
    rewrite (bind_run _ _ _ _ _ (server_at_run _ _ _ (lk_server _ _ _ _ _ _ _ _ _ H1))).
    assert (next_wr_id (seen n v) = mk_wrid n false false i) as ->
      by (unfold seen; by destruct (_ <=? _)).
    rewrite Z.eqb_refl. exact R2. }
  rewrite (bind_run _ _ _ _ _ Hh), bind_get, Z.eqb_refl.
  edestruct (link_with_server (set_fail_count 0)) as (s3 & R3 & H3 & Hb3); [exact H2|].
  rewrite (bind_run _ _ _ _ _ R3). exists s3. split; [|split; [exact H3|congruence]].
  rewrite (lk_ssn _ _ _ _ _ _ _ _ _ H2), Z.eqb_refl. by destruct (found && _).
Qed.

Lemma finished_next v n : next_wr_id (finished n v) = next_wr_id v.
Proof.
  unfold finished, lr_success, seen. destruct (_ <=? _); cbn; repeat (destruct (_ =? _); try done).
Qed.

(** All completions of a round in one poll. *)
Lemma completions_run j ws : forall (c : nat) pre v o n P k s,
  0 <= n < 2 ^ 54 -> (length ws + c < 256)%nat -> of_round n ws ->
  next_wr_id v = mk_wrid n false false i ->
  drop c (wc_array (ib s)) = (done_wc <$> ws) ++ pre -> link i l v o n false P k s ->
  exists s', ecq_wcs j LOG_QP (Z.of_nat c) (done_wc <$> ws) (false, None) s = Ret (false, None) s' /\
    link i l (Nat.iter (length ws) (finished n) v) o n false P k s'.
Proof.
  induction ws as [|w ws IH]; intros c pre v o n P k s Hn Hc Hr Hv Ha H; [by exists s|].
  unfold of_round in Hr. apply Forall_cons in Hr as [(wa & tag & Hid) Hr].
  cbn [fmap list_fmap app] in Ha. cbn [length] in Hc.
  destruct (completion_run j c w wa tag v o n P k s) as (s1 & R1 & H1 & Hw1);
    [done|lia|done|done| |done|].
  { rewrite <- (Nat.add_0_r c), <- lookup_drop, Ha. done. }
  cbn [fmap list_fmap ecq_wcs]. rewrite (bind_run _ _ _ _ _ R1).
  destruct (IH (S c) pre (finished n v) o n P k s1) as (s2 & R2 & H2);
    [done|lia|done|by rewrite finished_next| |done|].
  { rewrite Hw1. replace (S c) with (c + 1)%nat by lia. by rewrite <- drop_drop, Ha. }
  replace (Z.of_nat c + 1) with (Z.of_nat (S c)) by lia. exists s2. split; [exact R2|].
  cbn [length]. by rewrite Nat.iter_succ_r.
Qed.

Lemma each_done ws s : each apply_wc (done_wc <$> ws) s = Ret tt s.
Proof. induction ws as [|w ws IH]; [done|]. cbn [fmap list_fmap each]. by rewrite (bind_run _ _ s tt s). Qed.

Lemma poll_done ws s :
  ibv_poll_cq LOG_QP (completes ws s) =
  Ret (Some (done_wc <$> ws))
    (set_ib (set_wc_array ((done_wc <$> ws) ++ drop (length (done_wc <$> ws)) (wc_array (ib s)))
       (set_log_cq [] (ib s))) s).
Proof.
  unfold ibv_poll_cq. rewrite bind_get. unfold on_ib. cbn [get_cq Z.eqb].
  change (get_cq LOG_QP (ib (completes ws s))) with [Poll (done_wc <$> ws)]. cbv iota.
  rewrite bind_upd. erewrite bind_run by apply each_done. done.
Qed.

Lemma completes_run j ws v o n P k s :
  0 <= n < 2 ^ 54 -> (0 < length ws < 256)%nat -> of_round n ws ->
  next_wr_id v = mk_wrid n false false i -> link i l v o n false P k s ->
  exists s', empty_completion_queue j LOG_QP false None (completes ws s) = Ret None s' /\
    link i l (Nat.iter (length ws) (finished n) v) o n false P k s'.
Proof.
  intros Hn Hl Hr Hv H. unfold empty_completion_queue. rewrite bind_get.
  change (length (get_cq LOG_QP (ib (completes ws s)))) with 1%nat. cbn [ecq_loop].
  rewrite (bind_run _ _ _ _ _ (poll_done ws s)).
  set (s1 := set_ib _ s). assert (link i l v o n false P k s1) as H1.
  { destruct H as [H1 H2 H3 H4 H5 H6 H7 H8 H9 H10]. by split. }
  destruct (completions_run j ws 0 (drop (length (done_wc <$> ws)) (wc_array (ib s))) v o n P k s1)
    as (s2 & R2 & H2); [done|lia|done|done|done|done|].
  destruct ws as [|w ws]; [simpl in Hl; lia|]. cbn [fmap list_fmap] in *.
  rewrite (bind_run _ _ _ _ _ R2). exists s2. split; [|done]. cbn [ecq_loop].
  unfold ibv_poll_cq. rewrite bind_assoc, bind_get.
  change (get_cq LOG_QP (ib s2)) with (log_cq (ib s2)). by rewrite (lk_cq _ _ _ _ _ _ _ _ _ H2).
Qed.

(** The last completion of an update: the end offset is next; ... *)
Lemma finished_last v n :
  next_lr_step v = LR_UPDATE_LOG -> send_count v = 1 ->
  let v' := finished n v in
  may_send v' /\ next_lr_step v' = LR_UPDATE_END /\
  cached_end_offset v' = cached_end_offset v /\ next_wr_id v' = next_wr_id v.
Proof.
  intros Hst Hc. unfold finished, lr_success, may_send.
  assert (next_lr_step (seen n v) = LR_UPDATE_LOG /\ send_count (seen n v) = 1 /\
    cached_end_offset (seen n v) = cached_end_offset v /\ next_wr_id (seen n v) = next_wr_id v)
    as (-> & -> & <- & <-) by (unfold seen; by destruct (_ <=? _)).
  cbn. split_and!; done || unfold PERMANENT_FAILURE; lia.
Qed.

(** ... the first of two changes only their number. *)
Lemma finished_first v n :
  next_lr_step v = LR_UPDATE_LOG -> send_count v = 2 ->
  let v' := finished n v in
  next_lr_step v' = LR_UPDATE_LOG /\ send_count v' = 1 /\
  cached_end_offset v' = cached_end_offset v /\ next_wr_id v' = next_wr_id v.
Proof.
  intros Hst Hc. unfold finished, lr_success.
  assert (next_lr_step (seen n v) = LR_UPDATE_LOG /\ send_count (seen n v) = 2 /\
    cached_end_offset (seen n v) = cached_end_offset v /\ next_wr_id (seen n v) = next_wr_id v)
    as (Hst' & Hc' & <- & <-) by (unfold seen; by destruct (_ <=? _)).
  rewrite Hst', Hc'. cbn. rewrite Hst'. by split_and!.
Qed.

Lemma update_finished v o n :
  next_lr_step v = LR_UPDATE_LOG ->
  let u := updating v o n in let v' := Nat.iter (Z.to_nat (send_count u)) (finished n) u in
  may_send v' /\ next_lr_step v' = LR_UPDATE_END /\ cached_end_offset v' = end_ l /\
  next_wr_id v' = next_wr_id u.
Proof.
  intros Hst u. assert (next_lr_step u = LR_UPDATE_LOG) as Hu by done.
  assert (cached_end_offset u = end_ l) as He by done.
  assert (send_count u = 1 \/ send_count u = 2) as [Hc|Hc]
    by (unfold u, updating, awaited; cbn; destruct (_ <? _); auto); clearbody u; rewrite Hc.
  - rewrite <- He. by apply finished_last.
  - destruct (finished_first u n Hu Hc) as (H1 & H2 & H3 & H4).
    rewrite <- He, <- H3, <- H4. by apply finished_last.
Qed.

(** The second half: the end offset. *)
Lemma update_end_run (init : bool) v o n P k s :
  let n' := if init then n else u64 (n + 1) in
  0 <= n' < 2 ^ 54 -> 0 <= k -> link i l v o n false P (k + 1) s -> may_send v ->
  next_lr_step v = LR_UPDATE_END ->
  exists s' w, update_one i init s = Ret (true, None) s' /\
    link i l (awaited v n') (set_lo_end (cached_end_offset v) o) n' false (w :: P) k s' /\
    log_request i w /\ written w = (L_log_end, P_u64 (cached_end_offset v)) /\ of_round n' [w].
Proof.
  intros n' Hn Hk H Hv Hst. unfold update_one.
  rewrite bind_get, (lk_other _ _ _ _ _ _ _ _ _ H). cbn [negb].
  rewrite (bind_run _ _ _ _ _ (server_at_run _ _ _ (lk_server _ _ _ _ _ _ _ _ _ H))).
  destruct (update_enter _ _ _ _ _ _ _ H Hv) as (e & Hep & Hen).
  rewrite (bind_run _ _ _ _ _ (ep_at_run _ _ _ Hep)), Hen, Hst.
  change (LR_UPDATE_END =? LR_UPDATE_LOG) with false. rewrite Z.eqb_refl. cbv iota.
  destruct (link_open init _ _ _ _ _ _ _ H) as (s1 & R1 & H1). rewrite (bind_run _ _ _ _ _ R1).
  fold n' in H1. unfold write_end. rewrite bind_assoc.
  rewrite (bind_run _ _ _ _ _ (server_at_run _ _ _ (lk_server _ _ _ _ _ _ _ _ _ H1))), bind_assoc.
  edestruct link_on_offsets as (s2 & R2 & H2); [exact H1|]. rewrite (bind_run _ _ _ _ _ R2), bind_assoc.
  edestruct link_await as (s3 & R3 & H3); [exact H2|]. rewrite (bind_run _ _ _ _ _ R3), bind_assoc.
  edestruct link_post as (s4 & w & tag & R4 & H4 & Hw & Hwr & Hid); [exact Hn|exact Hk|exact H3|].
  erewrite (bind_run _ _ _ _ _ R4). exists s4, w. split; [done|]. split; [exact H4|].
  split_and!; [done|done|]. apply Forall_singleton. by eexists _, _.
Qed.

Lemma end_finished v n :
  next_lr_step v = LR_UPDATE_END ->
  next_lr_step (finished n (awaited v n)) = LR_UPDATE_LOG /\
  send_flag (finished n (awaited v n)) = 1.
Proof.
  intros Hst. destruct v as [w c r f t g k]. cbn in Hst. subst t.
  unfold finished, seen, awaited. cbn. by destruct (_ <=? _).
Qed.
End Leader.

(** ** An update *)

(** The leader may update server [i]: nothing is outstanding, and there is room
    for the three requests of an update and for two more rounds. *)
Record updatable (i : Z) (s : srv) (v : server_t) (o : log_offsets_t) : Prop := {
  up_link : link i (slog s) v o (ssn (ib s)) false (posted (ib s)) 3 s;
  up_idx : 0 <= i < 256;
  up_send : may_send v;
  up_step : next_lr_step v = LR_UPDATE_LOG;
  up_id : exists m c, 0 <= m < 2 ^ 54 /\ 0 <= c < 256 /\ next_wr_id v = mk_wrid m false false c;
  up_ssn : 0 <= ssn (ib s) < 2 ^ 54 - 2
}.

(** The leader knows that the log of server [i] ends where its own does, and
    may send to it again. *)
Record up_to_date (i : Z) (s : srv) (o : log_offsets_t) : Prop := {
  ud_step v : aget (servers (conf s)) i = Some v -> next_lr_step v = LR_UPDATE_LOG /\ send_flag v = 1;
  ud_end : aget (log_offsets (ctrl s)) i = Some (set_lo_end (end_ (slog s)) o)
}.

(** A full update: the bytes, their completions, the end offset, its
    completion; [ws] are the writes of the bytes and [w] is that of the end. *)
Record full_update (i : Z) (s : srv) (ws : list wr) (w : wr) (s' : srv) : Prop := {
  fu_run : exists s1 s2 s3,
    update_one i false s = Ret (true, None) s1 /\ posted (ib s1) = reverse ws ++ posted (ib s) /\
    empty_completion_queue 0 LOG_QP false None (completes ws s1) = Ret None s2 /\
    update_one i false s2 = Ret (true, None) s3 /\ posted (ib s3) = w :: posted (ib s1) /\
    empty_completion_queue 0 LOG_QP false None (completes [w] s3) = Ret None s';
  fu_to : Forall (log_request i) (ws ++ [w])
}.

Lemma full_update_run i s v o :
  updatable i s v o -> 0 < end_ (slog s) < len (slog s) -> len (slog s) < 2 ^ 32 ->
  log_offset_end_distance (slog s) (lo_end o) <> 0 ->
  exists ws w s', full_update i s ws w s' /\ up_to_date i s' o /\ slog s' = slog s /\
    written <$> ws = update_writes (slog s) (lo_end o) /\
    written w = (L_log_end, P_u64 (end_ (slog s))).
Proof.
  intros [Hl Hi Hv Hst (m & c & Hm & Hc & Hid) Hn] He Hlen Hd.
  set (l := slog s) in *. set (n := ssn (ib s)) in *.
  assert (u64 (n + 1) = n + 1 /\ u64 (n + 1 + 1) = n + 1 + 1) as [E1 E2]
    by (rewrite !u64_small by lia; done).
  destruct (update_log_run i l Hi false v o n (posted (ib s)) 1 s) as (s1 & ws & R1 & H1 & Hw & Hwr & Hr & Hc1);
    [lia|lia|done|done|done|done|done|done|]. rewrite E1 in *.
  destruct (update_finished i l v o (n + 1) Hst) as (Hv2 & Hst2 & Hce2 & Hid2). rewrite <- Hc1, Nat2Z.id in *.
  assert (next_wr_id (updating i l v o (n + 1)) = mk_wrid (n + 1) false false i) as Hid1.
  { unfold updating, awaited. cbn. rewrite Hid, wrid_set_ssn, wrid_set_conn by lia. done. }
  assert (0 < length ws < 256)%nat as Hlw.
  { unfold updating, awaited in Hc1. cbn in Hc1. destruct (_ <? _); lia. }
  edestruct (completes_run i l Hi 0 ws) as (s2 & R2 & H2); [|exact Hlw|exact Hr|exact Hid1|exact H1|];
    [lia|].
  edestruct (update_end_run i l Hi false) with (k := 0) as (s3 & w & R3 & H3 & Hw3 & Hwr3 & Hr3);
    [| |exact H2|exact Hv2|exact Hst2|]; [rewrite E2; lia|done|]. rewrite E2 in *.
  edestruct (completes_run i l Hi 0 [w]) as (s4 & R4 & H4); [| |exact Hr3| |exact H3|];
    [lia|simpl; lia|unfold awaited; cbn; rewrite Hid2, Hid1, wrid_set_ssn, wrid_set_conn by lia; done|].
  cbn [length Nat.iter nat_rect] in H4.
  destruct (end_finished i _ (n + 1 + 1) Hst2) as [Hst4 Hf4].
  exists ws, w, s4. rewrite Hce2 in *. split; [|split; [|split_and!; try done]].
  - split; [|apply Forall_app; split; [done|by apply Forall_singleton]]. exists s1, s2, s3.
    rewrite (lk_posted _ _ _ _ _ _ _ _ _ H1), (lk_posted _ _ _ _ _ _ _ _ _ H3). by split_and!.
  - split; [|by rewrite (lk_log _ _ _ _ _ _ _ _ _ H4), (lk_offsets _ _ _ _ _ _ _ _ _ H4)].
    intros v'. rewrite (lk_server _ _ _ _ _ _ _ _ _ H4). by intros [= <-].
  - apply (lk_log _ _ _ _ _ _ _ _ _ H4).
Qed.

(** What the leader posts is there to be posted, ... *)
Lemma update_needed l fl o h ps es :
  len_ok l -> live l o es -> es <> [] -> len fl = len l -> end_ fl = o -> live fl h ps ->
  clockwise h o (end_ l) -> 0 < end_ l < len l /\ log_offset_end_distance l o <> 0.
Proof.
  intros Hok Hl Hne Hfl Hfe Hf Hcw.
  pose proof (live_offset _ _ _ Hl) as Ho. pose proof (live_range _ _ _ Hl) as He.
  assert (0 < end_ l /\ o <> end_ l) as [He0 Hoe].
  { destruct (copy_shape l fl o h ps es Hfe Hl Hf Hfl Hne Hcw) as [|?????????|?????????]; [lia|lia|].
    pose proof (cseg_nonempty l 0 es2 _ ltac:(done) ltac:(done)). log_lia. }
  split; [lia|]. rewrite distance_small by (done || lia). repeat zcase; lia.
Qed.

(** ... and in the memory of the follower it makes the entries. *)
Lemma update_lands i l o ws w f h ps es :
  let fl := slog f in
  len_ok l -> len l < 2 ^ 32 -> live l o es -> es <> [] -> len fl = len l -> end_ fl = o ->
  live fl h ps -> clockwise h o (end_ l) -> Forall (log_request i) (ws ++ [w]) ->
  written <$> ws = update_writes l o -> written w = (L_log_end, P_u64 (end_ l)) ->
  live (slog (lands ws f)) h ps /\ live (slog (lands (ws ++ [w]) f)) h (ps ++ es) /\
  end_ (slog (lands (ws ++ [w]) f)) = end_ l.
Proof.
  intros fl Hok Hlen Hl Hne Hfl Hfe Hf Hcw Hto Hws [= Hwl Hwp].
  pose proof (live_offset _ _ _ Hl) as Ho. pose proof (live_range _ _ _ Hl) as He.
  apply Forall_app in Hto as [Hto Hto']. rewrite Forall_singleton in Hto'.
  destruct (lands_copied i l o ws f) as [Hcp Hce]; [lia|done|done|done|done|].
  split. { apply (copied_keeps l fl _ o h ps es); try done. by rewrite Hce. }
  unfold lands. rewrite foldl_app. fold (lands ws f). cbn [foldl].
  rewrite (receives_end _ _ _ _ Hto' Hwl Hwp), u64_small by log_lia. split; [|done].
  apply (copied_extends l fl _ o h ps es); try done. by destruct Hcp.
Qed.

(** C6. Replication.  The leader updates a follower whose log ends at the place
    [o] the leader has noted for it, and whose entries [ps] from [h] on the new
    bytes do not reach: it posts the missing bytes, takes their completions,
    posts its end offset and takes that completion, and then knows that the
    follower is up to date.  When the writes have landed in the memory of the
    follower, its log holds exactly [ps] followed by the entries [es] that the
    leader's log has from [o] on, wherever the end of the circular buffer falls;
    before the last write lands it holds exactly [ps]. *)
Theorem update_copies_log i s v o f h ps es :
  let l := slog s in let fl := slog f in
  updatable i s v o -> len_ok l -> len l < 2 ^ 32 -> live l (lo_end o) es -> es <> [] ->
  len fl = len l -> end_ fl = lo_end o -> live fl h ps -> clockwise h (lo_end o) (end_ l) ->
  exists ws w s', full_update i s ws w s' /\ up_to_date i s' o /\ slog s' = l /\
    live (slog (lands ws f)) h ps /\
    live (slog (lands (ws ++ [w]) f)) h (ps ++ es) /\
    end_ (slog (lands (ws ++ [w]) f)) = end_ l.
Proof.
  intros l fl Hup Hok Hlen Hl Hne Hfl Hfe Hf Hcw.
  destruct (update_needed l fl _ h ps es Hok Hl Hne Hfl Hfe Hf Hcw) as [He Hd].
  destruct (full_update_run i s v o Hup He Hlen Hd) as (ws & w & s' & Hfu & Hud & Hlog & Hws & Hw).
  exists ws, w, s'. split_and!; try done; eapply update_lands; eauto using fu_to.
Qed.

(** The leader's new entry does not fit behind offset 199: it is at the start
    of the buffer, with its header repeated at 199. *)
Definition wrapped_log : dare_log_t := append_ok demo_pruned 2 CSM (LD_cmd (replicate 30 9)).
Definition wrapped_entry : aentry := mk_ae 4 2 0 0 CSM (LD_cmd (replicate 30 9)).
Definition demo_offsets : log_offsets_t := mk_log_offsets 100 148 148 199.
Definition demo_server : server_t := set_next_lr_step LR_UPDATE_LOG server_new.

Definition demo_leader : srv :=
  let s := demo_srv 3 0 in
  set_slog wrapped_log
    (set_ctrl (set_log_offsets (<[1%nat := demo_offsets]> (log_offsets (ctrl s))) (ctrl s))
      (set_conf (set_servers (<[1%nat := demo_server]> (servers (conf s))) (conf s)) s)).
Definition demo_follower : srv := set_slog demo_pruned (demo_srv 3 1).

Lemma demo_updatable : updatable 1 demo_leader demo_server demo_offsets.
Proof.
  split; [|lia|by vm_compute|done| |by vm_compute].
  - split; try reflexivity. eexists. split; [reflexivity|]. vm_compute. intuition discriminate.
  - by exists 0, 0.
Qed.

Lemma wrapped_live : live wrapped_log 199 [wrapped_entry].
Proof.
  apply (live_wrap wrapped_log 199 [] 199 [wrapped_entry]); try by vm_compute.
  right. vm_compute. intuition discriminate.
Qed.

Lemma update_copies_log_witness :
  exists ws w s', full_update 1 demo_leader ws w s' /\
    live (slog (lands (ws ++ [w]) demo_follower)) 100 [demo_noop; demo_cmd; wrapped_entry].
Proof.
  destruct (update_copies_log 1 demo_leader demo_server demo_offsets demo_follower 100
    [demo_noop; demo_cmd] [wrapped_entry]) as (ws & w & s' & H1 & _ & _ & _ & H2 & _).
  - exact demo_updatable.
  - split; vm_compute; discriminate.
  - vm_compute. reflexivity.
  - exact wrapped_live.
  - discriminate.
  - vm_compute. reflexivity.
  - vm_compute. reflexivity.
  - exact demo_live.
  - right. right. split; vm_compute; [reflexivity|discriminate].
  - exists ws, w, s'. split; [exact H1|exact H2].
Defined.

(** * Repairing the log ([log_adjustment])

    The leader compares the follower's not committed entries with its own, cuts
    the follower's log behind the last one both have and then brings it up to
    date.  At the end the two logs hold the same entries.  There is one place
    at which the cut goes wrong: the start of the buffer. *)


(** ** Where entries are *)

(** Where a traversal of a buffer of [n] bytes finds the entry behind offset
    [o], and where it goes from there. *)
Definition place_of (n o : Z) : Z := if o + ENTRY_SIZE <=? n then o else 0.

Definition next_of (n o : Z) (x : aentry) : Z :=
  (if place_of n o + ae_len x <=? n then place_of n o else 0) + ae_len x.

Fixpoint pos_of (n o : Z) (es : list aentry) : Z :=
  match es with
  | [] => o
  | x :: es' => pos_of n (next_of n o x) es'
  end.

Fixpoint dets (n o : Z) (es : list aentry) : list dare_log_entry_det_t :=
  match es with
  | [] => []
  | x :: es' => mk_det (ae_idx x) (ae_term x) (place_of n o) :: dets n (next_of n o x) es'
  end.

Lemma pos_of_app n es es' o : pos_of n o (es ++ es') = pos_of n (pos_of n o es) es'.
Proof. revert o. induction es as [|x es IH]; intros o; simpl; auto. Qed.

Lemma place_of_twice n o : ENTRY_SIZE <= n -> place_of n (place_of n o) = place_of n o.
Proof. intros H. unfold place_of, ENTRY_SIZE in *. repeat zcase; lia. Qed.

Lemma next_of_place n o x : ENTRY_SIZE <= n -> next_of n (place_of n o) x = next_of n o x.
Proof. intros H. unfold next_of. by rewrite place_of_twice. Qed.

Lemma dets_place n o x es :
  ENTRY_SIZE <= n -> dets n (place_of n o) (x :: es) = dets n o (x :: es).
Proof. intros H. cbn [dets]. by rewrite place_of_twice, next_of_place. Qed.

(** What a traversal does at a boundary with entries left, in these terms. *)
Lemma live_next l o x es :
  len_ok l -> live l o (x :: es) ->
  let e := place_of (len l) o in
  log_get_entry l o = (Some e, e) /\ live l e (x :: es) /\
  entry_idx l e = ae_idx x /\ entry_term l e = ae_term x /\
  log_advance l e e = next_of (len l) o x /\ live l (next_of (len l) o x) es.
Proof.
  intros Hlen Hl. pose proof (live_offset _ _ _ Hl) as Ho.
  destruct (live_step _ _ _ _ Hlen Hl) as [e Hs].
  assert (e = place_of (len l) o) as He.
  { pose proof (step_get _ _ _ _ _ Hs) as Hg. unfold log_get_entry in Hg.
    destruct (is_log_empty l); [done|]. destruct (_ =? 0); [done|]. injection Hg as <- _.
    rewrite fit_header_iff by done. unfold place_of. by destruct (_ <=? _). }
  assert (log_advance l e e = next_of (len l) o x) as Ha.
  { pose proof (step_range _ _ _ _ _ Hs) as [He0 He1].
    unfold next_of. rewrite <- He. pose proof (step_fit _ _ _ _ _ Hs) as Hf.
    destruct (log_fit_entry l e e) eqn:Hfit.
    - destruct Hf as [Hx ->]. rewrite Hx, <- entry_len_data.
      rewrite fit_entry_iff in Hfit by (done || log_lia). by rewrite Hfit.
    - destruct Hf as (Hl0 & Hg0 & Hfit0 & Ha & _).
      destruct (live_step _ _ _ _ Hlen Hl0) as [e0 Hs0].
      pose proof (step_get _ _ _ _ _ Hs0) as Hg. rewrite Hg0 in Hg. injection Hg as <-.
      pose proof (step_fit _ _ _ _ _ Hs0) as Hx. rewrite Hfit0 in Hx. destruct Hx as [Hx Hx'].
      assert (log_entry_len l e = ae_len x) as Hel.
      { rewrite Hx, <- entry_len_data. rewrite !advance_small, Hfit, Hfit0 in Ha by (done || log_lia). lia. }
      rewrite fit_entry_iff, Hel in Hfit by (done || log_lia). rewrite Hfit.
      rewrite Ha, Hx', Hx, <- entry_len_data. done. }
  cbv zeta. rewrite <- He, <- Ha. split_and!; done || by apply Hs.
Qed.

Lemma live_pos l es es' : len_ok l -> forall o,
  live l o (es ++ es') -> live l (pos_of (len l) o es) es'.
Proof.
  intros Hlen. induction es as [|x es IH]; intros o H; [done|]. cbn [pos_of app] in *.
  by apply IH, (live_next l o x (es ++ es')).
Qed.

(** ** The NC-buffer *)

Lemma nc_loop_dets l es : len_ok l -> forall fuel o n nc,
  live l o es -> (length es < fuel)%nat ->
  0 <= n -> n + Z.of_nat (length es) <= Z.of_nat (length nc) ->
  nc_buf_loop fuel l o n nc =
  Ok (mk_nc (n + Z.of_nat (length es))
        (take (Z.to_nat n) nc ++ dets (len l) o es ++ drop (Z.to_nat n + length es) nc)).
Proof.
  intros Hlen. induction es as [|x es IH]; intros [|fuel] o n nc Hlive Hf Hn Hnc;
    simpl in Hf; try lia; cbn [nc_buf_loop].
  - apply live_nil in Hlive as ->. rewrite get_entry_end. simpl.
    by rewrite Nat.add_0_r, take_drop, Z.add_0_r.
  - destruct (live_next l o x es Hlen Hlive) as (Hg & _ & Hi & Ht & Ha & Hl'). cbn [length] in *.
    rewrite Hg, aset_Some, Ha, Hi, Ht by lia. cbn [or_undef obind].
    rewrite IH by (rewrite ?length_insert; done || lia). cbn [dets]. f_equal. f_equal; [lia|].
    replace (Z.to_nat (n + 1)) with (S (Z.to_nat n)) by lia. apply insert_app_drop. lia.
Qed.

(** The buffer [nc] lists the entries [es] that a log of [n] bytes has from its
    commit offset [c] on. *)
Definition lists (n c : Z) (es : list aentry) (nc : dare_nc_buf_t) : Prop :=
  nc_len nc = Z.of_nat (length es) /\ exists rest, nc_entries nc = dets n c es ++ rest.

(** That is what the follower leaves in it. *)
Lemma nc_buf_lists fuel l nc es :
  len_ok l -> live l (commit l) es -> (length es < fuel)%nat ->
  Z.of_nat (length es) <= Z.of_nat (length (nc_entries nc)) ->
  exists nc', log_entries_to_nc_buf fuel l nc = Ok nc' /\ lists (len l) (commit l) es nc'.
Proof.
  intros Hlen Hl Hf Hn. eexists. split; [by apply nc_loop_dets|]. split; [done|]. by eexists.
Qed.

(** ** The cut *)

(** The first entries of the two lists are different, or one has none. *)
Definition diverge (fs es : list aentry) : Prop :=
  match fs, es with
  | y :: _, x :: _ => ae_idx x <> ae_idx y \/ ae_term x <> ae_term y
  | _, _ => True
  end.

(** Where the leader cuts a log that has [cs] in common with its own and then
    goes on with [fs]. *)
Definition cut_at (n o : Z) (cs fs : list aentry) : Z :=
  match fs with
  | [] => pos_of n o cs
  | _ => place_of n (pos_of n o cs)
  end.

Lemma find_end_dets l cs fs es : len_ok l -> es <> [] -> diverge fs es -> forall o r,
  live l o (cs ++ es) -> (cs ++ fs = [] -> r = Some o) ->
  find_end_loop l r (dets (len l) o (cs ++ fs)) = Ok (cut_at (len l) o cs fs).
Proof.
  intros Hlen Hne Hd. assert (ENTRY_SIZE <= len l) as Hn by apply Hlen.
  induction cs as [|x cs IH]; intros o r Hl Hr; cbn [app dets find_end_loop pos_of] in *.
  - destruct fs as [|y fs]; [by rewrite Hr|]. destruct es as [|x es]; [done|].
    cbn [dets find_end_loop det_offset det_idx det_term cut_at].
    destruct (live_next l o x es Hlen Hl) as (_ & Hl' & _).
    destruct (live_next l _ x es Hlen Hl') as (Hg & _ & Hi & Ht & _). rewrite place_of_twice in * by done.
    rewrite Hg, Hi, Ht. unfold cut_at. cbn [pos_of].
    destruct (Z.eqb_spec (ae_idx x) (ae_idx y)), (Z.eqb_spec (ae_term x) (ae_term y)); try done.
    by destruct Hd.
  - cbn [det_offset det_idx det_term]. destruct (live_next l o x _ Hlen Hl) as (_ & Hl' & _).
    destruct (live_next l _ x _ Hlen Hl') as (Hg & _ & Hi & Ht & Ha & Hl'').
    rewrite place_of_twice, next_of_place in * by done. rewrite Hg, Hi, Ht, !Z.eqb_refl, Ha.
    cbn [negb orb]. rewrite (IH (next_of (len l) o x)) by done. done.
Qed.

Lemma find_end_lists l cs fs es o nc :
  len_ok l -> es <> [] -> diverge fs es -> live l o (cs ++ es) -> cs ++ fs <> [] ->
  lists (len l) o (cs ++ fs) nc ->
  log_find_remote_end_offset l nc = Ok (cut_at (len l) o cs fs).
Proof.
  intros Hlen Hne Hd Hl Hnn [Hlen' [rest Hr]]. unfold log_find_remote_end_offset.
  assert (forall es o, length (dets (len l) o es) = length es) as Hdl.
  { induction es0; intros; simpl; auto. }
  rewrite Hlen', Hr, length_app, Hdl, (proj2 (Z.ltb_ge _ _)), Nat2Z.id by lia.
  rewrite take_app_length' by auto. by apply find_end_dets with es.
Qed.

Lemma cseg_pos l es es' a b :
  cseg l a (es ++ es') b -> 0 <= a -> b <= len l ->
  let q := pos_of (len l) a es in cseg l a es q /\ cseg l q es' b /\ a <= q <= b.
Proof.
  revert a. induction es as [|x es IH]; intros a Hs Ha Hb; cbn [app pos_of cseg] in *.
  { pose proof (cseg_le _ _ _ _ Hs). split_and!; done || lia. }
  destruct Hs as [-> Hs]. pose proof (cseg_le _ _ _ _ Hs). pose proof (entry_len_range l a).
  assert (next_of (len l) a (entry_at l a) = a + log_entry_len l a) as ->.
  { unfold next_of, place_of. rewrite <- entry_len_data.
    rewrite (proj2 (Z.leb_le (a + ENTRY_SIZE) _)), (proj2 (Z.leb_le _ _)) by log_lia. done. }
  destruct (IH _ Hs) as (H1 & H2 & H3); [log_lia|done|]. split_and!; done || log_lia.
Qed.

(** Behind the place where the log wraps around the entries are at the start. *)
Lemma next_fits n o x :
  place_of n o + ae_len x <= n -> next_of n o x = place_of n o + ae_len x.
Proof. intros H. unfold next_of. by rewrite (proj2 (Z.leb_le _ _)). Qed.

Lemma next_wraps n o x : n < place_of n o + ae_len x -> next_of n o x = ae_len x.
Proof. intros H. unfold next_of. by rewrite (proj2 (Z.leb_gt _ _)). Qed.

Lemma pos_wrapped l m x es b :
  len_ok l -> m <= len l -> wraps_at l m -> cseg l 0 (x :: es) b -> b <= len l ->
  pos_of (len l) m (x :: es) = pos_of (len l) 0 (x :: es).
Proof.
  intros Hlen Hm Hw Hs Hb. cbn [pos_of]. f_equal. apply cseg_head in Hs as (-> & Hle & Hs).
  apply cseg_le in Hs. rewrite entry_len_data in *. set (x := entry_at l 0) in *.
  assert (place_of (len l) 0 = 0) as H0.
  { unfold place_of. by rewrite (proj2 (Z.leb_le _ _)) by log_lia. }
  rewrite (next_fits _ 0) by (rewrite H0; lia). rewrite H0.
  destruct (Z.lt_ge_cases (len l) (m + ENTRY_SIZE)) as [Hn|Hn].
  - assert (place_of (len l) m = 0) as Hpm.
    { unfold place_of. by rewrite (proj2 (Z.leb_gt _ _)). }
    rewrite next_fits, Hpm; [done|]. rewrite Hpm. lia.
  - destruct Hw as [Hw|(Hw & _ & _ & _ & _ & Hty & Hcl)]; [lia|].
    assert (log_entry_len l m = ae_len x) as Hel.
    { unfold x. rewrite <- entry_len_data. unfold log_entry_len. by rewrite Hty, Hcl. }
    apply next_wraps. unfold place_of. rewrite (proj2 (Z.leb_le _ _)) by done. lia.
Qed.

(** A log that is cut behind [cs] holds [cs], and what the full log has from
    there on does not reach it. *)
Lemma live_cut l o cs es :
  len_ok l -> live l o (cs ++ es) -> let q := pos_of (len l) o cs in
  q < len l -> live (set_end l q) o cs /\ clockwise o q (end_ l).
Proof.
  intros Hlen Hl q Hq. remember (cs ++ es) as fs eqn:E.
  assert (forall es a b, cseg l a es b -> cseg (set_end l q) a es b) as Hfr.
  { intros es0 a b. by apply cseg_frame. }
  destruct Hl as [fs Ho He Hs|es1 m es2 Ho Hs Hm Hw Hne Hs2 He].
  - subst fs. destruct (cseg_pos l cs es o (end_ l) Hs Ho ltac:(lia)) as (H1 & _ & H2).
    split; [|left; done]. apply live_lin; [done|done|]. by apply Hfr.
  - pose proof (cseg_le _ _ _ _ Hs2). apply app_eq_inv in E as [(k & -> & ->)|(k & -> & ->)].
    + destruct (cseg_pos l cs k o m Hs ltac:(lia) Hm) as (H1 & _ & H2).
      split; [apply live_lin; [lia|done|by apply Hfr]|]. right. right. unfold q. lia.
    + destruct (cseg_pos l es1 [] o m) as (H1 & H2 & _); [by rewrite app_nil_r|lia|lia|].
      cbn [cseg] in H2. subst q. rewrite pos_of_app, H2 in *. destruct k as [|x k].
      { rewrite app_nil_r. cbn [pos_of]. pose proof (cseg_le _ _ _ _ Hs).
        split; [apply live_lin; [lia|done|by apply Hfr]|]. right. right. lia. }
      destruct (cseg_pos l (x :: k) es 0 (end_ l) Hs2) as (H3 & _ & H4); [lia|lia|].
      rewrite (pos_wrapped l m x k _ Hlen Hm Hw H3) in * by lia. split; [|right; left; lia].
      apply live_wrap with m; [|by apply Hfr|done|exact Hw|done|by apply Hfr|];
        cbn [end_ len set_end]; lia.
Qed.

(** ** The leader *)

(** The step that cuts the log of server [i]: the leader has read the NC-buffer
    of the server and posts the end offset it found. *)
Lemma adjust_end_run i l v o n P k s a nc r :
  0 <= i < 256 -> 0 <= u64 (n + 1) < 2 ^ 54 -> 0 <= k ->
  link i l v o n false P (k + 1) s -> may_send v -> next_lr_step v = LR_SET_END ->
  aget (vote_ack (ctrl s)) i = Some a -> a <> len l -> aget (nc_buf l) i = Some nc ->
  log_find_remote_end_offset l nc = Ok r ->
  let n' := u64 (n + 1) in
  exists s' w, adjust_one i false s = Ret (true, None) s' /\
    link i l (awaited i v n') (set_lo_end r o) n' false (w :: P) k s' /\
    log_request i w /\ written w = (L_log_end, P_u64 r) /\ of_round i n' [w].
Proof.
  intros Hi Hn Hk H Hv Hst Ha Hal Hnc Hr n'. unfold adjust_one.
  rewrite bind_get, (lk_other _ _ _ _ _ _ _ _ _ H). cbn [negb].
  rewrite (bind_run _ _ _ _ _ (server_at_run _ _ _ (lk_server _ _ _ _ _ _ _ _ _ H))).
  destruct (lk_ep _ _ _ _ _ _ _ _ _ H) as (e & He & Hc & _), Hv as [Hsf Hfc].
  rewrite (bind_run _ _ _ _ _ (ep_at_run _ _ _ He)), (bind_run _ _ _ _ _ (ctrl_get_run _ _ _ _ Ha)).
  rewrite bind_get, (lk_log _ _ _ _ _ _ _ _ _ H), (proj2 (Z.leb_gt _ _)) by done.
  rewrite !(proj2 (Z.eqb_neq _ _)) by done. cbn [orb]. rewrite Hst.
  change (LR_SET_END <? LR_UPDATE_LOG) with true. cbv iota.
  destruct (link_open i l false _ _ _ _ _ _ _ H) as (s1 & R1 & H1). rewrite (bind_run _ _ _ _ _ R1).
  fold n' in H1. unfold adjust_step. cbn [Z.eqb Pos.eqb LR_SET_END LR_GET_WRITE LR_GET_NCE_LEN LR_GET_NCE].
  edestruct link_on_offsets as (s2 & R2 & H2); [exact H1|].
  assert (adjust_set_end i s1 = Ret (Some (L_log_end, P_u64 r)) s2) as Hadj.
  { unfold adjust_set_end. rewrite bind_get, (lk_log _ _ _ _ _ _ _ _ _ H1), Hnc.
    rewrite (bind_run _ _ s1 nc s1 eq_refl), Hr, (bind_run _ _ s1 r s1 eq_refl).
    by rewrite (bind_run _ _ _ _ _ R2). }
  rewrite (bind_run _ _ _ _ _ Hadj).
  edestruct link_await as (s3 & R3 & H3); [exact H2|]. rewrite (bind_run _ _ _ _ _ R3).
  edestruct link_post as (s4 & w & tag & R4 & H4 & Hw & Hwr & Hid); [exact Hi|exact Hn|exact Hk|exact H3|].
  erewrite (bind_run _ _ _ _ _ R4). exists s4, w. split; [done|]. split; [exact H4|].
  split_and!; [done|done|]. apply Forall_singleton. by eexists _, _.
Qed.

Lemma adjust_finished i v n :
  next_lr_step v = LR_SET_END ->
  let v' := finished n (awaited i v n) in
  may_send v' /\ next_lr_step v' = LR_UPDATE_LOG /\ next_wr_id v' = next_wr_id (awaited i v n).
Proof.
  intros Hst. destruct v as [w c r f t g k]. cbn in Hst. subst t.
  unfold finished, seen, awaited, may_send, PERMANENT_FAILURE. cbn.
  destruct (_ <=? _); cbn; split_and!; done || lia.
Qed.

(** The leader has read what it needs to cut the log of server [i]; there is
    room for four requests. *)
Record repairable (i : Z) (s : srv) (v : server_t) (o : log_offsets_t) (nc : dare_nc_buf_t) : Prop := {
  rp_link : link i (slog s) v o (ssn (ib s)) false (posted (ib s)) 4 s;
  rp_idx : 0 <= i < 256;
  rp_send : may_send v;
  rp_step : next_lr_step v = LR_SET_END;
  rp_id : exists m c, 0 <= m < 2 ^ 54 /\ 0 <= c < 256 /\ next_wr_id v = mk_wrid m false false c;
  rp_ssn : 0 <= ssn (ib s) < 2 ^ 54 - 3;
  rp_ack : exists a, aget (vote_ack (ctrl s)) i = Some a /\ a <> len (slog s);
  rp_nc : aget (nc_buf (slog s)) i = Some nc
}.

(** Both phases: [w0] cuts the log, then follows a full update. *)
Record full_repair (i : Z) (s : srv) (w0 : wr) (ws : list wr) (w : wr) (s' : srv) : Prop := {
  fr_run : exists s1 s2,
    adjust_one i false s = Ret (true, None) s1 /\ posted (ib s1) = w0 :: posted (ib s) /\
    empty_completion_queue 0 LOG_QP false None (completes [w0] s1) = Ret None s2 /\
    full_update i s2 ws w s';
  fr_to : log_request i w0
}.

Lemma cut_run i s v o nc r :
  repairable i s v o nc -> log_find_remote_end_offset (slog s) nc = Ok r ->
  exists w0 s1 s2 v', adjust_one i false s = Ret (true, None) s1 /\
    posted (ib s1) = w0 :: posted (ib s) /\
    empty_completion_queue 0 LOG_QP false None (completes [w0] s1) = Ret None s2 /\
    log_request i w0 /\ written w0 = (L_log_end, P_u64 r) /\
    updatable i s2 v' (set_lo_end r o) /\ slog s2 = slog s.
Proof.
  intros [Hl Hi Hv Hst (m & c & Hm & Hc & Hid) Hn (a & Ha & Hal) Hnc] Hr.
  set (n := ssn (ib s)) in *. assert (u64 (n + 1) = n + 1) as E1 by (apply u64_small; lia).
  destruct (adjust_end_run i (slog s) v o n (posted (ib s)) 3 s a nc r)
    as (s1 & w0 & R1 & H1 & Hw & Hwr & Hrd); try done; [lia|]. rewrite E1 in *.
  assert (next_wr_id (awaited i v (n + 1)) = mk_wrid (n + 1) false false i) as Hid1.
  { unfold awaited. cbn. rewrite Hid, wrid_set_ssn, wrid_set_conn by lia. done. }
  edestruct (completes_run i (slog s) Hi 0 [w0]) as (s2 & R2 & H2);
    [| |exact Hrd|exact Hid1|exact H1|]; [lia|simpl; lia|].
  cbn [length Nat.iter nat_rect] in H2.
  destruct (adjust_finished i v (n + 1) Hst) as (Hv2 & Hst2 & Hid2).
  exists w0, s1, s2, (finished (n + 1) (awaited i v (n + 1))).
  pose proof (lk_log _ _ _ _ _ _ _ _ _ H2) as Hlog.
  pose proof (lk_ssn _ _ _ _ _ _ _ _ _ H2) as Hssn.
  rewrite (lk_posted _ _ _ _ _ _ _ _ _ H1). split_and!; try done.
  split; try done; rewrite ?Hlog, ?Hssn, ?(lk_posted _ _ _ _ _ _ _ _ _ H2); [done| |lia].
  exists (n + 1), i. rewrite Hid2, Hid1. split_and!; done || lia.
Qed.

(** ** The repair *)

(** The cut is behind the common entries, unless the follower's next entry had
    to go to the start of the buffer. *)
Lemma cut_at_pos l fl c cs fs :
  len_ok fl -> len fl = len l -> live fl c (cs ++ fs) ->
  (fs <> [] -> pos_of (len l) c cs + ENTRY_SIZE <= len l) ->
  cut_at (len l) c cs fs = pos_of (len l) c cs /\ 0 <= pos_of (len l) c cs < len l.
Proof.
  intros Hok Hn Hf Hfs. pose proof (live_pos fl cs fs Hok c Hf) as Hq. rewrite Hn in Hq.
  pose proof (live_offset _ _ _ Hq) as Ho. pose proof (live_range _ _ _ Hq) as He.
  destruct fs as [|y fs]; cbn [cut_at].
  - apply live_nil in Hq. lia.
  - specialize (Hfs ltac:(done)). unfold place_of.
    rewrite (proj2 (Z.leb_le _ _)) by done. log_lia.
Qed.

(** C5. Repair.  The leader has from offset [c] on the entries [cs ++ es], the
    follower [cs ++ fs], where [es] and [fs] differ in the index or term of
    their first entries, and the leader has read the NC-buffer in which the
    follower lists its own.  The leader then cuts the log of the follower
    behind [cs] and updates it; all its steps return, and when the writes have
    landed the follower has from [c] on exactly the entries of the leader.  In
    between it has exactly [cs].  The place of the cut must have room for the
    header of an entry. *)
Theorem repair_makes_logs_equal i s v o nc f c cs fs es :
  let l := slog s in let fl := slog f in
  repairable i s v o nc -> len_ok l -> len l < 2 ^ 32 -> live l c (cs ++ es) -> es <> [] ->
  len fl = len l -> live fl c (cs ++ fs) -> cs ++ fs <> [] -> diverge fs es ->
  lists (len l) c (cs ++ fs) nc ->
  (fs <> [] -> pos_of (len l) c cs + ENTRY_SIZE <= len l) ->
  exists w0 ws w s', full_repair i s w0 ws w s' /\ up_to_date i s' o /\ slog s' = l /\
    live (slog (lands [w0] f)) c cs /\ live (slog (lands (w0 :: ws) f)) c cs /\
    live (slog (lands (w0 :: ws ++ [w]) f)) c (cs ++ es) /\
    end_ (slog (lands (w0 :: ws ++ [w]) f)) = end_ l.
Proof.
  intros l fl Hrp Hok Hlen Hl Hne Hfl Hf Hnn Hd Hls Hroom.
  assert (len_ok fl) as Hokf by (unfold len_ok; by rewrite Hfl).
  destruct (cut_at_pos l fl c cs fs Hokf Hfl Hf Hroom) as [Hcut Hq].
  pose proof (find_end_lists l cs fs es c nc Hok Hne Hd Hl Hnn Hls) as Hr. rewrite Hcut in Hr.
  destruct (cut_run i s v o nc _ Hrp Hr) as (w0 & s1 & s2 & v' & R1 & Hp & R2 & Hw0 & Hwr0 & Hup & Hs2).
  set (q := pos_of (len l) c cs) in *.
  destruct (live_cut l c cs es Hok Hl) as [_ Hcw]; [fold q; lia|]. fold q in Hcw.
  destruct (live_cut fl c cs fs Hokf Hf) as [Hfq _]; [rewrite Hfl; fold q; lia|].
  rewrite Hfl in Hfq. fold q in Hfq. pose proof (live_pos l cs es Hok c Hl) as Hlq. fold q in Hlq.
  set (f1 := receives w0 f). assert (slog f1 = set_end fl q) as Hf1.
  { injection Hwr0 as Hwl Hwp. unfold f1. rewrite (receives_end _ _ _ _ Hw0 Hwl Hwp).
    rewrite u64_small by log_lia. done. }
  destruct (update_needed l (slog f1) q c cs es) as [He Hdist]; try done; [by rewrite Hf1..|].
  destruct (full_update_run i s2 v' _ Hup) as (ws & w & s' & Hfu & Hud & Hlog & Hws & Hw);
    [by rewrite Hs2..|]. rewrite Hs2 in Hlog, Hws, Hw.
  exists w0, ws, w, s'. cbn [lands foldl]. fold f1. fold (lands ws f1). fold (lands (ws ++ [w]) f1).
  split; [split; [|done]; exists s1, s2; by split_and!|]. split; [|split; [done|split; [by rewrite Hf1|]]].
  - by destruct Hud.
  - eapply (update_lands i l q ws w f1 c cs es); try done; [by rewrite Hf1..|by apply Hfu].
Qed.

(** The follower has an entry of an older term where the leader has one of term
    2; the leader's last entry is at the start of the buffer. *)
Definition stale_log : dare_log_t :=
  let l := append_ok (append_ok (append_ok (small_log 256) 1 CSM (LD_cmd (replicate 52 7)))
             1 NOOP LD_null) 1 CSM (LD_cmd [5; 5]) in
  set_apply (set_commit (set_head l 100) 100) 100.
Definition stale_entry : aentry := mk_ae 3 1 0 0 CSM (LD_cmd [5; 5]).

Definition stale_nc : dare_nc_buf_t :=
  mk_nc 2 (dets 256 100 [demo_noop; stale_entry] ++ drop 2 (nc_entries nc_buf_new)).

Definition repair_server : server_t := set_next_lr_step LR_SET_END server_new.
Definition repair_offsets : log_offsets_t := mk_log_offsets 100 100 100 0.
Definition repair_leader : srv :=
  let s := demo_srv 3 0 in
  set_slog (set_nc_buf wrapped_log (<[1%nat := stale_nc]> (nc_buf wrapped_log)))
    (set_ctrl (set_log_offsets (<[1%nat := repair_offsets]> (log_offsets (ctrl s))) (ctrl s))
      (set_conf (set_servers (<[1%nat := repair_server]> (servers (conf s))) (conf s)) s)).

Lemma stale_nc_listed : log_entries_to_nc_buf 5 stale_log nc_buf_new = Ok stale_nc.
Proof. vm_compute. reflexivity. Qed.

Lemma demo_repairable : repairable 1 repair_leader repair_server repair_offsets stale_nc.
Proof.
  split; [|lia|by vm_compute|done| |by vm_compute| |reflexivity].
  - split; try reflexivity. eexists. split; [reflexivity|]. vm_compute. intuition discriminate.
  - by exists 0, 0.
  - eexists. split; [reflexivity|]. vm_compute. discriminate.
Qed.

Lemma repair_leader_live :
  live (slog repair_leader) 100 ([demo_noop] ++ [demo_cmd; wrapped_entry]).
Proof.
  apply (live_wrap _ 100 [demo_noop; demo_cmd] 199 [wrapped_entry]); try by vm_compute.
  right. vm_compute. intuition discriminate.
Qed.

Lemma stale_live : live stale_log 100 ([demo_noop] ++ [stale_entry]).
Proof. apply live_lin; by vm_compute. Qed.

Lemma repair_makes_logs_equal_witness :
  let f := set_slog stale_log (demo_srv 3 1) in
  exists w0 ws w s', full_repair 1 repair_leader w0 ws w s' /\
    live (slog (lands (w0 :: ws ++ [w]) f)) 100 [demo_noop; demo_cmd; wrapped_entry].
Proof.
  destruct (repair_makes_logs_equal 1 repair_leader repair_server repair_offsets stale_nc
    (set_slog stale_log (demo_srv 3 1)) 100 [demo_noop] [stale_entry] [demo_cmd; wrapped_entry])
    as (w0 & ws & w & s' & H1 & _ & _ & _ & _ & H2 & _).
  - exact demo_repairable.
  - split; vm_compute; discriminate.
  - vm_compute. reflexivity.
  - exact repair_leader_live.
  - discriminate.
  - vm_compute. reflexivity.
  - exact stale_live.
  - discriminate.
  - right. vm_compute. discriminate.
  - split; [reflexivity|]. eexists. reflexivity.
  - intros _. vm_compute. discriminate.
  - exists w0, ws, w, s'. split; [exact H1|exact H2].
Defined.

(** ** A cut at the start of the buffer *)

(** No header fits behind offset 226, so entry 4 of both logs is at the start
    of the buffer; the follower's is of an older term. *)
Definition edge_log (term : Z) : dare_log_t :=
  let l := append_ok (append_ok (append_ok (small_log 256) 1 CSM (LD_cmd (replicate 52 7)))
             1 NOOP LD_null) 1 CSM (LD_cmd (replicate 30 5)) in
  append_ok (set_apply (set_commit (set_head l 100) 148) 148) term NOOP LD_null.

(** When the follower's entries have to be removed from the start of the buffer
    on, its end becomes 0.  A traversal that comes to the last bytes of the
    buffer does not stop there: it goes on at the start with the entry that was
    removed, and then runs over whatever is behind it until the NC-buffer
    overflows. *)
Theorem cut_at_start_overruns :
  exists nc, log_entries_to_nc_buf 5 (edge_log 1) nc_buf_new = Ok nc /\
    log_find_remote_end_offset (edge_log 2) nc = Ok 0 /\
    log_get_entry (set_end (edge_log 1) 0) 226 = (Some 0, 0) /\
    log_entries_to_nc_buf 2000 (set_end (edge_log 1) 0) nc_buf_new = Undef.
Proof.
  eexists. split; [vm_compute; reflexivity|]. split; [vm_compute; reflexivity|].
  split; vm_compute; reflexivity.
Qed.
