(* ===== verification/NormalSpec.v ===== *)
(** * Normal operation (dare_server.c)

    What a follower does with committed entries, what pruning the log keeps,
    and when a server gives up. *)

From Stdlib Require Import QArith.
From S2P Require Import Prelude Bytes Words Config Log LogRep LogOps LogSpec State Init Hoare.
From S2P Require Import Qp QpSpec Cq RcOps Frame Replication Role EpDb Ud Normal LeaderSpec.

Open Scope Z_scope.

(** ** Applying *)

(** The calls of the upper layer for one entry on a follower, in order. *)
Definition apply_events (x : aentry) : list event :=
  if is_sm_entry (ae_type x) then
    [E_store_cmd (ae_clt_id x);
     E_do_action (ae_clt_id x) (ae_type x)
       (match ae_data x with LD_cmd c => c | _ => [] end)]
  else [].

(** The indices of the client commands. *)
Definition sm_indices (xs : list aentry) : list Z :=
  ae_idx <$> filter (fun x => is_sm_entry (ae_type x) = true) xs.

(** The state after the entries [xs] were applied, up to the offset [o]. *)
Definition applied (xs : list aentry) (o : Z) (g : globals_t) (s : srv) : srv :=
  set_out (reverse (xs ≫= apply_events) ++ out s)
    (set_glob g (set_slog (set_apply (slog s) o) s)).

(** The globals record the last client command applied and nothing else. *)
Record last_recorded (xs : list aentry) (g g' : globals_t) : Prop := {
  lr_idx : last_cmt_write_csm_idx g' =
             default (last_cmt_write_csm_idx g) (last (sm_indices xs));
  lr_same : set_last_cmt_write_csm_idx 0 (set_last_applied_entry (mk_det 0 0 0) g') =
            set_last_cmt_write_csm_idx 0 (set_last_applied_entry (mk_det 0 0 0) g)
}.

Lemma last_recorded_nil g : last_recorded [] g g.
Proof. by split. Qed.

Lemma last_recorded_app xs ys g1 g2 g3 :
  last_recorded xs g1 g2 -> last_recorded ys g2 g3 -> last_recorded (xs ++ ys) g1 g3.
Proof.
  intros [H1 H2] [H3 H4]. split; [|congruence]. rewrite H3, H1. unfold sm_indices.
  rewrite filter_app, fmap_app, last_app. by destruct (last (ae_idx <$> filter _ ys)).
Qed.

Lemma apply_sm_run l e s :
  IS_LEADER s = false ->
  exists g, apply_sm l e s =
      Ret tt (set_out (reverse (apply_events (entry_at l e)) ++ out s) (set_glob g s)) /\
    last_recorded [entry_at l e] (glob s) g.
Proof.
  intros Hl. unfold apply_sm, apply_events. cbn [ae_type entry_at ae_clt_id ae_data].
  destruct (is_sm_entry (entry_type l e)) eqn:Hty.
  - unfold when, emit, on_glob. rewrite bind_upd, bind_get.
    change (IS_LEADER (set_out _ s)) with (IS_LEADER s). rewrite Hl, bind_upd.
    eexists. split.
    + unfold upd. f_equal. unfold data_at. unfold is_sm_entry in Hty.
      destruct (entry_type l e =? CONFIG), (entry_type l e =? HEAD), (entry_type l e =? NOOP);
        try discriminate. by destruct s.
    + split; [|done]. unfold sm_indices. rewrite filter_cons_True by done. done.
  - exists (glob s). split; [by destruct s|].
    split; [|done]. unfold sm_indices. by rewrite filter_cons_False by (simpl; congruence).
Qed.

Lemma apply_loop_fit n s e :
  log_is_offset_larger (slog s) (commit (slog s)) (apply (slog s)) = true ->
  log_get_entry (slog s) (apply (slog s)) = (Some e, e) ->
  log_fit_entry (slog s) e e = true -> IS_LEADER s = false ->
  exists g, apply_loop (S n) s =
      apply_loop n (applied [entry_at (slog s) e] (log_advance (slog s) e e) g s) /\
    last_recorded [entry_at (slog s) e] (glob s) g.
Proof.
  intros Hlt Hget Hfit Hlead. cbn [apply_loop]. rewrite bind_get, Hlt, Hget. cbn [negb].
  rewrite (bind_run _ _ s e s eq_refl), Hfit. cbn [negb]. unfold on_log.
  rewrite bind_upd, bind_get. set (s1 := set_slog (set_apply (slog s) e) s).
  unfold apply_one. rewrite !bind_assoc, bind_get.
  change (IS_LEADER s1) with (IS_LEADER s). rewrite Hlead. cbn [negb].
  destruct (apply_sm_run (slog s1) e s1 Hlead) as (g & Hrun & Hg).
  rewrite (bind_run _ _ _ _ _ Hrun), bind_upd.
  exists g. split; [|exact Hg]. f_equal. unfold log_advance. rewrite Hfit. cbn [negb].
  unfold applied. cbn [mbind list_bind]. rewrite app_nil_r. by destruct s.
Qed.

Lemma nth_offset_set_apply l x k o : nth_offset (set_apply l x) o k = nth_offset l o k.
Proof.
  revert o. induction k as [|k IH]; intros o; [done|]. cbn [nth_offset].
  change (log_get_entry (set_apply l x) o) with (log_get_entry l o).
  destruct (log_get_entry l o) as [[e|] o']; [apply IH|done].
Qed.

Lemma live_set_apply l x o es : live l o es -> live (set_apply l x) o es.
Proof. by apply live_same. Qed.
Lemma live_set_commit l x o es : live l o es -> live (set_commit l x) o es.
Proof. by apply live_same. Qed.

(** A goal of the loop: [k] entries are applied, up to the commit offset. *)
Definition applies (k : nat) (es : list aentry) (n : nat) (s : srv) : Prop :=
  exists g, apply_loop n s = Ret tt (applied (take k es) (commit (slog s)) g s) /\
    last_recorded (take k es) (glob s) g.

(** The state of the loop at offset [o]: [k] of the entries [es] to go. *)
Record to_apply (k : nat) (es : list aentry) (s : srv) : Prop := {
  ta_len : len_ok (slog s);
  ta_live : live (slog s) (apply (slog s)) es;
  ta_num : (k <= length es)%nat;
  ta_commit : commit (slog s) = nth_offset (slog s) (apply (slog s)) k;
  ta_lead : IS_LEADER s = false
}.

Lemma to_apply_larger k es s :
  to_apply (S k) es s ->
  log_is_offset_larger (slog s) (commit (slog s)) (apply (slog s)) = true.
Proof.
  intros [Hlen Hlive Hk Hc _]. rewrite larger_distance, Z.ltb_lt, Hc.
  apply (nth_offset_distance _ Hlen _ _ es); [done|lia].
Qed.

(** An entry that is where the loop looks for it. *)
Lemma apply_loop_here k x es s n e :
  (forall s, to_apply k es s -> applies k es n s) ->
  to_apply (S k) (x :: es) s -> step_spec (slog s) (apply (slog s)) x es e ->
  log_fit_entry (slog s) e e = true -> applies (S k) (x :: es) (S n) s.
Proof.
  intros IH Hta Hs Hfit. pose proof (step_fit _ _ _ _ _ Hs) as Hx. rewrite Hfit in Hx.
  destruct Hx as [-> _]. pose proof (step_get _ _ _ _ _ Hs) as Hget.
  destruct (apply_loop_fit n s e (to_apply_larger _ _ _ Hta) Hget Hfit (ta_lead _ _ _ Hta))
    as (g1 & Hrun & Hg1). unfold applies. rewrite Hrun.
  destruct Hta as [Hlen Hlive Hk Hc Hlead].
  cbn [nth_offset] in Hc. rewrite Hget in Hc.
  edestruct (IH (applied [entry_at (slog s) e] (log_advance (slog s) e e) g1 s)) as (g & -> & Hg).
  { split; [done|apply live_set_apply, Hs|simpl in Hk; lia| |done].
    simpl. by rewrite nth_offset_set_apply. }
  exists g. split; [|exact (last_recorded_app [_] _ _ _ _ Hg1 Hg)].
  f_equal. unfold applied. cbn [take mbind list_bind]. simpl.
  by rewrite app_nil_r, reverse_app, app_assoc.
Qed.

(** Two iterations are enough for an entry: one may only move to the start of
    the buffer. *)
Lemma apply_loop_run k : forall es s n,
  to_apply k es s -> (2 * k < n)%nat -> applies k es n s.
Proof.
  induction k as [|k IH]; intros es s n Hta Hn; (destruct n as [|n]; [lia|]).
  { destruct Hta as [_ _ _ Hc _]. exists (glob s). split; [|apply last_recorded_nil].
    cbn [apply_loop nth_offset] in *. rewrite bind_get, Hc, larger_irrefl. cbn [negb].
    unfold applied. replace (set_apply (slog s) (apply (slog s))) with (slog s) by (by destruct (slog s)).
    by destruct s. }
  destruct es as [|x es]; [destruct Hta; simpl in *; lia|].
  destruct (live_step _ _ _ _ (ta_len _ _ _ Hta) (ta_live _ _ _ Hta)) as [e Hs].
  destruct (log_fit_entry (slog s) e e) eqn:Hfit.
  { eapply apply_loop_here; eauto. intros s' Hs'. apply IH; [done|lia]. }
  pose proof (step_fit _ _ _ _ _ Hs) as Hst. rewrite Hfit in Hst.
  destruct Hst as (Hlive & Hget & Hfit0 & Hadv & _).
  unfold applies. cbn [apply_loop]. rewrite bind_get, (to_apply_larger _ _ _ Hta).
  rewrite (step_get _ _ _ _ _ Hs). cbn [negb]. rewrite (bind_run _ _ s e s eq_refl), Hfit.
  cbn [negb]. unfold on_log. rewrite bind_upd. destruct n as [|n]; [lia|].
  set (s1 := set_slog (set_apply (slog s) 0) s).
  assert (to_apply (S k) (x :: es) s1) as Hta1.
  { destruct Hta as [Hlen _ Hk Hc Hlead]. split; [done|by apply live_set_apply|done| |done].
    change (commit (slog s) = nth_offset (set_apply (slog s) 0) 0 (S k)).
    rewrite nth_offset_set_apply, Hc. cbn [nth_offset].
    by rewrite Hget, (step_get _ _ _ _ _ Hs), Hadv. }
  destruct (live_step _ _ _ _ (ta_len _ _ _ Hta1) (ta_live _ _ _ Hta1)) as [e0 Hs0].
  assert (e0 = 0) as -> by (pose proof (step_get _ _ _ _ _ Hs0) as Hg0;
    change (log_get_entry (slog s) 0 = (Some e0, e0)) in Hg0; congruence).
  apply (apply_loop_here k x es s1 n 0); [|done..]. intros s' Hs'. apply IH; [done|lia].
Qed.

(** C15. Followers apply committed entries in order.  When [commit] is [k]
    entries after [apply], [apply_committed_entries] on a server that is not
    the leader returns; it has handed exactly the client commands among these
    [k] entries to the upper layer, each once and in the order of the log,
    [apply] is the commit offset, and only the record of the last command has
    changed besides. *)
Theorem follower_applies_in_order k es s :
  to_apply k es s -> (2 * k < fuel (params s))%nat ->
  exists g, apply_committed_entries s = Ret tt (applied (take k es) (commit (slog s)) g s) /\
    last_recorded (take k es) (glob s) g.
Proof.
  intros Hta Hn. destruct (apply_loop_run k es s _ Hta Hn) as (g & Hrun & Hg).
  exists g. split; [|done]. unfold apply_committed_entries. rewrite !bind_get.
  rewrite (bind_run _ _ _ _ _ Hrun), bind_get.
  change (IS_LEADER (applied _ _ _ s)) with (IS_LEADER s).
  by rewrite (ta_lead _ _ _ Hta), andb_false_r.
Qed.

(** A follower with a NOOP entry and a command to apply. *)
Definition applying_srv : srv :=
  let s := demo_srv 3 0 in
  set_slog (set_commit (set_apply demo_pruned 100) 199)
    (set_ctrl (set_sid (mk_sid 1 true 1) (ctrl s)) s).

Lemma follower_applies_in_order_witness :
  exists g, apply_committed_entries applying_srv =
      Ret tt (applied [demo_noop; demo_cmd] 199 g applying_srv) /\
    last_cmt_write_csm_idx g = 3 /\
    out (applied [demo_noop; demo_cmd] 199 g applying_srv) =
      [E_do_action 0 CSM [1; 2; 3]; E_store_cmd 0].
Proof.
  destruct (follower_applies_in_order 2 [demo_noop; demo_cmd] applying_srv) as (g & Hrun & Hg).
  - split; [split; vm_compute; discriminate| |simpl; lia|vm_compute; reflexivity|reflexivity].
    exact (live_set_commit _ 199 _ _ (live_set_apply _ 100 _ _ demo_live)).
  - vm_compute. lia.
  - exists g. split; [exact Hrun|]. split; [|reflexivity]. rewrite (lr_idx _ _ _ Hg). reflexivity.
Defined.

(** ** Pruning *)

(** Offsets that are not after [m]. *)
Definition not_before (l : dare_log_t) (m a : Z) : Prop := log_is_offset_larger l m a = false.

(** [m] is not past the apply offset of this server, nor past that of a server
    that is on and not in [l]. *)
Definition safe_head (s : srv) (l : list Z) (m : Z) : Prop :=
  not_before (slog s) m (apply (slog s)) /\
  forall i a, 0 <= i < get_extended_group_size (cid (conf s)) -> i ∉ l ->
    CID_IS_SERVER_ON (cid (conf s)) i = true ->
    aget (apply_offsets (ctrl s)) i = Some a -> not_before (slog s) m a.

(** The loop over the apply offsets: it overwrites those of servers that are
    off. *)
Record pruning (s : srv) (l : list Z) (m : Z) (s' : srv) : Prop := {
  pr_state : exists ao, s' = set_ctrl (set_apply_offsets ao (ctrl s)) s /\
    forall j, CID_IS_SERVER_ON (cid (conf s)) j = true ->
      aget ao j = aget (apply_offsets (ctrl s)) j;
  pr_safe : safe_head s l m
}.

Lemma safe_head_next s i l m a :
  safe_head s (i :: l) m ->
  (CID_IS_SERVER_ON (cid (conf s)) i = true -> aget (apply_offsets (ctrl s)) i = Some a) ->
  safe_head s l (if log_is_offset_larger (slog s) m a then a else m).
Proof.
  intros [Ha Hi] Hon. assert (forall b, not_before (slog s) m b ->
    not_before (slog s) (if log_is_offset_larger (slog s) m a then a else m) b) as Hmono.
  { intros b Hb. destruct (log_is_offset_larger (slog s) m a) eqn:H; [|done].
    eapply larger_not_trans; [by apply larger_asym|done]. }
  split; [by apply Hmono|]. intros j b Hj Hl Hjon Hb.
  destruct (Z.eq_dec j i) as [->|Hne].
  - assert (b = a) as -> by (specialize (Hon Hjon); congruence). unfold not_before.
    destruct (log_is_offset_larger (slog s) m a) eqn:H; [apply larger_irrefl|done].
  - apply Hmono. eapply Hi; eauto. rewrite not_elem_of_cons. by split.
Qed.

Lemma min_apply_step s E i l m s' :
  pruning s (i :: l) m s' ->
  wp false (min_apply i m) (fun r s1 => exists m', r = (m', None) /\ pruning s l m' s1) E s'.
Proof.
  intros [(ao & -> & Hao) Hsafe]. unfold min_apply. apply wp_bind, wp_get, wp_bind, wp_get, wp_bind.
  apply wp_when; intros Hon; cbn [conf set_ctrl] in Hon.
  - apply negb_true_iff in Hon. unfold ctrl_put. apply wp_bind, wp_get, wp_bind.
    apply wp_or_fault; [|done]. intros ao' [Hi ->]%aset_inv. apply wp_upd, wp_bind.
    eapply wp_run; [apply ctrl_get_run; simpl; by rewrite aget_insert, Z.eqb_refl|].
    apply wp_ret. eexists. split; [done|]. split.
    + eexists. split; [done|]. intros j Hj. rewrite aget_insert by done.
      destruct (Z.eqb_spec i j) as [->|]; [congruence|]. by apply Hao.
    + apply (safe_head_next s i l m (apply (slog s))); [done|congruence].
  - apply negb_false_iff in Hon. unfold ctrl_get. apply wp_bind, wp_bind, wp_get.
    apply wp_or_fault; [|done]. intros a Ha. apply wp_ret. eexists. split; [done|].
    split; [by eauto|]. apply (safe_head_next s i l m a); [done|]. intros _. by rewrite <- Hao.
Qed.

(** ** What appending and the device leave alone *)

Lemma write_entry_head l i t r c ty d j l' :
  log_write_entry l i t r c ty d = Ok (j, l') -> head l' = head l.
Proof.
  unfold log_write_entry, log_write_cmd, log_finish_append.
  repeat match goal with
  | |- context [match ?x with _ => _ end] =>
      lazymatch x with context [match _ with _ => _ end] => fail | _ => destruct x end
  end; intros [=]; subst; try done.
Qed.

Definition same_head (s s' : srv) : Prop := head (slog s') = head (slog s).
#[export] Instance same_head_refl : Reflexive same_head.
Proof. done. Qed.
#[export] Instance same_head_trans : Transitive same_head.
Proof. unfold same_head. congruence. Qed.

Lemma append_entry_head t r c ty d : pres same_head (append_entry t r c ty d).
Proof.
  intros s. unfold append_entry. apply wp_bind, wp_get, wp_bind, wp_get, wp_bind, wp_get, wp_bind.
  unfold log_append_entry. cbv zeta. set (pre := if tail (slog s) =? len (slog s) then _ else _).
  assert (forall l, pre = Ok l -> head l = head (slog s)) as Hpre.
  { unfold pre. destruct (tail (slog s) =? len (slog s)); [|by intros l [= <-]].
    destruct (log_get_tail _ _) as [x| |]; try done. by intros l [= <-]. }
  destruct pre as [l| |]; [|done..]. cbn [obind]. specialize (Hpre l eq_refl).
  destruct (log_write_entry l _ _ _ _ _ _) as [[i l']| |] eqn:Hw; [|done..].
  apply write_entry_head in Hw. unfold same_head. simpl. unfold wp. simpl. congruence.
Qed.

Lemma remote_offsets_head : pres same_head rc_get_remote_apply_offsets.
Proof.
  intros s. assert (pres (dev (fun _ => True)) rc_get_remote_apply_offsets) as H.
  { unfold rc_get_remote_apply_offsets, apply_offset_one, open_round, ctrl_put, on_ctrl. pres_all. }
  eapply wp_mono; [apply H| |]; cbn.
  - intros _ s' [Hv _]. exact (eq_sym (f_equal (fun v => head (v_log v)) Hv)).
  - intros s' [Hv _]. exact (eq_sym (f_equal (fun v => head (v_log v)) Hv)).
Qed.

Lemma distance_nonneg l o : 0 <= log_offset_end_distance l o.
Proof.
  unfold log_offset_end_distance. repeat zcase; try lia; apply Z.mod_pos_bound; lia.
Qed.

(** When everything is applied everywhere, any offset is safe. *)
Lemma safe_head_end s m t :
  log_offset_end_distance (slog s) m = 0 -> safe_head s [] m -> safe_head s [] t.
Proof.
  intros Hm [H1 H2]. assert (forall a, not_before (slog s) m a -> not_before (slog s) t a) as H.
  { intros a. unfold not_before. rewrite !larger_distance, !Z.ltb_ge, Hm.
    pose proof (distance_nonneg (slog s) t). lia. }
  split; [by apply H|]. intros i a Hi Hn Hon Ha. eapply H, H2; eauto.
Qed.

(** The end of [log_pruning], with the new head. *)
Lemma prune_to s m s1 :
  slog s1 = slog s -> safe_head s [] m ->
  let ok s' := head (slog s') = head (slog s) \/ safe_head s [] (head (slog s')) in
  forall (b : bool), wp false
    (when b (advance_head m) ;; rc ← rc_get_remote_apply_offsets; check rc) (fun _ => ok) ok s1.
Proof.
  intros Hs1 Hsafe ok b.
  assert (forall s2 s3, ok s2 -> same_head s2 s3 -> ok s3) as Hok.
  { intros s2 s3 H2 H3. unfold ok, same_head in *. by rewrite H3. }
  assert (forall s2, ok s2 ->
    wp false (rc ← rc_get_remote_apply_offsets; check rc) (fun _ => ok) ok s2) as Hrest.
  { intros s2 H2. apply wp_bind. eapply wp_mono; [apply remote_offsets_head| |]; cbn; eauto. }
  apply wp_bind. apply wp_when; intros _.
  - unfold advance_head, on_log. apply wp_bind, wp_upd. set (s2 := set_slog _ s1).
    assert (ok s2) as H2 by (right; exact Hsafe).
    assert (forall A (m : M A), pres same_head m ->
      wp false m (fun _ s3 => wp false (rc ← rc_get_remote_apply_offsets; check rc) (fun _ => ok) ok s3)
        ok s2) as Hgo.
    { intros A m' Hm. eapply wp_mono; [apply Hm| |]; cbn; eauto. }
    apply Hgo. unfold unset_flag, on_glob. pres_solve; [|apply append_entry_head|]; by apply pres_upd.
  - apply Hrest. left. by rewrite Hs1.
Qed.

(** Pruning never drops an entry a server has yet to apply.  However
    [log_pruning] ends, the head of the log is where it was, or at an offset
    that is neither past the apply offset of the leader nor past the one known
    of a server of the extended group that is on. *)
Theorem pruning_keeps_unapplied s :
  let ok s' := head (slog s') = head (slog s) \/ safe_head s [] (head (slog s')) in
  wp false log_pruning (fun _ => ok) ok s.
Proof.
  intros ok. unfold log_pruning. apply wp_bind, wp_get. apply wp_if; intros _; [by left|].
  apply wp_bind, wp_get, wp_bind, wp_get, wp_bind.
  eapply (wp_for_st false (pruning s)).
  { intros i l m s'. apply min_apply_step. }
  { split; [exists (apply_offsets (ctrl s)); split; [by destruct s as [? [] ? ? ? ? ? ? ? ?]|done]|].
    split; [apply larger_irrefl|]. intros i a Hi Hn. destruct Hn. by apply elem_of_upto. }
  intros m s' [(ao & -> & _) Hsafe]. cbn [fst]. apply wp_bind, wp_get, wp_bind, wp_get, wp_bind.
  set (s1 := set_ctrl _ s). change (slog s1) with (slog s).
  apply wp_if; intros Hd.
  - apply Z.eqb_eq in Hd. destruct (log_get_tail _ _) as [t| |]; [|done..].
    apply wp_ret, wp_bind, wp_get, (prune_to s t s1); [done|]. by eapply safe_head_end.
  - by apply wp_ret, wp_bind, wp_get, (prune_to s m s1).
Qed.

(** ** Failures *)

(** Is server [i] part of the group and reachable? *)
Definition alive (s : srv) (i : Z) : bool :=
  CID_IS_SERVER_ON (cid (conf s)) i &&
  match aget (servers (conf s)) i with
  | Some v => fail_count v <? PERMANENT_FAILURE
  | None => false
  end.

Definition alive_count (s : srv) (l : list Z) : Z :=
  Z.of_nat (length (filter (fun i => alive s i = true) l)).

Lemma alive_count_cons s i l :
  alive_count s (i :: l) = (if alive s i then 1 else 0) + alive_count s l.
Proof.
  unfold alive_count. rewrite filter_cons. destruct (alive s i); case_decide; simpl; try done; lia.
Qed.

Lemma alive_count_bound s l : 0 <= alive_count s l <= Z.of_nat (length l).
Proof.
  unfold alive_count. pose proof (length_filter (fun i => alive s i = true) l). lia.
Qed.

Lemma failure_loop_run s l n :
  IS_LEADER s = false -> (forall i, i ∈ l -> 0 <= i < Z.of_nat (length (servers (conf s)))) ->
  0 <= n -> n + Z.of_nat (length l) < 256 ->
  for_st l failure_one (cid (conf s), n) s =
  Ret ((cid (conf s), n + alive_count s l), None) s.
Proof.
  intros Hlead Hl. revert n. induction l as [|i l IH]; intros n Hn Hmax.
  { unfold alive_count. simpl. by rewrite Z.add_0_r. }
  specialize (IH ltac:(intros j Hj; apply Hl; by right)). simpl in Hmax.
  rewrite alive_count_cons. cbn [for_st failure_one]. unfold alive.
  destruct (CID_IS_SERVER_ON (cid (conf s)) i) eqn:Hon; cbn [negb andb].
  2:{ rewrite (bind_run _ _ s (cid (conf s), n, None) s eq_refl), IH by lia. done. }
  destruct (aget_is_Some (servers (conf s)) i) as [v Hv]; [apply Hl; by left|].
  rewrite bind_assoc, (bind_run _ _ _ _ _ (server_at_run i s v Hv)), Hv.
  rewrite Z.ltb_antisym. destruct (PERMANENT_FAILURE <=? fail_count v); cbn [negb].
  - rewrite bind_assoc, bind_get, Hlead. cbn [andb].
    rewrite (bind_run _ _ s (cid (conf s), n, None) s eq_refl), IH by lia. done.
  - rewrite (bind_run _ _ s (cid (conf s), u8 (n + 1), None) s eq_refl).
    rewrite wrap_small by lia. rewrite IH by lia. by rewrite Z.add_assoc.
Qed.

(** A server that is cut off shuts down.  On a server that is not the
    leader [check_failure_count] changes nothing when it can reach more than
    half of its group, and shuts the server down otherwise. *)
Theorem minority_shuts_down s :
  IS_LEADER s = false -> cid_wf (cid (conf s)) -> length (servers (conf s)) = NSRV ->
  let size := get_group_size (cid (conf s)) in
  check_failure_count s =
  if size <? 2 * alive_count s (upto size) then Ret tt s else dare_server_shutdown s.
Proof.
  intros Hlead Hwf Hsv size. pose proof (group_size_range _ Hwf) as Hsize. fold size in Hsize.
  unfold MAX_SERVER_COUNT in Hsize.
  assert (length (upto size) = Z.to_nat size) as Hlen by apply length_seqZ.
  unfold check_failure_count. rewrite bind_get. cbv zeta. fold size.
  assert (for_st (upto size) failure_one (cid (conf s), 0) s =
    Ret ((cid (conf s), 0 + alive_count s (upto size)), None) s) as Hrun.
  { apply failure_loop_run; try done; [|lia]. intros i Hi%elem_of_upto. rewrite Hsv. unfold NSRV, MAX_SERVER_COUNT. lia. }
  rewrite (bind_run _ _ _ _ _ Hrun). cbn [fst]. rewrite Z.add_0_l, Z.ltb_antisym.
  replace (2 * alive_count s (upto size) <=? size) with (alive_count s (upto size) <=? size / 2).
  2:{ pose proof (half_plus_one size (alive_count s (upto size))). repeat zcase; lia. }
  destruct (_ <=? _); [done|]. cbn [negb]. rewrite bind_get. by rewrite Hlead.
Qed.

Lemma minority_shuts_down_witness :
  check_failure_count applying_srv = Ret tt applying_srv.
Proof.
  rewrite (minority_shuts_down applying_srv); [vm_compute; reflexivity|reflexivity|by split|reflexivity].
Defined.
