(* ===== verification/ServerSpec.v ===== *)
(** * The server (dare_server.c)

    Runs of the heartbeat, pruning and recovery code on small groups that show
    what goes wrong in them. *)

From Stdlib Require Import QArith.
From S2P Require Import Prelude Bytes Words Config Log LogSpec State Init Hoare.
From S2P Require Import Qp Cq RcOps Role EpDb Ud Normal Election Server.

Open Scope Z_scope.

(** Server 0 of a group of [n] as the leader of term 1. *)
Definition leader_srv (n : Z) : srv :=
  let s := demo_srv n 0 in
  set_eps (<[0%nat := ep_new]> (eps s)) (set_ctrl (set_sid (mk_sid 1 true 0) (ctrl s)) s).

(** A leader that is told of a later term does not step down: [hb_send_cb]
    finds the reply with the larger SID, but installs its own SID again; then
    it turns into a follower that still is the leader by its SID and no
    longer sends heartbeats. *)
Theorem deposed_leader_stays_leader :
  let s0 := leader_srv 3 in
  let s := set_ctrl (set_hb (<[1%nat := mk_sid 5 true 1]> (hb (ctrl s0))) (ctrl s0)) s0 in
  exists s', hb_send_cb s = Ret tt s' /\ IS_LEADER s' = true /\
    sid (ctrl s') = mk_sid 1 true 0 /\ cb (hb_event (tmr s')) = CB_hb_receive /\
    posted (ib s') = [].
Proof. eexists. split; [vm_compute; reflexivity|]. vm_compute. auto. Qed.

(** A leader whose log is above the threshold because the others did not apply
    anything. *)
Definition full_log_srv (n : Z) : srv :=
  let s := leader_srv n in
  set_slog (set_apply (set_commit demo_log 199) 199)
    (set_ctrl (set_apply_offsets (<[0%nat := 199]> (apply_offsets (ctrl s))) (ctrl s)) s).

(** Forced pruning removes server 1 and then updates the apply offset at the
    index the loop ended with, the size of the group.  In a group of twelve
    that is the slot of a server that is not there; ... *)
Theorem forced_pruning_wrong_slot :
  exists s', force_log_pruning (full_log_srv 12) = Ret tt s' /\
    CID_IS_SERVER_ON (cid (conf s')) 1 = false /\
    aget (apply_offsets (ctrl s')) 12 = Some 199.
Proof. eexists. split; [vm_compute; reflexivity|]. vm_compute. auto. Qed.

(** ... in a group of the maximal size it is past the end of the array. *)
Theorem forced_pruning_past_end : force_log_pruning (full_log_srv 13) = Fault.
Proof. vm_compute. reflexivity. Qed.

(** A request for a snapshot when one was taken before: the pointer that is
    sent was never assigned. *)
Theorem second_snapshot_request_faults :
  let s0 := demo_srv 3 0 in
  let s1 := set_ctrl (set_sm_req (<[1%nat := 1]> (sm_req (ctrl s0))) (ctrl s0)) s0 in
  let s := set_glob (set_dare_state SNAPSHOT (glob s1)) s1 in
  poll_sm_requests s = Fault.
Proof. vm_compute. reflexivity. Qed.

(** A joining server with a usable reply from server 1, and the completion of
    the read that follows. *)
Definition joining_srv (st : ibv_wc_status) : srv :=
  let s0 := demo_srv 3 0 in
  let s1 := set_ctrl (set_sid (mk_sid 0 true 0)
              (set_sm_rep (<[1%nat := mk_sm_rep (mk_sid 1 true 1) 4096 7 100]> (sm_rep (ctrl s0)))
                 (ctrl s0))) s0 in
  set_ib (set_ctrl_cq [Poll []; Poll [mk_wc (mk_wrid 1 false false 1) st []]] (ib s1)) s1.

(** When the read fails, the reply is not tried again: [poll_sm_reply] took over
    its SID before the recovery and now considers the reply outdated; the
    server does not recover. *)
Theorem failed_recovery_is_not_retried :
  (exists s', poll_sm_reply (joining_srv IBV_WC_SUCCESS) = Ret tt s' /\
     Z.land (dare_state (glob s')) SM_RECOVERED <> 0) /\
  (exists s', poll_sm_reply (joining_srv IBV_WC_RETRY_EXC_ERR) = Ret tt s' /\
     Z.land (dare_state (glob s')) SM_RECOVERED = 0 /\ poll_sm_reply s' = Ret tt s').
Proof.
  split; eexists; (split; [vm_compute; reflexivity|]); [vm_compute; discriminate|].
  split; vm_compute; reflexivity.
Qed.
