(* ===== verification/Ringbuf.v ===== *)
(** * The ring buffer (utils/ringbuf/ringbuf.c)

    A FIFO of bytes in a circular buffer, one byte of which is always unused.
    The packet buffers between the consensus module and the guest are two of
    these.  Pointers into the buffer are offsets from its start; [Undef] is an
    access outside an object or an [assert] that fails. *)

From S2P Require Import Prelude.

Open Scope Z_scope.

(** Parts of a memory area. *)
Definition zlen {A} (l : list A) : Z := Z.of_nat (length l).
Definition ztake {A} (n : Z) (l : list A) : list A := take (Z.to_nat n) l.
Definition zdrop {A} (n : Z) (l : list A) : list A := drop (Z.to_nat n) l.

(** [memcpy] of [n] bytes from offset [o]; ... *)
Definition load (m : list Z) (o n : Z) : outcome (list Z) :=
  if (0 <=? o) && (0 <=? n) && (o + n <=? zlen m) then Ok (ztake n (zdrop o m)) else Undef.
(** ... and of the bytes [bs] to offset [o]. *)
Definition store (m : list Z) (o : Z) (bs : list Z) : outcome (list Z) :=
  if (0 <=? o) && (o + zlen bs <=? zlen m)
  then Ok (ztake o m ++ bs ++ zdrop (o + zlen bs) m) else Undef.

Definition assert (b : bool) : outcome unit := if b then Ok tt else Undef.

Record ringbuf_t := mk_ringbuf {
  rb_buf : list Z;
  rb_head : Z;
  rb_tail : Z;
  rb_size : Z
}.

Definition set_rb_buf (v : list Z) (x : ringbuf_t) : ringbuf_t :=
  mk_ringbuf v (rb_head x) (rb_tail x) (rb_size x).
Definition set_rb_head (v : Z) (x : ringbuf_t) : ringbuf_t :=
  mk_ringbuf (rb_buf x) v (rb_tail x) (rb_size x).
Definition set_rb_tail (v : Z) (x : ringbuf_t) : ringbuf_t :=
  mk_ringbuf (rb_buf x) (rb_head x) v (rb_size x).

Definition ringbuf_reset (rb : ringbuf_t) : ringbuf_t := set_rb_head 0 (set_rb_tail 0 rb).

(** Whether there is memory for the structure, and what [malloc] returns for
    the buffer: memory with some contents, or nothing. *)
Definition ringbuf_new (struct_ok : bool) (malloc : Z -> option (list Z)) (capacity : Z)
    : option ringbuf_t :=
  if struct_ok then
    let size := capacity +64 1 in
    match malloc size with
    | Some m => Some (ringbuf_reset (mk_ringbuf m 0 0 size))
    | None => None
    end
  else None.

(** The argument is what the caller's variable points to; it is null after. *)
Definition ringbuf_free (rb : option ringbuf_t) : outcome (option ringbuf_t) :=
  match rb with
  | Some _ => Ok None
  | None => Undef
  end.

Definition ringbuf_buffer_size (rb : ringbuf_t) : Z := rb_size rb.
Definition ringbuf_capacity (rb : ringbuf_t) : Z := ringbuf_buffer_size rb -64 1.
Definition ringbuf_end (rb : ringbuf_t) : Z := ringbuf_buffer_size rb.

Definition ringbuf_bytes_free (rb : ringbuf_t) : Z :=
  if rb_head rb >=? rb_tail rb
  then ringbuf_capacity rb -64 (rb_head rb - rb_tail rb)
  else u64 (rb_tail rb - rb_head rb - 1).

Definition ringbuf_bytes_used (rb : ringbuf_t) : Z :=
  ringbuf_capacity rb -64 ringbuf_bytes_free rb.

Definition ringbuf_is_full (rb : ringbuf_t) : bool := ringbuf_bytes_free rb =? 0.
Definition ringbuf_is_empty (rb : ringbuf_t) : bool :=
  ringbuf_bytes_free rb =? ringbuf_capacity rb.

Definition ringbuf_tail (rb : ringbuf_t) : Z := rb_tail rb.
Definition ringbuf_head (rb : ringbuf_t) : Z := rb_head rb.

Definition ringbuf_nextp (rb : ringbuf_t) (p : Z) : outcome Z :=
  let! _ := assert ((0 <=? p) && (p <? ringbuf_end rb)) in
  Ok ((p + 1) mod ringbuf_buffer_size rb).

(** [memchr]: the position of the first [c]. *)
Fixpoint memchr (c : Z) (bs : list Z) : option Z :=
  match bs with
  | [] => None
  | b :: bs' =>
      if b =? c then Some 0
      else match memchr c bs' with Some k => Some (k + 1) | None => None end
  end.

(** The recursion ends because the offset grows. *)
Fixpoint findchr_loop (fuel : nat) (rb : ringbuf_t) (c offset : Z) : outcome Z :=
  match fuel with
  | O => Spin
  | S fuel' =>
      let bufend := ringbuf_end rb in
      let bytes_used := ringbuf_bytes_used rb in
      if bytes_used <=? offset then Ok bytes_used
      else
        let start := (rb_tail rb +64 offset) mod ringbuf_buffer_size rb in
        let! _ := assert (start <? bufend) in
        let n := Z.min (bufend - start) (bytes_used -64 offset) in
        let! bs := load (rb_buf rb) start n in
        match memchr c bs with
        | Some k => Ok (offset +64 k)
        | None => findchr_loop fuel' rb c (offset +64 n)
        end
  end.

Definition ringbuf_findchr (rb : ringbuf_t) (c offset : Z) : outcome Z :=
  findchr_loop (S (Z.to_nat (ringbuf_bytes_used rb))) rb (u8 c) offset.

(** The loops of [ringbuf_memset] and [ringbuf_memcpy_into]; [src k n] are the
    [n] bytes from the [k]-th on. *)
Fixpoint fill_loop (fuel : nat) (src : Z -> Z -> outcome (list Z)) (dst : ringbuf_t)
    (ndone count : Z) : outcome ringbuf_t :=
  match fuel with
  | O => Spin
  | S fuel' =>
      if ndone =? count then Ok dst
      else
        let bufend := ringbuf_end dst in
        let! _ := assert (rb_head dst <? bufend) in
        let n := Z.min (bufend - rb_head dst) (count -64 ndone) in
        let! bs := src ndone n in
        let! m := store (rb_buf dst) (rb_head dst) bs in
        let head := rb_head dst + n in
        let head := if head =? bufend then 0 else head in
        fill_loop fuel' src (set_rb_head head (set_rb_buf m dst)) (ndone +64 n) count
  end.

(** The end of the operations that may overflow. *)
Definition fix_tail (overflow : bool) (dst : ringbuf_t) : outcome ringbuf_t :=
  if overflow then
    let! t := ringbuf_nextp dst (rb_head dst) in
    let dst := set_rb_tail t dst in
    let! _ := assert (ringbuf_is_full dst) in
    Ok dst
  else Ok dst.

Definition ringbuf_memset (dst : ringbuf_t) (c len : Z) : outcome (Z * ringbuf_t) :=
  let count := Z.min len (ringbuf_buffer_size dst) in
  let overflow := ringbuf_bytes_free dst <? count in
  let! dst := fill_loop (S (Z.to_nat count)) (fun _ n => Ok (replicate (Z.to_nat n) (u8 c)))
                dst 0 count in
  let! dst := fix_tail overflow dst in
  Ok (count, dst).

Definition ringbuf_memcpy_into (dst : ringbuf_t) (src : list Z) (count : Z)
    : outcome (Z * ringbuf_t) :=
  let overflow := ringbuf_bytes_free dst <? count in
  let! dst := fill_loop (S (Z.to_nat count)) (load src) dst 0 count in
  let! dst := fix_tail overflow dst in
  Ok (rb_head dst, dst).

(** [fd count] is what [read] delivers, or an error. *)
Definition ringbuf_read (fd : Z -> option (list Z)) (rb : ringbuf_t) (count : Z)
    : outcome (Z * ringbuf_t) :=
  let bufend := ringbuf_end rb in
  let nfree := ringbuf_bytes_free rb in
  let! _ := assert (rb_head rb <? bufend) in
  let count := Z.min (bufend - rb_head rb) count in
  match fd count with
  | None => Ok (-1, rb)
  | Some bs =>
      let n := zlen bs in
      let! m := store (rb_buf rb) (rb_head rb) bs in
      let rb := set_rb_buf m rb in
      if 0 <? n then
        let! _ := assert (rb_head rb + n <=? bufend) in
        let head := rb_head rb + n in
        let head := if head =? bufend then 0 else head in
        let! rb := fix_tail (nfree <? n) (set_rb_head head rb) in
        Ok (n, rb)
      else Ok (n, rb)
  end.

(** The loop of [ringbuf_memcpy_from]; [out] is what was copied so far. *)
Fixpoint drain_loop (fuel : nat) (src : ringbuf_t) (out : list Z) (count : Z)
    : outcome (list Z * ringbuf_t) :=
  match fuel with
  | O => Spin
  | S fuel' =>
      if zlen out =? count then Ok (out, src)
      else
        let bufend := ringbuf_end src in
        let! _ := assert (rb_tail src <? bufend) in
        let n := Z.min (bufend - rb_tail src) (count -64 zlen out) in
        let! bs := load (rb_buf src) (rb_tail src) n in
        let tail := rb_tail src + n in
        let tail := if tail =? bufend then 0 else tail in
        drain_loop fuel' (set_rb_tail tail src) (out ++ bs) count
  end.

(** [None] is the result 0: nothing is copied. *)
Definition ringbuf_memcpy_from (src : ringbuf_t) (count : Z)
    : outcome (option (list Z * Z) * ringbuf_t) :=
  let bytes_used := ringbuf_bytes_used src in
  if bytes_used <? count then Ok (None, src)
  else
    let! (out, src) := drain_loop (S (Z.to_nat count)) src [] count in
    let! _ := assert (count +64 ringbuf_bytes_used src =? bytes_used) in
    Ok (Some (out, rb_tail src), src).

(** [fd bs] is the number of bytes of [bs] that [write] takes, or an error. *)
Definition ringbuf_write (fd : list Z -> option Z) (rb : ringbuf_t) (count : Z)
    : outcome (Z * ringbuf_t) :=
  let bytes_used := ringbuf_bytes_used rb in
  if bytes_used <? count then Ok (0, rb)
  else
    let bufend := ringbuf_end rb in
    let! _ := assert (rb_head rb <? bufend) in
    let count := Z.min (bufend - rb_tail rb) count in
    let! bs := load (rb_buf rb) (rb_tail rb) count in
    match fd bs with
    | None => Ok (-1, rb)
    | Some n =>
        if 0 <? n then
          let! _ := assert (rb_tail rb + n <=? bufend) in
          let tail := rb_tail rb + n in
          let tail := if tail =? bufend then 0 else tail in
          let rb := set_rb_tail tail rb in
          let! _ := assert (n +64 ringbuf_bytes_used rb =? bytes_used) in
          Ok (n, rb)
        else Ok (n, rb)
    end.

Fixpoint copy_loop (fuel : nat) (dst src : ringbuf_t) (ncopied count : Z)
    : outcome (ringbuf_t * ringbuf_t) :=
  match fuel with
  | O => Spin
  | S fuel' =>
      if ncopied =? count then Ok (dst, src)
      else
        let src_bufend := ringbuf_end src in
        let dst_bufend := ringbuf_end dst in
        let! _ := assert (rb_tail src <? src_bufend) in
        let nsrc := Z.min (src_bufend - rb_tail src) (count -64 ncopied) in
        let! _ := assert (rb_head dst <? dst_bufend) in
        let n := Z.min (dst_bufend - rb_head dst) nsrc in
        let! bs := load (rb_buf src) (rb_tail src) n in
        let! m := store (rb_buf dst) (rb_head dst) bs in
        let tail := rb_tail src + n in
        let head := rb_head dst + n in
        let tail := if tail =? src_bufend then 0 else tail in
        let head := if head =? dst_bufend then 0 else head in
        copy_loop fuel' (set_rb_head head (set_rb_buf m dst)) (set_rb_tail tail src)
          (ncopied +64 n) count
  end.

(** Between two different ring buffers. *)
Definition ringbuf_copy (dst src : ringbuf_t) (count : Z)
    : outcome (option Z * ringbuf_t * ringbuf_t) :=
  let src_bytes_used := ringbuf_bytes_used src in
  if src_bytes_used <? count then Ok (None, dst, src)
  else
    let overflow := ringbuf_bytes_free dst <? count in
    let! (dst, src) := copy_loop (S (Z.to_nat count)) dst src 0 count in
    let! _ := assert (count +64 ringbuf_bytes_used src =? src_bytes_used) in
    let! dst := fix_tail overflow dst in
    Ok (Some (rb_head dst), dst, src).
