(* ===== verification/Fifo.v ===== *)
(** * The byte queue the packet buffers are written against

    What packet-buffer.c uses of a ring buffer, and what it may rely on.  The
    ring buffer of ringbuf.c is an instance ([RingbufSpec.ringbuf_fifo]); the
    theorems on the packet buffers only use the laws. *)

From S2P Require Import Prelude Ringbuf.

Open Scope Z_scope.

Class Fifo (Q : Type) := {
  fifo_used : Q -> Z;
  (** [ringbuf_memcpy_into] and [ringbuf_memcpy_from]: [None] is the result 0. *)
  fifo_put : Q -> list Z -> outcome Q;
  fifo_get : Q -> Z -> outcome (option (list Z) * Q);
  (** A load of [n] bytes at offset [o] from the pointer [ringbuf_tail]. *)
  fifo_peek : Q -> Z -> Z -> outcome (list Z);

  fifo_ok : Q -> Prop;
  fifo_cap : Q -> Z;
  fifo_list : Q -> list Z;
  (** The number of bytes from the tail to the end of the memory. *)
  fifo_straight : Q -> Z;

  fifo_used_law q : fifo_ok q -> fifo_used q = zlen (fifo_list q);
  fifo_put_law q bs :
    fifo_ok q -> zlen (fifo_list q) + zlen bs <= fifo_cap q ->
    exists q', fifo_put q bs = Ok q' /\ fifo_ok q' /\ fifo_cap q' = fifo_cap q /\
      fifo_list q' = fifo_list q ++ bs /\ fifo_straight q' = fifo_straight q;
  fifo_get_law q n :
    fifo_ok q -> 0 <= n <= zlen (fifo_list q) ->
    exists q', fifo_get q n = Ok (Some (ztake n (fifo_list q)), q') /\ fifo_ok q' /\
      fifo_cap q' = fifo_cap q /\ fifo_list q' = zdrop n (fifo_list q) /\
      (n < fifo_straight q -> fifo_straight q' = fifo_straight q - n);
  fifo_peek_law q o n :
    fifo_ok q -> 0 <= o -> 0 <= n -> o + n <= zlen (fifo_list q) -> o + n <= fifo_straight q ->
    fifo_peek q o n = Ok (ztake n (zdrop o (fifo_list q)))
}.
