(* ===== verification/Tailq.v ===== *)
(** * The queue of requests (utils/queue/queue.h)

    The macros of a tail queue the proxy and the server use: an element points
    to the next one and to the pointer that points to it, which is the head of
    the queue or the field [tqe_next] of the element before.  A queue is the
    list of its elements, for any sequence of operations. *)

From S2P Require Import Prelude.

Open Scope Z_scope.

(** The address of a pointer to an element. *)
Inductive slot :=
| Tqh_first
| Tqe_next (p : Z).

Record tailq_links := mk_links {
  tqe_next : Z;
  tqe_prev : slot
}.
Definition set_tqe_next v (e : tailq_links) : tailq_links := mk_links v (tqe_prev e).
Definition set_tqe_prev v (e : tailq_links) : tailq_links := mk_links (tqe_next e) v.

(** The head, and the links of the elements that are allocated. *)
Record queue := mk_queue {
  tqh_first : Z;
  tqh_last : slot;
  tq_mem : gmap Z tailq_links
}.
Definition set_tqh_last v (q : queue) : queue := mk_queue (tqh_first q) v (tq_mem q).
Definition tq_upd (f : tailq_links -> tailq_links) (p : Z) (q : queue) : outcome queue :=
  let! e := or_undef (tq_mem q !! p) in Ok (mk_queue (tqh_first q) (tqh_last q) (<[p := f e]> (tq_mem q))).

(** A write through a pointer to a pointer. *)
Definition tq_store (s : slot) (v : Z) (q : queue) : outcome queue :=
  match s with
  | Tqh_first => Ok (mk_queue v (tqh_last q) (tq_mem q))
  | Tqe_next p => tq_upd (set_tqe_next v) p q
  end.

Definition TAILQ_INIT (q : queue) : queue := mk_queue 0 Tqh_first (tq_mem q).

Definition TAILQ_INSERT_TAIL (elm : Z) (q : queue) : outcome queue :=
  let! q := tq_upd (set_tqe_next 0) elm q in
  let! q := tq_upd (set_tqe_prev (tqh_last q)) elm q in
  let! q := tq_store (tqh_last q) elm q in
  Ok (set_tqh_last (Tqe_next elm) q).

(** The pointer to an element that comes from behind, of the next element or
    of the end of the queue, is moved first. *)
Definition unlink_next (e : tailq_links) (q : queue) : outcome queue :=
  if negb (tqe_next e =? 0) then tq_upd (set_tqe_prev (tqe_prev e)) (tqe_next e) q
  else Ok (set_tqh_last (tqe_prev e) q).

Definition TAILQ_REMOVE (elm : Z) (q : queue) : outcome queue :=
  let! e := or_undef (tq_mem q !! elm) in
  let! q := unlink_next e q in
  let! e := or_undef (tq_mem q !! elm) in
  tq_store (tqe_prev e) (tqe_next e) q.

Definition TAILQ_FIRST (q : queue) : Z := tqh_first q.
Definition TAILQ_EMPTY (q : queue) : bool := tqh_first q =? 0.

(** ** The elements of a queue *)

(** The pointer behind the elements [l]. *)
Fixpoint end_slot (s : slot) (l : list Z) : slot :=
  match l with
  | [] => s
  | x :: l => end_slot (Tqe_next x) l
  end.

(** [l] is linked from the pointer [s] to the element [q]. *)
Fixpoint seg (m : gmap Z tailq_links) (s : slot) (l : list Z) (q : Z) : Prop :=
  match l with
  | [] => True
  | x :: l => m !! x = Some (mk_links (List.hd q l) s) /\ seg m (Tqe_next x) l q
  end.

Record queue_of (q : queue) (l : list Z) : Prop := mk_queue_of {
  qu_nodup : NoDup l;
  qu_null : 0 ∉ l;
  qu_first : tqh_first q = List.hd 0 l;
  qu_last : tqh_last q = end_slot Tqh_first l;
  qu_seg : seg (tq_mem q) Tqh_first l 0
}.

Lemma seg_app m l1 : forall s l2 q,
  seg m s (l1 ++ l2) q <-> seg m s l1 (List.hd q l2) /\ seg m (end_slot s l1) l2 q.
Proof.
  induction l1 as [|x l1 IH]; intros s l2 q; [cbn; tauto|]. cbn [app seg end_slot]. rewrite IH.
  replace (List.hd q (l1 ++ l2)) with (List.hd (List.hd q l2) l1) by (by destruct l1). tauto.
Qed.

Lemma end_slot_app l1 : forall s l2, end_slot s (l1 ++ l2) = end_slot (end_slot s l1) l2.
Proof. induction l1 as [|x l1 IH]; intros s l2; [done|apply IH]. Qed.

Lemma seg_ext m m' l : forall s q, (forall x, x ∈ l -> m' !! x = m !! x) -> seg m s l q -> seg m' s l q.
Proof.
  induction l as [|x l IH]; intros s q He; [done|]. cbn [seg]. intros [Hx Hl].
  rewrite He by apply list_elem_of_here. split; [done|]. apply IH; [|done].
  intros y Hy. apply He. by apply list_elem_of_further.
Qed.

Lemma seg_insert m s l q x e : x ∉ l -> seg m s l q -> seg (<[x := e]> m) s l q.
Proof. intros Hx. apply seg_ext. intros y Hy. apply lookup_insert_ne. by intros <-. Qed.

(** The last pointer of a segment is that of an element, whose other link
    stays when it is written. *)
Lemma seg_last m l : forall s q,
  l <> [] -> NoDup l -> seg m s l q ->
  exists p e, end_slot s l = Tqe_next p /\ p ∈ l /\ m !! p = Some e /\
    forall q', seg (<[p := set_tqe_next q' e]> m) s l q'.
Proof.
  induction l as [|x l IH]; intros s q Hl Hn Hs; [done|]. apply NoDup_cons in Hn as [Hx Hn].
  cbn [seg end_slot] in *. destruct Hs as [Ex Hs]. destruct l as [|y l].
  - exists x, (mk_links q s). split_and!; [done|apply list_elem_of_here|done|]. intros q'. by rewrite lookup_insert_eq.
  - destruct (IH (Tqe_next x) q ltac:(done) Hn Hs) as (p & e & Hp & Hi & Ep & Hseg).
    exists p, e. split_and!; [done|by apply list_elem_of_further|done|]. intros q'. split; [|apply Hseg].
    by rewrite lookup_insert_ne by congruence.
Qed.

Lemma queue_init q : queue_of (TAILQ_INIT q) [].
Proof. split; try done; [apply NoDup_nil_2|apply not_elem_of_nil]. Qed.

Lemma first_spec q l : queue_of q l -> TAILQ_FIRST q = List.hd 0 l /\ TAILQ_EMPTY q = bool_decide (l = []).
Proof.
  intros [_ H0 Hf _ _]. unfold TAILQ_FIRST, TAILQ_EMPTY. rewrite Hf. split; [done|].
  destruct l as [|x l]; [done|]. cbn [List.hd]. apply not_elem_of_cons in H0 as [H0 _].
  rewrite bool_decide_false by done. by apply Z.eqb_neq.
Qed.

(** An allocated element that is not in the queue goes to its end. *)
Lemma insert_tail_spec q l x :
  queue_of q l -> x ∉ l -> x <> 0 -> is_Some (tq_mem q !! x) ->
  exists q', TAILQ_INSERT_TAIL x q = Ok q' /\ queue_of q' (l ++ [x]) /\ dom (tq_mem q') = dom (tq_mem q).
Proof.
  intros [Hn H0 Hf Hl Hs] Hx Hx0 [e Hax]. unfold TAILQ_INSERT_TAIL, tq_upd. rewrite Hax.
  cbn [or_undef obind tq_mem tqh_last tqh_first]. rewrite lookup_insert_eq.
  cbn [or_undef obind tqh_last tqh_first tq_mem]. rewrite insert_insert_eq, Hl.
  change (set_tqe_prev _ _) with (mk_links 0 (end_slot Tqh_first l)).
  set (m := <[x := _]> (tq_mem q)). assert (Hm : seg m Tqh_first l 0) by (by apply seg_insert).
  assert (Hd : dom m = dom (tq_mem q)) by (apply dom_insert_lookup_L; by eexists).
  assert (Hmx : m !! x = Some (mk_links 0 (end_slot Tqh_first l))) by apply lookup_insert_eq.
  assert (Hnew : NoDup (l ++ [x])).
  { apply NoDup_app. split_and!; [done| |apply NoDup_singleton]. by intros y Hy Hy'%list_elem_of_singleton; subst y. }
  assert (Hnull : 0 ∉ l ++ [x]) by (intros [?|?%list_elem_of_singleton]%elem_of_app; congruence).
  destruct l as [|y l].
  - cbn [end_slot tq_store obind] in *. eexists. split; [done|]. by split; [split|].
  - destruct (seg_last m (y :: l) Tqh_first 0 ltac:(done) Hn Hm) as (p & ep & Ep & Hi & Hp & Hseg). rewrite Ep in *.
    cbn [tq_store]. unfold tq_upd. cbn [tq_mem tqh_first tqh_last]. rewrite Hp. cbn [or_undef obind].
    eexists. split; [done|]. split; [split|]; cbn [set_tqh_last tqh_first tqh_last tq_mem]; try done.
    + by rewrite end_slot_app.
    + apply seg_app. split; [apply Hseg|]. cbn [seg List.hd]. rewrite Ep. split; [|done].
      rewrite lookup_insert_ne; [done|]. intros ->. done.
    + rewrite <- Hd. apply dom_insert_lookup_L. by eexists.
Qed.

Section Remove.
Context (q : queue) (l1 : list Z) (x : Z) (l2 : list Z) (Hq : queue_of q (l1 ++ x :: l2)).
Abbreviation here := (mk_links (List.hd 0 l2) (end_slot Tqh_first l1)).

Lemma removed_nodup :
  NoDup l1 /\ NoDup (l1 ++ l2) /\ 0 ∉ l1 ++ l2 /\ x ∉ l1 ++ l2 /\ (forall y, y ∈ l1 -> y ∉ l2).
Proof.
  destruct Hq as [(N1 & N12 & [Nx N2]%NoDup_cons)%NoDup_app H0 _ _ _].
  assert (N : forall y, y ∈ l1 -> y ∉ l2) by (intros y Hy Hy2; apply (N12 y Hy); by apply list_elem_of_further).
  split_and!; [done|by apply NoDup_app|revert H0; clear; set_solver| |done].
  intros [Hi|?]%elem_of_app; [|done]. apply (N12 x Hi), list_elem_of_here.
Qed.

Lemma unlink_next_spec :
  tq_mem q !! x = Some here /\
  exists q1, unlink_next here q = Ok q1 /\ tqh_first q1 = tqh_first q /\
    tqh_last q1 = end_slot Tqh_first (l1 ++ l2) /\ dom (tq_mem q1) = dom (tq_mem q) /\ tq_mem q1 !! x = Some here /\
    seg (tq_mem q1) Tqh_first l1 x /\ seg (tq_mem q1) (end_slot Tqh_first l1) l2 0.
Proof.
  pose proof removed_nodup as (_ & N & H0 & Hx & N12). destruct Hq as [_ _ _ Hl Hs].
  apply seg_app in Hs as [Hs1 [Ex Hs2]]. cbn [List.hd] in Hs1. split; [done|]. unfold unlink_next.
  cbn [tqe_next tqe_prev]. destruct l2 as [|z l]; cbn [List.hd] in *.
  { eexists. split; [done|]. by rewrite app_nil_r. }
  cbn [seg] in Hs2. destruct Hs2 as [Ez Hs2]. apply NoDup_app in N as (_ & _ & [Nz _]%NoDup_cons).
  assert (z <> 0 /\ z <> x /\ z ∉ l1) as (Hz0 & Hzx & Hz1).
  { split_and!; [intros ->; apply H0|intros ->; apply Hx|intros Hi; apply (N12 z Hi)]; clear; set_solver. }
  unfold tq_upd. rewrite Ez. zcase; [done|]. cbn [negb or_undef obind]. eexists. split; [done|].
  cbn [tqh_first tqh_last tq_mem]. split_and!.
  - done.
  - by rewrite Hl, !end_slot_app.
  - apply dom_insert_lookup_L. by eexists.
  - by rewrite lookup_insert_ne.
  - by apply seg_insert.
  - cbn [seg]. split; [by rewrite lookup_insert_eq|by apply seg_insert].
Qed.

(** Any element can be removed. *)
Lemma remove_spec :
  exists q', TAILQ_REMOVE x q = Ok q' /\ queue_of q' (l1 ++ l2) /\ dom (tq_mem q') = dom (tq_mem q).
Proof.
  pose proof removed_nodup as (N1 & N & H0 & Hx & N12).
  destruct unlink_next_spec as (Ex & q1 & Eu & F1 & L1 & D1 & X1 & S1 & S2).
  unfold TAILQ_REMOVE. rewrite Ex. cbn [or_undef obind]. rewrite Eu. cbn [obind].
  rewrite X1. cbn [or_undef obind tqe_next tqe_prev]. pose proof (qu_first _ _ Hq) as Hf.
  destruct l1 as [|y l].
  - cbn [end_slot tq_store app] in *. eexists. split; [done|]. by split; [split|].
  - destruct (seg_last _ (y :: l) Tqh_first x ltac:(done) N1 S1) as (p & e & Ep & Hi & Hp & Hseg). rewrite Ep in *.
    cbn [tq_store]. unfold tq_upd. rewrite Hp. cbn [or_undef obind]. eexists. split; [done|].
    split; [split|]; cbn [tqh_first tqh_last tq_mem]; try done.
    + by rewrite F1, Hf.
    + apply seg_app. split; [apply Hseg|]. rewrite Ep. apply seg_insert; [by apply N12|done].
    + rewrite <- D1. apply dom_insert_lookup_L. by eexists.
Qed.
End Remove.

(** ** Requests through the queue

    The proxy allocates an entry, fills it and puts it at the end; the server
    takes the entries out one by one and frees them. *)

Section Requests.
Context {V : Type}.

(** The queue with the contents of its entries. *)
Record requests := mk_requests {
  rq_queue : queue;
  rq_vals : gmap Z V
}.

(** [p] is the address [malloc] gives, where the links are not set yet. *)
Definition submit (p : Z) (v : V) (junk : tailq_links) (r : requests) : outcome requests :=
  let q := rq_queue r in
  let! q := TAILQ_INSERT_TAIL p (mk_queue (tqh_first q) (tqh_last q) (<[p := junk]> (tq_mem q))) in
  Ok (mk_requests q (<[p := v]> (rq_vals r))).

Definition free_entry (p : Z) (r : requests) : requests :=
  let q := rq_queue r in
  mk_requests (mk_queue (tqh_first q) (tqh_last q) (delete p (tq_mem q))) (delete p (rq_vals r)).

(** The loop of [get_tailq_message]; the requests in the order in which they
    are appended to the log. *)
Fixpoint take_all (fuel : nat) (r : requests) : outcome (list V * requests) :=
  if TAILQ_EMPTY (rq_queue r) then Ok ([], r)
  else
    match fuel with
    | O => Spin
    | S fuel =>
        let n3 := TAILQ_FIRST (rq_queue r) in
        let! v := or_undef (rq_vals r !! n3) in
        let! q := TAILQ_REMOVE n3 (rq_queue r) in
        let! (vs, r) := take_all fuel (free_entry n3 (mk_requests q (rq_vals r))) in
        Ok (v :: vs, r)
    end.

(** The requests [l], with their addresses, are in the queue, and no other
    memory of requests is allocated. *)
Definition queued (r : requests) (l : list (Z * V)) : Prop :=
  queue_of (rq_queue r) (l.*1) /\ rq_vals r = list_to_map l /\ dom (tq_mem (rq_queue r)) = dom (rq_vals r).

Lemma queued_submit r l p v junk :
  queued r l -> p <> 0 -> p ∉ dom (rq_vals r) ->
  exists r', submit p v junk r = Ok r' /\ queued r' (l ++ [(p, v)]).
Proof.
  intros ([N H0 Hf Hl Hs] & Hv & Hd) Hp0 Hp. unfold submit.
  assert (Hpl : p ∉ l.*1) by (rewrite Hv, dom_list_to_map_L, elem_of_list_to_set in Hp; done).
  destruct (insert_tail_spec (mk_queue (tqh_first (rq_queue r)) (tqh_last (rq_queue r))
    (<[p := junk]> (tq_mem (rq_queue r)))) (l.*1) p) as (q' & -> & Hq & Hdom); cbn [tq_mem] in *.
  - split; try done. cbn [tq_mem]. by apply seg_insert.
  - done.
  - done.
  - rewrite lookup_insert_eq. by eexists.
  - cbn [obind]. eexists. split; [done|]. split_and!; cbn [rq_queue rq_vals].
    + by rewrite fmap_app.
    + by rewrite Hv, list_to_map_snoc.
    + by rewrite Hdom, !dom_insert_L, Hd.
Qed.

Lemma queued_take_all l : forall fuel r,
  queued r l -> (length l <= fuel)%nat -> exists r', take_all fuel r = Ok (l.*2, r') /\ queued r' [].
Proof.
  induction l as [|[p v] l IH]; intros fuel r (Hq & Hv & Hd) Hf; pose proof (first_spec _ _ Hq) as [Ef Ee].
  { exists r. split; [|by split_and!]. destruct fuel; cbn [take_all]; by rewrite Ee. }
  destruct fuel as [|fuel]; [cbn in Hf; lia|]. cbn [take_all]. rewrite Ee, Ef, bool_decide_false by done.
  cbn [fmap list_fmap fst snd List.hd list_to_map] in *.
  change (list_to_map ((p, v) :: l)) with (<[p := v]> (list_to_map l : gmap Z V)) in Hv.
  rewrite Hv, lookup_insert_eq. cbn [or_undef obind].
  destruct (remove_spec (rq_queue r) [] p (l.*1) Hq) as (q' & -> & [N H0 Hf' Hl' Hs'] & Hdom). cbn [obind app] in *.
  pose proof (qu_nodup _ _ Hq) as [Hp _]%NoDup_cons.
  destruct (IH fuel (free_entry p (mk_requests q' (<[p := v]> (list_to_map l))))) as (r' & -> & Hr'); [|cbn in Hf; lia|].
  - unfold free_entry. cbn [rq_queue rq_vals]. split_and!; cbn [rq_queue rq_vals tq_mem].
    + split; try done. cbn [tq_mem]. eapply seg_ext; [|exact Hs']. intros y Hy. apply lookup_delete_ne. by intros <-.
    + apply delete_insert_id, not_elem_of_list_to_map_1. done.
    + by rewrite !dom_delete_L, Hdom, Hd, Hv.
  - cbn [obind]. by exists r'.
Qed.

(** Requests are submitted and taken in any order. *)
Inductive q_op :=
| Put (p : Z) (v : V) (junk : tailq_links)
| Take.

Fixpoint q_run (fuel : nat) (os : list q_op) (r : requests) : outcome (list (list V)) :=
  match os with
  | [] => Ok []
  | Put p v junk :: os => let! r := submit p v junk r in q_run fuel os r
  | Take :: os => let! (vs, r) := take_all fuel r in let! l := q_run fuel os r in Ok (vs :: l)
  end.

(** What each call of [get_tailq_message] takes: the requests since the call
    before. *)
Fixpoint q_spec (os : list q_op) (pending : list V) : list (list V) :=
  match os with
  | [] => []
  | Put _ v _ :: os => q_spec os (pending ++ [v])
  | Take :: os => pending :: q_spec os []
  end.

(** [malloc] gives an address that is not in use; [A] are those in use. *)
Fixpoint fresh (os : list q_op) (A : list Z) : bool :=
  match os with
  | [] => true
  | Put p _ _ :: os => negb (p =? 0) && bool_decide (p ∉ A) && fresh os (A ++ [p])
  | Take :: os => fresh os []
  end.

Lemma queued_run fuel os : forall r l,
  queued r l -> fresh os (l.*1) = true -> (length l + length os <= fuel)%nat ->
  q_run fuel os r = Ok (q_spec os (l.*2)).
Proof.
  induction os as [|[p v junk|] os IH]; intros r l Hr Hfr Hf; cbn [q_run q_spec fresh length] in *; [done|..].
  - apply andb_true_iff in Hfr as [[Hp0 Hp%bool_decide_eq_true]%andb_true_iff Hfr]. zbool.
    destruct (queued_submit r l p v junk Hr) as (r' & -> & Hr'); [done| |].
    { destruct Hr as (_ & -> & _). by rewrite dom_list_to_map_L, elem_of_list_to_set. }
    cbn [obind]. rewrite (IH r' (l ++ [(p, v)])); [by rewrite fmap_app|done|by rewrite fmap_app|].
    rewrite length_app. cbn [length]. lia.
  - destruct (queued_take_all l fuel r Hr) as (r' & -> & Hr'); [lia|]. cbn [obind].
    rewrite (IH r' [] Hr'); [done|done|cbn [length]; lia].
Qed.

(** Whatever the order of submissions and calls of get_tailq_message, every
    call takes the requests that were submitted since the one before, in the
    order of their submission, and no freed or unallocated entry is touched. *)
Theorem requests_leave_in_order fuel q os :
  fresh os [] = true -> (length os <= fuel)%nat -> tq_mem q = ∅ ->
  q_run fuel os (mk_requests (TAILQ_INIT q) ∅) = Ok (q_spec os []).
Proof.
  intros Hfr Hf Hm. apply (queued_run fuel os _ []); [|done|done].
  split_and!; [apply queue_init|done|]. cbn [rq_queue rq_vals TAILQ_INIT tq_mem]. by rewrite Hm, !dom_empty_L.
Qed.
End Requests.
