(* ===== verification/RingbufSpec.v ===== *)
(** * The ring buffer is a bounded FIFO

    The bytes of the buffer, read around from [head], are the last bytes that
    were written, oldest first; the queue is the end of that window that
    [tail] has not passed.  Every operation of ringbuf.c acts on the queue as
    the one on lists does, with the documented overwriting of the oldest bytes
    when it overflows. *)

From S2P Require Import Prelude Ringbuf Fifo.

Open Scope Z_scope.

(** ** Lists with indices in [Z] *)

Lemma zlen_nonneg {A} (l : list A) : 0 <= zlen l.
Proof. unfold zlen. lia. Qed.
Lemma zlen_app {A} (l k : list A) : zlen (l ++ k) = zlen l + zlen k.
Proof. unfold zlen. rewrite length_app. lia. Qed.
Lemma zlen_ztake {A} n (l : list A) : zlen (ztake n l) = Z.max 0 (Z.min n (zlen l)).
Proof. unfold zlen, ztake. rewrite length_take. lia. Qed.
Lemma zlen_zdrop {A} n (l : list A) : zlen (zdrop n l) = Z.max 0 (zlen l - Z.max 0 n).
Proof. unfold zlen, zdrop. rewrite length_drop. lia. Qed.

Lemma ztake_zdrop {A} n (l : list A) : ztake n l ++ zdrop n l = l.
Proof. apply take_drop. Qed.
Lemma ztake_ge {A} n (l : list A) : zlen l <= n -> ztake n l = l.
Proof. unfold zlen, ztake. intros. apply take_ge. lia. Qed.
Lemma zdrop_ge {A} n (l : list A) : zlen l <= n -> zdrop n l = [].
Proof. unfold zlen, zdrop. intros. apply drop_ge. lia. Qed.
Lemma ztake_le0 {A} n (l : list A) : n <= 0 -> ztake n l = [].
Proof. unfold ztake. intros. by replace (Z.to_nat n) with 0%nat by lia. Qed.
Lemma zdrop_le0 {A} n (l : list A) : n <= 0 -> zdrop n l = l.
Proof. unfold zdrop. intros. by replace (Z.to_nat n) with 0%nat by lia. Qed.

Lemma zdrop_zdrop {A} a b (l : list A) : 0 <= a -> 0 <= b -> zdrop a (zdrop b l) = zdrop (b + a) l.
Proof. unfold zdrop. intros. rewrite drop_drop. f_equal. lia. Qed.
Lemma ztake_ztake {A} a b (l : list A) : ztake a (ztake b l) = ztake (Z.min a b) l.
Proof. unfold ztake. rewrite take_take. f_equal. lia. Qed.
Lemma zdrop_app_l {A} n (l k : list A) : n <= zlen l -> zdrop n (l ++ k) = zdrop n l ++ k.
Proof. unfold zdrop, zlen. intros. apply drop_app_le. lia. Qed.
Lemma zdrop_app_r {A} n (l k : list A) :
  zlen l <= n -> zdrop n (l ++ k) = zdrop (n - zlen l) k.
Proof. unfold zdrop, zlen. intros. rewrite drop_app_ge by lia. f_equal. lia. Qed.
Lemma ztake_app_l {A} n (l k : list A) : n <= zlen l -> ztake n (l ++ k) = ztake n l.
Proof. unfold ztake, zlen. intros. apply take_app_le. lia. Qed.
Lemma ztake_app_r {A} n (l k : list A) :
  zlen l <= n -> ztake n (l ++ k) = l ++ ztake (n - zlen l) k.
Proof. unfold ztake, zlen. intros. rewrite take_app_ge by lia. f_equal. f_equal. lia. Qed.
Lemma zdrop_ztake {A} a b (l : list A) :
  0 <= a -> zdrop a (ztake b l) = ztake (b - a) (zdrop a l).
Proof.
  unfold zdrop, ztake. intros. rewrite skipn_firstn_comm. f_equal. lia.
Qed.

(** ** The window and the queue *)

Record rb_inv (rb : ringbuf_t) : Prop := {
  rbi_len : zlen (rb_buf rb) = rb_size rb;
  rbi_size : 1 <= rb_size rb <= 2 ^ 62;
  rbi_head : 0 <= rb_head rb < rb_size rb;
  rbi_tail : 0 <= rb_tail rb < rb_size rb
}.

(** The bytes from [o] on, around the end of the buffer. *)
Definition around (o : Z) (m : list Z) : list Z := zdrop o m ++ ztake o m.

Definition used (rb : ringbuf_t) : Z := (rb_head rb - rb_tail rb) mod rb_size rb.
Definition contents (rb : ringbuf_t) : list Z :=
  zdrop (rb_size rb - used rb) (around (rb_head rb) (rb_buf rb)).

Lemma zlen_around o (m : list Z) : 0 <= o <= zlen m -> zlen (around o m) = zlen m.
Proof. intros. unfold around. rewrite zlen_app, zlen_zdrop, zlen_ztake. lia. Qed.

Lemma used_range rb : rb_inv rb -> 0 <= used rb < rb_size rb.
Proof. intros []. apply Z.mod_pos_bound. lia. Qed.

Lemma used_eq rb :
  rb_inv rb -> used rb = if rb_tail rb <=? rb_head rb then rb_head rb - rb_tail rb
                         else rb_size rb - rb_tail rb + rb_head rb.
Proof.
  intros []. unfold used. zcase; [apply Z.mod_small; lia|].
  rewrite <- (Z.mod_add _ 1) by lia. rewrite Z.mod_small; lia.
Qed.

Lemma capacity_eq rb : rb_inv rb -> ringbuf_capacity rb = rb_size rb - 1.
Proof. intros []. apply u64_small. unfold ringbuf_buffer_size. lia. Qed.

Lemma free_eq rb : rb_inv rb -> ringbuf_bytes_free rb = rb_size rb - 1 - used rb.
Proof.
  intros H. pose proof (used_range _ H). unfold ringbuf_bytes_free.
  rewrite capacity_eq, used_eq in * by done. destruct H.
  repeat zcase; rewrite u64_small; lia.
Qed.

Lemma bytes_used_eq rb : rb_inv rb -> ringbuf_bytes_used rb = used rb.
Proof.
  intros H. pose proof (used_range _ H). unfold ringbuf_bytes_used.
  rewrite capacity_eq, free_eq by done. destruct H. rewrite u64_small; lia.
Qed.

Lemma zlen_contents rb : rb_inv rb -> zlen (contents rb) = used rb.
Proof.
  intros H. pose proof (used_range _ H). destruct H. unfold contents.
  rewrite zlen_zdrop, zlen_around; lia.
Qed.

(** The queue from its other end. *)
Lemma contents_tail rb :
  rb_inv rb -> contents rb = ztake (used rb) (around (rb_tail rb) (rb_buf rb)).
Proof.
  intros H. unfold contents, around. rewrite used_eq by done. destruct H as [Hl Hs Hh Ht].
  zcase.
  - rewrite zdrop_app_r, zdrop_ztake; rewrite ?zlen_zdrop; [|lia..].
    rewrite ztake_app_l by (rewrite zlen_zdrop; lia).
    f_equal; [lia|]. f_equal. lia.
  - rewrite zdrop_app_l, zdrop_zdrop, ztake_app_r; rewrite ?zlen_zdrop; [|lia..].
    f_equal; [f_equal; lia|]. rewrite ztake_ztake. f_equal. lia.
Qed.

(** ** Writing *)

(** The head after [n] bytes, as the code computes it. *)
Definition wrap_to (size p : Z) : Z := if p =? size then 0 else p.

Lemma wrap_to_mod size p : 0 < size -> 0 <= p <= size -> wrap_to size p = p mod size.
Proof.
  intros. unfold wrap_to. zcase; [subst; by rewrite Z.mod_same by lia|].
  rewrite Z.mod_small; lia.
Qed.

Lemma store_around m o bs :
  0 <= o -> o + zlen bs <= zlen m -> 0 < zlen m ->
  exists m', store m o bs = Ok m' /\ zlen m' = zlen m /\
    around (wrap_to (zlen m) (o + zlen bs)) m' = zdrop (zlen bs) (around o m) ++ bs.
Proof.
  intros Ho Hn Hpos. pose proof (zlen_nonneg bs). unfold store.
  rewrite !(proj2 (Z.leb_le _ _)) by lia. eexists. split; [done|].
  rewrite !zlen_app, zlen_ztake, zlen_zdrop. split; [lia|].
  unfold around, wrap_to. zcase.
  - rewrite (zdrop_le0 0), (ztake_le0 0), app_nil_r by lia.
    rewrite (zdrop_ge (o + zlen bs) m), app_nil_r by lia.
    rewrite (zdrop_app_r (zlen bs)), zdrop_le0 by (rewrite zlen_zdrop; lia). done.
  - rewrite (zdrop_app_l (zlen bs)), zdrop_zdrop by (rewrite ?zlen_zdrop; lia).
    rewrite app_assoc, (zdrop_app_r _ (ztake o m ++ bs)), (ztake_app_l _ (ztake o m ++ bs));
      rewrite zlen_app, zlen_ztake; [|lia..].
    rewrite zdrop_le0, ztake_ge, app_assoc; [done|rewrite zlen_app, zlen_ztake; lia|lia].
Qed.

(** [bs] was written at the head: the window moved on. *)
Record written (bs : list Z) (rb rb' : ringbuf_t) : Prop := {
  wr_inv : rb_inv rb';
  wr_size : rb_size rb' = rb_size rb;
  wr_tail : rb_tail rb' = rb_tail rb;
  wr_head : rb_head rb' = (rb_head rb + zlen bs) mod rb_size rb;
  wr_win : around (rb_head rb') (rb_buf rb') =
           zdrop (zlen bs) (around (rb_head rb) (rb_buf rb) ++ bs)
}.

Lemma written_nil rb : rb_inv rb -> written [] rb rb.
Proof.
  intros H. split; try done.
  - destruct H. change (zlen []) with 0. by rewrite Z.add_0_r, Z.mod_small.
  - by rewrite app_nil_r, zdrop_le0.
Qed.

Lemma written_app a b rb1 rb2 rb3 :
  rb_inv rb1 -> written a rb1 rb2 -> written b rb2 rb3 -> written (a ++ b) rb1 rb3.
Proof.
  intros Hi [Hi2 Hs2 Ht2 Hh2 Hw2] [Hi3 Hs3 Ht3 Hh3 Hw3].
  pose proof (zlen_nonneg a). pose proof (zlen_nonneg b).
  split; [done|congruence|congruence| |].
  - rewrite Hh3, Hh2, Hs2, zlen_app, Zplus_mod_idemp_l. f_equal. lia.
  - assert (zlen (around (rb_head rb1) (rb_buf rb1)) = rb_size rb1) as Hl
      by (destruct Hi; rewrite zlen_around; lia).
    rewrite Hw3, Hw2, zlen_app, app_assoc.
    rewrite <- (zdrop_app_l (zlen a)) by (rewrite zlen_app; pose proof (zlen_nonneg (around (rb_head rb1) (rb_buf rb1))); lia).
    by rewrite zdrop_zdrop.
Qed.

(** One step of the loops that write. *)
Lemma store_written rb bs :
  rb_inv rb -> rb_head rb + zlen bs <= rb_size rb ->
  exists m, store (rb_buf rb) (rb_head rb) bs = Ok m /\
    written bs rb (set_rb_head (wrap_to (rb_size rb) (rb_head rb + zlen bs)) (set_rb_buf m rb)).
Proof.
  intros H Hn. pose proof (zlen_nonneg bs). destruct H as [Hl Hs Hh Ht].
  destruct (store_around (rb_buf rb) (rb_head rb) bs) as (m & -> & Hm & Hw); [lia..|].
  exists m. split; [done|]. rewrite Hl in *.
  pose proof (wrap_to_mod (rb_size rb) (rb_head rb + zlen bs) ltac:(lia) ltac:(lia)) as Hwt.
  pose proof (Z.mod_pos_bound (rb_head rb + zlen bs) (rb_size rb)).
  split; simpl; try done; [|by rewrite Hw, zdrop_app_l by (rewrite zlen_around; lia)].
  split; simpl; lia.
Qed.

Section Fill.
Context (bs : list Z) (src : Z -> Z -> outcome (list Z)) (Hbs : zlen bs <= 2 ^ 62).
Context (Hsrc : forall k n, 0 <= k -> 0 <= n -> k + n <= zlen bs ->
                  src k n = Ok (ztake n (zdrop k bs))).

Lemma fill_loop_spec fuel : forall dst k,
  rb_inv dst -> 0 <= k <= zlen bs -> zlen bs - k < Z.of_nat fuel ->
  exists dst', fill_loop fuel src dst k (zlen bs) = Ok dst' /\ written (zdrop k bs) dst dst'.
Proof.
  induction fuel as [|fuel IH]; intros dst k Hi Hk Hf; [lia|]. cbn [fill_loop].
  destruct (Z.eqb_spec k (zlen bs)) as [->|Hne].
  { exists dst. split; [done|]. rewrite zdrop_ge by lia. by apply written_nil. }
  pose proof Hi as [Hl Hs Hh Ht]. unfold ringbuf_end, ringbuf_buffer_size.
  rewrite (proj2 (Z.ltb_lt _ _)) by lia. cbn [assert obind].
  rewrite (u64_small (zlen bs - k)) by lia. set (n := Z.min _ _).
  rewrite Hsrc by lia. cbn [obind]. set (b := ztake n (zdrop k bs)).
  assert (zlen b = n) as Hb by (unfold b; rewrite zlen_ztake, zlen_zdrop; lia).
  destruct (store_written dst b Hi) as (m & -> & Hw); [lia|]. cbn [obind].
  rewrite Hb in Hw. fold (wrap_to (rb_size dst) (rb_head dst + n)).
  rewrite (u64_small (k + n)) by lia.
  destruct (IH _ (k + n) (wr_inv _ _ _ Hw)) as (dst' & -> & Hw'); [lia..|].
  exists dst'. split; [done|].
  replace (zdrop k bs) with (b ++ zdrop (k + n) bs); [by eapply written_app|].
  unfold b. rewrite <- (zdrop_zdrop n k) by lia. apply ztake_zdrop.
Qed.
End Fill.

(** ** The queue after writing *)

(** A queue that keeps its newest [cap] bytes. *)
Definition push (cap : Z) (q bs : list Z) : list Z := zdrop (zlen q + zlen bs - cap) (q ++ bs).

Lemma used_written bs rb rb' :
  rb_inv rb -> written bs rb rb' -> used rb' = (used rb + zlen bs) mod rb_size rb.
Proof.
  intros Hi [_ Hs Ht Hh _]. unfold used. rewrite Hs, Ht, Hh.
  rewrite Zminus_mod_idemp_l, Zplus_mod_idemp_l. f_equal. lia.
Qed.

Lemma contents_fits bs rb rb' :
  rb_inv rb -> written bs rb rb' -> used rb + zlen bs < rb_size rb ->
  contents rb' = contents rb ++ bs.
Proof.
  intros Hi Hw Hfit. pose proof (used_range _ Hi). pose proof (zlen_nonneg bs).
  pose proof (used_written _ _ _ Hi Hw) as Hu. rewrite Z.mod_small in Hu by lia.
  assert (zlen (around (rb_head rb) (rb_buf rb)) = rb_size rb) as Hl
    by (destruct Hi; rewrite zlen_around; lia).
  unfold contents. rewrite (wr_win _ _ _ Hw), (wr_size _ _ _ Hw), Hu, zdrop_zdrop by lia.
  rewrite zdrop_app_l by lia. f_equal. f_equal. lia.
Qed.

(** After an overflow the tail is set and the buffer is full of the newest
    bytes. *)
Lemma fix_tail_overflow bs rb rb' :
  rb_inv rb -> written bs rb rb' -> rb_size rb <= used rb + zlen bs ->
  exists rb2, fix_tail true rb' = Ok rb2 /\ rb_inv rb2 /\ rb_size rb2 = rb_size rb /\
    rb_head rb2 = rb_head rb' /\ contents rb2 = push (rb_size rb - 1) (contents rb) bs.
Proof.
  intros Hi Hw Hov. pose proof (used_range _ Hi). destruct Hw as [Hi' Hs _ _ Hwin].
  pose proof Hi' as [Hl' Hs' Hh' _]. pose proof Hi as [Hl Hsz Hh Ht].
  unfold fix_tail, ringbuf_nextp, ringbuf_end, ringbuf_buffer_size.
  rewrite (proj2 (Z.leb_le _ _)), (proj2 (Z.ltb_lt _ _)) by lia. cbn [andb assert obind].
  pose proof (Z.mod_pos_bound (rb_head rb' + 1) (rb_size rb') ltac:(lia)) as Hb.
  set (t := (rb_head rb' + 1) mod rb_size rb') in *.
  assert (rb_inv (set_rb_tail t rb')) as Hi2 by (split; simpl; lia).
  assert (used (set_rb_tail t rb') = rb_size rb - 1) as Hu.
  { rewrite <- Hs. unfold used, t. simpl. rewrite Zminus_mod_idemp_r.
    replace (rb_head rb' - (rb_head rb' + 1)) with (-1) by lia.
    rewrite <- (Z.mod_add _ 1) by lia. rewrite Z.mod_small; lia. }
  unfold ringbuf_is_full. rewrite free_eq, Hu by done. simpl rb_size. rewrite Hs.
  rewrite (proj2 (Z.eqb_eq _ _)) by lia. cbn [assert obind].
  exists (set_rb_tail t rb'). split; [done|]. split; [done|]. split; [done|]. split; [done|].
  assert (zlen (around (rb_head rb) (rb_buf rb)) = rb_size rb) as Hwl by (rewrite zlen_around; lia).
  unfold contents at 1. rewrite Hu. simpl rb_size. simpl rb_head. simpl rb_buf. rewrite Hwin, Hs.
  unfold push. rewrite zlen_contents by done. unfold contents.
  rewrite <- (zdrop_app_l _ (around _ _)), !zdrop_zdrop by lia. f_equal. lia.
Qed.

(** Writing with the overflow test that precedes it. *)
Lemma push_spec bs rb rb' :
  rb_inv rb -> written bs rb rb' ->
  exists rb2, fix_tail (ringbuf_bytes_free rb <? zlen bs) rb' = Ok rb2 /\ rb_inv rb2 /\
    rb_size rb2 = rb_size rb /\ contents rb2 = push (rb_size rb - 1) (contents rb) bs.
Proof.
  intros Hi Hw. rewrite free_eq by done. destruct (Z.ltb_spec (rb_size rb - 1 - used rb) (zlen bs)).
  - destruct (fix_tail_overflow _ _ _ Hi Hw) as (rb2 & ? & ? & ? & ? & ?); [lia|]. eauto.
  - exists rb'. split; [done|]. destruct Hw as [H1 H2 H3 H4 H5] eqn:Hw'. split; [done|].
    split; [done|]. rewrite (contents_fits bs rb rb' Hi Hw) by lia. unfold push.
    rewrite zlen_contents by done. rewrite zdrop_le0; [done|lia].
Qed.

Lemma memcpy_into_push rb src :
  rb_inv rb -> zlen src <= 2 ^ 62 ->
  exists rb', ringbuf_memcpy_into rb src (zlen src) = Ok (rb_head rb', rb') /\ rb_inv rb' /\
    rb_size rb' = rb_size rb /\ contents rb' = push (rb_size rb - 1) (contents rb) src.
Proof.
  intros Hi Hsz. pose proof (zlen_nonneg src). unfold ringbuf_memcpy_into.
  destruct (fill_loop_spec src (load src) Hsz) with (fuel := S (Z.to_nat (zlen src)))
    (dst := rb) (k := 0) as (rb1 & -> & Hw); [|done|lia|lia|].
  { intros k n Hk Hn Hkn. unfold load. by rewrite !(proj2 (Z.leb_le _ _)) by lia. }
  rewrite zdrop_le0 in Hw by lia. cbn [obind].
  destruct (push_spec _ _ _ Hi Hw) as (rb2 & -> & H1 & H2 & H3). cbn [obind]. eauto.
Qed.

Lemma memset_push rb c len :
  rb_inv rb -> 0 <= len ->
  let count := Z.min len (rb_size rb) in
  exists rb', ringbuf_memset rb c len = Ok (count, rb') /\ rb_inv rb' /\
    rb_size rb' = rb_size rb /\
    contents rb' = push (rb_size rb - 1) (contents rb) (replicate (Z.to_nat count) (u8 c)).
Proof.
  intros Hi Hlen count. pose proof (rbi_size _ Hi). unfold ringbuf_memset, ringbuf_buffer_size.
  fold count. set (bs := replicate (Z.to_nat count) (u8 c)).
  assert (zlen bs = count) as Hbs by (unfold zlen, bs; rewrite length_replicate; lia).
  destruct (fill_loop_spec bs (fun _ n => Ok (replicate (Z.to_nat n) (u8 c)))) with
    (fuel := S (Z.to_nat count)) (dst := rb) (k := 0) as (rb1 & Hrun & Hw); [lia| |done|lia|lia|].
  { intros k n Hk Hn Hkn. f_equal. unfold bs, ztake, zdrop. rewrite drop_replicate, take_replicate.
    f_equal. lia. }
  rewrite Hbs in Hrun. rewrite Hrun. rewrite zdrop_le0 in Hw by lia. cbn [obind].
  destruct (push_spec _ _ _ Hi Hw) as (rb2 & Hfix & H1 & H2 & H3). rewrite Hbs in Hfix.
  rewrite Hfix. cbn [obind]. eauto.
Qed.

(** ** Reading *)

(** [n] bytes were taken from the tail. *)
Record taken (n : Z) (rb rb' : ringbuf_t) : Prop := {
  tk_inv : rb_inv rb';
  tk_size : rb_size rb' = rb_size rb;
  tk_used : used rb' = used rb - n;
  tk_con : contents rb' = zdrop n (contents rb);
  tk_tail : rb_tail rb' = (rb_tail rb + n) mod rb_size rb
}.

Lemma taken_0 rb : rb_inv rb -> taken 0 rb rb.
Proof. intros H. split; try done; [lia|]. destruct H. rewrite Z.mod_small; lia. Qed.

Lemma taken_add a b rb1 rb2 rb3 :
  0 <= a -> 0 <= b -> taken a rb1 rb2 -> taken b rb2 rb3 -> taken (a + b) rb1 rb3.
Proof.
  intros Ha Hb [H1 H2 H3 H4 H9] [H5 H6 H7 H8 H10]. split; [done|congruence|lia| |].
  - by rewrite H8, H4, zdrop_zdrop.
  - rewrite H10, H9, H2, Zplus_mod_idemp_l. f_equal. lia.
Qed.

Lemma advance_tail rb n :
  rb_inv rb -> 0 <= n <= used rb ->
  taken n rb (set_rb_tail ((rb_tail rb + n) mod rb_size rb) rb).
Proof.
  intros Hi Hn. pose proof (used_range _ Hi). pose proof Hi as [Hl Hs Hh Htl].
  pose proof (Z.mod_pos_bound (rb_tail rb + n) (rb_size rb)). set (rb' := set_rb_tail _ rb).
  assert (used rb' = used rb - n) as Hu.
  { unfold used, rb'. simpl. rewrite Zminus_mod_idemp_r.
    replace (rb_head rb - (rb_tail rb + n)) with (rb_head rb - rb_tail rb - n) by lia.
    rewrite <- Zminus_mod_idemp_l. apply Z.mod_small. fold (used rb). lia. }
  split; [split; simpl; lia|done|done| |done].
  unfold contents. rewrite Hu. simpl. rewrite zdrop_zdrop by lia. f_equal. lia.
Qed.

Lemma load_tail rb n :
  rb_inv rb -> 0 <= n <= used rb -> rb_tail rb + n <= rb_size rb ->
  load (rb_buf rb) (rb_tail rb) n = Ok (ztake n (contents rb)).
Proof.
  intros Hi Hn Ht. pose proof Hi as [Hl Hs Hh Htl].
  unfold load. rewrite !(proj2 (Z.leb_le _ _)) by lia. cbn [andb]. f_equal.
  rewrite contents_tail, ztake_ztake, Z.min_l by (done || lia). unfold around.
  rewrite ztake_app_l; [done|]. rewrite zlen_zdrop. lia.
Qed.

(** One step of the loops that read. *)
Lemma load_taken rb n :
  rb_inv rb -> 0 <= n <= used rb -> rb_tail rb + n <= rb_size rb ->
  load (rb_buf rb) (rb_tail rb) n = Ok (ztake n (contents rb)) /\
  taken n rb (set_rb_tail (wrap_to (rb_size rb) (rb_tail rb + n)) rb).
Proof.
  intros Hi Hn Ht. split; [by apply load_tail|].
  destruct Hi. rewrite wrap_to_mod by lia. by apply advance_tail.
Qed.

Lemma drain_loop_spec count : count <= 2 ^ 62 -> forall fuel rb out,
  rb_inv rb -> zlen out <= count -> count - zlen out <= used rb ->
  count - zlen out < Z.of_nat fuel ->
  exists rb', drain_loop fuel rb out count = Ok (out ++ ztake (count - zlen out) (contents rb), rb') /\
    taken (count - zlen out) rb rb'.
Proof.
  intros Hc. induction fuel as [|fuel IH]; intros rb out Hi Ho Hu Hf; [lia|]. cbn [drain_loop].
  destruct (Z.eqb_spec (zlen out) count) as [<-|Hne].
  { exists rb. rewrite Z.sub_diag, ztake_le0, app_nil_r by lia. split; [done|by apply taken_0]. }
  pose proof Hi as [Hl Hs Hh Ht]. pose proof (zlen_nonneg out).
  unfold ringbuf_end, ringbuf_buffer_size.
  rewrite (proj2 (Z.ltb_lt _ _)) by lia. cbn [assert obind].
  rewrite (u64_small (count - zlen out)) by lia. set (n := Z.min _ _).
  destruct (load_taken rb n Hi) as [-> Htk]; [lia..|]. cbn [obind].
  fold (wrap_to (rb_size rb) (rb_tail rb + n)).
  assert (zlen (out ++ ztake n (contents rb)) = zlen out + n) as Hlen.
  { rewrite zlen_app, zlen_ztake, zlen_contents by done. lia. }
  destruct (IH _ (out ++ ztake n (contents rb)) (tk_inv _ _ _ Htk)) as (rb' & -> & Htk');
    rewrite ?Hlen, ?(tk_used _ _ _ Htk); [lia..|].
  exists rb'. rewrite (tk_con _ _ _ Htk), <- app_assoc. split.
  - f_equal. f_equal. f_equal.
    rewrite <- (ztake_zdrop n (ztake (count - zlen out) (contents rb))).
    rewrite ztake_ztake, zdrop_ztake, Z.min_l by lia. f_equal. f_equal. lia.
  - rewrite Hlen in Htk'. replace (count - zlen out) with (n + (count - (zlen out + n))) by lia.
    eapply taken_add; [lia..|done|done].
Qed.

Lemma memcpy_from_pop rb count :
  rb_inv rb -> 0 <= count <= 2 ^ 62 ->
  if used rb <? count then ringbuf_memcpy_from rb count = Ok (None, rb)
  else exists rb', ringbuf_memcpy_from rb count =
           Ok (Some (ztake count (contents rb), rb_tail rb'), rb') /\ taken count rb rb'.
Proof.
  intros Hi Hc. unfold ringbuf_memcpy_from. rewrite bytes_used_eq by done.
  destruct (Z.ltb_spec (used rb) count); [done|].
  destruct (drain_loop_spec count ltac:(lia) (S (Z.to_nat count)) rb [] Hi) as (rb' & -> & Htk);
    change (zlen []) with 0 in *; [lia..|]. rewrite Z.sub_0_r in *. cbn [obind].
  rewrite bytes_used_eq by apply Htk. rewrite (tk_used _ _ _ Htk).
  pose proof (used_range _ Hi). pose proof (rbi_size _ Hi).
  rewrite u64_small, (proj2 (Z.eqb_eq _ _)) by lia. cbn [assert obind]. eauto.
Qed.

(** ** Searching *)

(** The index of the first [c], the length if there is none. *)
Definition first_index (c : Z) (q : list Z) : Z := default (zlen q) (memchr c q).

Lemma first_index_app c a b :
  first_index c (a ++ b) = match memchr c a with
                           | Some k => k
                           | None => zlen a + first_index c b
                           end.
Proof.
  unfold first_index. induction a as [|x a IH]; [done|]. cbn [memchr app].
  destruct (x =? c); [done|].
  assert (forall l : list Z, zlen (x :: l) = zlen l + 1) as Hc by (intros l; unfold zlen; simpl; lia).
  rewrite !Hc. destruct (memchr c (a ++ b)) as [k|], (memchr c a) as [k'|];
    simpl in *; lia.
Qed.

Lemma memchr_range c q k : memchr c q = Some k -> 0 <= k < zlen q.
Proof.
  revert k. induction q as [|x q IH]; intros k; [done|]. cbn [memchr].
  assert (zlen (x :: q) = zlen q + 1) as -> by (unfold zlen; simpl; lia).
  destruct (x =? c); [intros [= <-]; pose proof (zlen_nonneg q); lia|].
  destruct (memchr c q) as [k'|]; [|done]. intros [= <-]. specialize (IH k' eq_refl). lia.
Qed.

Lemma findchr_loop_spec rb c : rb_inv rb -> forall fuel offset,
  0 <= offset <= used rb -> used rb - offset < Z.of_nat fuel ->
  findchr_loop fuel rb c offset = Ok (offset + first_index c (zdrop offset (contents rb))).
Proof.
  intros Hi. pose proof (used_range _ Hi) as Hu. pose proof (rbi_size _ Hi) as Hsz.
  induction fuel as [|fuel IH]; intros offset Ho Hf; [lia|]. cbn [findchr_loop].
  rewrite bytes_used_eq by done. unfold ringbuf_end, ringbuf_buffer_size.
  destruct (Z.leb_spec (used rb) offset).
  { rewrite zdrop_ge by (rewrite zlen_contents by done; lia). f_equal. unfold first_index, zlen. simpl. lia. }
  pose proof (rbi_tail _ Hi) as Ht. rewrite (u64_small (rb_tail rb + offset)) by lia.
  pose proof (Z.mod_pos_bound (rb_tail rb + offset) (rb_size rb) ltac:(lia)) as Hst.
  set (start := (rb_tail rb + offset) mod rb_size rb) in *.
  rewrite (proj2 (Z.ltb_lt _ _)) by lia. cbn [assert obind].
  rewrite (u64_small (used rb - offset)) by lia. set (n := Z.min _ _).
  pose proof (advance_tail rb offset Hi Ho) as Htk. fold start in Htk.
  pose proof (load_tail _ n (tk_inv _ _ _ Htk)) as Hload.
  rewrite (tk_used _ _ _ Htk), (tk_con _ _ _ Htk) in Hload. simpl in Hload.
  rewrite Hload by lia. cbn [obind]. set (q := zdrop offset (contents rb)) in *.
  assert (zlen q = used rb - offset) as Hq
    by (unfold q; rewrite zlen_zdrop, zlen_contents by done; lia).
  assert (first_index c q = first_index c (ztake n q ++ zdrop n q)) as -> by (by rewrite ztake_zdrop).
  rewrite first_index_app. destruct (memchr c (ztake n q)) as [k|] eqn:Hk.
  - pose proof (memchr_range _ _ _ Hk) as Hr. rewrite zlen_ztake in Hr. f_equal. apply u64_small. lia.
  - rewrite (u64_small (offset + n)), IH, zlen_ztake by lia. f_equal.
    replace (zdrop n q) with (zdrop (offset + n) (contents rb)); [lia|].
    unfold q. by rewrite zdrop_zdrop by lia.
Qed.

Lemma findchr_first rb c offset :
  rb_inv rb -> 0 <= offset ->
  ringbuf_findchr rb c offset =
  Ok (if used rb <=? offset then used rb
      else offset + first_index (u8 c) (zdrop offset (contents rb))).
Proof.
  intros Hi Ho. unfold ringbuf_findchr. rewrite bytes_used_eq by done.
  pose proof (used_range _ Hi). destruct (Z.leb_spec (used rb) offset).
  - cbn [findchr_loop]. rewrite bytes_used_eq by done. by rewrite (proj2 (Z.leb_le _ _)).
  - apply findchr_loop_spec; [done|lia..].
Qed.

(** ** Copying between two ring buffers, and to and from files *)

Lemma copy_loop_spec count : count <= 2 ^ 62 -> forall fuel dst src k,
  rb_inv dst -> rb_inv src -> 0 <= k <= count -> count - k <= used src ->
  count - k < Z.of_nat fuel ->
  exists dst' src', copy_loop fuel dst src k count = Ok (dst', src') /\
    written (ztake (count - k) (contents src)) dst dst' /\ taken (count - k) src src'.
Proof.
  intros Hc. induction fuel as [|fuel IH]; intros dst src k Hd Hs Hk Hu Hf; [lia|].
  cbn [copy_loop]. destruct (Z.eqb_spec k count) as [->|Hne].
  { exists dst, src. split; [done|]. rewrite Z.sub_diag, ztake_le0 by lia.
    split; [by apply written_nil|by apply taken_0]. }
  pose proof Hd as [Hdl Hds Hdh _]. pose proof Hs as [Hsl Hss _ Hst].
  unfold ringbuf_end, ringbuf_buffer_size.
  rewrite !(proj2 (Z.ltb_lt _ _)) by lia. cbn [assert obind].
  rewrite (u64_small (count - k)) by lia. set (n := Z.min (rb_size dst - rb_head dst) _).
  destruct (load_taken src n Hs) as [-> Htk]; [lia..|]. cbn [obind].
  assert (zlen (ztake n (contents src)) = n) as Hlen
    by (rewrite zlen_ztake, zlen_contents by done; lia).
  destruct (store_written dst (ztake n (contents src)) Hd) as (m & -> & Hw); [lia|]. cbn [obind].
  rewrite Hlen in Hw. rewrite (u64_small (k + n)) by lia.
  destruct (IH _ _ (k + n) (wr_inv _ _ _ Hw) (tk_inv _ _ _ Htk)) as (dst' & src' & Hrun & Hw' & Htk');
    rewrite ?(tk_used _ _ _ Htk); [lia..|].
  exists dst', src'. split; [exact Hrun|]. rewrite (tk_con _ _ _ Htk) in Hw'. split.
  - replace (ztake (count - k) (contents src)) with
      (ztake n (contents src) ++ ztake (count - (k + n)) (zdrop n (contents src)));
      [by eapply written_app|].
    rewrite <- (ztake_zdrop n (ztake (count - k) (contents src))).
    rewrite ztake_ztake, zdrop_ztake, Z.min_l by lia. f_equal. f_equal. lia.
  - replace (count - k) with (n + (count - (k + n))) by lia. eapply taken_add; [lia..|done|done].
Qed.

Lemma copy_spec dst src count :
  rb_inv dst -> rb_inv src -> 0 <= count <= 2 ^ 62 ->
  if used src <? count then ringbuf_copy dst src count = Ok (None, dst, src)
  else exists dst' src', ringbuf_copy dst src count = Ok (Some (rb_head dst'), dst', src') /\
         rb_inv dst' /\ rb_size dst' = rb_size dst /\
         contents dst' = push (rb_size dst - 1) (contents dst) (ztake count (contents src)) /\
         taken count src src'.
Proof.
  intros Hd Hs Hc. unfold ringbuf_copy. rewrite bytes_used_eq by done.
  destruct (Z.ltb_spec (used src) count); [done|].
  destruct (copy_loop_spec count ltac:(lia) (S (Z.to_nat count)) dst src 0 Hd Hs)
    as (dst1 & src' & -> & Hw & Htk); [lia..|]. rewrite Z.sub_0_r in *. cbn [obind].
  rewrite bytes_used_eq by apply Htk. rewrite (tk_used _ _ _ Htk).
  pose proof (used_range _ Hs). pose proof (rbi_size _ Hs).
  rewrite u64_small, (proj2 (Z.eqb_eq _ _)) by lia. cbn [assert obind].
  assert (zlen (ztake count (contents src)) = count) as Hlen
    by (rewrite zlen_ztake, zlen_contents by done; lia).
  destruct (push_spec _ _ _ Hd Hw) as (dst' & Hfix & Hi' & Hs' & Hq). rewrite Hlen in Hfix.
  rewrite Hfix. cbn [obind]. eauto 10.
Qed.

(** [read] never delivers more than it is asked for; what it delivers is
    appended. *)
Lemma read_push rb fd count :
  rb_inv rb -> 0 <= count <= 2 ^ 62 -> (forall n bs, 0 <= n -> fd n = Some bs -> zlen bs <= n) ->
  exists rb', rb_inv rb' /\ rb_size rb' = rb_size rb /\
    match fd (Z.min (rb_size rb - rb_head rb) count) with
    | None => ringbuf_read fd rb count = Ok (-1, rb') /\ rb' = rb
    | Some bs => ringbuf_read fd rb count = Ok (zlen bs, rb') /\
                 contents rb' = push (rb_size rb - 1) (contents rb) bs
    end.
Proof.
  intros Hi Hc Hfd. pose proof Hi as [Hl Hs Hh Ht]. unfold ringbuf_read, ringbuf_end, ringbuf_buffer_size.
  rewrite (proj2 (Z.ltb_lt _ _)) by lia. cbn [assert obind].
  destruct (fd (Z.min _ _)) as [bs|] eqn:Hf; [|by eauto].
  apply Hfd in Hf; [|lia]. pose proof (zlen_nonneg bs).
  destruct (store_written rb bs Hi) as (m & -> & Hw); [lia|]. cbn [obind].
  destruct (push_spec _ _ _ Hi Hw) as (rb' & Hfix & Hi' & Hs' & Hq).
  destruct (Z.ltb_spec 0 (zlen bs)).
  - simpl. rewrite (proj2 (Z.leb_le _ _)) by lia. cbn [assert obind].
    fold (wrap_to (rb_size rb) (rb_head rb + zlen bs)). exists rb'.
    split; [done|]. split; [done|]. split; [|done].
    by rewrite Hfix.
  - assert (bs = []) as -> by (destruct bs; [done|unfold zlen in *; simpl in *; lia]).
    exists (set_rb_buf m rb). change (zlen []) with 0 in *.
    assert (wrap_to (rb_size rb) (rb_head rb + 0) = rb_head rb) as Hwt
      by (rewrite wrap_to_mod, Z.add_0_r, Z.mod_small by lia; done).
    rewrite Hwt in Hw. assert (set_rb_head (rb_head rb) (set_rb_buf m rb) = set_rb_buf m rb) as He
      by done. rewrite He in Hw. split; [apply Hw|]. split; [done|]. split; [done|].
    rewrite (contents_fits _ _ _ Hi Hw) by (pose proof (used_range _ Hi); change (zlen []) with 0; lia).
    unfold push. rewrite zdrop_le0; [done|]. rewrite zlen_contents by done.
    pose proof (used_range _ Hi). change (zlen []) with 0. lia.
Qed.

(** [write] takes at most what it is given; what it takes leaves the queue. *)
Lemma write_pop rb fd count :
  rb_inv rb -> 0 <= count <= 2 ^ 62 -> (forall bs n, fd bs = Some n -> 0 <= n <= zlen bs) ->
  let k := Z.min (rb_size rb - rb_tail rb) count in
  if used rb <? count then ringbuf_write fd rb count = Ok (0, rb)
  else match fd (ztake k (contents rb)) with
       | None => ringbuf_write fd rb count = Ok (-1, rb)
       | Some n => exists rb', ringbuf_write fd rb count = Ok (n, rb') /\ taken n rb rb'
       end.
Proof.
  intros Hi Hc Hfd k. pose proof Hi as [Hl Hs Hh Ht]. pose proof (used_range _ Hi).
  unfold ringbuf_write, ringbuf_end, ringbuf_buffer_size.
  rewrite bytes_used_eq by done. destruct (Z.ltb_spec (used rb) count); [done|].
  rewrite (proj2 (Z.ltb_lt _ _)) by lia. cbn [assert obind].
  rewrite (load_tail rb (Z.min (rb_size rb - rb_tail rb) count) Hi) by lia. cbn [obind]. fold k.
  destruct (fd (ztake k (contents rb))) as [n|] eqn:Hf; [|done]. apply Hfd in Hf.
  rewrite zlen_ztake, zlen_contents in Hf by done.
  destruct (Z.ltb_spec 0 n).
  - destruct (load_taken rb n Hi) as [_ Htk]; [lia..|].
    rewrite (proj2 (Z.leb_le _ _)) by lia. cbn [assert obind].
    fold (wrap_to (rb_size rb) (rb_tail rb + n)).
    rewrite bytes_used_eq by apply Htk. rewrite (tk_used _ _ _ Htk).
    rewrite u64_small, (proj2 (Z.eqb_eq _ _)) by lia. cbn [assert obind]. eauto.
  - exists rb. assert (n = 0) as -> by lia. split; [done|by apply taken_0].
Qed.

(** ** Sequences of operations *)

Inductive rb_op :=
| Op_reset
| Op_memset (c len : Z)
| Op_into (src : list Z)
| Op_from (count : Z)
| Op_findchr (c offset : Z)
| Op_used
| Op_free.

(** What the caller sees. *)
Inductive rb_ans := Ans_none | Ans_num (n : Z) | Ans_bytes (bs : option (list Z)).

Definition rb_op_ok (op : rb_op) : Prop :=
  match op with
  | Op_memset _ len => 0 <= len
  | Op_into src => zlen src <= 2 ^ 62
  | Op_from count => 0 <= count <= 2 ^ 62
  | Op_findchr _ offset => 0 <= offset
  | _ => True
  end.

(** One operation of the code. *)
Definition rb_step (op : rb_op) (rb : ringbuf_t) : outcome (rb_ans * ringbuf_t) :=
  match op with
  | Op_reset => Ok (Ans_none, ringbuf_reset rb)
  | Op_memset c len => let! (n, rb) := ringbuf_memset rb c len in Ok (Ans_num n, rb)
  | Op_into src => let! (_, rb) := ringbuf_memcpy_into rb src (zlen src) in Ok (Ans_none, rb)
  | Op_from count => let! (r, rb) := ringbuf_memcpy_from rb count in Ok (Ans_bytes (fst <$> r), rb)
  | Op_findchr c offset => let! n := ringbuf_findchr rb c offset in Ok (Ans_num n, rb)
  | Op_used => Ok (Ans_num (ringbuf_bytes_used rb), rb)
  | Op_free => Ok (Ans_num (ringbuf_bytes_free rb), rb)
  end.

(** The same on a queue of at most [cap] bytes. *)
Definition fifo_step (cap : Z) (op : rb_op) (q : list Z) : rb_ans * list Z :=
  match op with
  | Op_reset => (Ans_none, [])
  | Op_memset c len =>
      let n := Z.min len (cap + 1) in
      (Ans_num n, push cap q (replicate (Z.to_nat n) (u8 c)))
  | Op_into src => (Ans_none, push cap q src)
  | Op_from count =>
      if zlen q <? count then (Ans_bytes None, q)
      else (Ans_bytes (Some (ztake count q)), zdrop count q)
  | Op_findchr c offset =>
      (Ans_num (if zlen q <=? offset then zlen q
                else offset + first_index (u8 c) (zdrop offset q)), q)
  | Op_used => (Ans_num (zlen q), q)
  | Op_free => (Ans_num (cap - zlen q), q)
  end.

Fixpoint rb_run (ops : list rb_op) (rb : ringbuf_t) : outcome (list rb_ans * ringbuf_t) :=
  match ops with
  | [] => Ok ([], rb)
  | op :: ops' =>
      let! (a, rb) := rb_step op rb in
      let! (l, rb) := rb_run ops' rb in
      Ok (a :: l, rb)
  end.

Fixpoint fifo_run (cap : Z) (ops : list rb_op) (q : list Z) : list rb_ans * list Z :=
  match ops with
  | [] => ([], q)
  | op :: ops' =>
      let '(a, q) := fifo_step cap op q in
      let '(l, q) := fifo_run cap ops' q in
      (a :: l, q)
  end.

(** An empty ring buffer. *)
Lemma contents_nil rb : rb_inv rb -> rb_head rb = rb_tail rb -> contents rb = [].
Proof.
  intros Hi He. apply length_zero_iff_nil, Nat2Z.inj. change (zlen (contents rb) = 0).
  rewrite zlen_contents by done. unfold used. by rewrite He, Z.sub_diag.
Qed.

Lemma reset_nil rb : rb_inv rb -> rb_inv (ringbuf_reset rb) /\ contents (ringbuf_reset rb) = [].
Proof.
  intros [Hb Hs Hh Ht]. assert (rb_inv (ringbuf_reset rb)) by (split; simpl; lia).
  split; [done|]. by apply contents_nil.
Qed.

Lemma rb_step_fifo op rb :
  rb_inv rb -> rb_op_ok op ->
  exists rb', rb_step op rb = Ok (fst (fifo_step (rb_size rb - 1) op (contents rb)), rb') /\
    rb_inv rb' /\ rb_size rb' = rb_size rb /\
    contents rb' = snd (fifo_step (rb_size rb - 1) op (contents rb)).
Proof.
  intros Hi Hok. pose proof (zlen_contents _ Hi) as Hl. pose proof Hi as [Hb Hs Hh Ht].
  destruct op as [|c len|src|count|c offset| |]; cbn [rb_step fifo_step rb_op_ok fst snd] in *.
  - destruct (reset_nil rb Hi). by exists (ringbuf_reset rb).
  - destruct (memset_push rb c len Hi Hok) as (rb' & -> & H1 & H2 & H3). cbn [obind].
    exists rb'. rewrite !Z.sub_add. auto.
  - destruct (memcpy_into_push rb src Hi Hok) as (rb' & -> & H1 & H2 & H3). cbn [obind]. eauto.
  - pose proof (memcpy_from_pop rb count Hi Hok) as H. rewrite Hl.
    destruct (used rb <? count); [rewrite H; cbn; eauto|].
    destruct H as (rb' & -> & [H1 H2 _ H3 _]). cbn. eauto.
  - rewrite findchr_first by done. cbn [obind]. rewrite Hl. eauto.
  - rewrite bytes_used_eq, Hl by done. eauto.
  - rewrite free_eq, Hl by done. eauto.
Qed.

(** C19. The ring buffer is a bounded FIFO.  Any sequence of resets, writes,
    fills, reads and searches on a new ring buffer terminates without a failed
    assertion or an access outside the buffer, and gives the answers of a
    queue that keeps its newest [capacity] bytes: reads take the oldest bytes
    and fail without effect when there are not enough, writes append and
    drop the oldest bytes when there is no room. *)
Theorem ringbuf_refines_fifo malloc capacity rb ops :
  0 <= capacity < 2 ^ 62 -> (forall n m, 0 <= n -> malloc n = Some m -> zlen m = n) ->
  ringbuf_new true malloc capacity = Some rb -> Forall rb_op_ok ops ->
  exists rb', rb_run ops rb = Ok (fst (fifo_run capacity ops []), rb') /\
    contents rb' = snd (fifo_run capacity ops []).
Proof.
  intros Hc Hm Hnew Hok. unfold ringbuf_new in Hnew.
  rewrite (u64_small (capacity + 1)) in Hnew by lia.
  destruct (malloc (capacity + 1)) as [m|] eqn:He; [|done]. injection Hnew as <-.
  apply Hm in He; [|lia]. set (rb0 := ringbuf_reset _).
  assert (rb_inv rb0) as Hi by (split; simpl; lia).
  assert (contents rb0 = []) as Hq by by apply contents_nil.
  assert (rb_size rb0 = capacity + 1) as Hs by done. rewrite <- Hq.
  clearbody rb0. clear Hq He. revert rb0 Hi Hs.
  induction Hok as [|op ops Hop _ IH]; intros rb Hi Hs; [by exists rb|]. cbn [rb_run fifo_run].
  destruct (rb_step_fifo op rb Hi Hop) as (rb1 & -> & Hi1 & Hs1 & Hq1). cbn [obind].
  rewrite Hs in *. replace (capacity + 1 - 1) with capacity in * by lia.
  destruct (fifo_step capacity op (contents rb)) as [a q]. cbn [fst snd] in *.
  destruct (IH rb1 Hi1 Hs1) as (rb2 & -> & Hq2). rewrite Hq1 in *.
  destruct (fifo_run capacity ops q) as [l q']. cbn [obind fst snd] in *. eauto.
Qed.

Definition demo_ops : list rb_op :=
  [Op_into [1; 2; 3]; Op_from 2; Op_into [4; 5; 6]; Op_used; Op_from 9; Op_findchr 5 0;
   Op_memset 7 3; Op_free; Op_from 4].

Lemma ringbuf_refines_fifo_witness :
  exists rb', rb_run demo_ops (mk_ringbuf (replicate 5 170) 0 0 5) =
      Ok (fst (fifo_run 4 demo_ops []), rb') /\
    contents rb' = snd (fifo_run 4 demo_ops []) /\
    fst (fifo_run 4 demo_ops []) =
      [Ans_none; Ans_bytes (Some [1; 2]); Ans_none; Ans_num 4; Ans_bytes None; Ans_num 2;
       Ans_num 3; Ans_num 0; Ans_bytes (Some [6; 7; 7; 7])].
Proof.
  destruct (ringbuf_refines_fifo (fun n => Some (replicate (Z.to_nat n) 170)) 4
              (mk_ringbuf (replicate 5 170) 0 0 5) demo_ops) as (rb' & Hrun & Hc).
  - lia.
  - intros n m Hn [= <-]. unfold zlen. rewrite length_replicate. lia.
  - reflexivity.
  - unfold demo_ops. repeat constructor; vm_compute; discriminate.
  - exists rb'. split; [done|]. split; [done|]. vm_compute. reflexivity.
Defined.

(** ** Well-formedness *)

(** All operations on one ring buffer: [fd] is what the file answers. *)
Inductive rb_call :=
| Call_op (op : rb_op)
| Call_read (fd : Z -> option (list Z)) (count : Z)
| Call_write (fd : list Z -> option Z) (count : Z).

(** [read] delivers, and [write] takes, at most what they are asked for. *)
Definition call_ok (c : rb_call) : Prop :=
  match c with
  | Call_op op => rb_op_ok op
  | Call_read fd count => 0 <= count <= 2 ^ 62 /\ forall n bs, 0 <= n -> fd n = Some bs -> zlen bs <= n
  | Call_write fd count => 0 <= count <= 2 ^ 62 /\ forall bs n, fd bs = Some n -> 0 <= n <= zlen bs
  end.

Definition rb_call_step (c : rb_call) (rb : ringbuf_t) : outcome ringbuf_t :=
  match c with
  | Call_op op => let! (_, rb) := rb_step op rb in Ok rb
  | Call_read fd count => let! (_, rb) := ringbuf_read fd rb count in Ok rb
  | Call_write fd count => let! (_, rb) := ringbuf_write fd rb count in Ok rb
  end.

Fixpoint rb_calls (cs : list rb_call) (rb : ringbuf_t) : outcome ringbuf_t :=
  match cs with
  | [] => Ok rb
  | c :: cs' => let! rb := rb_call_step c rb in rb_calls cs' rb
  end.

Lemma rb_call_inv c rb :
  rb_inv rb -> call_ok c ->
  exists rb', rb_call_step c rb = Ok rb' /\ rb_inv rb' /\ rb_size rb' = rb_size rb.
Proof.
  intros Hi Hc. destruct c as [op|fd count|fd count]; cbn [rb_call_step call_ok] in *.
  - destruct (rb_step_fifo op rb Hi Hc) as (rb' & -> & H1 & H2 & _). cbn [obind]. eauto.
  - destruct Hc as [Hn Hfd]. destruct (read_push rb fd count Hi Hn Hfd) as (rb' & H1 & H2 & H3).
    destruct (fd _); destruct H3 as [-> _]; cbn [obind]; eauto.
  - destruct Hc as [Hn Hfd]. pose proof (write_pop rb fd count Hi Hn Hfd) as H. cbv zeta in H.
    destruct (used rb <? count); [rewrite H; cbn [obind]; eauto|].
    destruct (fd _); [destruct H as (rb' & -> & [H1 H2 _ _ _])|rewrite H]; cbn [obind]; eauto.
Qed.

(** C36. The ring buffer stays well-formed.  Whatever calls are made on it, with
    a file that reads and writes as little as it likes or fails, none of them
    fails an assertion or leaves the memory of the buffer, and the head and the
    tail stay inside it. *)
Theorem ringbuf_stays_wellformed cs rb :
  rb_inv rb -> Forall call_ok cs ->
  exists rb', rb_calls cs rb = Ok rb' /\ rb_inv rb' /\ rb_size rb' = rb_size rb.
Proof.
  intros Hi Hcs. revert rb Hi. induction Hcs as [|c cs Hc _ IH]; intros rb Hi; cbn [rb_calls]; [eauto|].
  destruct (rb_call_inv c rb Hi Hc) as (rb1 & -> & Hi1 & Hs1). cbn [obind].
  destruct (IH rb1 Hi1) as (rb2 & -> & Hi2 & Hs2). exists rb2. split_and!; [done..|congruence].
Qed.

Definition demo_rb_calls : list rb_call :=
  [Call_read (fun n => Some (ztake n [1; 2; 3; 4; 5; 6])) 6; Call_write (fun bs => Some (Z.min 1 (zlen bs))) 2;
   Call_op (Op_into [7; 8]); Call_read (fun _ => None) 3].

Lemma ringbuf_stays_wellformed_witness :
  exists rb', rb_calls demo_rb_calls (mk_ringbuf (replicate 5 0) 0 0 5) = Ok rb' /\ rb_inv rb' /\ rb_size rb' = 5.
Proof.
  apply (ringbuf_stays_wellformed demo_rb_calls (mk_ringbuf (replicate 5 0) 0 0 5)).
  - split; vm_compute; try split; try reflexivity; discriminate.
  - unfold demo_rb_calls. repeat apply Forall_cons_2; [| | | |constructor]; cbn [call_ok rb_op_ok].
    + split; [lia|]. intros n bs Hn [= <-]. rewrite zlen_ztake. lia.
    + split; [lia|]. intros bs n [= <-]. pose proof (zlen_nonneg bs). lia.
    + discriminate.
    + split; [lia|]. discriminate.
Defined.

(** ** The interface of the packet buffers *)

Definition ring_put (rb : ringbuf_t) (bs : list Z) : outcome ringbuf_t :=
  let! (_, rb) := ringbuf_memcpy_into rb bs (zlen bs) in Ok rb.
Definition ring_get (rb : ringbuf_t) (n : Z) : outcome (option (list Z) * ringbuf_t) :=
  let! (r, rb) := ringbuf_memcpy_from rb n in Ok (fst <$> r, rb).
Definition ring_peek (rb : ringbuf_t) (o n : Z) : outcome (list Z) :=
  load (rb_buf rb) (ringbuf_tail rb + o) n.
Definition ring_straight (rb : ringbuf_t) : Z := rb_size rb - rb_tail rb.

Lemma ring_put_fits rb bs :
  rb_inv rb -> zlen (contents rb) + zlen bs <= rb_size rb - 1 ->
  exists rb', ring_put rb bs = Ok rb' /\ rb_inv rb' /\ rb_size rb' - 1 = rb_size rb - 1 /\
    contents rb' = contents rb ++ bs /\ ring_straight rb' = ring_straight rb.
Proof.
  intros Hi Hfit. rewrite zlen_contents in Hfit by done.
  pose proof (rbi_size _ Hi). pose proof (used_range _ Hi). pose proof (zlen_nonneg bs).
  unfold ring_put, ringbuf_memcpy_into.
  destruct (fill_loop_spec bs (load bs) ltac:(lia)) with (fuel := S (Z.to_nat (zlen bs)))
    (dst := rb) (k := 0) as (rb1 & -> & Hw); [|done|lia|lia|].
  { intros k n Hk Hn Hkn. unfold load. by rewrite !(proj2 (Z.leb_le _ _)) by lia. }
  rewrite zdrop_le0 in Hw by lia. cbn [obind]. rewrite free_eq, (proj2 (Z.ltb_ge _ _)) by (done || lia).
  cbn [fix_tail obind]. exists rb1. pose proof Hw as [Hi1 Hs1 Ht1 _ _]. unfold ring_straight. rewrite Hs1, Ht1.
  split_and!; try done. by apply contents_fits; [..|lia].
Qed.

Lemma ring_get_spec rb n :
  rb_inv rb -> 0 <= n <= zlen (contents rb) ->
  exists rb', ring_get rb n = Ok (Some (ztake n (contents rb)), rb') /\ rb_inv rb' /\
    rb_size rb' - 1 = rb_size rb - 1 /\ contents rb' = zdrop n (contents rb) /\
    (n < ring_straight rb -> ring_straight rb' = ring_straight rb - n).
Proof.
  intros Hi Hn. rewrite zlen_contents in Hn by done. pose proof (rbi_size _ Hi).
  pose proof (used_range _ Hi). pose proof (rbi_tail _ Hi).
  pose proof (memcpy_from_pop rb n Hi ltac:(lia)) as Hpop. rewrite (proj2 (Z.ltb_ge _ _)) in Hpop by lia.
  destruct Hpop as (rb' & Hrun & [Hi1 Hs1 _ Hc1 Ht1]). exists rb'. unfold ring_get. rewrite Hrun, Hs1.
  split_and!; try done. unfold ring_straight. rewrite Ht1, Hs1. intros. rewrite Z.mod_small; lia.
Qed.

Lemma ring_peek_spec rb o n :
  rb_inv rb -> 0 <= o -> 0 <= n -> o + n <= zlen (contents rb) -> o + n <= ring_straight rb ->
  ring_peek rb o n = Ok (ztake n (zdrop o (contents rb))).
Proof.
  intros Hi Ho Hn Hl Hs. rewrite zlen_contents in Hl by done. unfold ring_straight in Hs.
  unfold ring_peek, ringbuf_tail, load. pose proof Hi as [Hb Hsz Hh Ht].
  rewrite !(proj2 (Z.leb_le _ _)) by lia. cbn [andb]. f_equal.
  rewrite contents_tail, zdrop_ztake, ztake_ztake, Z.min_l by (done || lia). unfold around.
  rewrite zdrop_app_l, ztake_app_l, zdrop_zdrop; [done|lia..| |]; rewrite ?zlen_zdrop; lia.
Qed.

#[export] Instance ringbuf_fifo : Fifo ringbuf_t := {|
  fifo_used := ringbuf_bytes_used;
  fifo_put := ring_put;
  fifo_get := ring_get;
  fifo_peek := ring_peek;
  fifo_ok := rb_inv;
  fifo_cap := fun rb => rb_size rb - 1;
  fifo_list := contents;
  fifo_straight := ring_straight;
  fifo_used_law := fun rb Hi => eq_trans (bytes_used_eq rb Hi) (eq_sym (zlen_contents rb Hi));
  fifo_put_law := ring_put_fits;
  fifo_get_law := ring_get_spec;
  fifo_peek_law := ring_peek_spec
|}.
