(* ===== verification/ConManager.v ===== *)
(** * The connection manager (vpb/con-manager.c)

    Two tables: the initial sequence numbers of the connections whose SYN went
    through the consensus, and the highest sequence number the local guest has
    sent on each connection.  [check_block] compares the two to hold back a
    packet that acknowledges data the local guest has not produced yet;
    [watch_guest_out] learns from the packets the guest sends.

    The tables are hashed over all 16 bytes of [struct con_id_type], so the
    two holes in the structure are part of the key; what they hold in a
    variable on the stack is an argument of the operations.  [out_lock] says
    whether the running thread holds that mutex, which is not recursive;
    [isn_lock] is only held during one access to a table. *)

From S2P Require Import Prelude Bytes Ringbuf.

Open Scope Z_scope.

(** ** Fields of a packet *)

(** The value of [w] bits with the same bits as [x], as a signed number. *)
Definition sint (w x : Z) : Z := wrap w (x + 2 ^ (w - 1)) - 2 ^ (w - 1).

Definition field (n : Z) (data : list Z) (o : Z) : outcome Z :=
  let! bs := load data o n in Ok (le_combine bs).

Definition ntohs (x : Z) : Z := le_combine (rev (le_split 2 x)).
Definition ntohl (x : Z) : Z := le_combine (rev (le_split 4 x)).

Definition MSG_OFF : Z := 10.
(** [sizeof(struct ether_header)] *)
Definition eth_hdr_len : Z := 14.

(** What the packet handlers read of the headers at [ip] and behind it:
    [ip_len] is a [short]. *)
Definition ip_header_size (data : list Z) (ip : Z) : outcome Z :=
  let! b := field 1 data ip in Ok (4 * Z.land (Z.land b 15) 0x0F).
Definition tcp_header_size (data : list Z) (tcp : Z) : outcome Z :=
  let! b := field 1 data (tcp + 12) in Ok (4 * Z.land (Z.shiftr b 4) 0x0F).
Definition payload_length (data : list Z) (ip tcp : Z) : outcome Z :=
  let! ihs := ip_header_size data ip in
  let! il := field 2 data (ip + 2) in
  let ip_len := sint 16 (ntohs il) in
  let! ths := tcp_header_size data tcp in
  let payload_length := ip_len - ihs - ths in
  Ok (if payload_length <? 0 then 0 else payload_length).

(** ** Connections *)

Record con_id_type := mk_con {
  src_ip : Z;
  src_port : Z;
  hole1 : Z;     (* the two bytes before [dst_ip] *)
  dst_ip : Z;
  dst_port : Z;
  hole2 : Z      (* the two bytes behind [dst_port] *)
}.

#[export] Instance con_id_type_eq_dec : EqDecision con_id_type.
Proof. solve_decision. Defined.

#[export] Instance con_id_type_countable : Countable con_id_type.
Proof.
  refine (inj_countable'
    (fun c => (src_ip c, src_port c, hole1 c, dst_ip c, dst_port c, hole2 c))
    (fun '(a, b, c, d, e, f) => mk_con a b c d e f) _).
  by intros [].
Defined.

Definition sizeof_con_id : Z := 16.
Definition con_bytes (c : con_id_type) : list Z :=
  le_split 4 (src_ip c) ++ le_split 2 (src_port c) ++ le_split 2 (hole1 c) ++
  le_split 4 (dst_ip c) ++ le_split 2 (dst_port c) ++ le_split 2 (hole2 c).
Definition con_of_bytes (bs : list Z) : con_id_type :=
  mk_con (le_combine (take 4 bs)) (le_combine (take 2 (drop 4 bs)))
    (le_combine (take 2 (drop 6 bs))) (le_combine (take 4 (drop 8 bs)))
    (le_combine (take 2 (drop 12 bs))) (le_combine (take 2 (drop 14 bs))).

Record con_tables := mk_tables {
  con_isn_list : gmap con_id_type Z;
  con_out_seq_list : gmap con_id_type Z;
  out_lock : bool;
  tcp_wakeups : Z     (* broadcasts of [wakeup_tcp] *)
}.

Definition set_isn_list v (t : con_tables) : con_tables :=
  mk_tables v (con_out_seq_list t) (out_lock t) (tcp_wakeups t).
Definition set_out_seq_list v (t : con_tables) : con_tables :=
  mk_tables (con_isn_list t) v (out_lock t) (tcp_wakeups t).
Definition set_out_lock v (t : con_tables) : con_tables :=
  mk_tables (con_isn_list t) (con_out_seq_list t) v (tcp_wakeups t).
Definition wakeup_tcp (t : con_tables) : con_tables :=
  mk_tables (con_isn_list t) (con_out_seq_list t) (out_lock t) (tcp_wakeups t + 1).

(** A thread that locks the mutex it holds waits for ever. *)
Definition LOCK (t : con_tables) : outcome con_tables :=
  if out_lock t then Spin else Ok (set_out_lock true t).
Definition UNLOCK (t : con_tables) : con_tables := set_out_lock false t.

(** ** Operations *)

Definition con_manager_tables : con_tables := mk_tables ∅ ∅ false 0.

(** [None] is the result -1. *)
Definition get_isn (t : con_tables) (con : con_id_type) : option Z := con_isn_list t !! con.

Definition flush_con_out_seq (t : con_tables) (server_con : con_id_type) : outcome con_tables :=
  let key := mk_con (dst_ip server_con) (dst_port server_con) 0
                    (src_ip server_con) (src_port server_con) 0 in
  let! t := LOCK t in
  let t := set_out_seq_list (<[key := 0]> (con_out_seq_list t)) t in
  Ok (UNLOCK t).

Definition save_isn (t : con_tables) (isn : Z) (con : con_id_type) : outcome con_tables :=
  let! t := flush_con_out_seq t con in
  Ok (set_isn_list (<[con := isn]> (con_isn_list t)) t).

(** The copy of a key that [memset] and four assignments make. *)
Definition clean_con (c : con_id_type) : con_id_type :=
  mk_con (src_ip c) (src_port c) 0 (dst_ip c) (dst_port c) 0.

(** The result and [*seq]. *)
Definition get_con_out_seq (t : con_tables) (con_orig : con_id_type)
    : outcome (Z * Z * con_tables) :=
  match con_out_seq_list t !! clean_con con_orig with
  | Some seq => Ok (0, seq, t)
  | None =>
      let! t := LOCK t in
      Ok (-1, 0, UNLOCK t)
  end.

Definition update_con_out_seq (t : con_tables) (seq : Z) (con_orig : con_id_type)
    : outcome con_tables :=
  let con := clean_con con_orig in
  let! t := LOCK t in
  let find_entry := con_out_seq_list t !! con in
  let t := UNLOCK t in
  if (match find_entry with Some s => seq <=? s | None => false end) then Ok t
  else
    let! t := LOCK t in
    let t := set_out_seq_list (<[con := seq]> (con_out_seq_list t)) t in
    let t := wakeup_tcp t in
    Ok (UNLOCK t).

(** [h1] and [h2] are the holes of the local variable [con_id]. *)
Definition check_block (t : con_tables) (h1 h2 ack : Z) (con : con_id_type)
    : outcome (Z * con_tables) :=
  let con_id := mk_con (dst_ip con) (dst_port con) h1 (src_ip con) (src_port con) h2 in
  match get_isn t con_id with
  | None => Ok (0, t)
  | Some isn =>
      let! (ret, out_seq, t) := get_con_out_seq t con in
      if u32 (out_seq + 1) <? ack then Ok (1, t) else Ok (0, t)
  end.

(** One round of [watch_guest_out]: [recv] has left [len] bytes in [buf]. *)
Definition watch_guest_out (t : con_tables) (h1 h2 : Z) (buf : list Z) (len : Z)
    : outcome con_tables :=
  if len >? eth_hdr_len + MSG_OFF then
    let! ether_type := field 2 buf (MSG_OFF + 12) in
    if ether_type =? 0x0008 then
      let ip := eth_hdr_len + MSG_OFF in
      let! ip_p := field 1 buf (ip + 9) in
      if ip_p =? 0x06 then
        let! ihs := ip_header_size buf ip in
        let tcp := eth_hdr_len + ihs + MSG_OFF in
        let! ip_dst := field 4 buf (ip + 16) in
        let! th_dport := field 2 buf (tcp + 2) in
        let! ip_src := field 4 buf (ip + 12) in
        let! th_sport := field 2 buf tcp in
        let con_id := mk_con ip_dst th_dport h1 ip_src th_sport h2 in
        let! payload := payload_length buf ip tcp in
        let! th_seq := field 4 buf (tcp + 4) in
        let seq := u32 (ntohl th_seq + payload) in
        update_con_out_seq t seq con_id
      else Ok t
    else Ok t
  else Ok t.
