(* ===== verification/Uthash.v ===== *)
(** * Hash tables (uthash.h)

    The macros the connection tables and the proxy use: [HASH_FIND],
    [HASH_ADD], [HASH_REPLACE], [HASH_DELETE], [HASH_COUNT] and [HASH_ITER],
    with Jenkins' hash function and the doubling of the buckets.

    An element of the program contains a handle; the pointer to an element
    and the pointer to its handle differ by a constant ([hho]) and are one
    address here.  The handles are in a memory of their own, with two doubly
    linked lists through them: all elements in the order of the insertions
    ([prev], [next]) and the elements of a bucket ([hh_prev], [hh_next]).
    Address 0 is NULL.  [key] points to a field of the element, which is not
    written while the element is in a table; the handle has its bytes. *)

From S2P Require Import Prelude.

Open Scope Z_scope.

Definition HASH_INITIAL_NUM_BUCKETS : Z := 32.
Definition HASH_INITIAL_NUM_BUCKETS_LOG2 : Z := 5.
Definition HASH_BKT_CAPACITY_THRESH : Z := 10.

(** sizeof(UT_hash_bucket) and sizeof(UT_hash_table). *)
Definition BUCKET_SIZE : Z := 16.
Definition TABLE_SIZE : Z := 64.

Record UT_hash_handle := mk_hh {
  prev : Z;
  next : Z;
  hh_prev : Z;
  hh_next : Z;
  key : list Z;
  keylen : Z;
  hashv : Z
}.
Definition set_prev v (h : UT_hash_handle) : UT_hash_handle :=
  mk_hh v (next h) (hh_prev h) (hh_next h) (key h) (keylen h) (hashv h).
Definition set_next v (h : UT_hash_handle) : UT_hash_handle :=
  mk_hh (prev h) v (hh_prev h) (hh_next h) (key h) (keylen h) (hashv h).
Definition set_hh_prev v (h : UT_hash_handle) : UT_hash_handle :=
  mk_hh (prev h) (next h) v (hh_next h) (key h) (keylen h) (hashv h).
Definition set_hh_next v (h : UT_hash_handle) : UT_hash_handle :=
  mk_hh (prev h) (next h) (hh_prev h) v (key h) (keylen h) (hashv h).
Definition set_key v (h : UT_hash_handle) : UT_hash_handle :=
  mk_hh (prev h) (next h) (hh_prev h) (hh_next h) v (keylen h) (hashv h).
Definition set_keylen v (h : UT_hash_handle) : UT_hash_handle :=
  mk_hh (prev h) (next h) (hh_prev h) (hh_next h) (key h) v (hashv h).
Definition set_hashv v (h : UT_hash_handle) : UT_hash_handle :=
  mk_hh (prev h) (next h) (hh_prev h) (hh_next h) (key h) (keylen h) v.

Record UT_hash_bucket := mk_bucket {
  hh_head : Z;
  count : Z;
  expand_mult : Z
}.

Record UT_hash_table := mk_tbl {
  buckets : list UT_hash_bucket;
  num_buckets : Z;
  log2_num_buckets : Z;
  num_items : Z;
  tail : Z;
  ideal_chain_maxlen : Z;
  nonideal_items : Z;
  ineff_expands : Z;
  noexpand : Z
}.
Definition set_buckets v (t : UT_hash_table) : UT_hash_table :=
  mk_tbl v (num_buckets t) (log2_num_buckets t) (num_items t) (tail t) (ideal_chain_maxlen t)
    (nonideal_items t) (ineff_expands t) (noexpand t).
Definition set_num_items v (t : UT_hash_table) : UT_hash_table :=
  mk_tbl (buckets t) (num_buckets t) (log2_num_buckets t) v (tail t) (ideal_chain_maxlen t)
    (nonideal_items t) (ineff_expands t) (noexpand t).
Definition set_tail v (t : UT_hash_table) : UT_hash_table :=
  mk_tbl (buckets t) (num_buckets t) (log2_num_buckets t) (num_items t) v (ideal_chain_maxlen t)
    (nonideal_items t) (ineff_expands t) (noexpand t).

(** A table as the program holds it: the pointer [head], the handles of the
    elements that are allocated, and the table every handle in it points to,
    [None] when it is not allocated. *)
Record uthash := mk_uthash {
  head : Z;
  mem : gmap Z UT_hash_handle;
  tbl : option UT_hash_table
}.
Definition set_mem v (s : uthash) : uthash := mk_uthash (head s) v (tbl s).

(** A read of a handle, and a write of a field through the function [f]. *)
Definition hh (p : Z) (m : gmap Z UT_hash_handle) : outcome UT_hash_handle := or_undef (m !! p).
Definition upd (f : UT_hash_handle -> UT_hash_handle) (p : Z) (m : gmap Z UT_hash_handle)
  : outcome (gmap Z UT_hash_handle) :=
  let! h := hh p m in Ok (<[p := f h]> m).
(** The same when [p] is not NULL. *)
Definition upd_nn (f : UT_hash_handle -> UT_hash_handle) (p : Z) (m : gmap Z UT_hash_handle)
  : outcome (gmap Z UT_hash_handle) :=
  if p =? 0 then Ok m else upd f p m.

(** ** The hash function *)

Definition HASH_JEN_MIX (abc : Z * Z * Z) : Z * Z * Z :=
  let '(a, b, c) := abc in
  let a := Z.lxor (u32 (u32 (a - b) - c)) (Z.shiftr c 13) in
  let b := Z.lxor (u32 (u32 (b - c) - a)) (u32 (Z.shiftl a 8)) in
  let c := Z.lxor (u32 (u32 (c - a) - b)) (Z.shiftr b 13) in
  let a := Z.lxor (u32 (u32 (a - b) - c)) (Z.shiftr c 12) in
  let b := Z.lxor (u32 (u32 (b - c) - a)) (u32 (Z.shiftl a 16)) in
  let c := Z.lxor (u32 (u32 (c - a) - b)) (Z.shiftr b 5) in
  let a := Z.lxor (u32 (u32 (a - b) - c)) (Z.shiftr c 3) in
  let b := Z.lxor (u32 (u32 (b - c) - a)) (u32 (Z.shiftl a 10)) in
  let c := Z.lxor (u32 (u32 (c - a) - b)) (Z.shiftr b 15) in
  (a, b, c).

(** Four bytes as the code adds them. *)
Definition jen_word (b0 b1 b2 b3 : Z) : Z :=
  u32 (b0 + Z.shiftl b1 8 + Z.shiftl b2 16 + Z.shiftl b3 24).

(** The loop over blocks of twelve bytes; the rest of the key comes back. *)
Fixpoint jen_loop (i j h : Z) (k : list Z) {struct k} : (Z * Z * Z) * list Z :=
  match k with
  | k0 :: k1 :: k2 :: k3 :: k4 :: k5 :: k6 :: k7 :: k8 :: k9 :: k10 :: k11 :: k' =>
      let '(i, j, h) := HASH_JEN_MIX (u32 (i + jen_word k0 k1 k2 k3), u32 (j + jen_word k4 k5 k6 k7),
                                      u32 (h + jen_word k8 k9 k10 k11)) in
      jen_loop i j h k'
  | _ => (i, j, h, k)
  end.

(** [case n] of the switch, which is passed through when at least [n] bytes
    are left. *)
Definition jen_case (n : nat) (k : list Z) (shift acc : Z) : Z :=
  match k !! (n - 1)%nat with
  | Some b => u32 (acc + Z.shiftl b shift)
  | None => acc
  end.

Definition HASH_JEN (k : list Z) : Z :=
  let '(i, j, h, r) := jen_loop 0x9e3779b9 0x9e3779b9 0xfeedbeef k in
  let h := u32 (h + Z.of_nat (length k)) in
  let h := jen_case 9 r 8 (jen_case 10 r 16 (jen_case 11 r 24 h)) in
  let j := jen_case 5 r 0 (jen_case 6 r 8 (jen_case 7 r 16 (jen_case 8 r 24 j))) in
  let i := jen_case 1 r 0 (jen_case 2 r 8 (jen_case 3 r 16 (jen_case 4 r 24 i))) in
  let '(i, j, h) := HASH_JEN_MIX (i, j, h) in h.

Definition HASH_TO_BKT (hashv num_bkts : Z) : Z := Z.land hashv (u32 (num_bkts - 1)).

(** ** Looking up *)

(** [out] walks along the chain of a bucket. *)
Fixpoint find_loop (fuel : nat) (m : gmap Z UT_hash_handle) (out : Z) (keyptr : list Z) : outcome Z :=
  if out =? 0 then Ok 0
  else
    match fuel with
    | O => Spin
    | S fuel =>
        let! h := hh out m in
        if (keylen h =? Z.of_nat (length keyptr)) && bool_decide (key h = keyptr) then Ok out
        else find_loop fuel m (hh_next h) keyptr
    end.

Definition HASH_FIND_IN_BKT (m : gmap Z UT_hash_handle) (b : UT_hash_bucket) (keyptr : list Z) : outcome Z :=
  find_loop (S (size m)) m (hh_head b) keyptr.

(** The result is the element, or NULL. *)
Definition HASH_FIND (s : uthash) (keyptr : list Z) : outcome Z :=
  if head s =? 0 then Ok 0
  else
    let! _ := hh (head s) (mem s) in
    let! t := or_undef (tbl s) in
    let! b := or_undef (aget (buckets t) (HASH_TO_BKT (HASH_JEN keyptr) (num_buckets t))) in
    HASH_FIND_IN_BKT (mem s) b keyptr.

(** ** Doubling the buckets *)

(** One element moves to the front of its new bucket. *)
Definition expand_move (nb imax thh : Z) (st : gmap Z UT_hash_handle * list UT_hash_bucket * Z)
  : outcome (gmap Z UT_hash_handle * list UT_hash_bucket * Z) :=
  let '(m, nbs, nonideal) := st in
  let! h := hh thh m in
  let bkt := HASH_TO_BKT (hashv h) (u32 (nb * 2)) in
  let! b := or_undef (aget nbs bkt) in
  let c := u32 (count b + 1) in
  let! mn := if c >? imax
             then if imax =? 0 then Undef else Ok (c / imax, u32 (nonideal + 1))
             else Ok (expand_mult b, nonideal) in
  let! m := upd (set_hh_prev 0) thh m in
  let! m := upd (set_hh_next (hh_head b)) thh m in
  let! m := upd_nn (set_hh_prev thh) (hh_head b) m in
  let! nbs := or_undef (aset nbs bkt (mk_bucket thh c (fst mn))) in
  Ok (m, nbs, snd mn).

(** The elements of one old bucket. *)
Fixpoint expand_chain (fuel : nat) (nb imax thh : Z) (st : gmap Z UT_hash_handle * list UT_hash_bucket * Z)
  : outcome (gmap Z UT_hash_handle * list UT_hash_bucket * Z) :=
  if thh =? 0 then Ok st
  else
    match fuel with
    | O => Spin
    | S fuel =>
        let! h := hh thh (fst (fst st)) in
        let hh_nxt := hh_next h in
        let! st := expand_move nb imax thh st in
        expand_chain fuel nb imax hh_nxt st
    end.

(** The old buckets [bs], at the indices [ix]. *)
Fixpoint expand_loop (nb imax : Z) (bs : list UT_hash_bucket) (ix : list Z)
    (st : gmap Z UT_hash_handle * list UT_hash_bucket * Z)
  : outcome (gmap Z UT_hash_handle * list UT_hash_bucket * Z) :=
  match ix with
  | [] => Ok st
  | i :: ix =>
      let! b := or_undef (aget bs i) in
      let! st := expand_chain (S (size (fst (fst st)))) nb imax (hh_head b) st in
      expand_loop nb imax bs ix st
  end.

Definition empty_buckets (n : Z) : list UT_hash_bucket := replicate (Z.to_nat n) (mk_bucket 0 0 0).

Section Allocation.

(** Whether [malloc] succeeds, by the size of the request. *)
Variable malloc : Z -> bool.

(** [None] is the end of the process by [uthash_fatal]. *)
Definition HASH_EXPAND_BUCKETS (m : gmap Z UT_hash_handle) (t : UT_hash_table)
  : outcome (option (gmap Z UT_hash_handle * UT_hash_table)) :=
  let nb := num_buckets t in
  if negb (malloc (u32 (2 * nb) * BUCKET_SIZE)) then Ok None
  else if 32 <=? log2_num_buckets t + 1 then Undef
  else
    let imax := u32 (Z.shiftr (num_items t) (log2_num_buckets t + 1)
                     + c_bool (c_true (Z.land (num_items t) (u32 (u32 (nb * 2) - 1))))) in
    let! (m, nbs, nonideal) :=
      expand_loop nb imax (buckets t) (upto nb) (m, empty_buckets (u32 (2 * nb)), 0) in
    let ineff := if nonideal >? Z.shiftr (num_items t) 1 then u32 (ineff_expands t + 1) else 0 in
    Ok (Some (m, mk_tbl nbs (u32 (nb * 2)) (u32 (log2_num_buckets t + 1)) (num_items t) (tail t) imax nonideal
                   ineff (if ineff >? 1 then 1 else noexpand t))).

(** ** Adding *)

Definition HASH_ADD_TO_BKT (bkt addhh : Z) (m : gmap Z UT_hash_handle) (t : UT_hash_table)
  : outcome (option (gmap Z UT_hash_handle * UT_hash_table)) :=
  let! b := or_undef (aget (buckets t) bkt) in
  let c := u32 (count b + 1) in
  let! m := upd (set_hh_next (hh_head b)) addhh m in
  let! m := upd (set_hh_prev 0) addhh m in
  let! m := upd_nn (set_hh_prev addhh) (hh_head b) m in
  let! bs := or_undef (aset (buckets t) bkt (mk_bucket addhh c (expand_mult b))) in
  let t := set_buckets bs t in
  if (c >=? u32 (u32 (expand_mult b + 1) * HASH_BKT_CAPACITY_THRESH)) && negb (noexpand t =? 1)
  then HASH_EXPAND_BUCKETS m t
  else Ok (Some (m, t)).

(** The table of a first element; [None] when one of the two allocations
    fails. *)
Definition HASH_MAKE_TABLE (head : Z) : option UT_hash_table :=
  if negb (malloc TABLE_SIZE) then None
  else if negb (malloc (HASH_INITIAL_NUM_BUCKETS * BUCKET_SIZE)) then None
  else Some (mk_tbl (empty_buckets HASH_INITIAL_NUM_BUCKETS) HASH_INITIAL_NUM_BUCKETS
               HASH_INITIAL_NUM_BUCKETS_LOG2 0 head 0 0 0 0).

(** The two branches of [HASH_ADD_KEYPTR]: a first element makes the table,
    another one is put behind the tail. *)
Definition add_link (add : Z) (s : uthash) : outcome (option (Z * gmap Z UT_hash_handle * UT_hash_table)) :=
  if head s =? 0 then
    let! m := upd (set_prev 0) add (mem s) in
    Ok (match HASH_MAKE_TABLE add with
        | None => None
        | Some t => Some (add, m, t)
        end)
  else
    let! _ := hh (head s) (mem s) in
    let! t := or_undef (tbl s) in
    let! m := upd (set_next add) (tail t) (mem s) in
    let! m := upd (set_prev (tail t)) add m in
    Ok (Some (head s, m, set_tail add t)).

Definition HASH_ADD_KEYPTR (keyptr : list Z) (add : Z) (s : uthash) : outcome (option uthash) :=
  let! m := upd (set_next 0) add (mem s) in
  let! m := upd (set_key keyptr) add m in
  let! m := upd (set_keylen (u32 (Z.of_nat (length keyptr)))) add m in
  let! l := add_link add (set_mem m s) in
  match l with
  | None => Ok None
  | Some (hd, m, t) =>
      let t := set_num_items (u32 (num_items t + 1)) t in
      let hv := HASH_JEN keyptr in
      let! m := upd (set_hashv hv) add m in
      let! r := HASH_ADD_TO_BKT (HASH_TO_BKT hv (num_buckets t)) add m t in
      Ok (match r with
          | None => None
          | Some (m, t) => Some (mk_uthash hd m (Some t))
          end)
  end.

(** [fieldname] is the key field of the element [add]. *)
Definition HASH_ADD (fieldname : list Z) (add : Z) (s : uthash) : outcome (option uthash) :=
  HASH_ADD_KEYPTR fieldname add s.

(** ** Deleting *)

Definition HASH_DEL_IN_BKT (bkt hh_del : Z) (m : gmap Z UT_hash_handle) (t : UT_hash_table)
  : outcome (gmap Z UT_hash_handle * UT_hash_table) :=
  let! b := or_undef (aget (buckets t) bkt) in
  let! h := hh hh_del m in
  let! bs := or_undef (aset (buckets t) bkt
    (mk_bucket (if hh_head b =? hh_del then hh_next h else hh_head b) (u32 (count b - 1)) (expand_mult b))) in
  let! m := upd_nn (set_hh_next (hh_next h)) (hh_prev h) m in
  let! h := hh hh_del m in
  let! m := upd_nn (set_hh_prev (hh_prev h)) (hh_next h) m in
  Ok (m, set_buckets bs t).

(** [delptr] out of the list of all elements, with the new [head]. *)
Definition del_unlink (delptr : Z) (s : uthash) : outcome (Z * gmap Z UT_hash_handle) :=
  let! h := hh delptr (mem s) in
  let! (hd, m) := if prev h =? 0 then Ok (next h, mem s)
                  else let! m := upd (set_next (next h)) (prev h) (mem s) in Ok (head s, m) in
  let! _ := hh hd m in
  let! h := hh delptr m in
  let! m := upd_nn (set_prev (prev h)) (next h) m in
  Ok (hd, m).

Definition HASH_DELETE (delptr : Z) (s : uthash) : outcome uthash :=
  let! h := hh delptr (mem s) in
  let! _ := hh (head s) (mem s) in
  let! t := or_undef (tbl s) in
  if (prev h =? 0) && (next h =? 0) then Ok (mk_uthash 0 (mem s) None)
  else
    let t := if delptr =? tail t then set_tail (prev h) t else t in
    let! (hd, m) := del_unlink delptr s in
    let! h := hh delptr m in
    let! (m, t) := HASH_DEL_IN_BKT (HASH_TO_BKT (hashv h) (num_buckets t)) delptr m t in
    Ok (mk_uthash hd m (Some (set_num_items (u32 (num_items t - 1)) t))).

(** ** Replacing *)

(** The element that was replaced, or NULL, with the new table. *)
Definition HASH_REPLACE (fieldname : list Z) (add : Z) (s : uthash) : outcome (option (Z * uthash)) :=
  let! replaced := HASH_FIND s fieldname in
  let! s := if replaced =? 0 then Ok s else HASH_DELETE replaced s in
  let! r := HASH_ADD fieldname add s in
  Ok (match r with
      | None => None
      | Some s => Some (replaced, s)
      end).

End Allocation.

(** ** Counting and iterating *)

Definition HASH_COUNT (s : uthash) : outcome Z :=
  if head s =? 0 then Ok 0
  else
    let! _ := hh (head s) (mem s) in
    let! t := or_undef (tbl s) in
    Ok (num_items t).

(** The elements [HASH_ITER] visits when its body does not change the table. *)
Fixpoint iter_loop (fuel : nat) (m : gmap Z UT_hash_handle) (el : Z) : outcome (list Z) :=
  if el =? 0 then Ok []
  else
    match fuel with
    | O => Spin
    | S fuel =>
        let! h := hh el m in
        let! l := iter_loop fuel m (next h) in
        Ok (el :: l)
    end.
Definition HASH_ITER (s : uthash) : outcome (list Z) := iter_loop (S (size (mem s))) (mem s) (head s).
