(* ===== verification/UthashRep.v ===== *)
(** * The lists inside a hash table

    Doubly linked segments over a pair of fields, what the writes of uthash.h
    do to them, and the invariant of a table: all its elements in the order
    of the insertions, and in every bucket exactly the elements whose hash
    value selects it. *)

From S2P Require Import Prelude Uthash.

Open Scope Z_scope.

Abbreviation memory := (gmap Z UT_hash_handle).

(** ** Doubly linked segments *)

(** The last element of a list, or [p]. *)
Fixpoint lst (p : Z) (l : list Z) : Z :=
  match l with
  | [] => p
  | x :: l => lst x l
  end.

(** [l] is linked by [pv] and [nx], between [p] and [q]. *)
Fixpoint dls (pv nx : Z -> Z) (p : Z) (l : list Z) (q : Z) : Prop :=
  match l with
  | [] => True
  | x :: l => pv x = p /\ nx x = List.hd q l /\ dls pv nx x l q
  end.

Lemma hd_app (q : Z) l1 l2 : List.hd q (l1 ++ l2) = List.hd (List.hd q l2) l1.
Proof. by destruct l1. Qed.

Lemma lst_app l1 : forall p l2, lst p (l1 ++ l2) = lst (lst p l1) l2.
Proof. induction l1 as [|x l1 IH]; intros p l2; [done|apply IH]. Qed.

Lemma lst_in l : forall p, l <> [] -> lst p l ∈ l.
Proof.
  induction l as [|x l IH]; intros p Hl; [done|]. cbn [lst].
  destruct l as [|y l]; [apply list_elem_of_here|]. apply list_elem_of_further. by apply IH.
Qed.

Lemma hd_in (l : list Z) q : l <> [] -> List.hd q l ∈ l.
Proof. destruct l; [done|]. intros _. apply list_elem_of_here. Qed.

Lemma lst_cases l p : (l = [] /\ lst p l = p) \/ lst p l ∈ l.
Proof. destruct l; [by left|]. right. by apply lst_in. Qed.

Lemma hd_cases (l : list Z) q : (l = [] /\ List.hd q l = q) \/ List.hd q l ∈ l.
Proof. destruct l; [by left|]. right. by apply hd_in. Qed.

Lemma dls_app pv nx l1 : forall p l2 q,
  dls pv nx p (l1 ++ l2) q <-> dls pv nx p l1 (List.hd q l2) /\ dls pv nx (lst p l1) l2 q.
Proof.
  induction l1 as [|x l1 IH]; intros p l2 q; [cbn; tauto|].
  cbn [app dls lst]. rewrite IH, hd_app. tauto.
Qed.

Lemma dls_ext pv nx pv' nx' l : forall p q,
  (forall x, x ∈ l -> pv' x = pv x /\ nx' x = nx x) -> dls pv nx p l q -> dls pv' nx' p l q.
Proof.
  induction l as [|x l IH]; intros p q He; [done|]. cbn [dls]. intros (Hp & Hn & Hl).
  destruct (He x (list_elem_of_here _ _)) as [-> ->]. split_and!; [done|done|].
  apply IH; [|done]. intros y Hy. apply He. by apply list_elem_of_further.
Qed.

(** Only the link of the last element changes when the segment gets another
    successor, and only the link of the first with another predecessor. *)
Lemma dls_new_next pv nx nx' l : forall p q q',
  NoDup l -> (forall x, x ∈ l -> x <> lst p l -> nx' x = nx x) -> (l <> [] -> nx' (lst p l) = q') ->
  dls pv nx p l q -> dls pv nx' p l q'.
Proof.
  induction l as [|x l IH]; intros p q q' Hnd He Hl; [done|]. cbn [dls]. intros (Hp & Hn & Hd).
  apply NoDup_cons in Hnd as [Hx Hnd]. cbn [lst] in *. split; [done|]. destruct l as [|y l].
  - split; [|done]. cbn. by apply Hl.
  - split.
    + rewrite He; [done|apply list_elem_of_here|]. intros Heq. apply Hx. rewrite Heq. by apply (lst_in (y :: l) 0).
    + apply (IH x q q'); [done| |by intros _; apply Hl|done].
      intros z Hz. apply He. by apply list_elem_of_further.
Qed.

Lemma dls_new_prev pv pv' nx l p p' q :
  NoDup l -> (forall x, x ∈ l -> x <> List.hd q l -> pv' x = pv x) -> (l <> [] -> pv' (List.hd q l) = p') ->
  dls pv nx p l q -> dls pv' nx p' l q.
Proof.
  destruct l as [|x l]; [done|]. intros [Hx Hnd]%NoDup_cons He Hh. cbn [dls List.hd] in *.
  intros (Hp & Hn & Hd). split_and!; [by apply Hh|done|].
  apply (dls_ext pv nx); [|done]. intros y Hy. split; [|done].
  apply He; [by apply list_elem_of_further|]. by intros ->.
Qed.

Lemma dls_prev_lst pv nx l1 x l2 p q : dls pv nx p (l1 ++ x :: l2) q -> pv x = lst p l1.
Proof. intros [_ H]%dls_app. apply H. Qed.

Lemma dls_next_hd pv nx l1 x l2 p q : dls pv nx p (l1 ++ x :: l2) q -> nx x = List.hd q l2.
Proof. intros [_ H]%dls_app. apply H. Qed.

(** ** The three changes of a list between NULLs *)

Section Changes.
Context (pv nx pv' nx' : Z -> Z) (x : Z) (l : list Z) (Hnd : NoDup l) (Hx : x ∉ l).

Lemma dls_push :
  (forall y, y ∈ l -> nx' y = nx y) -> (forall y, y ∈ l -> y <> List.hd 0 l -> pv' y = pv y) ->
  (l <> [] -> pv' (List.hd 0 l) = x) -> pv' x = 0 -> nx' x = List.hd 0 l ->
  dls pv nx 0 l 0 -> dls pv' nx' 0 (x :: l) 0.
Proof.
  intros Hn Hp Hh H1 H2 Hd. cbn [dls]. split_and!; [done|done|].
  apply (dls_new_prev pv _ _ _ 0); [done|done|done|]. apply (dls_ext pv nx); [|done].
  intros y Hy. by rewrite Hn.
Qed.

Lemma dls_snoc :
  (forall y, y ∈ l -> pv' y = pv y) -> (forall y, y ∈ l -> y <> lst 0 l -> nx' y = nx y) ->
  (l <> [] -> nx' (lst 0 l) = x) -> pv' x = lst 0 l -> nx' x = 0 ->
  dls pv nx 0 l 0 -> dls pv' nx' 0 (l ++ [x]) 0.
Proof.
  intros Hp Hn Hl H1 H2 Hd. apply dls_app. split; [|done]. cbn [List.hd].
  apply (dls_new_next _ nx _ _ 0 0); [done|done|done|]. apply (dls_ext pv nx); [|done].
  intros y Hy. by rewrite Hp.
Qed.
End Changes.

Lemma NoDup_middle (l1 l2 : list Z) x :
  NoDup (l1 ++ x :: l2) -> NoDup l1 /\ NoDup l2 /\ x ∉ l1 /\ x ∉ l2 /\ forall y, y ∈ l1 -> y ∉ l2.
Proof.
  intros (H1 & H & H2)%NoDup_app. apply NoDup_cons in H2 as [Hx H2].
  split_and!; [done|done| |done|].
  - intros Hi. apply (H x Hi), list_elem_of_here.
  - intros y Hy Hy2. apply (H y Hy). by apply list_elem_of_further.
Qed.

Lemma dls_remove pv nx pv' nx' l1 x l2 :
  NoDup (l1 ++ x :: l2) -> 0 ∉ l1 ++ l2 ->
  (forall y, y ∈ l1 ++ l2 -> y <> lst 0 l1 -> nx' y = nx y) ->
  (forall y, y ∈ l1 ++ l2 -> y <> List.hd 0 l2 -> pv' y = pv y) ->
  (l1 <> [] -> nx' (lst 0 l1) = List.hd 0 l2) -> (l2 <> [] -> pv' (List.hd 0 l2) = lst 0 l1) ->
  dls pv nx 0 (l1 ++ x :: l2) 0 -> dls pv' nx' 0 (l1 ++ l2) 0.
Proof.
  intros (N1 & N2 & _ & _ & H12)%NoDup_middle H0 Hn Hp Hn1 Hp2 [H1 (_ & _ & H2)]%dls_app.
  apply dls_app. split.
  - apply (dls_ext pv nx'); [|apply (dls_new_next _ nx _ _ 0 x); [done| |done|done]].
    + intros y Hy. split; [|done]. apply Hp; [set_solver|]. intros ->.
      destruct (hd_cases l2 0) as [[_ He]|Hh]; [|set_solver]. rewrite He in Hy. set_solver.
    + intros y Hy. apply Hn. set_solver.
  - apply (dls_ext pv' nx); [|apply (dls_new_prev pv _ _ _ x); [done| |done|done]].
    + intros y Hy. split; [done|]. apply Hn; [set_solver|]. intros ->.
      destruct (lst_cases l1 0) as [[_ He]|Hh]; [|set_solver]. rewrite He in Hy. set_solver.
    + intros y Hy. apply Hp. set_solver.
Qed.

(** ** Reads and writes of the memory *)

Definition hh0 : UT_hash_handle := mk_hh 0 0 0 0 [] 0 0.
Definition hget (m : memory) (p : Z) : UT_hash_handle := default hh0 (m !! p).

Lemma hh_rd m p : is_Some (m !! p) -> hh p m = Ok (hget m p).
Proof. intros [h Hh]. unfold hh, hget. by rewrite Hh. Qed.

Lemma upd_alter f p m : is_Some (m !! p) -> upd f p m = Ok (alter f p m).
Proof.
  intros [h Hh]. unfold upd, hh. rewrite Hh. cbn [or_undef obind]. f_equal.
  apply map_eq. intros q. destruct (decide (p = q)) as [<-|Hne].
  - by rewrite lookup_insert_eq, lookup_alter_eq, Hh.
  - by rewrite lookup_insert_ne, lookup_alter_ne.
Qed.

(** [upd_nn] as a function. *)
Definition alter_nn (f : UT_hash_handle -> UT_hash_handle) (p : Z) (m : memory) : memory :=
  if p =? 0 then m else alter f p m.

Lemma upd_nn_alter f p m : (p <> 0 -> is_Some (m !! p)) -> upd_nn f p m = Ok (alter_nn f p m).
Proof. unfold upd_nn, alter_nn. zcase; [done|]. intros H. by apply upd_alter, H. Qed.

Lemma rd_alter f p m q : is_Some (m !! p) -> hget (alter f p m) q = if decide (q = p) then f (hget m q) else hget m q.
Proof.
  intros [h Hh]. unfold hget. case_decide as Hq; [subst q|by rewrite lookup_alter_ne].
  by rewrite lookup_alter_eq, Hh.
Qed.

Lemma rd_alter_nn f p m q :
  (p <> 0 -> is_Some (m !! p)) ->
  hget (alter_nn f p m) q = if decide (q = p /\ p <> 0) then f (hget m q) else hget m q.
Proof.
  unfold alter_nn. intros H. zcase; [by rewrite decide_False by tauto|].
  rewrite rd_alter by auto. do 2 case_decide; tauto.
Qed.

Lemma dom_alter_nn f p m : dom (alter_nn f p m) = dom m.
Proof. unfold alter_nn. zcase; [done|apply dom_alter_L]. Qed.

(** A function of the handles that [f] keeps is the same after the write. *)
Lemma rd_alter_keep {A} (g : UT_hash_handle -> A) f p m q :
  (forall h, g (f h) = g h) -> g (hget (alter f p m) q) = g (hget m q).
Proof.
  intros H. unfold hget. destruct (decide (p = q)) as [->|Hne]; [|by rewrite lookup_alter_ne].
  rewrite lookup_alter_eq. destruct (m !! q); cbn; [apply H|done].
Qed.

Lemma rd_alter_nn_keep {A} (g : UT_hash_handle -> A) f p m q :
  (forall h, g (f h) = g h) -> g (hget (alter_nn f p m) q) = g (hget m q).
Proof. intros H. unfold alter_nn. zcase; [done|by apply rd_alter_keep]. Qed.

(** ** Buckets *)

(** The fields of the list of all elements with what is not linked, and the
    fields the buckets depend on. *)
Definition core (h : UT_hash_handle) : Z * Z * list Z * Z * Z := (prev h, next h, key h, keylen h, hashv h).
Definition links (h : UT_hash_handle) : Z * Z * Z := (hh_prev h, hh_next h, hashv h).

Definition app_list (m : memory) (l : list Z) : Prop :=
  dls (fun x => prev (hget m x)) (fun x => next (hget m x)) 0 l 0.
Definition chain (m : memory) (c : list Z) : Prop :=
  dls (fun x => hh_prev (hget m x)) (fun x => hh_next (hget m x)) 0 c 0.

(** The bucket of an element. *)
Definition bkt (m : memory) (nb x : Z) : Z := HASH_TO_BKT (hashv (hget m x)) nb.

(** A bucket [b] with number [i] out of [nb] that holds its share of [P]. *)
Record bkt_ok (m : memory) (nb : Z) (P : list Z) (i : Z) (b : UT_hash_bucket) (c : list Z) : Prop := mk_bkt_ok {
  bk_nodup : NoDup c;
  bk_elems : forall x, x ∈ c <-> x ∈ P /\ bkt m nb x = i;
  bk_head : hh_head b = List.hd 0 c;
  bk_count : count b = Z.of_nat (length c);
  bk_chain : chain m c
}.

Definition bks (m : memory) (nb : Z) (P : list Z) (bs : list UT_hash_bucket) : Prop :=
  Z.of_nat (length bs) = nb /\ forall i b, aget bs i = Some b -> exists c, bkt_ok m nb P i b c.

Lemma chain_ext m m' c : (forall x, x ∈ c -> links (hget m' x) = links (hget m x)) -> chain m c -> chain m' c.
Proof. intros H. apply dls_ext. intros x Hx. specialize (H x Hx). unfold links in H. by simplify_eq. Qed.

Lemma app_ext m m' l : (forall x, x ∈ l -> core (hget m' x) = core (hget m x)) -> app_list m l -> app_list m' l.
Proof. intros H. apply dls_ext. intros x Hx. specialize (H x Hx). unfold core in H. by simplify_eq. Qed.

Lemma bkt_ext m m' nb x : links (hget m' x) = links (hget m x) -> bkt m' nb x = bkt m nb x.
Proof. unfold links, bkt. intros [= _ _ H]. by rewrite H. Qed.

Lemma bkt_ok_ext m m' nb P P' i b c :
  (forall x, x ∈ P -> bkt m' nb x = bkt m nb x) -> (forall x, x ∈ c -> links (hget m' x) = links (hget m x)) ->
  (forall x, x ∈ P' /\ bkt m' nb x = i <-> x ∈ P /\ bkt m' nb x = i) ->
  bkt_ok m nb P i b c -> bkt_ok m' nb P' i b c.
Proof.
  intros Hb Hc HP [H1 H2 H3 H4 H5]. split; try done; [|by apply (chain_ext m)].
  intros x. rewrite H2, HP. split; intros [Hx He]; (split; [done|]); by rewrite Hb in * by done.
Qed.

Lemma bks_ext m m' nb P bs :
  (forall x, x ∈ P -> links (hget m' x) = links (hget m x)) -> bks m nb P bs -> bks m' nb P bs.
Proof.
  intros H [Hl Hb]. split; [done|]. intros i b Hi. destruct (Hb i b Hi) as [c Hc]. exists c.
  apply (bkt_ok_ext m _ nb P); [|intros x Hx; apply H; by apply Hc in Hx as [? _]|done|done].
  intros x Hx. by apply bkt_ext, H.
Qed.

Lemma to_bkt_range h k : 0 <= k <= 32 -> 0 <= HASH_TO_BKT h (2 ^ k) < 2 ^ k.
Proof.
  intros Hk. unfold HASH_TO_BKT. assert (0 < 2 ^ k) by (apply Z.pow_pos_nonneg; lia).
  assert (2 ^ k <= 2 ^ 32) by (apply Z.pow_le_mono_r; lia).
  rewrite wrap_small, Z.sub_1_r, <- Z.ones_equiv by lia.
  rewrite Z.land_ones by lia. apply Z.mod_pos_bound. lia.
Qed.

Lemma chain_length (c P : list Z) : NoDup c -> (forall x, x ∈ c -> x ∈ P) -> (length c <= length P)%nat.
Proof. intros Hn Hs. apply submseteq_length, NoDup_submseteq; done. Qed.

(** ** An element at the front of a bucket *)

Definition push_mem (x v : Z) (m : memory) : memory :=
  alter_nn (set_hh_prev x) v (alter (set_hh_prev 0 ∘ set_hh_next v) x m).

Lemma push_core x v m q : core (hget (push_mem x v m) q) = core (hget m q).
Proof. unfold push_mem. by rewrite rd_alter_nn_keep, rd_alter_keep. Qed.

Lemma push_dom x v m : dom (push_mem x v m) = dom m.
Proof. unfold push_mem. by rewrite dom_alter_nn, dom_alter_L. Qed.

Lemma alter_is_Some f x m y : is_Some (alter f x m !! y) <-> is_Some ((m : memory) !! y).
Proof. by rewrite <- !elem_of_dom, dom_alter_L. Qed.

Lemma rd_push x v m q :
  is_Some (m !! x) -> (v <> 0 -> is_Some (m !! v)) -> x <> v ->
  hget (push_mem x v m) q =
    if decide (q = x) then set_hh_prev 0 (set_hh_next v (hget m q))
    else if decide (q = v /\ v <> 0) then set_hh_prev x (hget m q) else hget m q.
Proof.
  intros Hx Hv Hne. unfold push_mem. rewrite rd_alter_nn by (intros; rewrite alter_is_Some; auto).
  rewrite rd_alter by done. repeat case_decide; subst; try done; tauto.
Qed.

Lemma core_bkt m m' nb x : core (hget m' x) = core (hget m x) -> bkt m' nb x = bkt m nb x.
Proof. unfold core, bkt. intros [= _ _ _ _ H]. by rewrite H. Qed.

Section Push.
Context (m : memory) (nb : Z) (P : list Z) (x : Z).
Hypothesis (Hx : x ∉ P) (Hx0 : x <> 0) (H0 : 0 ∉ P) (Ha : forall y, y ∈ x :: P -> is_Some (m !! y)).

Lemma hd_alloc i b c : bkt_ok m nb P i b c -> x <> List.hd 0 c /\ (List.hd 0 c <> 0 -> is_Some (m !! List.hd 0 c)).
Proof.
  intros Hc. destruct (hd_cases c 0) as [[_ ->]|Hi]; [done|].
  apply Hc in Hi as [Hi _]. split; [by intros ->|]. intros _. apply Ha. by apply list_elem_of_further.
Qed.

Lemma push_chain i b c :
  bkt_ok m nb P i b c -> bkt m nb x = i ->
  bkt_ok (push_mem x (hh_head b) m) nb (x :: P) i (mk_bucket x (count b + 1) (expand_mult b)) (x :: c).
Proof.
  intros Hc Hi. pose proof (hd_alloc _ _ _ Hc) as [Hne Hv]. destruct Hc as [H1 H2 H3 H4 H5].
  assert (Hxc : x ∉ c) by (rewrite H2; tauto).
  assert (Hrd : forall q, hget (push_mem x (hh_head b) m) q = _)
    by (intros q; rewrite H3; apply rd_push; [apply Ha, list_elem_of_here|done|done]).
  split.
  - by apply NoDup_cons.
  - intros y. rewrite (core_bkt m) by apply push_core. rewrite !elem_of_cons, H2.
    split; [intros [->|[? ?]]; tauto|]. intros [[->|?] ?]; tauto.
  - done.
  - cbn [count length]. lia.
  - assert (Hf : forall y, y ∈ c -> y <> x /\ y <> 0) by (intros y Hy; split; intros ->; [done|]; apply H2 in Hy; tauto).
    apply (dls_push (fun x => hh_prev (hget m x)) (fun x => hh_next (hget m x))); [done| | | | | |exact H5].
    + intros y Hy. rewrite Hrd. destruct (Hf y Hy). by repeat case_decide.
    + intros y Hy Hh. rewrite Hrd. destruct (Hf y Hy). repeat case_decide; try done; tauto.
    + intros Hn. rewrite Hrd. pose proof (hd_in c 0 Hn) as Hi'. destruct (Hf _ Hi').
      repeat case_decide; try done; tauto.
    + rewrite Hrd. by rewrite decide_True.
    + rewrite Hrd. by rewrite decide_True.
Qed.

Lemma bks_push bs b bs' em :
  bks m nb P bs -> aget bs (bkt m nb x) = Some b ->
  aset bs (bkt m nb x) (mk_bucket x (count b + 1) em) = Some bs' ->
  bks (push_mem x (hh_head b) m) nb (x :: P) bs'.
Proof.
  intros [Hl Hb] Hg Hs. split; [by rewrite (aset_length _ _ _ _ Hs)|]. intros i b' Hi.
  destruct (Hb _ _ Hg) as [c Hc]. destruct (decide (i = bkt m nb x)) as [->|Hne].
  - rewrite (aget_aset_eq _ _ _ _ Hs) in Hi. injection Hi as <-. exists (x :: c).
    pose proof (push_chain _ _ _ Hc eq_refl) as Hp. destruct Hp. by split.
  - rewrite (aget_aset_ne _ _ _ _ _ Hs) in Hi by done. destruct (Hb _ _ Hi) as [c' Hc']. exists c'.
    pose proof (hd_alloc _ _ _ Hc) as [Hnx Hv]. rewrite <- (bk_head _ _ _ _ _ _ Hc) in Hnx, Hv.
    apply (bkt_ok_ext m _ nb P); [intros y _; apply core_bkt, push_core| | |done].
    + intros y Hy. apply Hc' in Hy as [Hy Hyi]. rewrite rd_push by (done || apply Ha, list_elem_of_here).
      rewrite !decide_False; [done| |by intros ->]. intros [-> Hn0].
      rewrite (bk_head _ _ _ _ _ _ Hc) in *. destruct (hd_cases c 0) as [[_ ?]|Hin]; [done|].
      apply Hc in Hin as [_ ?]. congruence.
    + intros y. rewrite (core_bkt m) by apply push_core. rewrite elem_of_cons.
      split; [|tauto]. intros [[->|?] ?]; [congruence|tauto].
Qed.
End Push.

(** ** An element out of a bucket *)

Definition del_mem (x : Z) (m : memory) : memory :=
  alter_nn (set_hh_prev (hh_prev (hget m x))) (hh_next (hget m x))
    (alter_nn (set_hh_next (hh_next (hget m x))) (hh_prev (hget m x)) m).

Lemma del_core x m q : core (hget (del_mem x m) q) = core (hget m q).
Proof. unfold del_mem. by rewrite !rd_alter_nn_keep. Qed.

Lemma del_dom x m : dom (del_mem x m) = dom m.
Proof. unfold del_mem. by rewrite !dom_alter_nn. Qed.

Lemma alter_nn_is_Some f x m y : is_Some (alter_nn f x m !! y) <-> is_Some (m !! y).
Proof. by rewrite <- !elem_of_dom, dom_alter_nn. Qed.

Lemma rd_del x m q (pv := hh_prev (hget m x)) (nx := hh_next (hget m x)) :
  (pv <> 0 -> is_Some (m !! pv)) -> (nx <> 0 -> is_Some (m !! nx)) ->
  hh_next (hget (del_mem x m) q) = (if decide (q = pv /\ pv <> 0) then nx else hh_next (hget m q)) /\
  hh_prev (hget (del_mem x m) q) = (if decide (q = nx /\ nx <> 0) then pv else hh_prev (hget m q)).
Proof.
  intros Hp Hn. unfold del_mem. fold pv nx.
  rewrite !rd_alter_nn by (intros; rewrite ?alter_nn_is_Some; auto). by do 2 case_decide.
Qed.

Section Remove.
Context (m : memory) (nb : Z) (P1 P2 : list Z) (x : Z).
Abbreviation P := (P1 ++ x :: P2).
Hypothesis (HP : NoDup P) (H0 : 0 ∉ P) (Ha : forall y, y ∈ P -> is_Some (m !! y)).

(** The neighbours of [x] in its chain. *)
Lemma chain_around i b c1 c2 :
  bkt_ok m nb P i b (c1 ++ x :: c2) ->
  hh_prev (hget m x) = lst 0 c1 /\ hh_next (hget m x) = List.hd 0 c2 /\
  (lst 0 c1 <> 0 -> is_Some (m !! lst 0 c1)) /\ (List.hd 0 c2 <> 0 -> is_Some (m !! List.hd 0 c2)).
Proof.
  intros Hc. pose proof (bk_chain _ _ _ _ _ _ Hc) as Hd. split_and!.
  - exact (dls_prev_lst _ _ _ _ _ _ _ Hd).
  - exact (dls_next_hd _ _ _ _ _ _ _ Hd).
  - destruct (lst_cases c1 0) as [[_ ->]|Hi]; [done|]. intros _. apply Ha, (proj1 (bk_elems _ _ _ _ _ _ Hc _)). set_solver.
  - destruct (hd_cases c2 0) as [[_ ->]|Hi]; [done|]. intros _. apply Ha, (proj1 (bk_elems _ _ _ _ _ _ Hc _)). set_solver.
Qed.

Lemma remove_chain i b c1 c2 :
  bkt_ok m nb P i b (c1 ++ x :: c2) ->
  bkt_ok (del_mem x m) nb (P1 ++ P2) i
    (mk_bucket (if hh_head b =? x then hh_next (hget m x) else hh_head b) (count b - 1) (expand_mult b)) (c1 ++ c2).
Proof.
  intros Hc. pose proof (chain_around _ _ _ _ Hc) as (Ep & En & Hp & Hn).
  destruct Hc as [H1 H2 H3 H4 H5]. pose proof (NoDup_middle _ _ _ H1) as (N1 & N2 & X1 & X2 & N12).
  pose proof (NoDup_middle _ _ _ HP) as (_ & _ & XP1 & XP2 & _).
  assert (Hrd := fun q => rd_del x m q). rewrite Ep, En in Hrd. specialize (fun q => Hrd q Hp Hn).
  assert (Hz : forall y, y ∈ c1 ++ x :: c2 -> y <> 0) by (intros y Hy ->; apply H2 in Hy; tauto).
  split.
  - apply NoDup_app. split_and!; done.
  - intros y. rewrite (core_bkt m) by apply del_core. specialize (H2 y). set_solver.
  - rewrite H3, En. cbn [hh_head]. destruct c1 as [|z c1]; cbn [app List.hd]; [by rewrite Z.eqb_refl|].
    zcase; [set_solver|done].
  - cbn [count]. rewrite H4, !length_app. cbn [length]. lia.
  - eapply dls_remove; [exact H1|intros Hi; by apply (Hz 0); [set_solver|]| | | | |exact H5]; cbn beta.
    + intros y Hy Hl. rewrite (proj1 (Hrd y)). rewrite decide_False; [done|tauto].
    + intros y Hy Hl. rewrite (proj2 (Hrd y)). rewrite decide_False; [done|tauto].
    + intros Hl. rewrite (proj1 (Hrd _)). rewrite decide_True; [done|]. split; [done|].
      apply Hz. pose proof (lst_in c1 0 Hl). set_solver.
    + intros Hl. rewrite (proj2 (Hrd _)). rewrite decide_True; [done|]. split; [done|].
      apply Hz. pose proof (hd_in c2 0 Hl). set_solver.
Qed.

Lemma bks_remove bs b bs' :
  bks m nb P bs -> aget bs (bkt m nb x) = Some b ->
  aset bs (bkt m nb x) (mk_bucket (if hh_head b =? x then hh_next (hget m x) else hh_head b) (count b - 1)
                          (expand_mult b)) = Some bs' ->
  bks (del_mem x m) nb (P1 ++ P2) bs'.
Proof.
  intros [Hl Hb] Hg Hs. split; [by rewrite (aset_length _ _ _ _ Hs)|]. intros i b' Hi.
  destruct (Hb _ _ Hg) as [c Hc].
  assert (x ∈ c) as [c1 [c2 ->]]%list_elem_of_split by (apply Hc; split; [set_solver|done]).
  destruct (decide (i = bkt m nb x)) as [->|Hne].
  - rewrite (aget_aset_eq _ _ _ _ Hs) in Hi. injection Hi as <-. exists (c1 ++ c2). by apply remove_chain.
  - rewrite (aget_aset_ne _ _ _ _ _ Hs) in Hi by done. destruct (Hb _ _ Hi) as [c' Hc']. exists c'.
    pose proof (chain_around _ _ _ _ Hc) as (Ep & En & Hp & Hn). rewrite <- Ep in Hp. rewrite <- En in Hn.
    apply (bkt_ok_ext m _ nb P); [intros y _; apply core_bkt, del_core| | |done].
    + intros y Hy. apply Hc' in Hy as [Hy Hyi]. destruct (rd_del x m y Hp Hn) as [E1 E2].
      assert (hashv (hget (del_mem x m) y) = hashv (hget m y)) as E3 by (pose proof (del_core x m y) as Hk; injection Hk; done).
      unfold links. rewrite E1, E2, E3, !decide_False; [done| |]; intros [-> Hn0].
      * rewrite Ep in *. destruct (lst_cases c1 0) as [[_ ?]|Hin]; [done|].
        assert (bkt m nb (lst 0 c1) = bkt m nb x) by (apply Hc; set_solver). congruence.
      * rewrite En in *. destruct (hd_cases c2 0) as [[_ ?]|Hin]; [done|].
        assert (bkt m nb (List.hd 0 c2) = bkt m nb x) by (apply Hc; set_solver). congruence.
    + intros y. rewrite (core_bkt m) by apply del_core. rewrite !elem_of_app, elem_of_cons.
      split; [tauto|]. intros [[?|[->|?]] ?]; [tauto|congruence|tauto].
Qed.
End Remove.
