(* ===== verification/UthashOps.v ===== *)
(** * The operations on hash tables keep the invariant

    Every operation of uthash.h on a well-formed table ends, touches only
    allocated handles and leaves a well-formed table; the doubling of the
    buckets moves every element to the bucket of its hash value. *)

From S2P Require Import Prelude Uthash UthashRep.

Open Scope Z_scope.

(** What a handle says about its key. *)
Definition hashed (h : UT_hash_handle) : Prop :=
  keylen h = Z.of_nat (length (key h)) /\ hashv h = HASH_JEN (key h).

(** A table [t] in the memory [m] with the elements [l], in the order of their
    insertion, its buckets apart. *)
Record listed (m : memory) (t : UT_hash_table) (l : list Z) : Prop := mk_listed {
  ls_nodup : NoDup l;
  ls_null : 0 ∉ l;
  ls_alloc : forall x, x ∈ l -> is_Some (m !! x);
  ls_hashed : forall x, x ∈ l -> hashed (hget m x);
  ls_tail : tail t = lst 0 l;
  ls_app : app_list m l;
  ls_items : num_items t = Z.of_nat (length l);
  ls_size : Z.of_nat (length l) < 2 ^ 32;
  ls_log : 5 <= log2_num_buckets t <= 30;
  ls_nb : num_buckets t = 2 ^ log2_num_buckets t
}.

(** The same with buckets that hold exactly these elements. *)
Definition wf (m : memory) (t : UT_hash_table) (l : list Z) : Prop :=
  listed m t l /\ bks m (num_buckets t) l (buckets t).

Lemma bks_iff m nb P P' bs : (forall x, x ∈ P <-> x ∈ P') -> bks m nb P bs -> bks m nb P' bs.
Proof.
  intros He [Hl Hb]. split; [done|]. intros i b Hi. destruct (Hb i b Hi) as [c [H1 H2 H3 H4 H5]].
  exists c. split; try done. intros x. by rewrite H2, He.
Qed.

(** Changes of the buckets keep the rest. *)
Lemma listed_core m m' t bs l :
  listed m t l -> (forall q, core (hget m' q) = core (hget m q)) -> dom m' = dom m -> listed m' (set_buckets bs t) l.
Proof.
  intros [W1 W2 W3 W4 W5 W6 W7 W8 W9 W10] Hc Hd. split; try done.
  - intros x Hx. rewrite <- elem_of_dom, Hd, elem_of_dom. auto.
  - intros x Hx. specialize (Hc x). unfold core in Hc. injection Hc as _ _ E1 E3 E4.
    unfold hashed. rewrite E1, E3, E4. by apply W4.
  - apply (app_ext m); auto.
Qed.

(** A list of allocated addresses is no longer than the memory is large. *)
Lemma nodup_size (m : memory) c : NoDup c -> (forall x, x ∈ c -> is_Some (m !! x)) -> (length c <= size m)%nat.
Proof.
  intros Hn Ha. rewrite <- (size_list_to_set (C := gset Z) c Hn), <- size_dom.
  apply subseteq_size. intros x Hx%elem_of_list_to_set. by apply elem_of_dom, Ha.
Qed.

(** Every hash value has a bucket, which can be read and written. *)
Lemma bks_get m k P bs h (i := HASH_TO_BKT h (2 ^ k)) :
  0 <= k <= 32 -> bks m (2 ^ k) P bs ->
  exists b c, aget bs i = Some b /\ bkt_ok m (2 ^ k) P i b c /\ forall v, exists bs', aset bs i v = Some bs'.
Proof.
  intros Hk [Hl Hb]. assert (Hr : 0 <= i < Z.of_nat (length bs)) by (rewrite Hl; by apply to_bkt_range).
  destruct (aget_is_Some _ _ Hr) as [b Hg]. destruct (Hb _ _ Hg) as [c Hc].
  exists b, c. split_and!; [done|done|]. intros v. eexists. by apply aset_Some.
Qed.

Lemma bucket_count m nb P i b c :
  bkt_ok m nb P i b c -> 0 <= count b <= Z.of_nat (length P).
Proof.
  intros [H1 H2 _ H4 _]. rewrite H4.
  assert (length c <= length P)%nat by (apply chain_length; [done|]; intros x Hx; by apply H2). lia.
Qed.

(** ** Looking up *)

Definition matches (keyptr : list Z) (h : UT_hash_handle) : bool :=
  (keylen h =? Z.of_nat (length keyptr)) && bool_decide (key h = keyptr).

Lemma matches_spec k h : hashed h -> matches k h = bool_decide (key h = k).
Proof.
  intros [Hl _]. unfold matches. rewrite Hl. case_bool_decide as He; [|by rewrite andb_false_r].
  by rewrite He, Z.eqb_refl.
Qed.

(** The loop returns the first element of the chain with the key. *)
Lemma find_loop_spec m k c : forall fuel p,
  (length c <= fuel)%nat -> 0 ∉ c -> (forall x, x ∈ c -> is_Some (m !! x)) ->
  dls (fun x => hh_prev (hget m x)) (fun x => hh_next (hget m x)) p c 0 ->
  find_loop fuel m (List.hd 0 c) k = Ok (default 0 (List.find (fun x => matches k (hget m x)) c)).
Proof.
  induction c as [|x c IH]; intros fuel p Hf H0 Ha; [by destruct fuel|].
  cbn [dls List.hd List.find]. intros (_ & Hn & Hd).
  apply not_elem_of_cons in H0 as [Hx0 H0]. destruct fuel as [|fuel]; [cbn in Hf; lia|].
  cbn [find_loop]. zcase; [congruence|]. rewrite hh_rd by (apply Ha, list_elem_of_here). cbn [obind].
  fold (matches k (hget m x)). destruct (matches k (hget m x)); [done|]. rewrite Hn.
  apply (IH fuel x); [cbn in Hf; lia|done| |done]. intros y Hy. apply Ha. by apply list_elem_of_further.
Qed.

(** [x] is the element of [l] with the key [k], NULL when there is none. *)
Definition key_found (m : memory) (l : list Z) (k : list Z) (x : Z) : Prop :=
  if x =? 0 then forall y, y ∈ l -> key (hget m y) <> k else x ∈ l /\ key (hget m x) = k.

Lemma HASH_FIND_spec hd m t l k :
  wf m t l -> hd = List.hd 0 l -> exists x, HASH_FIND (mk_uthash hd m (Some t)) k = Ok x /\ key_found m l k x.
Proof.
  intros Hw ->. unfold HASH_FIND. cbn [head mem tbl]. destruct (hd_cases l 0) as [[-> ->]|Hi].
  { exists 0. split; [done|]. unfold key_found. rewrite Z.eqb_refl. set_solver. }
  destruct (Z.eqb_spec (List.hd 0 l) 0) as [H0|_]; [rewrite H0 in Hi; by destruct (ls_null _ _ _ (proj1 Hw))|].
  rewrite hh_rd by (by apply Hw). cbn [obind or_undef].
  destruct Hw as [[_ Hnull Ha Hh _ _ _ _ Hlog Hnb] Hb]. rewrite Hnb in *.
  destruct (bks_get m (log2_num_buckets t) l (buckets t) (HASH_JEN k)) as (b & c & -> & [H1 H2 H3 _ H5] & _);
    [lia|done|]. cbn [or_undef obind].
  assert (Hc : forall x, x ∈ c -> x ∈ l) by (intros x Hx; by apply H2).
  unfold HASH_FIND_IN_BKT. rewrite H3, (find_loop_spec m k c _ 0); [|..|done].
  - eexists. split; [done|]. unfold key_found. destruct (List.find _ c) as [x|] eqn:Ef; cbn [from_option]; unfold id.
    + apply List.find_some in Ef as [Hx%list_elem_of_In He].
      rewrite matches_spec in He by auto. apply bool_decide_eq_true in He.
      destruct (Z.eqb_spec x 0) as [->|_]; [by destruct Hnull; apply Hc|auto].
    + rewrite Z.eqb_refl. intros y Hy He.
      assert (y ∈ c) as Hyc by (apply H2; split; [done|]; unfold bkt; by rewrite (proj2 (Hh y Hy)), He).
      eapply List.find_none in Ef; [|by apply list_elem_of_In]. rewrite matches_spec in Ef by auto.
      by apply bool_decide_eq_false in Ef.
  - assert (length c <= size m)%nat by (apply nodup_size; auto). lia.
  - auto.
  - auto.
Qed.

(** ** Doubling the buckets *)

Lemma double k : 0 <= k <= 30 -> u32 (2 ^ k * 2) = 2 ^ (k + 1) /\ u32 (2 * 2 ^ k) = 2 ^ (k + 1).
Proof.
  intros Hk. assert (0 < 2 ^ (k + 1) < 2 ^ 32).
  { split; [apply Z.pow_pos_nonneg; lia|apply Z.pow_lt_mono_r; lia]. }
  rewrite Z.pow_add_r in * by lia. change (2 ^ 1) with 2 in *. rewrite !wrap_small by lia. lia.
Qed.

(** Both orders of the two writes to the handle that is pushed. *)
Lemma upd_links v x m :
  is_Some (m !! x) ->
  (let! m := upd (set_hh_next v) x m in upd (set_hh_prev 0) x m) = Ok (alter (set_hh_prev 0 ∘ set_hh_next v) x m) /\
  (let! m := upd (set_hh_prev 0) x m in upd (set_hh_next v) x m) = Ok (alter (set_hh_prev 0 ∘ set_hh_next v) x m).
Proof.
  intros Hx. rewrite !(upd_alter _ x m) by done. cbn [obind]. rewrite !upd_alter by (by rewrite alter_is_Some).
  by rewrite !alter_alter_eq.
Qed.

Section Expand.
Context (k : Z) (Hk : 0 <= k <= 30).
Abbreviation nb := (2 ^ k).
Abbreviation nb' := (2 ^ (k + 1)).

(** The new buckets hold the elements [D]. *)
Record moving (m : memory) (D : list Z) (nbs : list UT_hash_bucket) : Prop := mk_moving {
  mv_null : 0 ∉ D;
  mv_alloc : forall y, y ∈ D -> is_Some (m !! y);
  mv_size : Z.of_nat (length D) < 2 ^ 32;
  mv_bks : bks m nb' D nbs
}.

Lemma expand_move_spec m D nbs ni imax x :
  moving m D nbs -> x ∉ D -> x <> 0 -> is_Some (m !! x) -> 0 < imax -> Z.of_nat (length D) + 1 < 2 ^ 32 ->
  exists v nbs' ni', expand_move nb imax x (m, nbs, ni) = Ok (push_mem x v m, nbs', ni') /\
    moving (push_mem x v m) (x :: D) nbs' /\ (v = 0 \/ v ∈ D).
Proof.
  intros [H0 Ha _ Hb] Hx Hx0 Hax Him Hs. unfold expand_move. rewrite hh_rd by done. cbn [obind].
  rewrite (proj1 (double k Hk)).
  destruct (bks_get m (k + 1) D nbs (hashv (hget m x))) as (b & c & Hg & Hc & Hset); [lia|done|].
  rewrite Hg. cbn [or_undef obind]. pose proof (bucket_count _ _ _ _ _ _ Hc) as Hcnt.
  rewrite (wrap_small 32 (count b + 1)) by lia.
  assert (exists mn, (if count b + 1 >? imax then if imax =? 0 then Undef else Ok ((count b + 1) / imax, u32 (ni + 1))
    else Ok (expand_mult b, ni)) = Ok mn) as [[mu ni'] ->] by (repeat zcase; eauto; lia).
  cbn [obind fst snd]. rewrite (upd_alter (set_hh_prev 0)) by done. cbn [obind].
  pose proof (proj2 (upd_links (hh_head b) x m Hax)) as Hu. rewrite (upd_alter (set_hh_prev 0)) in Hu by done.
  cbn [obind] in Hu. rewrite Hu. cbn [obind].
  assert (Hv : hh_head b = 0 \/ hh_head b ∈ D).
  { rewrite (bk_head _ _ _ _ _ _ Hc). destruct (hd_cases c 0) as [[_ ->]|Hi]; [by left|right; by apply Hc]. }
  rewrite upd_nn_alter by (intros; rewrite alter_is_Some; apply Ha; tauto). cbn [obind].
  fold (push_mem x (hh_head b) m).
  destruct (Hset (mk_bucket x (count b + 1) mu)) as [nbs' Hs']. rewrite Hs'. cbn [or_undef obind].
  exists (hh_head b), nbs', ni'. split_and!; [done| |done]. split.
  - set_solver.
  - intros y Hy. rewrite <- elem_of_dom, push_dom, elem_of_dom. apply elem_of_cons in Hy as [->|Hy]; auto.
  - cbn [length]. lia.
  - eapply bks_push; [done|done|done| |done|exact Hg|exact Hs']. intros y [->|Hy]%elem_of_cons; auto.
Qed.

(** What the move of the elements [c] keeps: all handles outside [c] and the
    elements that were moved before, and everything but the buckets. *)
Record kept (m m' : memory) (S : list Z) : Prop := mk_kept {
  kp_rd : forall q, q ∉ S -> q <> 0 -> hget m' q = hget m q;
  kp_core : forall q, core (hget m' q) = core (hget m q);
  kp_dom : dom m' = dom m
}.

Lemma push_kept x v m D :
  is_Some (m !! x) -> (forall y, y ∈ D -> is_Some (m !! y)) -> x ∉ D -> x <> 0 -> v = 0 \/ v ∈ D ->
  kept m (push_mem x v m) (x :: D).
Proof.
  intros Hx Ha Hn Hx0 Hv. split; [|intros q; apply push_core|apply push_dom].
  intros q [Hq HD]%not_elem_of_cons Hq0.
  rewrite rd_push; [|done|intros; apply Ha; tauto|destruct Hv as [->|Hv]; [done|by intros ->]].
  rewrite !decide_False; [done| |done]. intros [-> ?]. tauto.
Qed.

Lemma kept_trans m1 m2 m3 S1 S2 :
  kept m1 m2 S1 -> kept m2 m3 S2 -> (forall x, x ∈ S1 -> x ∈ S2) -> kept m1 m3 S2.
Proof.
  intros [A1 B1 C1] [A2 B2 C2] Hs. split; [|congruence|congruence].
  intros q Hq Hq0. rewrite A2, A1 by auto. done.
Qed.

Lemma nodup_later (c D : list Z) x y : x ∉ c ++ D -> NoDup (c ++ D) -> y ∈ c -> y ∉ x :: D.
Proof.
  intros Hx (_ & Hd & _)%NoDup_app Hy [->|HD]%elem_of_cons; [|by apply (Hd y)].
  apply Hx, elem_of_app. by left.
Qed.

Lemma expand_chain_spec imax c : forall fuel m D nbs ni p,
  0 < imax -> moving m D nbs -> (length c <= fuel)%nat -> NoDup (c ++ D) -> 0 ∉ c ->
  (forall y, y ∈ c -> is_Some (m !! y)) -> Z.of_nat (length (c ++ D)) < 2 ^ 32 ->
  dls (fun x => hh_prev (hget m x)) (fun x => hh_next (hget m x)) p c 0 ->
  exists m' nbs' ni' D', expand_chain fuel nb imax (List.hd 0 c) (m, nbs, ni) = Ok (m', nbs', ni') /\
    moving m' D' nbs' /\ D' ≡ₚ c ++ D /\ kept m m' (c ++ D).
Proof.
  induction c as [|x c IH]; intros fuel m D nbs ni p Him Hm Hf Hnd H0 Ha Hs Hd.
  { exists m, nbs, ni, D. split_and!; [by destruct fuel|done|done|by split]. }
  cbn [app List.hd dls] in *. destruct Hd as (_ & Hn & Hd). destruct fuel as [|fuel]; [cbn in Hf; lia|].
  apply NoDup_cons in Hnd as [Hx Hnd]. apply not_elem_of_cons in H0 as [Hx0 H0].
  assert (Hax : is_Some (m !! x)) by apply Ha, list_elem_of_here.
  cbn [expand_chain fst snd]. zcase; [congruence|]. rewrite hh_rd by done. cbn [obind]. rewrite Hn.
  destruct (expand_move_spec m D nbs ni imax x) as (v & nbs1 & ni1 & -> & Hm1 & Hv);
    [done|intros ?; by apply Hx, elem_of_app; right|done|done|done|cbn [length] in Hs; rewrite length_app in Hs; lia|]. cbn [obind].
  assert (K1 : kept m (push_mem x v m) (x :: D)) by (apply push_kept; [done|apply Hm|intros ?; by apply Hx, elem_of_app; right|done|done]).
  destruct (IH fuel (push_mem x v m) (x :: D) nbs1 ni1 x) as (m' & nbs' & ni' & D' & -> & Hm' & HD' & K2); try done.
  - cbn in Hf. lia.
  - rewrite <- Permutation_middle. by apply NoDup_cons.
  - intros y Hy. rewrite <- elem_of_dom, push_dom, elem_of_dom. apply Ha. by apply list_elem_of_further.
  - rewrite <- Permutation_middle. exact Hs.
  - apply (dls_ext (fun x => hh_prev (hget m x)) (fun x => hh_next (hget m x))); [|done].
    intros y Hy. rewrite (kp_rd _ _ _ K1); [done|by apply (nodup_later c)|by intros ->].
  - exists m', nbs', ni', D'. split_and!; [done|done|by rewrite HD', <- Permutation_middle|].
    apply (kept_trans m (push_mem x v m) m' (x :: D)); [done| |clear; set_solver].
    destruct K2 as [A2 B2 C2]. split; [|done|done]. intros q Hq. apply A2. clear -Hq. set_solver.
Qed.

Lemma kept_bkt m m' S n x : kept m m' S -> bkt m' n x = bkt m n x.
Proof. intros H. apply core_bkt, H. Qed.

(** The buckets with the numbers [ix] are still to be moved. *)
Definition unmoved (m : memory) (l D : list Z) (bs : list UT_hash_bucket) (ix : list Z) : Prop :=
  forall i, i ∈ ix -> exists b c, aget bs i = Some b /\ bkt_ok m nb l i b c /\ forall x, x ∈ c -> x ∉ D.

Lemma unmoved_move m m' l D i b c D' bs ix :
  unmoved m l D bs ix -> i ∉ ix -> bkt_ok m nb l i b c -> kept m m' (c ++ D) -> D' ≡ₚ c ++ D -> 0 ∉ l ->
  unmoved m' l D' bs ix.
Proof.
  intros Hw Hi Hc K HD H0 j Hj. destruct (Hw j Hj) as (b' & c' & Hg & Hc' & Hd).
  assert (Hn : forall x, x ∈ c' -> x ∉ c ++ D).
  { intros x Hx [Hxc|HxD]%elem_of_app; [|by apply (Hd x)].
    apply Hc in Hxc as [_ <-]. apply Hc' in Hx as [_ <-]. done. }
  exists b', c'. split_and!; [done| |intros x Hx; rewrite HD; auto].
  apply (bkt_ok_ext m _ nb l); [intros x _; by apply (kept_bkt _ _ _ _ _ K)| |done|done].
  intros x Hx. rewrite (kp_rd _ _ _ K); [done|auto|]. intros ->. apply Hc' in Hx. tauto.
Qed.

Lemma expand_loop_spec imax bs l ix : 0 < imax -> 0 ∉ l -> Z.of_nat (length l) < 2 ^ 32 -> forall m D nbs ni,
  NoDup ix -> moving m D nbs -> NoDup D -> (forall x, x ∈ D -> x ∈ l) ->
  (forall x, x ∈ l -> is_Some (m !! x)) -> unmoved m l D bs ix ->
  exists m' nbs' ni' D', expand_loop nb imax bs ix (m, nbs, ni) = Ok (m', nbs', ni') /\ moving m' D' nbs' /\
    (forall x, x ∈ D' <-> x ∈ D \/ x ∈ l /\ bkt m nb x ∈ ix) /\
    (forall q, core (hget m' q) = core (hget m q)) /\ dom m' = dom m.
Proof.
  intros Him H0 Hsz. induction ix as [|i ix IH]; intros m D nbs ni Hix Hm HD HDl Ha Hw.
  { exists m, nbs, ni, D. split_and!; [done|done| |done|done]. intros x. rewrite elem_of_nil. tauto. }
  apply NoDup_cons in Hix as [Hi Hix].
  destruct (Hw i (list_elem_of_here _ _)) as (b & c & Hg & Hc & Hcd). cbn [expand_loop fst].
  rewrite Hg. cbn [or_undef obind]. rewrite (bk_head _ _ _ _ _ _ Hc).
  assert (Hcl : forall x, x ∈ c -> x ∈ l) by (intros x Hx; by apply Hc in Hx as [? _]).
  assert (Hn : NoDup (c ++ D)) by (apply NoDup_app; split_and!; [apply Hc|done|done]).
  assert (length (c ++ D) <= length l)%nat
    by (apply chain_length; [done|]; intros x [?|?]%elem_of_app; auto).
  destruct (expand_chain_spec imax c (S (size m)) m D nbs ni 0) as (m1 & nbs1 & ni1 & D1 & -> & Hm1 & HD1 & K1);
    [done|done| |done|by auto|by auto|lia|apply Hc|].
  { apply le_S, nodup_size; [apply Hc|auto]. }
  cbn [obind]. destruct (IH m1 D1 nbs1 ni1) as (m' & nbs' & ni' & D' & -> & Hm' & HD' & Hkc & Hdom); try done.
  - by rewrite HD1.
  - intros x. rewrite HD1. intros [?|?]%elem_of_app; auto.
  - intros x Hx. rewrite <- elem_of_dom, (kp_dom _ _ _ K1), elem_of_dom. auto.
  - apply (unmoved_move m m1 l D i b c); try done. intros j Hj. apply Hw. by apply list_elem_of_further.
  - exists m', nbs', ni', D'. split_and!; [done|done| | |by rewrite Hdom, (kp_dom _ _ _ K1)].
    + intros x. rewrite HD', HD1, elem_of_app, (kept_bkt _ _ _ _ _ K1), elem_of_cons, (bk_elems _ _ _ _ _ _ Hc).
      tauto.
    + intros q. by rewrite Hkc, (kp_core _ _ _ K1).
Qed.
End Expand.

Lemma bks_empty m nb : 0 <= nb -> bks m nb [] (empty_buckets nb).
Proof.
  intros Hnb. unfold empty_buckets. split; [rewrite length_replicate; lia|]. intros i b Hi. exists [].
  unfold aget in Hi. destruct (0 <=? i); [|done]. apply lookup_replicate_1 in Hi as [-> _].
  split; try done; [by apply NoDup_nil|]. intros x. rewrite elem_of_nil. tauto.
Qed.

(** The ideal length of a chain is not 0 in a table that is not empty. *)
Lemma ideal_pos n k (imax := u32 (Z.shiftr n (k + 1) + c_bool (c_true (Z.land n (u32 (2 ^ (k + 1) - 1)))))) :
  0 < n < 2 ^ 32 -> 0 <= k <= 30 -> 0 < imax.
Proof.
  intros Hn Hk. subst imax. assert (H2 : 2 <= 2 ^ (k + 1) <= 2 ^ 31).
  { split; [change 2 with (2 ^ 1) at 1|]; apply Z.pow_le_mono_r; lia. }
  rewrite (wrap_small 32 (_ - 1)) by lia. rewrite Z.sub_1_r, <- Z.ones_equiv, Z.land_ones by lia.
  rewrite Z.shiftr_div_pow2 by lia. set (p := 2 ^ (k + 1)) in *. clearbody p. clear Hk k.
  pose proof (Z.div_mod n p ltac:(lia)). pose proof (Z.mod_pos_bound n p ltac:(lia)).
  assert (0 <= n / p < 2 ^ 31) by (split; [apply Z.div_pos; lia|apply Z.div_lt_upper_bound; nia]).
  unfold c_true. zcase; cbn [negb c_bool]; rewrite wrap_small by lia; nia.
Qed.

Lemma aget_elem_of {A} (l : list A) i a : aget l i = Some a -> a ∈ l.
Proof. unfold aget. destruct (0 <=? i); [|done]. apply list_elem_of_lookup_2. Qed.

Section Malloc.
Context (malloc : Z -> bool).
(** No block is as large as an array of 2^31 buckets. *)
Hypothesis malloc_limit : forall sz, malloc sz = true -> sz < 2 ^ 35.

(** What a doubling of [nb] buckets asks for. *)
Definition bigger (nb : Z) : Z := 2 * nb * BUCKET_SIZE.

Lemma HASH_EXPAND_spec m t l :
  wf m t l -> l <> [] ->
  exists r, HASH_EXPAND_BUCKETS malloc m t = Ok r /\
    match r with
    | None => malloc (bigger (num_buckets t)) = false
    | Some (m', t') => wf m' t' l /\ (forall q, core (hget m' q) = core (hget m q)) /\ dom m' = dom m
    end.
Proof.
  intros [HL W11] Hl. pose proof HL as [W1 W2 W3 _ _ _ W7 W8 W9 W10]. unfold HASH_EXPAND_BUCKETS. rewrite W10 in *.
  set (k := log2_num_buckets t) in *. rewrite !(proj1 (double k ltac:(lia))), !(proj2 (double k ltac:(lia))).
  assert (E2 : 2 ^ (k + 1) = 2 * 2 ^ k) by (rewrite Z.pow_add_r by lia; lia).
  unfold bigger. rewrite <- E2. destruct (malloc _) eqn:Em; cbn [negb]; [|by exists None].
  apply malloc_limit in Em. unfold BUCKET_SIZE in Em.
  assert (Hk : k + 1 <= 30).
  { destruct (Z.leb_spec (k + 1) 30); [done|]. assert (2 ^ 31 <= 2 ^ (k + 1)) by (apply Z.pow_le_mono_r; lia). lia. }
  zcase; [lia|].
  assert (Hn : 0 < num_items t < 2 ^ 32) by (rewrite W7; destruct l; [done|cbn [length] in *; lia]).
  pose proof (ideal_pos (num_items t) k Hn ltac:(lia)) as Him. set (imax := u32 (_ + _)) in *. clearbody imax.
  destruct (expand_loop_spec k ltac:(lia) imax (buckets t) l (upto (2 ^ k)) Him W2 W8 m []
    (empty_buckets (2 ^ (k + 1))) 0) as (m' & nbs & ni & D & -> & [_ _ _ Hb] & HD & Hc & Hdom).
  - apply NoDup_seqZ.
  - split; [apply not_elem_of_nil|by intros y ?%elem_of_nil|done|apply bks_empty; lia].
  - by apply NoDup_nil.
  - by intros y ?%elem_of_nil.
  - done.
  - intros i Hi%elem_of_upto. rewrite <- (proj1 W11) in Hi. destruct (aget_is_Some _ _ Hi) as [b Hg].
    destruct (proj2 W11 _ _ Hg) as [c Hcc]. exists b, c. split_and!; [done|done|]. intros x _. apply not_elem_of_nil.
  - cbn [obind]. eexists. split; [done|]. cbn beta iota. split_and!; [|done|done].
    destruct (listed_core m m' t nbs l HL Hc Hdom) as [V1 V2 V3 V4 V5 V6 V7 V8 V9 V10].
    split; [split|]; cbn [tail num_items log2_num_buckets num_buckets buckets]; try done.
    + fold k. rewrite wrap_small by lia. lia.
    + fold k. by rewrite (wrap_small 32 (k + 1)) by lia.
    + eapply bks_iff; [|exact Hb]. intros x. rewrite HD, elem_of_nil. split; [tauto|]. intros Hx. right.
      split; [done|]. apply elem_of_upto, to_bkt_range. lia.
Qed.

(** ** Adding *)

(** One more element in the bucket asks for a doubling. *)
Definition bucket_full (b : UT_hash_bucket) : Prop :=
  u32 (u32 (expand_mult b + 1) * HASH_BKT_CAPACITY_THRESH) <= count b + 1.

Lemma HASH_ADD_TO_BKT_spec m t l x :
  listed m t (l ++ [x]) -> bks m (num_buckets t) l (buckets t) ->
  exists r, HASH_ADD_TO_BKT malloc (bkt m (num_buckets t) x) x m t = Ok r /\
    match r with
    | None => malloc (bigger (num_buckets t)) = false /\ exists b, b ∈ buckets t /\ bucket_full b
    | Some (m', t') => wf m' t' (l ++ [x]) /\ (forall q, core (hget m' q) = core (hget m q)) /\ dom m' = dom m
    end.
Proof.
  intros HL Hb. pose proof HL as [W1 W2 W3 W4 W5 W6 W7 W8 W9 W10].
  unfold HASH_ADD_TO_BKT. rewrite W10 in *. set (k := log2_num_buckets t) in *.
  pose proof (NoDup_middle l [] x W1) as (_ & _ & Hx & _).
  assert (Hax : is_Some (m !! x)) by (apply W3; clear; set_solver).
  assert (Hal : forall y, y ∈ l -> is_Some (m !! y)) by (intros y Hy; apply W3, elem_of_app; by left).
  assert (Hx0 : x <> 0) by (intros ->; apply W2; clear; set_solver).
  assert (Hl0 : 0 ∉ l) by (intros ?; apply W2, elem_of_app; by left).
  destruct (bks_get m k l (buckets t) (hashv (hget m x))) as (b & c & Hg & Hc & Hset); [lia|done|].
  fold (bkt m (2 ^ k) x) in *. rewrite Hg. cbn [or_undef obind].
  pose proof (bucket_count _ _ _ _ _ _ Hc) as Hcnt. rewrite length_app in W8. cbn [length] in W8.
  rewrite (wrap_small 32 (count b + 1)) by lia.
  pose proof (proj1 (upd_links (hh_head b) x m Hax)) as Hu. rewrite (upd_alter (set_hh_next _)) in Hu |- * by done.
  cbn [obind] in Hu |- *. rewrite Hu. cbn [obind].
  assert (Hv : hh_head b = 0 \/ hh_head b ∈ l).
  { rewrite (bk_head _ _ _ _ _ _ Hc). destruct (hd_cases c 0) as [[_ ->]|Hi]; [by left|right; by apply Hc]. }
  rewrite upd_nn_alter by (intros; rewrite alter_is_Some; apply Hal; tauto). cbn [obind].
  fold (push_mem x (hh_head b) m). set (m1 := push_mem _ _ _).
  destruct (Hset (mk_bucket x (count b + 1) (expand_mult b))) as [bs' Hs']. rewrite Hs'. cbn [or_undef obind].
  assert (Hb' : bks m1 (2 ^ k) (l ++ [x]) bs').
  { apply (bks_iff _ _ (x :: l)); [intros y; clear; set_solver|].
    eapply bks_push; [done|done|done| |done|exact Hg|exact Hs']. intros y [->|Hy]%elem_of_cons; auto. }
  assert (Hw1 : wf m1 (set_buckets bs' t) (l ++ [x])).
  { split; [apply (listed_core m); [done|intros q; apply push_core|apply push_dom]|].
    cbn [set_buckets num_buckets buckets]. by rewrite W10. }
  destruct (_ && _) eqn:Efull.
  - destruct (HASH_EXPAND_spec _ _ _ Hw1) as (r & -> & Hr); [by destruct l|]. exists r. split; [done|].
    cbn [set_buckets num_buckets] in Hr. rewrite W10 in Hr. destruct r as [[m' t']|].
    2:{ split; [done|]. exists b. split; [by apply (aget_elem_of _ _ _ Hg)|]. unfold bucket_full. zbool. lia. }
    destruct Hr as (Hw & Hk & Hd). split_and!; [done| |rewrite Hd; apply push_dom].
    intros q. rewrite Hk. apply push_core.
  - eexists. split; [done|]. cbn beta iota. split_and!; [done|intros q; apply push_core|apply push_dom].
Qed.
End Malloc.
