(* ===== verification/UthashSpec.v ===== *)
(** * The operations on hash tables

    What adding, deleting, counting, iterating and finding do to the list of
    the elements a table holds, on every branch: the first element, which
    makes the table, the last one, which frees it, and all others. *)

From S2P Require Import Prelude Uthash UthashRep UthashOps.

Open Scope Z_scope.

(** The table [s] holds the elements [l]. *)
Definition holds_list (s : uthash) (l : list Z) : Prop :=
  head s = List.hd 0 l /\ (l <> [] -> exists t, tbl s = Some t /\ wf (mem s) t l).

Lemma holds_nil m t : holds_list (mk_uthash 0 m t) [].
Proof. by split. Qed.

Lemma holds_head s l : holds_list s l -> l <> [] -> head s <> 0 /\ is_Some (mem s !! head s).
Proof.
  intros [-> Hw] Hl. destruct (Hw Hl) as (t & _ & [HL _]). pose proof (hd_in l 0 Hl) as Hi.
  split; [|by apply HL]. intros He. rewrite He in Hi. by apply (ls_null _ _ _ HL).
Qed.

(** What is known of the elements, also when there is none. *)
Lemma holds_elements s l :
  holds_list s l -> NoDup l /\ 0 ∉ l /\ (forall x, x ∈ l -> is_Some (mem s !! x)) /\
    (forall x, x ∈ l -> hashed (hget (mem s) x)) /\ app_list (mem s) l.
Proof.
  intros [_ Hw]. destruct l as [|y l].
  - split_and!; [apply NoDup_nil_2|apply not_elem_of_nil|by intros x ?%elem_of_nil..|done].
  - destruct (Hw ltac:(done)) as (t & _ & [[] _]). by split_and!.
Qed.

(** ** Adding an element *)

(** The handle after the first writes of [HASH_ADD_KEYPTR]. *)
Definition keyed (k : list Z) (h : UT_hash_handle) : UT_hash_handle :=
  set_keylen (Z.of_nat (length k)) (set_key k (set_next 0 h)).

Section Malloc.
Context (malloc : Z -> bool).
Hypothesis malloc_limit : forall sz, malloc sz = true -> sz < 2 ^ 35.

(** An allocation the next operation may need is refused. *)
Definition refused (s : uthash) : Prop :=
  if head s =? 0 then malloc TABLE_SIZE = false \/ malloc (HASH_INITIAL_NUM_BUCKETS * BUCKET_SIZE) = false
  else exists t, tbl s = Some t /\ malloc (bigger (num_buckets t)) = false.

Section Add.
Context (s : uthash) (l : list Z) (k : list Z) (x : Z).
Hypothesis (Hs : holds_list s l) (Hx : x ∉ l) (Hx0 : x <> 0) (Hax : is_Some (mem s !! x)).

(** The table with the new element in the list of all elements and not yet
    in a bucket. *)
Record linked (hd : Z) (m : memory) (t : UT_hash_table) : Prop := mk_linked {
  lk_head : hd = List.hd 0 (l ++ [x]);
  lk_items : num_items t = Z.of_nat (length l);
  lk_tail : tail t = x;
  lk_log : 5 <= log2_num_buckets t <= 30;
  lk_nb : num_buckets t = 2 ^ log2_num_buckets t;
  lk_rd : forall q, hget m q = if decide (q = x) then set_prev (lst 0 l) (keyed k (hget (mem s) q))
                             else if decide (q = lst 0 l /\ l <> []) then set_next x (hget (mem s) q)
                             else hget (mem s) q;
  lk_dom : dom m = dom (mem s);
  lk_bks : bks m (num_buckets t) l (buckets t)
}.

Lemma link_first m :
  m = alter (keyed k) x (mem s) -> l = [] ->
  exists r, add_link malloc x (set_mem m s) = Ok r /\
    match r with
    | None => refused s
    | Some (hd, m', t) => linked hd m' t /\ forall b, b ∈ buckets t -> ~ bucket_full b
    end.
Proof.
  intros -> Hl. destruct Hs as [Hh _]. rewrite Hl in Hh. unfold add_link, refused. cbn [set_mem head mem tbl].
  rewrite Hh. cbn [List.hd Z.eqb]. rewrite upd_alter by (by rewrite alter_is_Some). cbn [obind].
  eexists. split; [done|]. unfold HASH_MAKE_TABLE.
  destruct (malloc TABLE_SIZE); [|by left]. destruct (malloc (_ * _)); [|by right].
  cbn [negb]. split; [split; rewrite ?Hl; try done|].
  - intros q. rewrite alter_alter_eq, rd_alter by done. case_decide; [done|].
    by rewrite decide_False by tauto.
  - by rewrite !dom_alter_L.
  - by apply bks_empty.
  - intros b Hb%elem_of_replicate_inv. rewrite Hb. intros Hf. by apply Hf.
Qed.

Lemma link_next m :
  m = alter (keyed k) x (mem s) -> l <> [] ->
  exists hd m' t t0, add_link malloc x (set_mem m s) = Ok (Some (hd, m', t)) /\ linked hd m' t /\
    tbl s = Some t0 /\ num_buckets t = num_buckets t0.
Proof.
  intros -> Hl. pose proof (holds_head _ _ Hs Hl) as [Hh0 Hhd]. destruct Hs as [Hh Ht].
  destruct (Ht Hl) as (t & Et & [HL Hb]). clear Ht.
  unfold add_link. cbn [set_mem head mem tbl]. zcase; [done|]. rewrite hh_rd by (by rewrite alter_is_Some).
  rewrite Et. cbn [obind or_undef]. rewrite (ls_tail _ _ _ HL). pose proof (lst_in l 0 Hl) as Hlst.
  assert (Hne : lst 0 l <> x) by (by intros <-).
  assert (Hal : is_Some (mem s !! lst 0 l)) by (by apply HL).
  rewrite upd_alter by (by rewrite alter_is_Some). cbn [obind].
  rewrite upd_alter by (by rewrite !alter_is_Some). cbn [obind].
  eexists _, _, _, t. split_and!; [done| |done|done].
  assert (Hrd : forall q, hget (alter (set_prev (lst 0 l)) x (alter (set_next x) (lst 0 l) (alter (keyed k) x (mem s)))) q
    = if decide (q = x) then set_prev (lst 0 l) (keyed k (hget (mem s) q))
      else if decide (q = lst 0 l /\ l <> []) then set_next x (hget (mem s) q) else hget (mem s) q).
  { intros q. rewrite !rd_alter by (by rewrite ?alter_is_Some).
    destruct (decide (q = x)) as [->|Hq]; [by rewrite decide_False by congruence|].
    do 2 case_decide; try done; tauto. }
  split; cbn [set_tail num_items tail log2_num_buckets num_buckets buckets]; try apply HL; try done.
  - by rewrite hd_app, Hh; destruct l.
  - by rewrite !dom_alter_L.
  - apply (bks_ext (mem s)); [|done]. intros y Hy. rewrite Hrd, decide_False by (by intros ->). by case_decide.
Qed.

(** The element is in the list; its hash value follows. *)
Lemma linked_listed hd m t (m' := alter (set_hashv (HASH_JEN k)) x m)
    (t' := set_num_items (u32 (num_items t + 1)) t) :
  linked hd m t -> Z.of_nat (length l) + 1 < 2 ^ 32 ->
  listed m' t' (l ++ [x]) /\ bks m' (num_buckets t) l (buckets t).
Proof.
  intros [K1 K2 K3 K4 K5 K6 K7 K8] Hn. destruct (holds_elements _ _ Hs) as (E1 & E2 & E3 & E4 & E5).
  assert (Hm : is_Some (m !! x)) by (by rewrite <- elem_of_dom, K7, elem_of_dom).
  assert (Hr : forall q, hget m' q = if decide (q = x) then set_hashv (HASH_JEN k) (hget m q) else hget m q)
    by (intros q; by apply rd_alter).
  assert (Hrx : hget m' x = set_hashv (HASH_JEN k) (set_prev (lst 0 l) (keyed k (hget (mem s) x))))
    by (by rewrite Hr, K6, !decide_True).
  assert (Hry : forall y, y ∈ l -> hget m' y = if decide (y = lst 0 l) then set_next x (hget (mem s) y) else hget (mem s) y).
  { intros y Hy. rewrite Hr, K6, !(decide_False (P := y = x)) by (by intros ->).
    assert (l <> []) by (intros El; rewrite El in Hy; by apply elem_of_nil in Hy).
    do 2 case_decide; try done; tauto. }
  split; [split; cbn [t' set_num_items tail num_items log2_num_buckets num_buckets]; try done|].
  - apply NoDup_app. split_and!; [done| |apply NoDup_singleton]. intros y Hy Hy'%list_elem_of_singleton. congruence.
  - intros [?|?%list_elem_of_singleton]%elem_of_app; congruence.
  - intros y Hy. unfold m'. rewrite <- elem_of_dom, dom_alter_L, K7, elem_of_dom.
    apply elem_of_app in Hy as [Hy|Hy%list_elem_of_singleton]; [auto|congruence].
  - intros y [Hy|Hy%list_elem_of_singleton]%elem_of_app; [|by rewrite Hy, Hrx].
    rewrite (Hry y Hy). case_decide; by apply (E4 y).
  - by rewrite lst_app.
  - apply (dls_snoc (fun x => prev (hget (mem s) x)) (fun x => next (hget (mem s) x))); try done.
    + intros y Hy. rewrite (Hry y Hy). by case_decide.
    + intros y Hy Hne. by rewrite (Hry y Hy), decide_False.
    + intros Hl. rewrite Hry by (by apply lst_in). by rewrite decide_True.
    + by rewrite Hrx.
    + by rewrite Hrx.
  - rewrite K2, wrap_small, length_app by lia. cbn [length]. lia.
  - rewrite length_app. cbn [length]. lia.
  - apply (bks_ext m); [|done]. intros y Hy. by rewrite Hr, decide_False by (by intros ->).
Qed.

Theorem HASH_ADD_spec :
  Z.of_nat (length k) < 2 ^ 32 -> Z.of_nat (length l) + 1 < 2 ^ 32 ->
  exists r, HASH_ADD malloc k x s = Ok r /\
    match r with
    | None => refused s
    | Some s' => holds_list s' (l ++ [x]) /\ dom (mem s') = dom (mem s) /\
        forall y, key (hget (mem s') y) = if decide (y = x) then k else key (hget (mem s) y)
    end.
Proof.
  intros Hk Hn. unfold HASH_ADD, HASH_ADD_KEYPTR. rewrite wrap_small by lia.
  rewrite (upd_alter (set_next 0)) by done. cbn [obind].
  rewrite (upd_alter (set_key k)) by (by rewrite alter_is_Some). cbn [obind].
  rewrite (upd_alter (set_keylen _)) by (by rewrite !alter_is_Some). cbn [obind].
  rewrite !alter_alter_eq. change (alter (_ ∘ _) x (mem s)) with (alter (keyed k) x (mem s)).
  assert (exists r, add_link malloc x (set_mem (alter (keyed k) x (mem s)) s) = Ok r /\
    match r with
    | None => refused s
    | Some (hd, m, t) => linked hd m t /\ (forall b, b ∈ buckets t -> bucket_full b -> malloc (bigger (num_buckets t)) = false -> refused s)
    end) as (r & -> & Hr).
  { destruct (decide (l = [])) as [El|Hl].
    - destruct (link_first _ eq_refl El) as (r & Er & Hr). exists r. split; [done|].
      destruct r as [[[hd m] t]|]; [|done]. destruct Hr as [Hr Hb]. split; [done|].
      intros b Hin Hf. by destruct (Hb b Hin).
    - destruct (link_next _ eq_refl Hl) as (hd & m & t & t0 & Er & Hr & Et & En). eexists. split; [exact Er|].
      split; [done|]. intros b _ _ Hf. unfold refused. zcase; [by destruct (holds_head _ _ Hs Hl)|].
      exists t0. by rewrite <- En. }
  cbn [obind]. destruct r as [[[hd m] t]|]; [|by exists None]. destruct Hr as [Hlk Href].
  destruct (linked_listed _ _ _ Hlk Hn) as [HL Hb].
  assert (Hm : is_Some (m !! x)) by (by rewrite <- elem_of_dom, (lk_dom _ _ _ Hlk), elem_of_dom).
  rewrite upd_alter by done. cbn [obind]. set (m' := alter _ x m) in *.
  set (t' := set_num_items _ t) in *.
  replace (HASH_TO_BKT _ _) with (bkt m' (num_buckets t') x) by (unfold bkt, m'; by rewrite rd_alter, decide_True).
  destruct (HASH_ADD_TO_BKT_spec malloc malloc_limit m' t' l x HL Hb) as (r & -> & Hr). cbn [obind].
  destruct r as [[m2 t2]|]; [|exists None; split; [done|]; destruct Hr as (? & b & ? & ?); by apply (Href b)].
  destruct Hr as (Hw & Hc & Hd). eexists. split; [done|]. cbn beta iota. cbn [mem]. split_and!.
  - split; [apply (lk_head _ _ _ Hlk)|]. intros _. by exists t2.
  - rewrite Hd. unfold m'. by rewrite dom_alter_L, (lk_dom _ _ _ Hlk).
  - intros y. specialize (Hc y). unfold core in Hc. injection Hc as _ _ -> _ _.
    unfold m'. rewrite (rd_alter_keep key) by done. rewrite (lk_rd _ _ _ Hlk). by repeat case_decide.
Qed.
End Add.
End Malloc.

(** ** Deleting an element *)

(** The list of all elements without [x], before the bucket is changed. *)
Definition unlink_mem (x : Z) (m : memory) : memory :=
  alter_nn (set_prev (prev (hget m x))) (next (hget m x)) (alter_nn (set_next (next (hget m x))) (prev (hget m x)) m).

Lemma unlink_links x m q : links (hget (unlink_mem x m) q) = links (hget m q).
Proof. unfold unlink_mem. by rewrite !rd_alter_nn_keep. Qed.

Lemma unlink_key x m q : (key (hget (unlink_mem x m) q), keylen (hget (unlink_mem x m) q), hashv (hget (unlink_mem x m) q))
  = (key (hget m q), keylen (hget m q), hashv (hget m q)).
Proof. unfold unlink_mem. by rewrite !(rd_alter_nn_keep (fun h => (key h, keylen h, hashv h))). Qed.

Lemma unlink_dom x m : dom (unlink_mem x m) = dom m.
Proof. unfold unlink_mem. by rewrite !dom_alter_nn. Qed.

Lemma rd_unlink x m q (pv := prev (hget m x)) (nx := next (hget m x)) :
  (pv <> 0 -> is_Some (m !! pv)) -> (nx <> 0 -> is_Some (m !! nx)) ->
  next (hget (unlink_mem x m) q) = (if decide (q = pv /\ pv <> 0) then nx else next (hget m q)) /\
  prev (hget (unlink_mem x m) q) = (if decide (q = nx /\ nx <> 0) then pv else prev (hget m q)).
Proof.
  intros Hp Hn. unfold unlink_mem. fold pv nx.
  rewrite !rd_alter_nn by (intros; rewrite ?alter_nn_is_Some; auto). by do 2 case_decide.
Qed.

Section Delete.
Context (m : memory) (t : UT_hash_table) (l1 : list Z) (x : Z) (l2 : list Z).
Hypothesis (Hw : wf m t (l1 ++ x :: l2)).

Lemma neighbours :
  prev (hget m x) = lst 0 l1 /\ next (hget m x) = List.hd 0 l2 /\
  (lst 0 l1 <> 0 -> lst 0 l1 ∈ l1) /\ (List.hd 0 l2 <> 0 -> List.hd 0 l2 ∈ l2) /\
  (l1 <> [] -> lst 0 l1 <> 0) /\ (l2 <> [] -> List.hd 0 l2 <> 0).
Proof.
  destruct Hw as [HL _]. pose proof (ls_app _ _ _ HL) as Hd. pose proof (ls_null _ _ _ HL) as H0. split_and!.
  - exact (dls_prev_lst _ _ _ _ _ _ _ Hd).
  - exact (dls_next_hd _ _ _ _ _ _ _ Hd).
  - by destruct (lst_cases l1 0) as [[_ ->]|Hi].
  - by destruct (hd_cases l2 0) as [[_ ->]|Hi].
  - intros Hl He. pose proof (lst_in l1 0 Hl) as Hi. rewrite He in Hi. apply H0, elem_of_app. by left.
  - intros Hl He. pose proof (hd_in l2 0 Hl) as Hi. rewrite He in Hi. apply H0, elem_of_app. right.
    by apply list_elem_of_further.
Qed.

(** The list without the element, with the tail and the count the code
    stores. *)
Lemma unlink_listed t' :
  tail t' = lst 0 (l1 ++ l2) -> num_items t' = num_items t - 1 ->
  log2_num_buckets t' = log2_num_buckets t -> num_buckets t' = num_buckets t ->
  listed (unlink_mem x m) t' (l1 ++ l2).
Proof.
  intros Ht Hi Hg Hnb. pose proof neighbours as (Ep & En & Hp & Hn & Hp0 & Hn0).
  destruct Hw as [[W1 W2 W3 W4 W5 W6 W7 W8 W9 W10] _].
  assert (Hin : forall y, y ∈ l1 ++ l2 -> y ∈ l1 ++ x :: l2) by (clear; set_solver).
  assert (Hal1 : lst 0 l1 <> 0 -> is_Some (m !! lst 0 l1)) by (intros ?; apply W3, elem_of_app; auto).
  assert (Hal2 : List.hd 0 l2 <> 0 -> is_Some (m !! List.hd 0 l2))
    by (intros ?; apply W3, elem_of_app; right; apply list_elem_of_further; auto).
  assert (Hrd := fun q => rd_unlink x m q). rewrite Ep, En in Hrd. specialize (fun q => Hrd q Hal1 Hal2).
  rewrite length_app in W7, W8. cbn [length] in W7, W8. split; try done.
  - pose proof (NoDup_middle _ _ _ W1) as (N1 & N2 & _ & _ & N12). by apply NoDup_app.
  - auto.
  - intros y Hy. rewrite <- elem_of_dom, unlink_dom, elem_of_dom. auto.
  - intros y Hy. pose proof (unlink_key x m y) as [= E1 E2 E3]. unfold hashed. rewrite E1, E2, E3. by apply W4, Hin.
  - eapply dls_remove; [exact W1|auto| | | | |exact W6]; cbn beta.
    + intros y Hy Hl. rewrite (proj1 (Hrd y)), decide_False; [done|tauto].
    + intros y Hy Hl. rewrite (proj2 (Hrd y)), decide_False; [done|tauto].
    + intros Hl. rewrite (proj1 (Hrd _)), decide_True; [done|auto].
    + intros Hl. rewrite (proj2 (Hrd _)), decide_True; [done|auto].
  - rewrite Hi, W7, length_app. lia.
  - rewrite length_app. lia.
  - by rewrite Hg.
  - by rewrite Hnb, Hg.
Qed.
End Delete.

Lemma HASH_DEL_IN_BKT_spec m t k l1 x l2 :
  num_buckets t = 2 ^ k -> 0 <= k <= 32 -> NoDup (l1 ++ x :: l2) -> 0 ∉ l1 ++ x :: l2 ->
  (forall y, y ∈ l1 ++ x :: l2 -> is_Some (m !! y)) -> bks m (num_buckets t) (l1 ++ x :: l2) (buckets t) ->
  Z.of_nat (length (l1 ++ x :: l2)) < 2 ^ 32 ->
  exists bs, HASH_DEL_IN_BKT (bkt m (num_buckets t) x) x m t = Ok (del_mem x m, set_buckets bs t) /\
    bks (del_mem x m) (num_buckets t) (l1 ++ l2) bs.
Proof.
  intros Hk Hk32 Hnd H0 Ha Hb Hsz. unfold HASH_DEL_IN_BKT. rewrite Hk in *.
  destruct (bks_get m k _ (buckets t) (hashv (hget m x)) Hk32 Hb) as (b & c & Hg & Hc & Hset).
  fold (bkt m (2 ^ k) x) in *. rewrite Hg. cbn [or_undef obind].
  assert (x ∈ c) as [c1 [c2 ->]]%list_elem_of_split by (apply Hc; split; [clear; set_solver|done]).
  destruct (chain_around _ _ _ _ _ Hnd H0 Ha _ _ _ _ Hc) as (Ep & En & Hp & Hn). rewrite <- Ep in Hp. rewrite <- En in Hn.
  assert (Hax : is_Some (m !! x)) by (apply Ha; clear; set_solver). rewrite hh_rd by done. cbn [obind].
  pose proof (bucket_count _ _ _ _ _ _ Hc) as Hcnt. pose proof (bk_count _ _ _ _ _ _ Hc) as Hlen.
  rewrite length_app in Hlen. cbn [length] in Hlen. rewrite wrap_small by lia.
  edestruct Hset as [bs Hs]. rewrite Hs. cbn [or_undef obind].
  rewrite upd_nn_alter by done. cbn [obind]. set (m1 := alter_nn _ _ m).
  rewrite hh_rd by (unfold m1; by rewrite alter_nn_is_Some). cbn [obind].
  assert (hh_prev (hget m1 x) = hh_prev (hget m x) /\ hh_next (hget m1 x) = hh_next (hget m x)) as [-> ->].
  { split; [by apply rd_alter_nn_keep|]. unfold m1. rewrite rd_alter_nn by done. by case_decide. }
  rewrite upd_nn_alter by (intros; unfold m1; rewrite alter_nn_is_Some; auto). cbn [obind].
  exists bs. split; [done|]. by eapply bks_remove.
Qed.

Section Unlink.
Context (s : uthash) (t : UT_hash_table) (l1 : list Z) (x : Z) (l2 : list Z).
Hypothesis (Hs : holds_list s (l1 ++ x :: l2)) (Hw : wf (mem s) t (l1 ++ x :: l2)) (Hl : l1 ++ l2 <> []).

Lemma del_unlink_spec : del_unlink x s = Ok (List.hd 0 (l1 ++ l2), unlink_mem x (mem s)).
Proof.
  pose proof (neighbours _ _ _ _ _ Hw) as (Ep & En & Hp & Hn & Hp0 & Hn0).
  destruct (holds_elements _ _ Hs) as (_ & _ & Ha & _).
  assert (Hax : is_Some (mem s !! x)) by (apply Ha; clear; set_solver).
  assert (Hins : forall y, y ∈ l1 ++ l2 -> is_Some (mem s !! y)) by (intros y Hy; apply Ha; clear -Hy; set_solver).
  unfold del_unlink. rewrite hh_rd by done. cbn [obind]. unfold unlink_mem. rewrite Ep, En.
  set (m1 := alter_nn (set_next (List.hd 0 l2)) (lst 0 l1) (mem s)).
  assert (Hm1 : forall y, is_Some (m1 !! y) <-> is_Some (mem s !! y)) by (intros y; apply alter_nn_is_Some).
  replace (if lst 0 l1 =? 0 then _ else _) with (Ok (List.hd 0 (l1 ++ l2), m1)).
  2:{ unfold m1, alter_nn. rewrite hd_app. zcase.
      - by destruct l1; [|destruct Hp0].
      - rewrite upd_alter by (apply Hins, elem_of_app; auto). rewrite (proj1 Hs). by destruct l1. }
  cbn [obind]. rewrite hh_rd by (apply Hm1, Hins, hd_in; done). cbn [obind].
  rewrite hh_rd by (by apply Hm1). cbn [obind].
  assert (prev (hget m1 x) = lst 0 l1 /\ next (hget m1 x) = List.hd 0 l2) as [-> ->].
  { split; [rewrite <- Ep; by apply rd_alter_nn_keep|]. unfold m1.
    rewrite rd_alter_nn by (intros; apply Hins, elem_of_app; auto). by case_decide. }
  by rewrite upd_nn_alter by (intros; apply Hm1, Hins, elem_of_app; auto).
Qed.

(** The table the rest of the deletion works on. *)
Lemma del_tail (t' := if x =? tail t then set_tail (prev (hget (mem s) x)) t else t) :
  tail t' = lst 0 (l1 ++ l2) /\ num_items t' = num_items t /\ num_buckets t' = num_buckets t /\
  log2_num_buckets t' = log2_num_buckets t /\ buckets t' = buckets t.
Proof.
  pose proof (neighbours _ _ _ _ _ Hw) as (Ep & _). pose proof (NoDup_middle _ _ _ (ls_nodup _ _ _ (proj1 Hw))) as (_ & _ & _ & Hx & _).
  unfold t'. rewrite Ep, (ls_tail _ _ _ (proj1 Hw)), !lst_app. cbn [lst].
  destruct (Z.eqb_spec x (lst x l2)) as [E|E].
  - split_and!; try done. destruct l2 as [|y l]; [done|]. destruct Hx. rewrite E. by apply (lst_in (y :: l) 0).
  - split_and!; try done. rewrite (ls_tail _ _ _ (proj1 Hw)), lst_app. cbn [lst]. by destruct l2.
Qed.
End Unlink.

Theorem HASH_DELETE_spec s l1 x l2 :
  holds_list s (l1 ++ x :: l2) ->
  exists s', HASH_DELETE x s = Ok s' /\ holds_list s' (l1 ++ l2) /\ dom (mem s') = dom (mem s) /\
    (forall q, key (hget (mem s') q) = key (hget (mem s) q)) /\
    forall t', tbl s' = Some t' -> exists t, tbl s = Some t /\ num_buckets t' = num_buckets t.
Proof.
  intros Hs. assert (Hne : l1 ++ x :: l2 <> []) by (by destruct l1).
  destruct (holds_head _ _ Hs Hne) as [Hh0 Hhd]. destruct (holds_elements _ _ Hs) as (N & H0 & Ha & _).
  destruct (proj2 Hs Hne) as (t & Et & Hw). pose proof (neighbours _ _ _ _ _ Hw) as (Ep & En & _ & _ & Hp0 & Hn0).
  assert (Hax : is_Some (mem s !! x)) by (apply Ha; clear; set_solver).
  unfold HASH_DELETE. rewrite !hh_rd, Et by done. cbn [obind or_undef].
  destruct (decide (l1 ++ l2 = [])) as [[-> ->]%app_eq_nil|Hl].
  { rewrite Ep, En. eexists. split; [done|]. by split_and!. }
  replace ((prev _ =? 0) && (next _ =? 0)) with false.
  2:{ symmetry. apply andb_false_iff. rewrite !Z.eqb_neq, Ep, En. destruct l1; [right; by apply Hn0|left; auto]. }
  rewrite (del_unlink_spec s t l1 x l2) by done. cbn [obind].
  pose proof (del_tail s t l1 x l2 Hs Hw Hl) as (T1 & T2 & T3 & T4 & T5).
  set (t' := if x =? tail t then set_tail (prev (hget (mem s) x)) t else t) in *. clearbody t'. set (m := unlink_mem x (mem s)).
  pose proof Hw as [[_ _ _ _ _ _ _ Hsz Hlog Hnb] Hb].
  assert (Ha' : forall y, y ∈ l1 ++ x :: l2 -> is_Some (m !! y))
    by (intros y Hy; unfold m; rewrite <- elem_of_dom, unlink_dom, elem_of_dom; auto).
  rewrite hh_rd by (apply Ha'; clear; set_solver). cbn [obind]. change (HASH_TO_BKT _ _) with (bkt m (num_buckets t') x).
  destruct (HASH_DEL_IN_BKT_spec m t' (log2_num_buckets t) l1 x l2) as (bs & -> & Hbs);
    [congruence|lia|done|done|done| |done|].
  { rewrite T3, T5. apply (bks_ext (mem s)); [|done]. intros y _. apply unlink_links. }
  cbn [obind]. eexists. split; [done|]. cbn [mem]. split_and!.
  - split; [done|]. intros _. eexists. split; [done|]. split; [|exact Hbs].
    apply (listed_core m _ (set_num_items (u32 (num_items t' - 1)) t') bs); [|apply del_core|apply del_dom].
    apply (unlink_listed (mem s) t); try done. cbn [set_num_items num_items].
    rewrite T2, (ls_items _ _ _ (proj1 Hw)), wrap_small; [done|]. destruct l1; cbn [length app] in *; lia.
  - rewrite del_dom. apply unlink_dom.
  - intros q. pose proof (del_core x m q) as [= _ _ -> _ _]. by pose proof (unlink_key x (mem s) q) as [= E1 _ _].
  - intros t1 [= <-]. by exists t.
Qed.

(** ** Counting and iterating *)

Lemma iter_loop_spec m l : forall fuel p,
  (length l <= fuel)%nat -> 0 ∉ l -> (forall x, x ∈ l -> is_Some (m !! x)) ->
  dls (fun x => prev (hget m x)) (fun x => next (hget m x)) p l 0 -> iter_loop fuel m (List.hd 0 l) = Ok l.
Proof.
  induction l as [|x l IH]; intros fuel p Hf H0 Ha; [by destruct fuel|].
  cbn [dls List.hd]. intros (_ & Hn & Hd).
  apply not_elem_of_cons in H0 as [Hx0 H0]. destruct fuel as [|fuel]; [cbn in Hf; lia|].
  cbn [iter_loop]. zcase; [congruence|]. rewrite hh_rd by (apply Ha, list_elem_of_here). cbn [obind].
  rewrite Hn, (IH fuel x); [done|cbn in Hf; lia|done| |done]. intros y Hy. apply Ha. by apply list_elem_of_further.
Qed.

Lemma HASH_ITER_spec s l : holds_list s l -> HASH_ITER s = Ok l.
Proof.
  intros Hs. destruct (holds_elements _ _ Hs) as (N & H0 & Ha & _ & Hd). unfold HASH_ITER. rewrite (proj1 Hs).
  apply (iter_loop_spec _ _ _ 0); try done. by apply le_S, nodup_size.
Qed.

Lemma HASH_COUNT_spec s l : holds_list s l -> HASH_COUNT s = Ok (Z.of_nat (length l)).
Proof.
  intros Hs. unfold HASH_COUNT. destruct (decide (l = [])) as [->|Hl]; [by rewrite (proj1 Hs)|].
  destruct (holds_head _ _ Hs Hl) as [Hh Ha]. destruct (proj2 Hs Hl) as (t & -> & Hw).
  zcase; [done|]. rewrite hh_rd by done. cbn [obind or_undef]. by rewrite (ls_items _ _ _ (proj1 Hw)).
Qed.

Lemma HASH_FIND_holds s l k : holds_list s l -> exists x, HASH_FIND s k = Ok x /\ key_found (mem s) l k x.
Proof.
  intros Hs. destruct (decide (l = [])) as [->|Hl].
  - exists 0. unfold HASH_FIND. rewrite (proj1 Hs). split; [done|]. intros y Hy. by apply elem_of_nil in Hy.
  - destruct (proj2 Hs Hl) as (t & Et & Hw). destruct s as [hd m tb]. cbn in *. subst tb.
    apply HASH_FIND_spec; [done|apply Hs].
Qed.
