(* ===== verification/UthashMap.v ===== *)
(** * Hash tables implement ordered finite maps

    A table that is used with distinct keys answers every sequence of
    operations as a list of keys and elements does, in the order of the
    insertions, through any number of doublings of its buckets.  With equal
    keys the element that is found depends on the doublings. *)

From S2P Require Import Prelude Uthash UthashRep UthashOps UthashSpec.

Open Scope Z_scope.

(** ** The specification: a map that remembers the order of the insertions *)

Abbreviation omap := (list (list Z * Z)).

Fixpoint m_find (k : list Z) (a : omap) : Z :=
  match a with
  | [] => 0
  | (k', p) :: a => if bool_decide (k' = k) then p else m_find k a
  end.

Fixpoint m_del (p : Z) (a : omap) : omap :=
  match a with
  | [] => []
  | (k, q) :: a => if q =? p then a else (k, q) :: m_del p a
  end.

Definition m_add (k : list Z) (p : Z) (a : omap) : omap := a ++ [(k, p)].

(** The operations the program performs, and their answers. *)
Inductive op :=
| Find (k : list Z)
| Add (k : list Z) (p : Z)
| Replace (k : list Z) (p : Z)
| Delete (p : Z)
| Count
| Iter.

Inductive reply :=
| Nothing
| Elem (p : Z)
| Number (n : Z)
| Elems (l : list Z).

Definition m_step (o : op) (a : omap) : reply * omap :=
  match o with
  | Find k => (Elem (m_find k a), a)
  | Add k p => (Nothing, m_add k p a)
  | Replace k p => (Elem (m_find k a), m_add k p (m_del (m_find k a) a))
  | Delete p => (Nothing, m_del p a)
  | Count => (Number (Z.of_nat (length a)), a)
  | Iter => (Elems (a.*2), a)
  end.

(** What uthash.h asks of its users: an element that is added is allocated
    and not in the table, an added key is new, and only an element of the
    table is deleted. *)
Definition legal (A : gset Z) (o : op) (a : omap) : bool :=
  match o with
  | Add k p => bool_decide (p ∈ A) && bool_decide (p ∉ a.*2) && bool_decide (k ∉ a.*1)
               && (Z.of_nat (length k) <? 2 ^ 32)
  | Replace k p => bool_decide (p ∈ A) && bool_decide (p ∉ (m_del (m_find k a) a).*2)
                   && (Z.of_nat (length k) <? 2 ^ 32)
  | Delete p => bool_decide (p ∈ a.*2)
  | _ => true
  end.

Fixpoint m_run (os : list op) (a : omap) : list reply :=
  match os with
  | [] => []
  | o :: os => let (r, a) := m_step o a in r :: m_run os a
  end.
Fixpoint legal_run (A : gset Z) (os : list op) (a : omap) : bool :=
  match os with
  | [] => true
  | o :: os => legal A o a && legal_run A os (snd (m_step o a))
  end.

(** ** The program *)

Section Program.
Context (malloc : Z -> bool).

Definition step (o : op) (s : uthash) : outcome (option (reply * uthash)) :=
  match o with
  | Find k => let! p := HASH_FIND s k in Ok (Some (Elem p, s))
  | Add k p => let! r := HASH_ADD malloc k p s in Ok ((fun s => (Nothing, s)) <$> r)
  | Replace k p => let! r := HASH_REPLACE malloc k p s in Ok ((fun '(q, s) => (Elem q, s)) <$> r)
  | Delete p => let! s := HASH_DELETE p s in Ok (Some (Nothing, s))
  | Count => let! n := HASH_COUNT s in Ok (Some (Number n, s))
  | Iter => let! l := HASH_ITER s in Ok (Some (Elems l, s))
  end.

(** The answers, and the table before the operation in which the process
    ended for lack of memory. *)
Fixpoint run (os : list op) (s : uthash) : outcome (list reply * option uthash) :=
  match os with
  | [] => Ok ([], None)
  | o :: os =>
      let! r := step o s in
      match r with
      | None => Ok ([], Some s)
      | Some (a, s) => let! (l, e) := run os s in Ok (a :: l, e)
      end
  end.
End Program.

(** ** The table represents the map *)

Record represents (A : gset Z) (s : uthash) (a : omap) : Prop := mk_rep {
  rp_holds : holds_list s (a.*2);
  rp_keys : NoDup (a.*1);
  rp_key : forall k p, (k, p) ∈ a -> key (hget (mem s) p) = k;
  rp_dom : dom (mem s) = A
}.

Lemma m_find_in k p a : NoDup (a.*1) -> (k, p) ∈ a -> m_find k a = p.
Proof.
  induction a as [|[k' p'] a IH]; [by intros _ ?%elem_of_nil|]. cbn [fmap list_fmap fst m_find].
  intros [Hk Hn]%NoDup_cons [[= -> ->]|Hi]%elem_of_cons; [by rewrite bool_decide_true|].
  rewrite bool_decide_false; [by apply IH|]. intros ->. apply Hk. by apply (list_elem_of_fmap_2 fst _ (k, p)).
Qed.

Lemma m_find_none k a : k ∉ a.*1 -> m_find k a = 0.
Proof.
  induction a as [|[k' p'] a IH]; [done|]. cbn [fmap list_fmap fst m_find].
  intros [Hk Hn]%not_elem_of_cons. rewrite bool_decide_false by congruence. by apply IH.
Qed.

Lemma m_find_cases k a : m_find k a = 0 \/ m_find k a ∈ a.*2.
Proof.
  induction a as [|[k' p] a IH]; [by left|]. cbn [m_find fmap list_fmap snd]. rewrite elem_of_cons.
  case_bool_decide; tauto.
Qed.

Lemma m_del_split p k a1 a2 : p ∉ a1.*2 -> m_del p (a1 ++ (k, p) :: a2) = a1 ++ a2.
Proof.
  induction a1 as [|[k' q] a1 IH]; cbn [app m_del fmap list_fmap snd]; [by rewrite Z.eqb_refl|].
  intros [Hq Hn]%not_elem_of_cons. zcase; [congruence|]. by rewrite IH.
Qed.

Lemma m_del_none p a : p ∉ a.*2 -> m_del p a = a.
Proof.
  induction a as [|[k q] a IH]; [done|]. cbn [m_del fmap list_fmap snd].
  intros [Hq Hn]%not_elem_of_cons. zcase; [congruence|]. by rewrite IH.
Qed.

(** What [HASH_FIND] returns is what the map has. *)
Lemma found_is_m_find A s a k x : represents A s a -> key_found (mem s) (a.*2) k x -> x = m_find k a.
Proof.
  intros [_ Hn Hk _]. unfold key_found. destruct (Z.eqb_spec x 0) as [->|_].
  - intros Hf. symmetry. apply m_find_none. intros ([k' p] & -> & Hi)%list_elem_of_fmap.
    by apply (Hf p); [apply (list_elem_of_fmap_2 snd _ (k', p))|apply Hk].
  - intros [([k' p] & -> & Hi)%list_elem_of_fmap He]. cbn in He. rewrite (Hk _ _ Hi) in He. subst k'.
    symmetry. by apply m_find_in.
Qed.

Lemma represents_find A s a k : represents A s a -> HASH_FIND s k = Ok (m_find k a).
Proof.
  intros Hr. destruct (HASH_FIND_holds s _ k (rp_holds _ _ _ Hr)) as (x & -> & Hf).
  by rewrite (found_is_m_find _ _ _ _ _ Hr Hf).
Qed.

Lemma represents_del A s a p :
  represents A s a -> p ∈ a.*2 ->
  exists s', HASH_DELETE p s = Ok s' /\ represents A s' (m_del p a) /\
    forall t', tbl s' = Some t' -> exists t, tbl s = Some t /\ num_buckets t' = num_buckets t.
Proof.
  intros [Hh Hn Hk Hd] ([k p'] & -> & (a1 & a2 & ->)%list_elem_of_split)%list_elem_of_fmap. cbn [snd] in *.
  rewrite fmap_app in Hh. cbn [fmap list_fmap snd] in Hh.
  destruct (HASH_DELETE_spec s _ _ _ Hh) as (s' & Es & Hh' & Hd' & Hk' & Ht). exists s'. split; [done|].
  pose proof (holds_elements _ _ Hh) as (N & _). apply NoDup_middle in N as (_ & _ & Hp & _).
  rewrite m_del_split by done. split; [|done]. split.
  - by rewrite fmap_app.
  - rewrite fmap_app in Hn |- *. cbn [fmap list_fmap fst] in Hn.
    apply NoDup_app in Hn as (N1 & N12 & [_ N2]%NoDup_cons). apply NoDup_app. split_and!; try done.
    intros x Hx Hx2. apply (N12 x Hx). by apply list_elem_of_further.
  - intros k' p Hi. rewrite Hk'. apply Hk. clear -Hi. set_solver.
  - congruence.
Qed.

Section Refinement.
Context (malloc : Z -> bool).
Hypothesis malloc_limit : forall sz, malloc sz = true -> sz < 2 ^ 35.

(** An allocation that an operation on [s] may need is refused. *)
Definition no_memory (s : uthash) : Prop :=
  malloc TABLE_SIZE = false \/ malloc (HASH_INITIAL_NUM_BUCKETS * BUCKET_SIZE) = false \/
  exists t, tbl s = Some t /\ malloc (bigger (num_buckets t)) = false.

Lemma refused_no_memory s : refused malloc s -> no_memory s.
Proof. unfold refused, no_memory. zcase; tauto. Qed.

Lemma represents_add A s a k p :
  represents A s a -> 0 ∉ A -> p ∈ A -> p ∉ a.*2 -> k ∉ a.*1 ->
  Z.of_nat (length k) < 2 ^ 32 -> Z.of_nat (length a) + 1 < 2 ^ 32 ->
  exists r, HASH_ADD malloc k p s = Ok r /\
    match r with
    | None => refused malloc s
    | Some s' => represents A s' (m_add k p a)
    end.
Proof.
  intros [Hh Hn Hk Hd] H0 Hp Hpa Hka Hkl Hl.
  destruct (HASH_ADD_spec malloc malloc_limit s (a.*2) k p Hh Hpa) as (r & -> & Hr).
  - by intros ->.
  - apply elem_of_dom. by rewrite Hd.
  - done.
  - by rewrite length_fmap.
  - exists r. split; [done|]. destruct r as [s'|]; [|done]. destruct Hr as (Hh' & Hd' & Hk'). unfold m_add.
    split; [by rewrite fmap_app| | |congruence].
    + rewrite fmap_app. apply NoDup_app. split_and!; [done| |apply NoDup_singleton].
      by intros x Hx Hx'%list_elem_of_singleton; subst x.
    + intros k' q [Hi|[= -> ->]%list_elem_of_singleton]%elem_of_app; rewrite Hk'; [|by rewrite decide_True].
      rewrite decide_False; [by apply Hk|]. intros ->. apply Hpa. by apply (list_elem_of_fmap_2 snd _ (k', p)).
Qed.

(** No element with the key is left when the one that was found is gone. *)
Lemma m_del_find k a : NoDup (a.*1) -> NoDup (a.*2) -> 0 ∉ a.*2 -> k ∉ (m_del (m_find k a) a).*1.
Proof.
  intros Hn Hn2 H0. destruct (decide (k ∈ a.*1)) as [([k' p] & -> & Hi)%list_elem_of_fmap|Hk].
  - cbn [fst]. rewrite (m_find_in k' p a Hn Hi). apply list_elem_of_split in Hi as (a1 & a2 & ->).
    rewrite fmap_app in Hn. rewrite fmap_app in Hn2. cbn [fmap list_fmap fst snd] in Hn, Hn2.
    rewrite m_del_split; [|intros Hp; apply NoDup_app in Hn2 as (_ & Hx & _); apply (Hx p Hp), list_elem_of_here].
    rewrite fmap_app. intros Hi%elem_of_app. apply NoDup_app in Hn as (_ & Hx & [Hy _]%NoDup_cons).
    destruct Hi as [Hi|Hi]; [|done]. apply (Hx k' Hi), list_elem_of_here.
  - rewrite (m_find_none k a Hk), m_del_none by done. done.
Qed.

Lemma length_m_del p a : (length (m_del p a) <= length a)%nat.
Proof. induction a as [|[k q] a IH]; cbn [m_del length]; [done|]. zcase; cbn [length]; lia. Qed.

Lemma represents_replace A s a k p :
  represents A s a -> 0 ∉ A -> p ∈ A -> p ∉ (m_del (m_find k a) a).*2 ->
  Z.of_nat (length k) < 2 ^ 32 -> Z.of_nat (length a) + 1 < 2 ^ 32 ->
  exists r, HASH_REPLACE malloc k p s = Ok r /\
    match r with
    | None => no_memory s
    | Some (q, s') => q = m_find k a /\ represents A s' (m_add k p (m_del (m_find k a) a))
    end.
Proof.
  intros Hr H0 Hp Hpa Hkl Hl. unfold HASH_REPLACE. rewrite (represents_find _ _ _ _ Hr). cbn [obind].
  destruct (holds_elements _ _ (rp_holds _ _ _ Hr)) as (N & Hnull & _).
  assert (exists s', (if m_find k a =? 0 then Ok s else HASH_DELETE (m_find k a) s) = Ok s' /\
    represents A s' (m_del (m_find k a) a) /\ (refused malloc s' -> no_memory s)) as (s' & -> & Hr' & Href).
  { zcase.
    - exists s. rewrite m_del_none by congruence. split_and!; [done|done|apply refused_no_memory].
    - destruct (m_find_cases k a) as [?|Hi]; [done|]. destruct (represents_del _ _ _ _ Hr Hi) as (s' & Es & Hr' & Ht).
      exists s'. split_and!; [done|done|]. intros [?|[?|(t' & Et & Hf)]]%refused_no_memory; [by left|by right; left|].
      destruct (Ht t' Et) as (t & Et' & En). right. right. exists t. by rewrite <- En. }
  cbn [obind]. destruct (represents_add A s' _ k p Hr' H0 Hp Hpa) as (r & -> & Hadd).
  - apply m_del_find; [apply Hr|done|done].
  - done.
  - pose proof (length_m_del (m_find k a) a). lia.
  - cbn [obind]. eexists. split; [done|]. by destruct r; [|apply Href].
Qed.

(** ** Every operation, and sequences of them *)

Lemma step_refines A o s a :
  represents A s a -> 0 ∉ A -> legal A o a = true -> Z.of_nat (length a) + 1 < 2 ^ 32 ->
  exists r, step malloc o s = Ok r /\
    match r with
    | None => no_memory s
    | Some (ans, s') => ans = fst (m_step o a) /\ represents A s' (snd (m_step o a))
    end.
Proof.
  intros Hr H0 Hlegal Hl. pose proof (rp_holds _ _ _ Hr) as Hh. destruct o as [k|k p|k p|p| |]; cbn [step m_step fst snd legal] in *.
  - rewrite (represents_find _ _ _ _ Hr). cbn [obind]. by eexists.
  - zbool. repeat match goal with H : bool_decide _ = true |- _ => apply bool_decide_eq_true in H end.
    destruct (represents_add A s a k p) as (r & -> & Hadd); try done.
    cbn [obind]. eexists. split; [done|]. destruct r; [done|]. by apply refused_no_memory.
  - zbool. repeat match goal with H : bool_decide _ = true |- _ => apply bool_decide_eq_true in H end.
    destruct (represents_replace A s a k p) as (r & -> & Hrep); try done.
    cbn [obind]. eexists. split; [done|]. destruct r as [[q s']|]; [|done]. cbn. destruct Hrep as [-> Hrep]. done.
  - apply bool_decide_eq_true in Hlegal. destruct (represents_del _ _ _ _ Hr Hlegal) as (s' & -> & Hr' & _).
    cbn [obind]. by eexists.
  - rewrite (HASH_COUNT_spec _ _ Hh), length_fmap. cbn [obind]. by eexists.
  - rewrite (HASH_ITER_spec _ _ Hh). cbn [obind]. by eexists.
Qed.

Lemma length_m_step o a : (length (snd (m_step o a)) <= S (length a))%nat.
Proof.
  destruct o; cbn [m_step snd]; unfold m_add; rewrite ?length_app; cbn [length]; try lia.
  - pose proof (length_m_del (m_find k a) a). lia.
  - pose proof (length_m_del p a). lia.
Qed.

Lemma run_refines A os : forall s a,
  represents A s a -> 0 ∉ A -> legal_run A os a = true -> Z.of_nat (length a) + Z.of_nat (length os) < 2 ^ 32 ->
  exists ans e, run malloc os s = Ok (ans, e) /\ ans = take (length ans) (m_run os a) /\
    match e with
    | None => length ans = length os
    | Some s' => no_memory s'
    end.
Proof.
  induction os as [|o os IH]; intros s a Hr H0 Hlegal Hl; [by exists [], None|].
  cbn [legal_run run m_run length] in *. apply andb_true_iff in Hlegal as [Ho Hos].
  destruct (step_refines A o s a Hr H0 Ho ltac:(lia)) as (r & -> & Hs). cbn [obind].
  destruct r as [[x s']|]; [|by exists [], (Some s)]. destruct Hs as [Hx Hr'].
  pose proof (length_m_step o a). destruct (m_step o a) as [x' a']. cbn [fst snd] in *. subst x'.
  destruct (IH s' a' Hr' H0 Hos ltac:(lia)) as (ans & e & -> & Ha & He). cbn [obind].
  exists (x :: ans), e. split_and!; [done|cbn [length take]; by f_equal|].
  destruct e; [done|]. cbn [length]. by rewrite He.
Qed.
End Refinement.

(** ** Tables of entries

    The connection manager keeps entries with a value in them, keyed by a
    structure; in the model they are finite maps from the structure to the
    value.  This is what the table of entries gives. *)

Lemma m_find_app k a1 a2 : k ∉ a1.*1 -> m_find k (a1 ++ a2) = m_find k a2.
Proof.
  induction a1 as [|[k' q] a1 IH]; [done|]. cbn [app m_find fmap list_fmap fst].
  intros [Hk Hn]%not_elem_of_cons. rewrite bool_decide_false by congruence. by apply IH.
Qed.

Lemma m_find_app_l k a1 a2 : k ∈ a1.*1 -> m_find k (a1 ++ a2) = m_find k a1.
Proof.
  induction a1 as [|[k' q] a1 IH]; [by intros ?%elem_of_nil|]. cbn [app m_find fmap list_fmap fst].
  rewrite elem_of_cons. case_bool_decide; [done|]. intros [->|Hi]; [done|by apply IH].
Qed.

Lemma m_find_other k k' p a : k' <> k -> m_find k' (a ++ [(k, p)]) = m_find k' a.
Proof.
  intros Hne. destruct (decide (k' ∈ a.*1)) as [Hi|Hi]; [by apply m_find_app_l|].
  rewrite m_find_app, (m_find_none k' a) by done. cbn [m_find]. by rewrite bool_decide_false by congruence.
Qed.

Lemma m_del_sub p q a : p ∈ (m_del q a).*2 -> p ∈ a.*2.
Proof.
  induction a as [|[j r] a IH]; [done|]. cbn [m_del].
  zcase; cbn [fmap list_fmap snd]; rewrite !elem_of_cons; tauto.
Qed.

Lemma m_find_del k k' a :
  NoDup (a.*1) -> NoDup (a.*2) -> 0 ∉ a.*2 -> k' <> k -> m_find k' (m_del (m_find k a) a) = m_find k' a.
Proof.
  intros Hn Hn2 H0 Hne. destruct (decide (k ∈ a.*1)) as [([j p] & -> & Hi)%list_elem_of_fmap|Hk].
  - cbn [fst] in *. rewrite (m_find_in j p a Hn Hi). apply list_elem_of_split in Hi as (a1 & a2 & ->).
    rewrite fmap_app in Hn. rewrite fmap_app in Hn2. cbn [fmap list_fmap fst snd] in Hn, Hn2.
    rewrite m_del_split; [|intros Hp; apply NoDup_app in Hn2 as (_ & Hx & _); apply (Hx p Hp), list_elem_of_here].
    destruct (decide (k' ∈ a1.*1)) as [Hi|Hi]; [by rewrite !m_find_app_l|].
    rewrite !m_find_app by done. cbn [m_find]. by rewrite bool_decide_false by congruence.
  - by rewrite (m_find_none k a Hk), m_del_none.
Qed.

Section Tables.
Context {K V : Type} `{Countable K} (bytes : K -> list Z) (ok : K -> Prop).
Hypothesis bytes_inj : forall k k', ok k -> ok k' -> bytes k = bytes k' -> k = k'.
Hypothesis bytes_len : forall k, Z.of_nat (length (bytes k)) < 2 ^ 32.
Context (malloc : Z -> bool).
Hypothesis malloc_limit : forall sz, malloc sz = true -> sz < 2 ^ 35.

(** The table [s] over the entries with the values [vals], all of them among
    [U], is the map [g]. *)
Definition table (A : gset Z) (U : list Z) (s : uthash) (vals : gmap Z V) (g : gmap K V) : Prop :=
  exists a, represents A s a /\ (forall p, p ∈ a.*2 -> p ∈ U /\ is_Some (vals !! p)) /\
    forall k, ok k -> g !! k = if m_find (bytes k) a =? 0 then None else vals !! m_find (bytes k) a.

Lemma table_empty m t : table (dom m) [] (mk_uthash 0 m t) ∅ ∅.
Proof.
  exists []. split_and!; [|by intros p ?%elem_of_nil|done].
  split; [by apply holds_nil|by apply NoDup_nil|by intros k p ?%elem_of_nil|done].
Qed.

Lemma table_find A U s vals g k :
  table A U s vals g -> ok k ->
  exists p, HASH_FIND s (bytes k) = Ok p /\
    (if p =? 0 then g !! k = None else exists v, vals !! p = Some v /\ g !! k = Some v).
Proof.
  intros (a & Hr & Ha & Hg) Hk. eexists. split; [by apply (represents_find A)|]. rewrite (Hg k Hk). zcase; [done|].
  destruct (m_find_cases (bytes k) a) as [?|Hi]; [done|]. destruct (Ha _ Hi) as [_ [v Hv]]. by exists v.
Qed.

(** A new entry [p] with the value [v]. *)
Lemma table_replace A U s vals g k p v :
  table A U s vals g -> ok k -> 0 ∉ A -> p ∈ A -> p ∉ U -> Z.of_nat (length U) + 1 < 2 ^ 32 ->
  exists r, HASH_REPLACE malloc (bytes k) p s = Ok r /\
    match r with
    | None => no_memory malloc s
    | Some (q, s') => table A (p :: U) s' (<[p := v]> vals) (<[k := v]> g) /\ (q <> 0 -> is_Some (vals !! q))
    end.
Proof.
  intros (a & Hr & Ha & Hg) Hk H0 Hp HU Hsz.
  destruct (holds_elements _ _ (rp_holds _ _ _ Hr)) as (N & N0 & _).
  assert (Hpa : p ∉ a.*2) by (intros Hi; by apply HU, Ha).
  assert (length (a.*2) <= length U)%nat as Hlen by (apply chain_length; [done|]; intros x Hx; by apply Ha).
  rewrite length_fmap in Hlen.
  destruct (represents_replace malloc malloc_limit A s a (bytes k) p Hr H0 Hp) as (r & -> & Hrep); [|done|lia|].
  { intros Hi. by apply Hpa, (m_del_sub _ (m_find (bytes k) a)). }
  exists r. split; [done|]. destruct r as [[q s']|]; [|done]. destruct Hrep as [-> Hr']. split.
  - exists (m_add (bytes k) p (m_del (m_find (bytes k) a) a)). unfold m_add. split_and!; [done| |].
    + intros x. rewrite fmap_app. intros [Hi%m_del_sub|Hi%list_elem_of_singleton]%elem_of_app.
      * split; [apply list_elem_of_further; by apply Ha|]. rewrite lookup_insert_ne by congruence. by apply Ha.
      * cbn in Hi. subst x. split; [apply list_elem_of_here|]. by rewrite lookup_insert_eq.
    + intros k' Hk'. assert (p <> 0) by (by intros ->). destruct (decide (k' = k)) as [->|Hne].
      * rewrite lookup_insert_eq, m_find_app by (apply m_del_find; [apply Hr|done|done]).
        cbn [m_find]. rewrite bool_decide_true by done. zcase; [done|]. by rewrite lookup_insert_eq.
      * rewrite lookup_insert_ne, Hg by done.
        assert (Hb : bytes k' <> bytes k) by (intros He; by apply Hne, bytes_inj).
        rewrite m_find_other, m_find_del by (done || apply Hr). zcase; [done|].
        rewrite lookup_insert_ne; [done|]. intros ->. by destruct (m_find_cases (bytes k') a).
  - destruct (m_find_cases (bytes k) a) as [?|Hi]; [done|]. intros _. by apply Ha.
Qed.
End Tables.

(** ** The theorems *)

(** C18. A hash table of uthash.h is a finite map that remembers the order of
    the insertions.  Take any sequence of HASH_FIND, HASH_ADD, HASH_REPLACE,
    HASH_DELETE, HASH_COUNT and HASH_ITER, starting with an empty table, in
    which an added element is allocated and not in the table, an added key is
    new, and a deleted element is in the table.  The sequence runs without
    touching a handle that is not allocated and every loop ends; the answers
    are those of the map, however often the buckets are doubled.  It stops
    early only where [malloc] refuses a block that is needed.  [malloc] grants
    no block of 2^35 bytes, so there are at most 2^30 buckets, and there are
    fewer than 2^32 operations: beyond that the sizes overflow 32 bits. *)
Theorem uthash_refines_map malloc m0 t0 os :
  (forall sz, malloc sz = true -> sz < 2 ^ 35) -> 0 ∉ dom m0 -> legal_run (dom m0) os [] = true ->
  Z.of_nat (length os) < 2 ^ 32 ->
  exists ans e, run malloc os (mk_uthash 0 m0 t0) = Ok (ans, e) /\ ans = take (length ans) (m_run os []) /\
    match e with
    | None => length ans = length os
    | Some s => no_memory malloc s
    end.
Proof.
  intros Hm H0 Hlegal Hl. apply (run_refines malloc Hm (dom m0)); [|done|done|done].
  split; [by apply holds_nil|by apply NoDup_nil|by intros k p ?%elem_of_nil|done].
Qed.

(** Elements at the addresses 1 to [n], with handles that were never used. *)
Definition demo_mem (n : Z) : memory := list_to_map ((fun p => (p, mk_hh 7 7 7 7 [] 9 9)) <$> seqZ 1 n).
Definition int_key (n : Z) : list Z := [n mod 256; n / 256; 0; 0].
Definition demo_alloc (sz : Z) : bool := sz <=? 1048576.

(** 200 elements, which double the buckets; one is replaced, one deleted. *)
Definition demo_hash_ops : list op :=
  ((fun p => Add (int_key p) p) <$> seqZ 1 200) ++
  [Find (int_key 77); Replace (int_key 77) 201; Find (int_key 77); Delete 3; Find (int_key 3); Count; Iter].

Lemma uthash_refines_map_witness :
  legal_run (dom (demo_mem 201)) demo_hash_ops [] = true /\
  run demo_alloc demo_hash_ops (mk_uthash 0 (demo_mem 201) None) = Ok (m_run demo_hash_ops [], None) /\
  exists ans e, run demo_alloc demo_hash_ops (mk_uthash 0 (demo_mem 201) None) = Ok (ans, e) /\
    ans = take (length ans) (m_run demo_hash_ops []) /\
    match e with
    | None => length ans = length demo_hash_ops
    | Some s => no_memory demo_alloc s
    end.
Proof.
  split; [vm_compute; reflexivity|]. split; [vm_compute; reflexivity|].
  apply (uthash_refines_map demo_alloc (demo_mem 201) None demo_hash_ops).
  - unfold demo_alloc. intros sz H. apply Z.leb_le in H. lia.
  - apply not_elem_of_dom. vm_compute. reflexivity.
  - vm_compute. reflexivity.
  - vm_compute. reflexivity.
Defined.

(** Two elements with the same key: the second one is found until the
    buckets are doubled, then the first one. *)
Theorem equal_keys_depend_on_doubling :
  run demo_alloc (Add (int_key 1) 1 :: Add (int_key 1) 2 :: Find (int_key 1) ::
      ((fun p => Add (int_key p) p) <$> seqZ 3 150) ++ [Find (int_key 1)]) (mk_uthash 0 (demo_mem 300) None)
    = Ok ([Nothing; Nothing; Elem 2] ++ replicate 150 Nothing ++ [Elem 1], None).
Proof. vm_compute. reflexivity. Qed.
