(* ===== verification/ConTables.v ===== *)
(** * The tables of the connection manager as uthash tables

    The operations of con-manager.c on its two tables as they are written:
    entries in memory, found and replaced with the macros of uthash.h over
    the 16 bytes of their key.  They implement the operations of
    [ConManager.v], in which the tables are finite maps. *)

From S2P Require Import Prelude Bytes Uthash UthashRep UthashOps UthashSpec UthashMap ConManager.

Open Scope Z_scope.

(** The two tables with the [isn] and the [seq] of the entries; a block of
    memory is never given back, so an address is one entry for ever. *)
Record con_store := mk_store {
  isn_tbl : uthash;
  isn_vals : gmap Z Z;
  out_tbl : uthash;
  out_vals : gmap Z Z;
  st_lock : bool;
  st_wakeups : Z
}.
Definition set_isn_tbl v (st : con_store) : con_store :=
  mk_store v (isn_vals st) (out_tbl st) (out_vals st) (st_lock st) (st_wakeups st).
Definition set_isn_vals v (st : con_store) : con_store :=
  mk_store (isn_tbl st) v (out_tbl st) (out_vals st) (st_lock st) (st_wakeups st).
Definition set_out_tbl v (st : con_store) : con_store :=
  mk_store (isn_tbl st) (isn_vals st) v (out_vals st) (st_lock st) (st_wakeups st).
Definition set_out_vals v (st : con_store) : con_store :=
  mk_store (isn_tbl st) (isn_vals st) (out_tbl st) v (st_lock st) (st_wakeups st).
Definition set_st_lock v (st : con_store) : con_store :=
  mk_store (isn_tbl st) (isn_vals st) (out_tbl st) (out_vals st) v (st_wakeups st).
Definition st_wakeup (st : con_store) : con_store :=
  mk_store (isn_tbl st) (isn_vals st) (out_tbl st) (out_vals st) (st_lock st) (st_wakeups st + 1).

Definition st_LOCK (st : con_store) : outcome con_store :=
  if st_lock st then Spin else Ok (set_st_lock true st).
Definition st_UNLOCK (st : con_store) : con_store := set_st_lock false st.

(** The result of an operation, or the state in which the process ended for
    lack of memory. *)
Inductive ended (A : Type) :=
| Went (a : A) (st : con_store)
| Exited (st : con_store).
Arguments Went {A} a st.
Arguments Exited {A} st.

Definition get_isn_entries (con : con_id_type) (st : con_store) : outcome (option Z) :=
  let! entry := HASH_FIND (isn_tbl st) (con_bytes con) in
  if entry =? 0 then Ok None else let! isn := or_undef (isn_vals st !! entry) in Ok (Some isn).

Section Allocation.
Context (malloc : Z -> bool).

(** [p] is the entry that is allocated; the message at the end reads the
    entry that was replaced. *)
Definition flush_entries (p : Z) (server_con : con_id_type) (st : con_store) : outcome (ended unit) :=
  let con_id := mk_con (dst_ip server_con) (dst_port server_con) 0
                       (src_ip server_con) (src_port server_con) 0 in
  let st := set_out_vals (<[p := 0]> (out_vals st)) st in
  let! st := st_LOCK st in
  let! r := HASH_REPLACE malloc (con_bytes con_id) p (out_tbl st) in
  match r with
  | None => Ok (Exited st)
  | Some (replaced, s) =>
      let st := st_UNLOCK (set_out_tbl s st) in
      let! _ := if replaced =? 0 then Ok 0 else or_undef (out_vals st !! replaced) in
      Ok (Went tt st)
  end.

(** [p] and [q] are the entries of the two tables. *)
Definition save_isn_entries (p q isn : Z) (con : con_id_type) (st : con_store) : outcome (ended unit) :=
  let st := set_isn_vals (<[p := isn]> (isn_vals st)) st in
  let! r := flush_entries q con st in
  match r with
  | Exited st => Ok (Exited st)
  | Went _ st =>
      let! r := HASH_REPLACE malloc (con_bytes con) p (isn_tbl st) in
      Ok (match r with
          | None => Exited st
          | Some (_, s) => Went tt (set_isn_tbl s st)
          end)
  end.

(** When the connection is not found all entries are printed. *)
Definition get_con_out_seq_entries (con_orig : con_id_type) (st : con_store) : outcome (Z * Z * con_store) :=
  let! entry := HASH_FIND (out_tbl st) (con_bytes (clean_con con_orig)) in
  if entry =? 0 then
    let! st := st_LOCK st in
    let! l := HASH_ITER (out_tbl st) in
    if forallb (fun e => bool_decide (is_Some (out_vals st !! e))) l then Ok (-1, 0, st_UNLOCK st) else Undef
  else let! seq := or_undef (out_vals st !! entry) in Ok (0, seq, st).

Definition update_entries (p seq : Z) (con_orig : con_id_type) (st : con_store) : outcome (ended unit) :=
  let con := clean_con con_orig in
  let! st := st_LOCK st in
  let! find_entry := HASH_FIND (out_tbl st) (con_bytes con) in
  let st := st_UNLOCK st in
  let! old := if find_entry =? 0 then Ok None
              else let! s := or_undef (out_vals st !! find_entry) in Ok (Some s) in
  if (match old with Some s => seq <=? s | None => false end) then Ok (Went tt st)
  else
    let st := set_out_vals (<[p := seq]> (out_vals st)) st in
    let! st := st_LOCK st in
    let! r := HASH_REPLACE malloc (con_bytes con) p (out_tbl st) in
    Ok (match r with
        | None => Exited st
        | Some (_, s) => Went tt (st_UNLOCK (st_wakeup (set_out_tbl s st)))
        end).

Definition check_block_entries (h1 h2 ack : Z) (con : con_id_type) (st : con_store) : outcome (Z * con_store) :=
  let con_id := mk_con (dst_ip con) (dst_port con) h1 (src_ip con) (src_port con) h2 in
  let! isn := get_isn_entries con_id st in
  match isn with
  | None => Ok (0, st)
  | Some _ =>
      let! (ret, out_seq, st) := get_con_out_seq_entries con st in
      if u32 (out_seq + 1) <? ack then Ok (1, st) else Ok (0, st)
  end.
End Allocation.

(** ** Sequences of operations *)

Inductive con_op :=
| Save (p q isn : Z) (con : con_id_type)
| Update (p seq : Z) (con : con_id_type)
| Check (h1 h2 ack : Z) (con : con_id_type)
| GetIsn (con : con_id_type).

Inductive con_answer :=
| Saved
| Blocked (ret : Z)
| Isn (isn : option Z).

(** On the tables as maps. *)
Definition map_step (o : con_op) (t : con_tables) : outcome (con_answer * con_tables) :=
  match o with
  | Save _ _ isn con => let! t := save_isn t isn con in Ok (Saved, t)
  | Update _ seq con => let! t := update_con_out_seq t seq con in Ok (Saved, t)
  | Check h1 h2 ack con => let! (r, t) := check_block t h1 h2 ack con in Ok (Blocked r, t)
  | GetIsn con => Ok (Isn (get_isn t con), t)
  end.
Fixpoint map_run (os : list con_op) (t : con_tables) : outcome (list con_answer * con_tables) :=
  match os with
  | [] => Ok ([], t)
  | o :: os => let! (a, t) := map_step o t in let! (l, t) := map_run os t in Ok (a :: l, t)
  end.

(** On the tables of entries. *)
Definition saved (r : ended unit) : ended con_answer :=
  match r with
  | Went _ st => Went Saved st
  | Exited st => Exited st
  end.
Definition entries_step (malloc : Z -> bool) (o : con_op) (st : con_store) : outcome (ended con_answer) :=
  match o with
  | Save p q isn con => let! r := save_isn_entries malloc p q isn con st in Ok (saved r)
  | Update p seq con => let! r := update_entries malloc p seq con st in Ok (saved r)
  | Check h1 h2 ack con => let! (r, st) := check_block_entries h1 h2 ack con st in Ok (Went (Blocked r) st)
  | GetIsn con => let! r := get_isn_entries con st in Ok (Went (Isn r) st)
  end.
Fixpoint entries_run (malloc : Z -> bool) (os : list con_op) (st : con_store)
  : outcome (ended (list con_answer)) :=
  match os with
  | [] => Ok (Went [] st)
  | o :: os =>
      let! r := entries_step malloc o st in
      match r with
      | Exited st => Ok (Exited st)
      | Went a st =>
          let! r := entries_run malloc os st in
          Ok (match r with Went l st => Went (a :: l) st | Exited st => Exited st end)
      end
  end.

(** The entries a sequence allocates, by table. *)
Definition isn_entries (o : con_op) : list Z := match o with Save p _ _ _ => [p] | _ => [] end.
Definition out_entries (o : con_op) : list Z :=
  match o with Save _ q _ _ => [q] | Update p _ _ => [p] | _ => [] end.
Definition op_con (o : con_op) : con_id_type :=
  match o with
  | Save _ _ _ con | Update _ _ con | GetIsn con => con
  | Check h1 h2 _ con => mk_con (src_ip con) (src_port con) h1 (dst_ip con) (dst_port con) h2
  end.

(** ** The keys *)

(** The fields of a connection fit their types. *)
Definition con_ok (c : con_id_type) : Prop :=
  0 <= src_ip c < 2 ^ 32 /\ 0 <= src_port c < 2 ^ 16 /\ 0 <= hole1 c < 2 ^ 16 /\
  0 <= dst_ip c < 2 ^ 32 /\ 0 <= dst_port c < 2 ^ 16 /\ 0 <= hole2 c < 2 ^ 16.

Lemma le_split_fits n z : 0 <= z < 256 ^ Z.of_nat n -> le_combine (le_split n z) = z.
Proof. intros H. by rewrite le_combine_split, Z.mod_small. Qed.

Lemma con_of_con_bytes c : con_ok c -> con_of_bytes (con_bytes c) = c.
Proof.
  destruct c as [a b h1 d e h2]. unfold con_ok. cbn [src_ip src_port hole1 dst_ip dst_port hole2].
  intros (Ha & Hb & H1 & Hd & He & H2). unfold con_of_bytes, con_bytes.
  cbn [src_ip src_port hole1 dst_ip dst_port hole2].
  f_equal; [exact (le_split_fits 4 a Ha)|exact (le_split_fits 2 b Hb)|exact (le_split_fits 2 h1 H1)
    |exact (le_split_fits 4 d Hd)|exact (le_split_fits 2 e He)|exact (le_split_fits 2 h2 H2)].
Qed.

Lemma con_bytes_inj c c' : con_ok c -> con_ok c' -> con_bytes c = con_bytes c' -> c = c'.
Proof. intros H H' He. rewrite <- (con_of_con_bytes c H), <- (con_of_con_bytes c' H'). by rewrite He. Qed.

Lemma length_con_bytes c : length (con_bytes c) = 16%nat.
Proof. unfold con_bytes. by rewrite !length_app, !length_le_split. Qed.

Lemma clean_ok c : con_ok c -> con_ok (clean_con c).
Proof. unfold con_ok, clean_con. cbn [src_ip src_port hole1 dst_ip dst_port hole2]. lia. Qed.

(** ** The simulation *)

Section Simulation.
Context (malloc : Z -> bool).
Hypothesis malloc_limit : forall sz, malloc sz = true -> sz < 2 ^ 35.
Context (A1 A2 : gset Z) (H1 : 0 ∉ A1) (H2 : 0 ∉ A2).

Abbreviation con_table := (table con_bytes con_ok).

(** The store holds the tables [t]; [U1] and [U2] are the entries that were
    allocated. *)
Record stores (U1 U2 : list Z) (st : con_store) (t : con_tables) : Prop := mk_stores {
  so_isn : con_table A1 U1 (isn_tbl st) (isn_vals st) (con_isn_list t);
  so_out : con_table A2 U2 (out_tbl st) (out_vals st) (con_out_seq_list t);
  so_lock : st_lock st = out_lock t;
  so_wake : st_wakeups st = tcp_wakeups t
}.

Definition out_of_memory (st : con_store) : Prop := no_memory malloc (isn_tbl st) \/ no_memory malloc (out_tbl st).

(** The outcome [c] of an operation on the store is that of the operation on
    the maps, [m], or the end of the process. *)
Definition simulates {A} (U1 U2 : list Z) (c : outcome (ended A)) (m : outcome (A * con_tables)) : Prop :=
  (exists st, c = Ok (Exited st) /\ out_of_memory st) \/
  match m with
  | Ok (a, t) => exists st, c = Ok (Went a st) /\ stores U1 U2 st t
  | Undef => False
  | Spin => c = Spin
  end.

Lemma table_more A U U' s vals (g : gmap con_id_type Z) :
  (forall p, p ∈ U -> p ∈ U') -> con_table A U s vals g -> con_table A U' s vals g.
Proof. intros Hs (a & Hr & Ha & Hg). exists a. split_and!; [done| |done]. intros p Hp. destruct (Ha p Hp). auto. Qed.

Lemma table_iter A U s vals (g : gmap con_id_type Z) :
  con_table A U s vals g -> exists l, HASH_ITER s = Ok l /\ forall e, e ∈ l -> is_Some (vals !! e).
Proof. intros (a & Hr & Ha & _). eexists. split; [by apply HASH_ITER_spec, Hr|]. intros e He. by apply Ha. Qed.

Lemma get_isn_sim U1 U2 st t con :
  stores U1 U2 st t -> con_ok con -> get_isn_entries con st = Ok (get_isn t con).
Proof.
  intros [Hi _ _ _] Hc. unfold get_isn_entries, get_isn.
  destruct (table_find _ _ _ _ _ _ _ _ Hi Hc) as (p & -> & Hp). cbn [obind].
  destruct (p =? 0); [by rewrite Hp|]. destruct Hp as (v & -> & ->). done.
Qed.

Lemma con_replace A U s vals (g : gmap con_id_type Z) k p v :
  con_table A U s vals g -> con_ok k -> 0 ∉ A -> p ∈ A -> p ∉ U -> Z.of_nat (length U) + 1 < 2 ^ 32 ->
  exists r, HASH_REPLACE malloc (con_bytes k) p s = Ok r /\
    match r with
    | None => no_memory malloc s
    | Some (q, s') => con_table A (p :: U) s' (<[p := v]> vals) (<[k := v]> g) /\ (q <> 0 -> is_Some (vals !! q))
    end.
Proof.
  apply (table_replace con_bytes con_ok con_bytes_inj); [|done]. intros c. by rewrite length_con_bytes.
Qed.

Lemma flush_sim U1 U2 st t q con :
  stores U1 U2 st t -> con_ok con -> q ∈ A2 -> q ∉ U2 -> Z.of_nat (length U2) + 1 < 2 ^ 32 ->
  simulates U1 (q :: U2) (flush_entries malloc q con st) (let! t := flush_con_out_seq t con in Ok (tt, t)).
Proof.
  intros [Hi Ho Hl Hw] Hc Hq HU Hsz. unfold flush_entries, flush_con_out_seq, st_LOCK, LOCK.
  cbn [set_out_vals st_lock]. rewrite Hl. destruct (out_lock t); [by right|].
  cbn [obind set_st_lock set_out_vals out_tbl out_vals]. set (key := mk_con _ _ _ _ _ _).
  assert (Hk : con_ok key) by (revert Hc; unfold con_ok, key; cbn [src_ip src_port hole1 dst_ip dst_port hole2]; lia).
  destruct (con_replace _ _ _ _ _ key q 0 Ho Hk H2 Hq HU Hsz) as (r & -> & Hr). cbn [obind].
  destruct r as [[p s]|]; [|left; eexists; split; [done|by right]]. destruct Hr as [Ht Hp].
  cbn [st_UNLOCK set_st_lock set_out_tbl set_out_vals out_vals isn_tbl isn_vals out_tbl st_wakeups st_lock].
  assert (exists x, (if p =? 0 then Ok 0 else or_undef (<[q := 0]> (out_vals st) !! p)) = Ok x) as [x ->].
  { zcase; [by eexists|]. destruct (decide (p = q)) as [->|Hne]; [rewrite lookup_insert_eq; by eexists|].
    rewrite lookup_insert_ne by congruence. destruct (Hp ltac:(done)) as [y ->]. by eexists. }
  cbn [obind]. right. eexists. split; [done|]. by split.
Qed.

Lemma flush_keeps_isn q con st a st' :
  flush_entries malloc q con st = Ok (Went a st') -> isn_vals st' = isn_vals st.
Proof.
  unfold flush_entries, st_LOCK. cbn [set_out_vals st_lock]. destruct (st_lock st); [done|]. cbn [obind].
  destruct (HASH_REPLACE _ _ _ _) as [[[x s]|]| |]; cbn [obind]; try done.
  destruct (if x =? 0 then _ else _); cbn [obind]; [|done|done]. by intros [= _ <-].
Qed.

(** A new entry that is not yet in the table. *)
Lemma table_fresh A U s vals (g : gmap con_id_type Z) p v :
  p ∉ U -> con_table A U s vals g -> con_table A U s (<[p := v]> vals) g.
Proof.
  intros Hp (a & Hr & Ha & Hg). exists a. split_and!; [done| |].
  - intros x Hx. destruct (Ha x Hx) as [HU Hv]. split; [done|]. by rewrite lookup_insert_ne by congruence.
  - intros k Hk. rewrite (Hg k Hk). zcase; [done|]. rewrite lookup_insert_ne; [done|]. intros ->.
    destruct (m_find_cases (con_bytes k) a) as [?|Hi]; [done|]. by apply Hp, Ha.
Qed.

Lemma save_sim U1 U2 st t p q isn con :
  stores U1 U2 st t -> con_ok con -> p ∈ A1 -> p ∉ U1 -> q ∈ A2 -> q ∉ U2 ->
  Z.of_nat (length U1) + 1 < 2 ^ 32 -> Z.of_nat (length U2) + 1 < 2 ^ 32 ->
  simulates (p :: U1) (q :: U2) (save_isn_entries malloc p q isn con st) (let! t := save_isn t isn con in Ok (tt, t)).
Proof.
  intros [Hi Ho Hl Hw] Hc Hp HU1 Hq HU2 Hs1 Hs2. unfold save_isn_entries, save_isn.
  set (st0 := set_isn_vals _ st).
  assert (Hs0 : stores U1 U2 st0 t) by (split; try done; by apply table_fresh).
  destruct (flush_sim U1 U2 st0 t q con Hs0 Hc Hq HU2 Hs2) as [(st1 & -> & He)|Hf].
  { left. by exists st1. }
  destruct (flush_con_out_seq t con) as [t1| |]; cbn [obind] in Hf |- *; [|done|by right; rewrite Hf].
  destruct Hf as (st1 & Ef & [Hi1 Ho1 Hl1 Hw1]). rewrite Ef. cbn [obind].
  apply flush_keeps_isn in Ef. rewrite Ef in Hi1. unfold st0 in Hi1. cbn [set_isn_vals isn_vals] in Hi1.
  destruct (con_replace _ _ _ _ _ con p isn Hi1 Hc H1 Hp HU1 Hs1) as (r & -> & Hr). cbn [obind].
  destruct r as [[x s]|]; [|left; eexists; split; [done|by left]]. destruct Hr as [Ht _].
  rewrite insert_insert_eq in Ht. right. eexists. split; [done|]. split; try done.
  cbn [set_isn_tbl isn_tbl isn_vals]. by rewrite Ef.
Qed.

Lemma get_seq_sim U1 U2 st t con :
  stores U1 U2 st t -> con_ok (clean_con con) ->
  match get_con_out_seq t con with
  | Ok (r, seq, t') => exists st', get_con_out_seq_entries con st = Ok (r, seq, st') /\ stores U1 U2 st' t'
  | Undef => False
  | Spin => get_con_out_seq_entries con st = Spin
  end.
Proof.
  intros [Hi Ho Hl Hw] Hc. unfold get_con_out_seq, get_con_out_seq_entries.
  destruct (table_find _ _ _ _ _ _ _ _ Ho Hc) as (p & -> & Hp). cbn [obind].
  destruct (p =? 0); [|destruct Hp as (v & -> & ->); eexists; split; [done|by split]].
  rewrite Hp. unfold LOCK, st_LOCK. rewrite Hl. destruct (out_lock t); [done|]. cbn [obind].
  cbn [set_st_lock out_tbl out_vals]. destruct (table_iter _ _ _ _ _ Ho) as (l & -> & Hv). cbn [obind].
  replace (forallb _ l) with true.
  2:{ symmetry. apply forallb_forall. intros e He%list_elem_of_In. apply bool_decide_eq_true. auto. }
  eexists. split; [done|]. by split.
Qed.

Lemma update_sim U1 U2 st t p seq con :
  stores U1 U2 st t -> con_ok con -> p ∈ A2 -> p ∉ U2 -> Z.of_nat (length U2) + 1 < 2 ^ 32 ->
  simulates U1 (p :: U2) (update_entries malloc p seq con st) (let! t := update_con_out_seq t seq con in Ok (tt, t)).
Proof.
  intros [Hi Ho Hl Hw] Hc%clean_ok Hp HU Hsz. unfold update_entries, update_con_out_seq, st_LOCK, LOCK. rewrite Hl.
  destruct (out_lock t); [by right|]. cbn [obind set_st_lock set_out_lock out_tbl con_out_seq_list].
  destruct (table_find _ _ _ _ _ _ _ _ Ho Hc) as (e & -> & He). cbn [obind].
  replace (if e =? 0 then Ok None else _) with (Ok (con_out_seq_list t !! clean_con con)).
  2:{ cbn [st_UNLOCK set_st_lock out_vals]. destruct (e =? 0); [by rewrite He|]. by destruct He as (v & -> & ->). }
  cbn [obind]. destruct (match _ !! _ with Some s => _ | None => _ end).
  { right. cbn [obind]. eexists. split; [done|]. split; try done.
    eapply table_more; [|exact Ho]. intros x. by apply list_elem_of_further. }
  cbn [obind st_UNLOCK set_st_lock set_out_vals st_lock out_vals out_tbl UNLOCK set_out_lock out_lock].
  destruct (con_replace _ _ _ _ _ (clean_con con) p seq Ho Hc H2 Hp HU Hsz) as (r & -> & Hr). cbn [obind].
  destruct r as [[x s]|]; [|left; eexists; split; [done|by right]]. destruct Hr as [Ht _].
  right. eexists. split; [done|]. split; try done. cbn. by rewrite Hw.
Qed.

Lemma check_sim U1 U2 st t h1 h2 ack con :
  stores U1 U2 st t -> con_ok (op_con (Check h1 h2 ack con)) ->
  match check_block t h1 h2 ack con with
  | Ok (r, t') => exists st', check_block_entries h1 h2 ack con st = Ok (r, st') /\ stores U1 U2 st' t'
  | Undef => False
  | Spin => check_block_entries h1 h2 ack con st = Spin
  end.
Proof.
  intros Hs Hc. unfold check_block, check_block_entries.
  rewrite (get_isn_sim _ _ _ _ _ Hs)
    by (revert Hc; unfold con_ok; cbn [op_con src_ip src_port hole1 dst_ip dst_port hole2]; lia).
  cbn [obind]. destruct (get_isn _ _); [|by exists st].
  pose proof (get_seq_sim U1 U2 st t con Hs (clean_ok _ Hc)) as Hg.
  destruct (get_con_out_seq t con) as [[[r sq] t']| |]; cbn [obind]; [|done|by rewrite Hg].
  destruct Hg as (st' & -> & Hs'). cbn [obind]. zcase; by exists st'.
Qed.

(** What a sequence of operations needs: connections that fit their types
    and entries that are allocated one by one. *)
Definition con_op_ok (o : con_op) : Prop :=
  con_ok (op_con o) /\ (forall p, p ∈ isn_entries o -> p ∈ A1) /\ (forall p, p ∈ out_entries o -> p ∈ A2).

Lemma simulates_saved U1 U2 c m :
  simulates U1 U2 c (let! t := m in Ok (tt, t)) ->
  simulates U1 U2 (let! r := c in Ok (saved r)) (let! t := m in Ok (Saved, t)).
Proof.
  intros [(st & -> & He)|Hm]; [left; by exists st|]. right. destruct m; cbn [obind] in *; [|done|by rewrite Hm].
  destruct Hm as (st & -> & Hs). by exists st.
Qed.

Lemma step_sim U1 U2 st t o :
  stores U1 U2 st t -> con_op_ok o -> NoDup (isn_entries o ++ U1) -> NoDup (out_entries o ++ U2) ->
  Z.of_nat (length U1) + 1 < 2 ^ 32 -> Z.of_nat (length U2) + 1 < 2 ^ 32 ->
  simulates (isn_entries o ++ U1) (out_entries o ++ U2) (entries_step malloc o st) (map_step o t).
Proof.
  intros Hs (Hc & Hp1 & Hp2) N1 N2 Hs1 Hs2.
  destruct o as [p q isn con|p seq con|h1 h2 ack con|con];
    cbn [isn_entries out_entries op_con app entries_step map_step] in *.
  - apply NoDup_cons in N1 as [N1 _]. apply NoDup_cons in N2 as [N2 _]. apply simulates_saved.
    apply save_sim; try done; [apply Hp1|apply Hp2]; apply list_elem_of_here.
  - apply NoDup_cons in N2 as [N2 _]. apply simulates_saved.
    apply update_sim; try done. apply Hp2, list_elem_of_here.
  - pose proof (check_sim U1 U2 st t h1 h2 ack con Hs Hc) as Hk. right.
    destruct (check_block t h1 h2 ack con) as [[r t']| |]; cbn [obind]; [|done|by rewrite Hk].
    destruct Hk as (st' & -> & Hs'). by exists st'.
  - rewrite (get_isn_sim _ _ _ _ _ Hs Hc). right. by exists st.
Qed.

Lemma run_sim os : forall U1 U2 st t,
  stores U1 U2 st t -> Forall con_op_ok os ->
  NoDup (flat_map isn_entries os ++ U1) -> NoDup (flat_map out_entries os ++ U2) ->
  Z.of_nat (length U1 + length os) < 2 ^ 32 -> Z.of_nat (length U2 + length os) < 2 ^ 32 ->
  (exists st', entries_run malloc os st = Ok (Exited st') /\ out_of_memory st') \/
  match map_run os t with
  | Ok (l, t') => exists st', entries_run malloc os st = Ok (Went l st')
  | Undef => False
  | Spin => entries_run malloc os st = Spin
  end.
Proof.
  induction os as [|o os IH]; intros U1 U2 st t Hs Hok N1 N2 Hl1 Hl2; [right; by exists st|].
  apply Forall_cons in Hok as [Ho Hok]. cbn [flat_map length entries_run map_run] in *.
  assert (length (isn_entries o) <= 1 /\ length (out_entries o) <= 1)%nat as [Hn1 Hn2] by (destruct o; cbn; lia).
  rewrite (Permutation_app_comm (isn_entries o)), <- app_assoc in N1.
  rewrite (Permutation_app_comm (out_entries o)), <- app_assoc in N2.
  pose proof N1 as (_ & _ & M1)%NoDup_app. pose proof N2 as (_ & _ & M2)%NoDup_app.
  destruct (step_sim U1 U2 st t o Hs Ho M1 M2 ltac:(lia) ltac:(lia)) as [(st1 & -> & He)|Hm]; [left; by exists st1|].
  destruct (map_step o t) as [[a t1]| |]; cbn [obind] in *; [|done|right; by rewrite Hm].
  destruct Hm as (st1 & -> & Hs1). cbn [obind].
  destruct (IH _ _ st1 t1 Hs1 Hok N1 N2) as [(st2 & -> & He)|Hr]; [rewrite length_app; lia..|left; by exists st2|].
  right. destruct (map_run os t1) as [[l t2]| |]; cbn [obind]; [|done|by rewrite Hr].
  destruct Hr as (st2 & ->). by exists st2.
Qed.
End Simulation.

(** ** The theorem *)

(** C17. The tables of the connection manager, as entries in memory under the
    hash tables of uthash.h, implement the finite maps of the model.  Take
    any sequence of save_isn, update_con_out_seq, check_block and get_isn,
    with a newly allocated entry wherever the code allocates one, starting
    with empty tables and with or without [out_lock].  The operations on the
    entries read and write only allocated entries and give the results of the
    operations on maps keyed by all 16 bytes of the connection; they wait for
    ever exactly where those do.  The process ends early only where [malloc]
    refuses a block the hash tables need.  [malloc] grants no block of 2^35
    bytes, so a table has at most 2^30 buckets, and there are fewer than 2^32
    operations: beyond that the sizes overflow 32 bits. *)
Theorem connection_tables_are_maps malloc m1 m2 x1 x2 os lock
    (st := mk_store (mk_uthash 0 m1 x1) ∅ (mk_uthash 0 m2 x2) ∅ lock 0) (t := mk_tables ∅ ∅ lock 0) :
  (forall sz, malloc sz = true -> sz < 2 ^ 35) -> 0 ∉ dom m1 -> 0 ∉ dom m2 ->
  Forall (con_op_ok (dom m1) (dom m2)) os -> NoDup (flat_map isn_entries os) -> NoDup (flat_map out_entries os) ->
  Z.of_nat (length os) < 2 ^ 32 ->
  (exists st', entries_run malloc os st = Ok (Exited st') /\ out_of_memory malloc st') \/
  match map_run os t with
  | Ok (l, _) => exists st', entries_run malloc os st = Ok (Went l st')
  | Undef => False
  | Spin => entries_run malloc os st = Spin
  end.
Proof.
  intros Hm H1 H2 Hok N1 N2 Hl.
  apply (run_sim malloc Hm (dom m1) (dom m2) H1 H2 os [] []); rewrite ?app_nil_r; try done.
  split; [apply table_empty|apply table_empty|done|done].
Qed.

(** A connection of a client, and the same with the ends exchanged. *)
Definition demo_client : con_id_type := mk_con 3232235777 40000 0 3232235778 80 0.
Definition demo_back : con_id_type := mk_con 3232235778 80 0 3232235777 40000 0.

(** The segment with acknowledgement 1000 has to wait until the guest has
    sent 999 bytes. *)
Definition demo_con_ops : list con_op :=
  [Save 1 1 7 demo_client; Check 0 0 1000 demo_back; Update 2 999 demo_back; Check 0 0 1000 demo_back; GetIsn demo_client].

Lemma demo_con_ops_ok : Forall (con_op_ok (dom (demo_mem 2)) (dom (demo_mem 2))) demo_con_ops.
Proof.
  assert (Hd : forall p, p ∈ [1; 2] -> p ∈ dom (demo_mem 2)).
  { intros p Hp. apply elem_of_dom. exists (mk_hh 7 7 7 7 [] 9 9).
    rewrite !elem_of_cons, elem_of_nil in Hp. destruct Hp as [->|[->|[]]]; vm_compute; reflexivity. }
  unfold demo_con_ops, con_op_ok, con_ok.
  repeat (apply Forall_cons; split); [..|by apply Forall_nil]; cbn [op_con demo_client demo_back src_ip src_port hole1
    dst_ip dst_port hole2 isn_entries out_entries]; split_and!; try lia; intros p Hp; apply Hd; set_solver.
Qed.

Lemma connection_tables_are_maps_witness
    (st := mk_store (mk_uthash 0 (demo_mem 2) None) ∅ (mk_uthash 0 (demo_mem 2) None) ∅ false 0) :
  Forall (con_op_ok (dom (demo_mem 2)) (dom (demo_mem 2))) demo_con_ops /\
  (let! (l, _) := map_run demo_con_ops (mk_tables ∅ ∅ false 0) in Ok l)
    = Ok [Saved; Blocked 1; Saved; Blocked 0; Isn (Some 7)] /\
  ((exists st', entries_run demo_alloc demo_con_ops st = Ok (Exited st') /\ out_of_memory demo_alloc st') \/
   match map_run demo_con_ops (mk_tables ∅ ∅ false 0) with
   | Ok (l, _) => exists st', entries_run demo_alloc demo_con_ops st = Ok (Went l st')
   | Undef => False
   | Spin => entries_run demo_alloc demo_con_ops st = Spin
   end).
Proof.
  split; [exact demo_con_ops_ok|]. split; [vm_compute; reflexivity|].
  apply (connection_tables_are_maps demo_alloc (demo_mem 2) (demo_mem 2) None None demo_con_ops false).
  - unfold demo_alloc. intros sz H. apply Z.leb_le in H. lia.
  - apply not_elem_of_dom. vm_compute. reflexivity.
  - apply not_elem_of_dom. vm_compute. reflexivity.
  - exact demo_con_ops_ok.
  - cbn. apply NoDup_singleton.
  - cbn. apply NoDup_cons. split; [|apply NoDup_singleton]. by intros ?%list_elem_of_singleton.
  - vm_compute. reflexivity.
Defined.
