(* ===== verification/Framing.v ===== *)
(** * Messages on stream sockets (vpb/common.c and project/src/common.c)

    [send_bytes] and [recv_bytes] put messages on a TCP stream: four bytes of
    length in network order, then the message.  The host and the guest have
    a copy each, which differ in how they treat the length.

    What arrives on a socket is a list of pieces, as [recv] meets them; the
    number of bytes that each [send] accepts is a list as well.  A call that
    waits when its list is used up never returns: [Spin]. *)

From S2P Require Import Prelude Bytes Ringbuf ConManager.

Open Scope Z_scope.

(** ** What the messages carry *)

Definition CONNECT_CON : Z := 1.
Definition ACCEPT_CON : Z := 2.
Definition CONNECT_QUERY : Z := 3.

(** The fields of [struct con_info_type] behind the sequence numbers. *)
Record con_options := mk_options {
  has_timestamp : Z;
  timestamp : Z;
  mss_clamp : Z;
  snd_wscale : Z;
  rcv_wscale : Z;
  has_rcv_wscale : Z;
  con_type : Z
}.

Record con_info_type := mk_con_info {
  ci_con_id : con_id_type;
  ci_send_seq : Z;
  ci_recv_seq : Z;
  ci_options : con_options
}.

(** After [memset] to zero. *)
Definition zero_con : con_id_type := mk_con 0 0 0 0 0 0.
Definition zero_options : con_options := mk_options 0 0 0 0 0 0 0.
Definition zero_info : con_info_type := mk_con_info zero_con 0 0 zero_options.

(** ** Sockets *)

Inductive rx_event :=
| RxData (bs : list Z)
| RxClosed
| RxError.

(** [recv] of at most [n] bytes: its result, the bytes, and what is left. *)
Definition recv (n : Z) (s : list rx_event) : outcome (Z * list Z * list rx_event) :=
  if n =? 0 then Ok (0, [], s)
  else
    match s with
    | [] => Spin
    | RxClosed :: _ => Ok (0, [], s)
    | RxError :: s' => Ok (-1, [], s')
    | RxData bs :: s' =>
        if zlen bs <=? n then Ok (zlen bs, bs, s')
        else Ok (n, ztake n bs, RxData (zdrop n bs) :: s')
    end.

(** [recv] into a null pointer: data cannot be copied. *)
Definition recv_null (s : list rx_event) : outcome (Z * list rx_event) :=
  match s with
  | [] => Spin
  | RxClosed :: _ => Ok (0, s)
  | RxError :: s' => Ok (-1, s')
  | RxData _ :: _ => Ok (-1, s)
  end.

(** One [send]: [k] is its answer, the number of bytes or an error code as a
    negative number. *)
Definition send (bs : list Z) (answers : list Z) : outcome (Z * list Z * list Z) :=
  match answers with
  | [] => Spin
  | k :: answers' =>
      if k <? 0 then Ok (k, [], answers')
      else let n := Z.min k (zlen bs) in Ok (n, ztake n bs, answers')
  end.

(** ** Receiving *)

(** The loop over the message: the result, which is positive when all [left]
    bytes came, and the bytes. *)
Fixpoint recv_loop (fuel : nat) (left : Z) (data : list Z) (s : list rx_event)
    : outcome (Z * list Z * list rx_event) :=
  match fuel with
  | O => Spin
  | S fuel' =>
      let! (ret, bs, s) := recv left s in
      if ret <? 0 then Ok (-1, data, s)
      else if ret =? 0 then Ok (0, data, s)
      else
        let data := data ++ bs in
        let left := left - ret in
        if 0 <? left then recv_loop fuel' left data s else Ok (1, data, s)
  end.

(** What the callers see: the result, [*buf] and [*length]. *)
Record received := mk_received {
  rx_ret : Z;
  rx_buf : list Z;
  rx_length : Z
}.

(** [mem n] says whether [malloc] of [n] bytes succeeds; a negative [length]
    is a size that no memory has. *)
Definition recv_message (mem : Z -> bool) (length : Z) (s : list rx_event)
    : outcome (received * list rx_event) :=
  if (0 <=? length) && mem length then
    let! (ret, bs, s) := recv_loop (S (Z.to_nat length)) length [] s in
    Ok (mk_received (if 0 <? ret then length else ret) bs length, s)
  else
    let! (ret, s) := recv_null s in
    Ok (mk_received ret [] length, s).

(** [tmp]: the four bytes of the local variable, [junk], after [recv] wrote
    [bs] over them. *)
Definition length_of (junk bs : list Z) : Z :=
  sint 32 (ntohl (le_combine (bs ++ zdrop (zlen bs) junk))).

(** vpb/common.c does not look at the result of the first [recv]. *)
Definition recv_bytes (mem : Z -> bool) (junk : list Z) (s : list rx_event)
    : outcome (received * list rx_event) :=
  let! (_, bs, s) := recv 4 s in
  recv_message mem (length_of junk bs) s.

(** project/src/common.c: [len] is what [*length] holds before. *)
Definition guest_recv_bytes (mem : Z -> bool) (junk : list Z) (len : Z) (s : list rx_event)
    : outcome (received * list rx_event) :=
  let! (ret, bs, s) := recv 4 s in
  if ret <? 0 then Ok (mk_received ret [] len, s)
  else if ret =? 0 then Ok (mk_received 0 [] len, s)
  else recv_message mem (length_of junk bs) s.

(** ** Sending *)

Definition htonl (x : Z) : Z := ntohl x.

(** The bytes of a message on the stream. *)
Definition message (buf : list Z) : list Z := le_split 4 (htonl (zlen buf)) ++ buf.

(** The result, [errno] after a failure, the accepted bytes, the remaining
    answers. *)
Fixpoint send_loop (left : list Z) (answers : list Z) (sent : list Z)
    : outcome (Z * Z * list Z * list Z) :=
  match answers with
  | [] => Spin
  | k :: answers' =>
      if k <? 0 then Ok (-1, - k, sent, answers')
      else
        let n := Z.min k (zlen left) in
        let sent := sent ++ ztake n left in
        let left := zdrop n left in
        if 0 <? zlen left then send_loop left answers' sent
        else Ok (0, 0, sent, answers')
  end.

Definition send_bytes (buf : list Z) (answers : list Z) : outcome (Z * Z * list Z * list Z) :=
  send_loop (message buf) answers [].
