(* ===== verification/Tpl.v ===== *)
(** * Serialisation of structures (vpb/tpl.c)

    The part of the tpl library that the program uses to send a
    [con_info_type]: formats of numbers inside [S(...)] and nested [$(...)].
    A format is parsed into the list of its fields with their places in the
    structure; packing copies the fields out of the structure, dumping puts
    them behind a header; loading checks an image, unpacking copies its fields
    into a structure.

    Strings, buffers, arrays and repetitions are not part of the model: a
    format with one of them is [Other].  The machine is little-endian. *)

From stdpp Require Import strings.
From S2P Require Import Prelude Bytes Ringbuf ConManager Framing.

Open Scope Z_scope.

(** The bytes of a C string without the final zero. *)
Definition codes (s : string) : list Z := (fun a => Z.of_N (Ascii.N_of_ascii a)) <$> String.list_ascii_of_string s.
Definition chr (s : string) : Z := default 0 (head (codes s)).

(** ** Types *)

Inductive tpl_type :=
| TPL_TYPE_BYTE | TPL_TYPE_INT16 | TPL_TYPE_UINT16 | TPL_TYPE_INT32 | TPL_TYPE_UINT32
| TPL_TYPE_INT64 | TPL_TYPE_UINT64 | TPL_TYPE_DOUBLE.

(** [tpl_types] *)
Definition type_sz (t : tpl_type) : Z :=
  match t with
  | TPL_TYPE_BYTE => 1
  | TPL_TYPE_INT16 | TPL_TYPE_UINT16 => 2
  | TPL_TYPE_INT32 | TPL_TYPE_UINT32 => 4
  | TPL_TYPE_INT64 | TPL_TYPE_UINT64 | TPL_TYPE_DOUBLE => 8
  end.
(** [align_sz] of [calc_field_addr]; both detector structures have 16 bytes. *)
Definition align_sz (t : tpl_type) : Z :=
  match t with
  | TPL_TYPE_DOUBLE | TPL_TYPE_INT64 | TPL_TYPE_UINT64 => if 16 >? 12 then 8 else 4
  | _ => type_sz t
  end.

Definition type_of_char (c : Z) : option tpl_type :=
  if c =? chr "c" then Some TPL_TYPE_BYTE
  else if c =? chr "i" then Some TPL_TYPE_INT32
  else if c =? chr "u" then Some TPL_TYPE_UINT32
  else if c =? chr "j" then Some TPL_TYPE_INT16
  else if c =? chr "v" then Some TPL_TYPE_UINT16
  else if c =? chr "I" then Some TPL_TYPE_INT64
  else if c =? chr "U" then Some TPL_TYPE_UINT64
  else if c =? chr "f" then Some TPL_TYPE_DOUBLE
  else None.

(** A child of the root: its type and its address. *)
Record tpl_node := mk_node { n_type : tpl_type; n_addr : Z }.

(** ** Formats *)

Definition calc_field_addr (children : list tpl_node) (type : tpl_type) (struct_addr ordinal : Z) : outcome Z :=
  if ordinal =? 1 then Ok struct_addr
  else
    let! prev := or_undef (last children) in
    let a := align_sz type in
    let offset := n_addr prev - struct_addr + type_sz (n_type prev) in
    Ok (struct_addr + Z.quot (offset + a - 1) a * a).

Record map_state := mk_map {
  lparen_level : Z;
  expect_lparen : bool;
  in_structure : Z;
  in_nested_structure : Z;
  ordinal : Z;
  struct_addr : Z;
  struct_widest : option tpl_type;
  inter_elt_len : Z;
  children : list tpl_node;
  va_args : list Z          (* the addresses that are still to be taken *)
}.

Inductive map_result (A : Type) :=
| Mapped (a : A)
| Failed                    (* [goto fail] *)
| Other.                    (* not a format of the model *)
Arguments Mapped {A} a.
Arguments Failed {A}.
Arguments Other {A}.

(** The next argument; there is none behind the last. *)
Definition va_arg (m : map_state) : outcome (Z * list Z) :=
  match va_args m with
  | [] => Undef
  | a :: l => Ok (a, l)
  end.

Definition map_atom (t : tpl_type) (m : map_state) : outcome (map_result map_state) :=
  if expect_lparen m then Ok Failed
  else if c_true (in_structure m) then
    let widest :=
      if ordinal m =? 1 then t
      else match struct_widest m with
           | Some w => if type_sz w <? type_sz t then t else w
           | None => t
           end in
    let! addr := calc_field_addr (children m) t (struct_addr m) (ordinal m) in
    Ok (Mapped (mk_map (lparen_level m) false (in_structure m) (in_nested_structure m) (ordinal m + 1)
      (struct_addr m) (Some widest) (inter_elt_len m) (children m ++ [mk_node t addr]) (va_args m)))
  else
    let! (addr, args) := va_arg m in
    Ok (Mapped (mk_map (lparen_level m) false (in_structure m) (in_nested_structure m) (ordinal m)
      (struct_addr m) (struct_widest m) (inter_elt_len m) (children m ++ [mk_node t addr]) args)).

Definition map_rparen (before : Z) (m : map_state) : outcome (map_result map_state) :=
  let lp := lparen_level m - 1 in
  if lp <? 0 then Ok Failed
  else if before =? chr "(" then Ok Failed
  else if c_true (in_nested_structure m) then
    Ok (Mapped (mk_map lp (expect_lparen m) (in_structure m) (in_nested_structure m - 1) (ordinal m)
      (struct_addr m) (struct_widest m) (inter_elt_len m) (children m) (va_args m)))
  else if c_true (in_structure m) && (in_structure m - 1 =? lp) then
    let! w := or_undef (struct_widest m) in
    let! next := calc_field_addr (children m) w (struct_addr m) (ordinal m) in
    Ok (Mapped (mk_map lp (expect_lparen m) 0 0 (ordinal m + 1)
      (struct_addr m) (struct_widest m) (next - struct_addr m) (children m) (va_args m)))
  else Ok Other.

(** One character, after the character [before]. *)
Definition map_char (before c : Z) (m : map_state) : outcome (map_result map_state) :=
  match type_of_char c with
  | Some t => map_atom t m
  | None =>
      if c =? chr "S" then
        if c_true (in_structure m) then Ok Failed
        else
          let! (addr, args) := va_arg m in
          Ok (Mapped (mk_map (lparen_level m) true (1 + lparen_level m) (in_nested_structure m) 1
            addr (struct_widest m) (inter_elt_len m) (children m) args))
      else if c =? chr "$" then
        if negb (c_true (in_structure m)) then Ok Failed
        else Ok (Mapped (mk_map (lparen_level m) true (in_structure m) (in_nested_structure m + 1) (ordinal m)
          (struct_addr m) (struct_widest m) (inter_elt_len m) (children m) (va_args m)))
      else if c =? chr "(" then
        if negb (expect_lparen m) then Ok Failed
        else Ok (Mapped (mk_map (lparen_level m + 1) false (in_structure m) (in_nested_structure m) (ordinal m)
          (struct_addr m) (struct_widest m) (inter_elt_len m) (children m) (va_args m)))
      else if c =? chr ")" then map_rparen before m
      else if (c =? chr "s") || (c =? chr "#") || (c =? chr "B") || (c =? chr "A") then Ok Other
      else Ok Failed
  end.

Fixpoint map_loop (before : Z) (fmt : list Z) (m : map_state) : outcome (map_result map_state) :=
  match fmt with
  | [] => Ok (Mapped m)
  | c :: fmt' =>
      let! r := map_char before c m in
      match r with
      | Mapped m => map_loop c fmt' m
      | r => Ok r
      end
  end.

Definition map_init (args : list Z) : map_state := mk_map 0 false 0 0 0 0 None 0 [] args.

(** The root node: its format and its children, with their packed bytes once
    there are some. *)
Record tpl_root := mk_root {
  r_fmt : list Z;
  r_children : list tpl_node;
  r_data : list (list Z)
}.

Definition tpl_map (fmt : list Z) (args : list Z) : outcome (map_result tpl_root) :=
  let! r := map_loop 0 fmt (map_init args) in
  match r with
  | Mapped m => Ok (if negb (lparen_level m =? 0) then Failed else Mapped (mk_root fmt (children m) []))
  | Failed => Ok Failed
  | Other => Ok Other
  end.

(** ** Writing *)

(** [tpl_pack(r, 0)]: copy every field out of the memory [m]. *)
Fixpoint pack_loop (m : list Z) (cs : list tpl_node) : outcome (list (list Z)) :=
  match cs with
  | [] => Ok []
  | c :: cs' =>
      let! bs := load m (n_addr c) (type_sz (n_type c)) in
      let! l := pack_loop m cs' in
      Ok (bs :: l)
  end.
Definition tpl_pack (m : list Z) (r : tpl_root) : outcome tpl_root :=
  let! d := pack_loop m (r_children r) in Ok (mk_root (r_fmt r) (r_children r) d).

Definition data_size (cs : list tpl_node) : Z := foldr Z.add 0 ((fun c => type_sz (n_type c)) <$> cs).
Definition tpl_ser_osz (r : tpl_root) : Z := 4 + (zlen (r_fmt r) + 1) + 4 + data_size (r_children r).

Definition TPL_MAGIC : list Z := codes "tpl".
Definition TPL_FL_NULLSTRINGS : Z := 2.

Definition tpl_dump_to_mem (r : tpl_root) (sz : Z) : list Z :=
  let flags := if bool_decide (chr "s" ∈ r_fmt r) then TPL_FL_NULLSTRINGS else 0 in
  TPL_MAGIC ++ [flags] ++ le_split 4 sz ++ r_fmt r ++ [0] ++ concat (r_data r).

(** [tpl_dump(r, TPL_MEM, addr_out, sz_out)]: the image and its size, which is
    stored as a [size_t]. *)
Definition tpl_dump (r : tpl_root) : list Z * Z :=
  let sz := tpl_ser_osz r in (tpl_dump_to_mem r sz, sz).

(** ** Reading *)

Definition TPL_SUPPORTED_BITFLAGS : Z := 3.
Definition TPL_FL_BIGENDIAN : Z := 1.
Definition tpl_fmt_chars : list Z := codes "AS($)BiucsfIUjv#".

Definition ERR_NOT_MINSIZE : Z := -1.
Definition ERR_MAGIC_MISMATCH : Z := -2.
Definition ERR_INCONSISTENT_SZ : Z := -3.
Definition ERR_FMT_INVALID : Z := -4.
Definition ERR_FMT_MISSING_NUL : Z := -5.
Definition ERR_FMT_MISMATCH : Z := -6.
Definition ERR_INCONSISTENT_SZ2 : Z := -8.
Definition ERR_INCONSISTENT_SZ3 : Z := -9.
Definition ERR_INCONSISTENT_SZ4 : Z := -10.
Definition ERR_UNSUPPORTED_FLAGS : Z := -11.

Definition tpl_byteswap (w : list Z) : list Z := rev w.

(** [tpl_needs_endian_swap], with the flags byte. *)
Definition tpl_needs_endian_swap (flags : Z) : bool := c_true (Z.land flags TPL_FL_BIGENDIAN).

(** The loop over the format in the image: an error, or the number of [#] and
    the offset of the final zero. *)
Fixpoint scan_fmt (rest : list Z) (dv octothorpes : Z) : Z + Z * Z :=
  match rest with
  | [] => inl ERR_FMT_MISSING_NUL
  | c :: rest' =>
      if c =? 0 then inr (octothorpes, dv)
      else if negb (bool_decide (c ∈ tpl_fmt_chars)) then inl ERR_FMT_INVALID
      else scan_fmt rest' (dv + 1) (if c =? chr "#" then octothorpes + 1 else octothorpes)
  end.

(** [None] is the result -1. *)
Fixpoint tpl_serlen (bufsz : Z) (cs : list tpl_node) (dv len : Z) : option Z :=
  match cs with
  | [] => Some len
  | c :: cs' =>
      if bufsz <? dv + type_sz (n_type c) then None
      else tpl_serlen bufsz cs' (dv + type_sz (n_type c)) (len + type_sz (n_type c))
  end.

(** The image [d]; [excess_ok] is never set by the program.  There are no
    repetitions in the mapped format. *)
Definition tpl_sanity (r : tpl_root) (d : list Z) : Z :=
  let bufsz := zlen d in
  if bufsz <? 4 + 4 + 1 then ERR_NOT_MINSIZE
  else if negb (bool_decide (ztake 3 d = TPL_MAGIC)) then ERR_MAGIC_MISMATCH
  else
    let flags := nth 3 d 0 in
    if c_true (Z.land (sint 8 flags) (Z.lnot TPL_SUPPORTED_BITFLAGS)) then ERR_UNSUPPORTED_FLAGS
    else
      let word := ztake 4 (zdrop 4 d) in
      let intlsz := le_combine (if tpl_needs_endian_swap flags then tpl_byteswap word else word) in
      if negb (intlsz =? bufsz) then ERR_INCONSISTENT_SZ
      else
        match scan_fmt (zdrop 8 d) 8 0 with
        | inl e => e
        | inr (octothorpes, nul) =>
            let fmt := ztake (nul - 8) (zdrop 8 d) in
            if negb (bool_decide (r_fmt r = fmt)) then ERR_FMT_MISMATCH
            else
              let dv := nul + 1 in
              if bufsz <? dv + octothorpes * 4 then ERR_INCONSISTENT_SZ4
              else
                match tpl_serlen bufsz (r_children r) dv 0 with
                | None => ERR_INCONSISTENT_SZ2
                | Some serlen => if negb (serlen + dv =? bufsz) then ERR_INCONSISTENT_SZ3 else 0
                end
        end.

(** The flag [TPL_XENDIAN], which [tpl_sanity] sets after its first two checks
    and [tpl_load] again when all of them succeed. *)
Definition xendian (d : list Z) : bool :=
  (4 + 4 + 1 <=? zlen d) && bool_decide (ztake 3 d = TPL_MAGIC) && tpl_needs_endian_swap (nth 3 d 0).

(** [tpl_load(r, TPL_MEM, addr, sz)] *)
Definition tpl_load (r : tpl_root) (d : list Z) : Z := if tpl_sanity r d =? 0 then 0 else -1.

(** [while( *(char* )d != 0)]: past the end of the image it is undefined. *)
Fixpoint data_start (rest : list Z) (dv octothorpes : Z) : outcome Z :=
  match rest with
  | [] => Undef
  | c :: rest' =>
      if c =? 0 then Ok (dv + 1 + octothorpes * 4)
      else data_start rest' (dv + 1) (if c =? chr "#" then octothorpes + 1 else octothorpes)
  end.
Definition tpl_find_data_start (d : list Z) : outcome Z := data_start (zdrop 8 d) 8 0.

(** The fields of the image [d] from [dv] on go to the memory [m]. *)
Fixpoint unpack_loop (swap : bool) (d : list Z) (dv : Z) (cs : list tpl_node) (m : list Z) : outcome (list Z) :=
  match cs with
  | [] => Ok m
  | c :: cs' =>
      let! bs := load d dv (type_sz (n_type c)) in
      let! m := store m (n_addr c) (if swap then tpl_byteswap bs else bs) in
      unpack_loop swap d (dv + type_sz (n_type c)) cs' m
  end.
Definition tpl_unpack (r : tpl_root) (d : list Z) (m : list Z) : outcome (list Z) :=
  let! dv := tpl_find_data_start d in unpack_loop (xendian d) d dv (r_children r) m.

(** ** The structure of the program (vpb/common.c) *)

Definition con_fmt : list Z := codes "S($(uvuv)uuvuuuuvv)".

(** [struct con_info_type] in memory: [pad] are the two bytes behind
    [has_timestamp]. *)
Definition info_bytes (pad : Z) (i : con_info_type) : list Z :=
  let o := ci_options i in
  con_bytes (ci_con_id i) ++ le_split 4 (ci_send_seq i) ++ le_split 4 (ci_recv_seq i) ++
  le_split 2 (has_timestamp o) ++ le_split 2 pad ++ le_split 4 (timestamp o) ++ le_split 4 (mss_clamp o) ++
  le_split 4 (snd_wscale o) ++ le_split 4 (rcv_wscale o) ++ le_split 2 (has_rcv_wscale o) ++
  le_split 2 (con_type o).
Definition sizeof_con_info : Z := 48.

Definition info_of_bytes (m : list Z) : con_info_type :=
  let w n o := le_combine (ztake n (zdrop o m)) in
  mk_con_info (con_of_bytes (ztake 16 m)) (w 4 16) (w 4 20)
    (mk_options (w 2 24) (w 4 28) (w 4 32) (w 4 36) (w 4 40) (w 2 44) (w 2 46)).

(** [tpl_dump] stores the size as a [size_t] at the address it is given, which
    is that of an [int] of the caller: in its stack frame at [len]. *)
Definition store_size (frame : list Z) (len sz : Z) : outcome (list Z) := store frame len (le_split 8 sz).

(** The image of the structure in the memory [m]. *)
Definition con_info_serialize (m : list Z) : outcome (list Z * Z) :=
  let! r := tpl_map con_fmt [0] in
  match r with
  | Mapped r => let! r := tpl_pack m r in Ok (tpl_dump r)
  | _ => Undef
  end.

(** The result of [tpl_load] is not looked at. *)
Definition con_info_deserialize (m buf : list Z) : outcome (list Z) :=
  let! r := tpl_map con_fmt [0] in
  match r with
  | Mapped r => tpl_unpack r buf m
  | _ => Undef
  end.
