(* ===== verification/ConSpec.v ===== *)
(** * What the connection manager decides

    For any history of SYNs and packets sent by the guest, [check_block] holds
    a packet back exactly when its connection is managed and it acknowledges
    more than the guest has sent since the SYN, and it never meets the branch
    that would lock the mutex its caller holds.  Where sequence numbers wrap
    around, it blocks for ever. *)

From S2P Require Import Prelude Bytes Ringbuf RingbufSpec ConManager.

Open Scope Z_scope.

(** ** Histories *)

(** The key of the other direction, as [flush_con_out_seq] makes it. *)
Definition swap_con (c : con_id_type) : con_id_type :=
  mk_con (dst_ip c) (dst_port c) 0 (src_ip c) (src_port c) 0.

(** A SYN that was agreed on, and a packet of the guest. *)
Inductive con_event :=
| Syn (isn : Z) (con : con_id_type)
| Sent (seq : Z) (con : con_id_type).

Definition con_step (t : con_tables) (e : con_event) : outcome con_tables :=
  match e with
  | Syn isn con => save_isn t (u32 isn) con
  | Sent seq con => update_con_out_seq t (u32 seq) con
  end.

Fixpoint con_run (t : con_tables) (es : list con_event) : outcome con_tables :=
  match es with
  | [] => Ok t
  | e :: es' => let! t := con_step t e in con_run t es'
  end.

(** The highest sequence number sent on [con] since its last SYN. *)
Definition highest_step (con : con_id_type) (acc : Z) (e : con_event) : Z :=
  match e with
  | Syn _ c => if decide (swap_con c = clean_con con) then 0 else acc
  | Sent seq c => if decide (clean_con c = clean_con con) then Z.max acc (u32 seq) else acc
  end.
Definition highest (con : con_id_type) (es : list con_event) : Z :=
  fold_left (highest_step con) es 0.

Definition is_syn (key : con_id_type) (e : con_event) : bool :=
  match e with Syn _ c => bool_decide (c = key) | Sent _ _ => false end.

(** ** One step *)

(** The tables know the outgoing side of every managed connection. *)
Definition con_known (t : con_tables) : Prop :=
  forall c, is_Some (con_isn_list t !! c) -> is_Some (con_out_seq_list t !! swap_con c).

Definition con_inv (t : con_tables) : Prop :=
  out_lock t = false /\ con_known t.

Lemma clean_swap c : clean_con (swap_con c) = swap_con c.
Proof. done. Qed.

Lemma LOCK_free t : out_lock t = false -> LOCK t = Ok (set_out_lock true t).
Proof. unfold LOCK. by intros ->. Qed.

Lemma save_isn_run t isn c :
  out_lock t = false ->
  save_isn t isn c = Ok (mk_tables (<[c := isn]> (con_isn_list t))
    (<[swap_con c := 0]> (con_out_seq_list t)) false (tcp_wakeups t)).
Proof. intros H. unfold save_isn, flush_con_out_seq. by rewrite LOCK_free. Qed.

Lemma update_run t seq c :
  out_lock t = false ->
  exists t', update_con_out_seq t seq c = Ok t' /\ out_lock t' = false /\
    con_isn_list t' = con_isn_list t /\
    con_out_seq_list t' =
      match con_out_seq_list t !! clean_con c with
      | Some s => if seq <=? s then con_out_seq_list t
                  else <[clean_con c := seq]> (con_out_seq_list t)
      | None => <[clean_con c := seq]> (con_out_seq_list t)
      end.
Proof.
  intros H. unfold update_con_out_seq. rewrite LOCK_free by done.
  cbn [obind con_out_seq_list set_out_lock].
  destruct (con_out_seq_list t !! clean_con c) as [s|]; [destruct (seq <=? s)|];
    rewrite ?LOCK_free by done; eauto.
Qed.

Lemma con_step_inv t e :
  con_inv t -> exists t', con_step t e = Ok t' /\ con_inv t' /\
    (forall con, default 0 (con_out_seq_list t' !! clean_con con) =
       highest_step con (default 0 (con_out_seq_list t !! clean_con con)) e) /\
    (forall key, is_Some (con_isn_list t' !! key) <->
       is_Some (con_isn_list t !! key) \/ is_syn key e = true).
Proof.
  intros [Hl Hi]. destruct e as [isn c|seq c]; cbn [con_step highest_step is_syn].
  - eexists. split; [by apply save_isn_run|]. split_and!; cbn.
    + split; [done|]. intros c' Hc. cbn in *. destruct (decide (swap_con c' = swap_con c)) as [->|Hne].
      { rewrite lookup_insert_eq. eauto. }
      rewrite lookup_insert_ne by congruence. rewrite lookup_insert_ne in Hc by congruence. auto.
    + intros con. case_decide as He; [rewrite He, lookup_insert_eq; done|].
      by rewrite lookup_insert_ne.
    + intros key. rewrite bool_decide_eq_true. destruct (decide (c = key)) as [->|].
      * rewrite lookup_insert_eq. split; eauto.
      * rewrite lookup_insert_ne by done. intuition congruence.
  - destruct (update_run t (u32 seq) c Hl) as (t' & -> & Hl' & Hisn & Hout).
    exists t'. split; [done|]. pose proof (u32_range seq). split_and!.
    + split; [done|]. unfold con_known. rewrite Hisn, Hout. intros c' Hc%Hi.
      destruct (con_out_seq_list t !! clean_con c) as [s|]; [destruct (_ <=? s); [done|]|];
        apply lookup_insert_is_Some'; auto.
    + intros con. rewrite Hout. case_decide as He.
      * rewrite He. destruct (con_out_seq_list t !! clean_con con) as [s|] eqn:Hs;
          [destruct (Z.leb_spec (u32 seq) s)|]; rewrite ?Hs, ?lookup_insert_eq; cbn; lia.
      * destruct (con_out_seq_list t !! clean_con c) as [s|]; [destruct (_ <=? s); [done|]|];
          by rewrite lookup_insert_ne.
    + intros key. rewrite Hisn. intuition congruence.
Qed.

Lemma con_run_inv es t :
  con_inv t -> exists t', con_run t es = Ok t' /\ con_inv t' /\
    (forall con, default 0 (con_out_seq_list t' !! clean_con con) =
       fold_left (highest_step con) es (default 0 (con_out_seq_list t !! clean_con con))) /\
    (forall key, is_Some (con_isn_list t' !! key) <->
       is_Some (con_isn_list t !! key) \/ existsb (is_syn key) es = true).
Proof.
  revert t. induction es as [|e es IH]; intros t Hi; cbn [con_run fold_left existsb].
  - exists t. split_and!; intuition congruence.
  - destruct (con_step_inv t e Hi) as (t1 & -> & Hi1 & Ho1 & Hk1). cbn [obind].
    destruct (IH t1 Hi1) as (t2 & -> & Hi2 & Ho2 & Hk2). exists t2. split_and!; [done..| |].
    + intros con. by rewrite Ho2, Ho1.
    + intros key. rewrite Hk2, Hk1, orb_true_iff. intuition congruence.
Qed.

(** ** Theorems *)

(** The key [check_block] looks the initial sequence number up with. *)
Definition isn_key (h1 h2 : Z) (con : con_id_type) : con_id_type :=
  mk_con (dst_ip con) (dst_port con) h1 (src_ip con) (src_port con) h2.

Lemma swap_isn_key h1 h2 con : swap_con (isn_key h1 h2 con) = clean_con con.
Proof. done. Qed.

Definition blocks (t : con_tables) (h1 h2 ack : Z) (con : con_id_type) : bool :=
  match con_isn_list t !! isn_key h1 h2 con with
  | Some _ => u32 (default 0 (con_out_seq_list t !! clean_con con) + 1) <? ack
  | None => false
  end.

(** Also when the caller holds [out_lock]. *)
Lemma check_block_answers t h1 h2 ack con :
  con_known t -> check_block t h1 h2 ack con = Ok (c_bool (blocks t h1 h2 ack con), t).
Proof.
  intros Hi. unfold check_block, blocks, get_isn. fold (isn_key h1 h2 con).
  destruct (con_isn_list t !! isn_key h1 h2 con) as [isn|] eqn:Hs; [|done].
  destruct (Hi (isn_key h1 h2 con)) as [s Hseq]; [eauto|]. rewrite swap_isn_key in Hseq.
  unfold get_con_out_seq. rewrite Hseq. cbn [obind default]. by destruct (_ <? ack).
Qed.

(** C32. After any history of SYNs and packets of the guest, [check_block]
    called as [handle_tcp_buffer] calls it, with [out_lock] held, returns and
    changes nothing: it does not meet the branch of [get_con_out_seq] that
    would lock [out_lock] again.  It answers 1 exactly when a SYN was agreed on
    for the connection, under the same bytes in the holes of the key, and the
    packet acknowledges more than one past the highest sequence number the guest
    has sent on it since the SYN, compared as 32-bit numbers. *)
Theorem check_block_after_history es h1 h2 ack con :
  exists t, con_run con_manager_tables es = Ok t /\
    check_block (set_out_lock true t) h1 h2 ack con =
      Ok (c_bool (existsb (is_syn (isn_key h1 h2 con)) es && (u32 (highest con es + 1) <? ack)),
          set_out_lock true t).
Proof.
  destruct (con_run_inv es con_manager_tables) as (t & -> & [_ Hi] & Ho & Hk).
  { split; [done|]. intros c [? Hc]. cbn in Hc. by rewrite lookup_empty in Hc. }
  exists t. split; [done|]. specialize (Ho con). specialize (Hk (isn_key h1 h2 con)).
  cbn in Ho, Hk. rewrite !lookup_empty in *. cbn [default] in Ho. fold (highest con es) in Ho.
  rewrite <- Ho, check_block_answers by done. unfold blocks. cbn [con_isn_list con_out_seq_list set_out_lock].
  destruct (con_isn_list t !! isn_key h1 h2 con) as [isn|] eqn:Hs.
  - destruct Hk as [[Hk|Hk] _]; [eauto|by destruct Hk|]. by rewrite Hk.
  - destruct (existsb _ _); [|done]. destruct Hk as [_ Hk].
    destruct Hk as [? Hk]; [by right|]. congruence.
Qed.

(** Sequence numbers that wrap around block a connection for ever.  Once
    the guest has sent the sequence number 2^32 - 1, no later packet of the
    guest changes the entry, since only larger numbers do, and every packet
    of the client that acknowledges anything is held back. *)
Theorem seq_wrap_blocks_for_ever t con h1 h2 ups ack :
  out_lock t = false -> con_out_seq_list t !! clean_con con = Some (2 ^ 32 - 1) ->
  is_Some (con_isn_list t !! isn_key h1 h2 con) -> 0 < ack ->
  exists t', con_run t (map (fun '(seq, c) => Sent seq c) ups) = Ok t' /\
    check_block t' h1 h2 ack con = Ok (1, t').
Proof.
  intros Hl Ho Hk Hack. enough (exists t', con_run t (map (fun '(seq, c) => Sent seq c) ups) = Ok t' /\
    con_out_seq_list t' !! clean_con con = Some (2 ^ 32 - 1) /\
    is_Some (con_isn_list t' !! isn_key h1 h2 con)) as (t' & Hrun & Ho' & [isn Hk']).
  { exists t'. split; [done|]. unfold check_block, get_isn, get_con_out_seq.
    fold (isn_key h1 h2 con). rewrite Hk', Ho'. cbn [obind].
    change (u32 (2 ^ 32 - 1 + 1)) with 0. by rewrite (proj2 (Z.ltb_lt _ _)). }
  revert t Hl Ho Hk. induction ups as [|[seq c] ups IH]; intros t Hl Ho Hk; cbn [map con_run]; [eauto|].
  cbn [con_step]. destruct (update_run t (u32 seq) c Hl) as (t1 & -> & Hl1 & Hisn & Hout).
  cbn [obind]. apply IH; [done| |by rewrite Hisn]. rewrite Hout.
  pose proof (u32_range seq). destruct (decide (clean_con c = clean_con con)) as [He|He].
  - rewrite He, Ho. by rewrite (proj2 (Z.leb_le _ _)) by lia.
  - destruct (con_out_seq_list t !! clean_con c); [destruct (_ <=? _); [done|]|];
      by rewrite lookup_insert_ne.
Qed.

Definition demo_con : con_id_type := mk_con 1677792778 8080 0 33560074 4000 0.

Lemma seq_wrap_blocks_for_ever_witness :
  let t := mk_tables {[ swap_con demo_con := 5 ]} {[ demo_con := 2 ^ 32 - 1 ]} false 0 in
  exists t', con_run t [Sent 100 demo_con; Sent 2000 demo_con] = Ok t' /\
    check_block t' 0 0 101 demo_con = Ok (1, t').
Proof.
  intros t. apply (seq_wrap_blocks_for_ever t demo_con 0 0 [(100, demo_con); (2000, demo_con)] 101).
  - reflexivity.
  - reflexivity.
  - exists 5. reflexivity.
  - lia.
Defined.
