(* ===== verification/Segment.v ===== *)
(** * TCP segments as the packet handlers see them

    The bytes of an Ethernet frame with an IPv4 and a TCP header behind the
    ten bytes of [MSG_OFF], and the fields [watch_guest_out] and
    [do_action_raw] read from them, whatever options the two headers have. *)

From S2P Require Import Prelude Bytes Ringbuf RingbufSpec ConManager ConSpec.

Open Scope Z_scope.

(** Network byte order. *)
Definition be (n : nat) (v : Z) : list Z := rev (le_split n v).

Record tcp_segment := mk_segment {
  sg_pre : list Z;      (* up to the type of the frame: 22 bytes *)
  sg_tos : Z;
  sg_id : list Z;       (* identification, fragment, time to live: 5 bytes *)
  sg_sum : list Z;      (* 2 bytes *)
  sg_src : Z;           (* addresses and ports in network byte order *)
  sg_dst : Z;
  sg_ipopt : list Z;
  sg_sport : Z;
  sg_dport : Z;
  sg_seq : Z;
  sg_ack : Z;
  sg_x2 : Z;
  sg_flags : Z;
  sg_win : list Z;      (* window, checksum, urgent pointer: 6 bytes *)
  sg_tcpopt : list Z;
  sg_len : Z            (* of the payload *)
}.

Definition sg_chunks (s : tcp_segment) : list (list Z) :=
  [sg_pre s; [8; 0];
   [64 + (5 + zlen (sg_ipopt s) / 4)]; [sg_tos s];
   be 2 (40 + zlen (sg_ipopt s) + zlen (sg_tcpopt s) + sg_len s);
   sg_id s; [6]; sg_sum s; le_split 4 (sg_src s); le_split 4 (sg_dst s); sg_ipopt s;
   le_split 2 (sg_sport s); le_split 2 (sg_dport s); be 4 (sg_seq s); be 4 (sg_ack s);
   [16 * (5 + zlen (sg_tcpopt s) / 4) + sg_x2 s]; [sg_flags s]; sg_win s; sg_tcpopt s].

(** The frame up to the payload. *)
Definition sg_header (s : tcp_segment) : list Z := concat (sg_chunks s).

(** At most ten words of options in each header, and a packet whose length
    is not negative as a [short]. *)
Record sg_ok (s : tcp_segment) : Prop := {
  sgo_pre : zlen (sg_pre s) = 22;
  sgo_id : zlen (sg_id s) = 5;
  sgo_sum : zlen (sg_sum s) = 2;
  sgo_win : zlen (sg_win s) = 6;
  sgo_ipopt : exists k, zlen (sg_ipopt s) = 4 * k /\ 0 <= k <= 10;
  sgo_tcpopt : exists k, zlen (sg_tcpopt s) = 4 * k /\ 0 <= k <= 10;
  sgo_x2 : 0 <= sg_x2 s < 16;
  sgo_flags : 0 <= sg_flags s < 256;
  sgo_src : 0 <= sg_src s < 2 ^ 32;
  sgo_dst : 0 <= sg_dst s < 2 ^ 32;
  sgo_sport : 0 <= sg_sport s < 2 ^ 16;
  sgo_dport : 0 <= sg_dport s < 2 ^ 16;
  sgo_len : 0 <= sg_len s /\ 40 + zlen (sg_ipopt s) + zlen (sg_tcpopt s) + sg_len s < 2 ^ 15
}.

(** ** Byte order *)

Lemma le_split_combine bs : Forall byte_ok bs -> le_split (length bs) (le_combine bs) = bs.
Proof.
  induction 1 as [|b bs Hb _ IH]; cbn [length le_split le_combine]; [done|]. unfold byte_ok in Hb.
  rewrite Z.mul_comm, Z_mod_plus_full, Z.mod_small by lia.
  rewrite Z.div_add, Z.div_small by lia. by rewrite Z.add_0_l, IH.
Qed.

Lemma swap_be n v : le_combine (rev (le_split n (le_combine (be n v)))) = v mod 256 ^ Z.of_nat n.
Proof.
  unfold be. replace (le_split n _) with (rev (le_split n v)).
  - by rewrite rev_involutive, le_combine_split.
  - symmetry. rewrite <- (length_le_split n v) at 1. rewrite <- (length_rev (le_split n v)).
    apply le_split_combine, List.Forall_rev, le_split_bytes.
Qed.

Lemma ntohs_be v : ntohs (le_combine (be 2 v)) = u16 v.
Proof. apply swap_be. Qed.
Lemma ntohl_be v : ntohl (le_combine (be 4 v)) = u32 v.
Proof. apply swap_be. Qed.

Lemma zlen_le_split n v : zlen (le_split n v) = Z.of_nat n.
Proof. unfold zlen. by rewrite length_le_split. Qed.
Lemma zlen_be n v : zlen (be n v) = Z.of_nat n.
Proof. unfold zlen, be. by rewrite length_rev, length_le_split. Qed.

Lemma sint16_small x : 0 <= x < 2 ^ 15 -> sint 16 x = x.
Proof. intros. unfold sint. rewrite wrap_small; lia. Qed.

Lemma low_nibble a b : 0 <= a < 16 -> Z.land (16 * b + a) 15 = a.
Proof. intros. rewrite (Z.land_ones _ 4) by lia. rewrite Z.add_comm, Z.mul_comm, Z_mod_plus_full, Z.mod_small; lia. Qed.

Lemma high_nibble a b : 0 <= a < 16 -> Z.shiftr (16 * b + a) 4 = b.
Proof. intros. rewrite Z.shiftr_div_pow2 by lia. rewrite Z.mul_comm, Z.div_add_l, Z.div_small by lia. lia. Qed.

(** ** Reading a field *)

(** The [k]-th chunk of a frame. *)
Lemma chunk_at cs k (c post : list Z) o n :
  cs !! k = Some c -> o = zlen (concat (take k cs)) -> n = zlen c ->
  ztake n (zdrop o (concat cs ++ post)) = c /\ o + n <= zlen (concat cs).
Proof.
  intros Hk -> ->. rewrite <- (take_drop_middle cs k c Hk) at 2 4. rewrite concat_app. cbn [concat].
  set (pre := concat (take k cs)). set (suf := concat (drop (S k) cs)). rewrite <- !app_assoc.
  pose proof (zlen_nonneg suf). rewrite !zlen_app. split; [|lia].
  rewrite zdrop_app_r by lia. rewrite Z.sub_diag, zdrop_le0 by lia.
  rewrite ztake_app_l by lia. by rewrite ztake_ge.
Qed.

Lemma load_chunk cs k c post o n :
  cs !! k = Some c -> o = zlen (concat (take k cs)) -> n = zlen c ->
  load (concat cs ++ post) o n = Ok c.
Proof.
  intros Hk Ho Hn. destruct (chunk_at cs k c post o n Hk Ho Hn) as [Hc Hle].
  pose proof (zlen_nonneg (concat (take k cs))). pose proof (zlen_nonneg c).
  pose proof (zlen_nonneg post). unfold load. rewrite zlen_app.
  rewrite !(proj2 (Z.leb_le _ _)) by lia. cbn [andb]. by rewrite Hc.
Qed.

Section Fields.

Context (s : tcp_segment) (post : list Z) (Hs : sg_ok s).

Local Abbreviation ip := (eth_hdr_len + MSG_OFF).
Local Abbreviation tcp := (44 + zlen (sg_ipopt s)).
Local Abbreviation buf := (sg_header s ++ post).

Lemma sg_field k o n c :
  sg_chunks s !! k = Some c -> o = zlen (concat (take k (sg_chunks s))) -> n = zlen c ->
  field n buf o = Ok (le_combine c).
Proof. intros. unfold field, sg_header. by rewrite (load_chunk _ k c). Qed.

Local Ltac pick k :=
  eapply (sg_field k); [reflexivity| |rewrite ?zlen_be, ?zlen_le_split; reflexivity];
  destruct Hs; cbn [sg_chunks take concat]; rewrite ?zlen_app, ?zlen_be, ?zlen_le_split;
  unfold eth_hdr_len, MSG_OFF; change (zlen (@nil Z)) with 0;
  repeat match goal with |- context [zlen [?a]] => change (zlen [a]) with 1 end;
  change (zlen [8; 0]) with 2; lia.

Lemma sg_ether_type : field 2 buf (MSG_OFF + 12) = Ok 8.
Proof. change (Ok 8) with (Ok (le_combine [8; 0])). pick 1%nat. Qed.
Lemma sg_ip_p : field 1 buf (ip + 9) = Ok 6.
Proof. change (Ok 6) with (Ok (le_combine [6])). pick 6%nat. Qed.
Lemma sg_ip_src : field 4 buf (ip + 12) = Ok (sg_src s).
Proof.
  rewrite <- (Z.mod_small (sg_src s) (256 ^ 4)) by (pose proof (sgo_src _ Hs); lia).
  rewrite <- (le_combine_split 4). pick 8%nat.
Qed.
Lemma sg_ip_dst : field 4 buf (ip + 16) = Ok (sg_dst s).
Proof.
  rewrite <- (Z.mod_small (sg_dst s) (256 ^ 4)) by (pose proof (sgo_dst _ Hs); lia).
  rewrite <- (le_combine_split 4). pick 9%nat.
Qed.
Lemma sg_th_sport : field 2 buf tcp = Ok (sg_sport s).
Proof.
  rewrite <- (Z.mod_small (sg_sport s) (256 ^ 2)) by (pose proof (sgo_sport _ Hs); lia).
  rewrite <- (le_combine_split 2). pick 11%nat.
Qed.
Lemma sg_th_dport : field 2 buf (tcp + 2) = Ok (sg_dport s).
Proof.
  rewrite <- (Z.mod_small (sg_dport s) (256 ^ 2)) by (pose proof (sgo_dport _ Hs); lia).
  rewrite <- (le_combine_split 2). pick 12%nat.
Qed.
Lemma sg_th_seq : field 4 buf (tcp + 4) = Ok (le_combine (be 4 (sg_seq s))).
Proof. pick 13%nat. Qed.
Lemma sg_th_ack : field 4 buf (tcp + 8) = Ok (le_combine (be 4 (sg_ack s))).
Proof. pick 14%nat. Qed.
Lemma sg_th_flags : field 1 buf (tcp + 13) = Ok (sg_flags s).
Proof.
  replace (sg_flags s) with (le_combine [sg_flags s]) by (cbn; lia). pick 16%nat.
Qed.

Lemma sg_ip_header_size : ip_header_size buf ip = Ok (20 + zlen (sg_ipopt s)).
Proof.
  unfold ip_header_size.
  replace (field 1 buf ip) with (Ok (le_combine [64 + (5 + zlen (sg_ipopt s) / 4)]))
    by (symmetry; pick 2%nat). cbn [obind le_combine].
  destruct (sgo_ipopt _ Hs) as (k & Hk & Hr). rewrite Hk.
  replace (64 + (5 + 4 * k / 4) + 256 * 0) with (16 * 4 + (5 + k))
    by (rewrite (Z.mul_comm 4 k), Z.div_mul; lia).
  rewrite low_nibble by lia. rewrite (Z.land_ones _ 4), Z.mod_small by lia. f_equal. lia.
Qed.

Lemma sg_tcp_header_size : tcp_header_size buf tcp = Ok (20 + zlen (sg_tcpopt s)).
Proof.
  unfold tcp_header_size.
  replace (field 1 buf (tcp + 12)) with
    (Ok (le_combine [16 * (5 + zlen (sg_tcpopt s) / 4) + sg_x2 s])) by (symmetry; pick 15%nat).
  cbn [obind le_combine]. destruct (sgo_tcpopt _ Hs) as (k & Hk & Hr). rewrite Hk.
  rewrite (Z.mul_comm 4 k), Z.div_mul, Z.add_0_r by lia.
  rewrite high_nibble by apply Hs. rewrite (Z.land_ones _ 4), Z.mod_small by lia. f_equal. lia.
Qed.

Lemma sg_payload : payload_length buf ip tcp = Ok (sg_len s).
Proof.
  unfold payload_length. rewrite sg_ip_header_size. cbn [obind].
  replace (field 2 buf (ip + 2)) with
    (Ok (le_combine (be 2 (40 + zlen (sg_ipopt s) + zlen (sg_tcpopt s) + sg_len s))))
    by (symmetry; pick 4%nat). cbn [obind].
  pose proof (sgo_len _ Hs). pose proof (zlen_nonneg (sg_ipopt s)). pose proof (zlen_nonneg (sg_tcpopt s)).
  rewrite ntohs_be, (wrap_small 16), sint16_small, sg_tcp_header_size by lia. cbn [obind].
  rewrite (proj2 (Z.ltb_ge _ _)) by lia. f_equal. lia.
Qed.

End Fields.

Lemma watch_segment t h1 h2 s post len :
  sg_ok s -> eth_hdr_len + MSG_OFF < len ->
  watch_guest_out t h1 h2 (sg_header s ++ post) len =
    update_con_out_seq t (u32 (sg_seq s + sg_len s))
      (mk_con (sg_dst s) (sg_dport s) h1 (sg_src s) (sg_sport s) h2).
Proof.
  intros Hs Hlen. unfold watch_guest_out. rewrite Z.gtb_ltb, (proj2 (Z.ltb_lt _ _)) by lia.
  rewrite (sg_ether_type s post Hs). cbn [obind Z.eqb Pos.eqb].
  rewrite (sg_ip_p s post Hs). cbn [obind Z.eqb Pos.eqb].
  rewrite (sg_ip_header_size s post Hs). cbn [obind].
  replace (eth_hdr_len + (20 + zlen (sg_ipopt s)) + MSG_OFF) with (44 + zlen (sg_ipopt s))
    by (unfold eth_hdr_len, MSG_OFF; lia).
  rewrite (sg_ip_dst s post Hs). cbn [obind]. rewrite (sg_th_dport s post Hs). cbn [obind].
  rewrite (sg_ip_src s post Hs). cbn [obind]. rewrite (sg_th_sport s post Hs). cbn [obind].
  rewrite (sg_payload s post Hs). cbn [obind]. rewrite (sg_th_seq s post Hs). cbn [obind].
  rewrite ntohl_be. f_equal. unfold wrap. by rewrite Zplus_mod_idemp_l.
Qed.

(** [watch_guest_out] records every TCP segment the guest sends, under the
    key of the opposite direction and with the sequence number behind its
    payload modulo 2^32, whatever options its headers have and also when [recv]
    cut the payload off. *)
Theorem guest_segment_is_recorded t h1 h2 s post len :
  sg_ok s -> eth_hdr_len + MSG_OFF < len ->
  watch_guest_out t h1 h2 (sg_header s ++ post) len =
    update_con_out_seq t (u32 (sg_seq s + sg_len s))
      (mk_con (sg_dst s) (sg_dport s) h1 (sg_src s) (sg_sport s) h2).
Proof. apply watch_segment. Qed.

Definition demo_segment : tcp_segment :=
  mk_segment (replicate 22 0) 0 [0; 1; 0; 0; 64] [0; 0] 1677792778 33560074 [1; 1; 1; 0]
    36895 41231 1000 500 0 16 [1; 1; 0; 0; 0; 0] [] 100.

Lemma guest_segment_is_recorded_witness :
  watch_guest_out con_manager_tables 7 7 (sg_header demo_segment ++ replicate 100 1) 168 =
    update_con_out_seq con_manager_tables 1100 (mk_con 33560074 41231 7 1677792778 36895 7).
Proof.
  apply (guest_segment_is_recorded con_manager_tables 7 7 demo_segment (replicate 100 1) 168).
  - split; try reflexivity; [exists 1|exists 0|..]; split; vm_compute; try reflexivity; try split; discriminate.
  - reflexivity.
Defined.
