(* ===== verification/PacketBuffer.v ===== *)
(** * The packet buffers (packet-buffer/packet-buffer.c)

    Packets the servers agreed on wait in two ring buffers: everything that
    goes to the guest in [outgoing_buffer], and before that the TCP segments
    in [tcp_buffer] until the guest has produced what they acknowledge.  When
    a server becomes leader, a marker in each of them tells the guest when
    the last packet of its time as a follower was fed to it.

    The operations run under spin locks; they are modelled as atomic steps,
    and the order in which they take the locks separately. *)

From S2P Require Import Prelude Bytes Ringbuf Fifo ConManager.

Open Scope Z_scope.

Definition OUTGOING_BUFFER_SIZE : Z := 5120000000.
Definition TCP_BUFFER_SIZE : Z := 5120000000.
Definition TCP_DONE_FLAG : Z := 100000000.
Definition UDP_DONE_FLAG : Z := 200000000.
Definition UINT32_MAX : Z := 4294967295.

Record packet_buffers (Q : Type) := mk_buffers {
  outgoing_buffer : Q;
  tcp_buffer : Q;
  udp_done : Z;
  tcp_done : Z
}.
Arguments mk_buffers {Q}.
Arguments outgoing_buffer {Q}.
Arguments tcp_buffer {Q}.
Arguments udp_done {Q}.
Arguments tcp_done {Q}.

(** [None]: a ring buffer that could not be allocated is not tested for. *)
Definition init_packet_buffer (ok : bool) (malloc : Z -> option (list Z))
    : option (packet_buffers ringbuf_t) :=
  match ringbuf_new ok malloc OUTGOING_BUFFER_SIZE, ringbuf_new ok malloc TCP_BUFFER_SIZE with
  | Some o, Some t => Some (mk_buffers o t 0 0)
  | _, _ => None
  end.

Section Buffers.

Context {Q : Type} {F : Fifo Q}.

Definition set_outgoing (q : Q) (p : packet_buffers Q) : packet_buffers Q :=
  mk_buffers q (tcp_buffer p) (udp_done p) (tcp_done p).
Definition set_tcp (q : Q) (p : packet_buffers Q) : packet_buffers Q :=
  mk_buffers (outgoing_buffer p) q (udp_done p) (tcp_done p).
Definition set_done (u t : Z) (p : packet_buffers Q) : packet_buffers Q :=
  mk_buffers (outgoing_buffer p) (tcp_buffer p) u t.

(** [ringbuf_memcpy_from(&v, q, n)] for a local variable; a variable that
    stays uninitialised is read afterwards. *)
Definition get_var (q : Q) (n : Z) : outcome (Z * Q) :=
  let! (r, q) := fifo_get q n in
  match r with
  | Some bs => Ok (le_combine bs, q)
  | None => Undef
  end.

(** The result, and what [*buffer] holds: [None] is memory that is not
    initialised, or no memory. *)
Definition read_from_packet_buffer (p : packet_buffers Q)
    : outcome (Z * option (list Z) * packet_buffers Q) :=
  let len := fifo_used (outgoing_buffer p) in
  if len <=? 0 then Ok (0, None, p)
  else
    let! (buffer_len, q) := get_var (outgoing_buffer p) 8 in
    let! (r, q) := fifo_get q buffer_len in
    Ok (sint 32 buffer_len, r, set_outgoing q p).

Definition write_to_packet_buffer (p : packet_buffers Q) (buffer : list Z) (len : Z)
    : outcome (Z * packet_buffers Q) :=
  let! q := fifo_put (outgoing_buffer p) (le_split 8 len) in
  let! bs := load buffer 0 len in
  let! q := fifo_put q bs in
  Ok (sint 32 len, set_outgoing q p).

(** The result and the bytes copied to [buffer]; [maxlen] is ignored. *)
Definition packet_buffer_to_buffer (p : packet_buffers Q) (maxlen : Z)
    : outcome (Z * list Z * packet_buffers Q) :=
  let len := sint 32 (fifo_used (outgoing_buffer p)) in
  if len <=? 0 then Ok (0, [], p)
  else
    let! (next_buffer_len, q) := get_var (outgoing_buffer p) 8 in
    let p := set_outgoing q p in
    if next_buffer_len =? TCP_DONE_FLAG then
      if udp_done p =? 1 then Ok (-99, [], set_done 0 0 p)
      else Ok (0, [], set_done (udp_done p) 1 p)
    else if next_buffer_len =? UDP_DONE_FLAG then
      if tcp_done p =? 1 then Ok (-99, [], set_done 0 0 p)
      else Ok (0, [], set_done 1 (tcp_done p) p)
    else
      let! (r, q) := fifo_get q next_buffer_len in
      Ok (sint 32 next_buffer_len, default [] r, set_outgoing q p).

Definition write_to_tcp_buffer (p : packet_buffers Q) (con_id : con_id_type) (ack : Z)
    (buffer : list Z) (len : Z) : outcome (Z * packet_buffers Q) :=
  let! q := fifo_put (tcp_buffer p) (con_bytes con_id) in
  let! q := fifo_put q (le_split 4 ack) in
  let! q := fifo_put q (le_split 8 len) in
  let! bs := load buffer 0 len in
  let! q := fifo_put q bs in
  Ok (sint 32 len, set_tcp q p).

(** A load through the pointer to the next entry. *)
Definition peek (q : Q) (o n : Z) : outcome Z :=
  let! bs := fifo_peek q o n in Ok (le_combine bs).

(** The rest of [dump_tcp_buffer], once the entry may pass. *)
Definition pass_tcp (p : packet_buffers Q) : outcome (Z * packet_buffers Q) :=
  let! (con_id, q) := get_var (tcp_buffer p) sizeof_con_id in
  let! (ack, q) := get_var q 4 in
  let! (next_buffer_len, q) := get_var q 8 in
  let! (r, q) := fifo_get q next_buffer_len in
  let p := set_tcp q p in
  match r with
  | Some buffer =>
      let! q := fifo_put (outgoing_buffer p) (le_split 8 next_buffer_len) in
      let! q := fifo_put q buffer in
      Ok (sint 32 next_buffer_len, set_outgoing q p)
  | None => Undef
  end.

(** [t] are the tables of the connection manager, and [h1] and [h2] what the
    local variable of [check_block] holds in its holes. *)
Definition dump_tcp_buffer (p : packet_buffers Q) (t : con_tables) (h1 h2 : Z)
    : outcome (Z * packet_buffers Q * con_tables) :=
  let len := fifo_used (tcp_buffer p) in
  if len <=? 0 then Ok (0, p, t)
  else
    let! src := peek (tcp_buffer p) 0 4 in
    let! noop := if src =? UINT32_MAX
                 then let! dst := peek (tcp_buffer p) 8 4 in Ok (dst =? UINT32_MAX)
                 else Ok false in
    if (noop : bool) then
      let! q := fifo_put (outgoing_buffer p) (le_split 8 TCP_DONE_FLAG) in
      Ok (-99, set_outgoing q p, t)
    else
      let! ack := peek (tcp_buffer p) 16 4 in
      let! sport := peek (tcp_buffer p) 4 2 in
      let! dst := peek (tcp_buffer p) 8 4 in
      let! dport := peek (tcp_buffer p) 12 2 in
      let! (ret, t) := check_block t h1 h2 ack (mk_con src sport 0 dst dport 0) in
      if ret =? 1 then Ok (-1, p, t)
      else
        let! (n, p) := pass_tcp p in
        Ok (n, p, t).

Definition no_op_con : con_id_type := mk_con UINT32_MAX 0 0 UINT32_MAX 0 0.

Definition append_no_op (p : packet_buffers Q) : outcome (packet_buffers Q) :=
  let! q := fifo_put (tcp_buffer p) (con_bytes no_op_con) in
  let p := set_tcp q p in
  let! q := fifo_put (outgoing_buffer p) (le_split 8 UDP_DONE_FLAG) in
  Ok (set_outgoing q p).

End Buffers.

(** ** The spin locks *)

Inductive buf_lock := outgoing_buffer_lock | tcp_buffer_lock.
Inductive lock_act := pthread_spin_lock (l : buf_lock) | pthread_spin_unlock (l : buf_lock).

#[export] Instance buf_lock_eq_dec : EqDecision buf_lock.
Proof. solve_decision. Defined.

(** What each operation does with the locks, on every path. *)
Definition outgoing_locks : list lock_act :=
  [pthread_spin_lock outgoing_buffer_lock; pthread_spin_unlock outgoing_buffer_lock].
Definition write_to_tcp_locks : list lock_act :=
  [pthread_spin_lock tcp_buffer_lock; pthread_spin_unlock tcp_buffer_lock].
Definition dump_tcp_locks : list lock_act :=
  [pthread_spin_lock outgoing_buffer_lock; pthread_spin_lock tcp_buffer_lock;
   pthread_spin_unlock tcp_buffer_lock; pthread_spin_unlock outgoing_buffer_lock].
Definition append_no_op_locks : list lock_act :=
  [pthread_spin_lock tcp_buffer_lock; pthread_spin_lock outgoing_buffer_lock;
   pthread_spin_unlock outgoing_buffer_lock; pthread_spin_unlock tcp_buffer_lock].
