(* ===== verification/PacketSpec.v ===== *)
(** * What the packet buffers promise

    The two ring buffers are queues of items: packets and end markers for the
    guest, TCP segments and the no-op marker in front of them.  [a_step] is
    the abstract machine on these queues; as long as the bytes fit, the code
    gives its answers.  On that machine: no packet is lost or duplicated,
    and -99 tells the guest that every packet from before the change of
    leadership was fed to it. *)

From S2P Require Import Prelude Bytes Ringbuf Fifo RingbufSpec ConManager ConSpec Segment PacketBuffer.

Open Scope Z_scope.

(** ** Items and their bytes *)

Inductive out_item := Pkt (bs : list Z) | TcpDone | UdpDone.
Inductive tcp_item := Seg (con : con_id_type) (ack : Z) (bs : list Z) | NoOp.

Definition enc_out (i : out_item) : list Z :=
  match i with
  | Pkt bs => le_split 8 (zlen bs) ++ bs
  | TcpDone => le_split 8 TCP_DONE_FLAG
  | UdpDone => le_split 8 UDP_DONE_FLAG
  end.
Definition enc_tcp (i : tcp_item) : list Z :=
  match i with
  | Seg con ack bs => con_bytes con ++ le_split 4 ack ++ le_split 8 (zlen bs) ++ bs
  | NoOp => con_bytes no_op_con
  end.

(** A packet whose length is not one of the flags. *)
Definition plain (bs : list Z) : bool :=
  negb (zlen bs =? TCP_DONE_FLAG) && negb (zlen bs =? UDP_DONE_FLAG).

Definition con_fits (c : con_id_type) : bool :=
  (0 <=? src_ip c) && (src_ip c <? 2 ^ 32) && (0 <=? src_port c) && (src_port c <? 2 ^ 16) &&
  (0 <=? dst_ip c) && (dst_ip c <? 2 ^ 32) && (0 <=? dst_port c) && (dst_port c <? 2 ^ 16) &&
  negb ((src_ip c =? UINT32_MAX) && (dst_ip c =? UINT32_MAX)).

(** ** The abstract machine *)

Record queues := mk_queues {
  a_out : list out_item;
  a_tcp : list tcp_item;
  a_udp : bool;        (* the marker of [append_no_op] was read, *)
  a_done : bool;       (* and the one of [dump_tcp_buffer] *)
  a_fed : Z            (* bytes ever written to the TCP buffer *)
}.

Definition bytes {A} (enc : A -> list Z) (l : list A) : list Z := concat (map enc l).

Inductive pb_op :=
| Write (bs : list Z)
| WriteTcp (con : con_id_type) (ack : Z) (bs : list Z)
| Deliver
| Dump (t : con_tables) (h1 h2 : Z)
| AppendNoOp.

Section Machine.
Context (cap : Z).

(** [n] more bytes fit: the length is read as an [int]. *)
Definition out_fits (a : queues) (n : Z) : bool :=
  zlen (bytes enc_out (a_out a)) + n <=? Z.min cap (2 ^ 31 - 1).
(** The TCP buffer has not wrapped around. *)
Definition tcp_fits (a : queues) (n : Z) : bool := a_fed a + n <=? cap.

Definition add_out (i : out_item) (a : queues) : queues :=
  mk_queues (a_out a ++ [i]) (a_tcp a) (a_udp a) (a_done a) (a_fed a).
Definition add_tcp (i : tcp_item) (a : queues) : queues :=
  mk_queues (a_out a) (a_tcp a ++ [i]) (a_udp a) (a_done a) (a_fed a + zlen (enc_tcp i)).

(** The result, the bytes handed to the guest, and the new queues. *)
Definition a_step (op : pb_op) (a : queues) : option (Z * list Z * queues) :=
  match op with
  | Write bs =>
      if plain bs && out_fits a (8 + zlen bs) then Some (zlen bs, [], add_out (Pkt bs) a) else None
  | WriteTcp con ack bs =>
      if plain bs && con_fits con && (0 <=? ack) && (ack <? 2 ^ 32) && (zlen bs <? 2 ^ 31) &&
         tcp_fits a (28 + zlen bs)
      then Some (zlen bs, [], add_tcp (Seg con ack bs) a) else None
  | Deliver =>
      match a_out a with
      | [] => Some (0, [], a)
      | Pkt bs :: l => Some (zlen bs, bs, mk_queues l (a_tcp a) (a_udp a) (a_done a) (a_fed a))
      | TcpDone :: l =>
          if a_udp a then Some (-99, [], mk_queues l (a_tcp a) false false (a_fed a))
          else Some (0, [], mk_queues l (a_tcp a) false true (a_fed a))
      | UdpDone :: l =>
          if a_done a then Some (-99, [], mk_queues l (a_tcp a) false false (a_fed a))
          else Some (0, [], mk_queues l (a_tcp a) true false (a_fed a))
      end
  | Dump t h1 h2 =>
      match a_tcp a with
      | [] => Some (0, [], a)
      | NoOp :: _ => if out_fits a 8 then Some (-99, [], add_out TcpDone a) else None
      | Seg con ack bs :: l =>
          if blocks t h1 h2 ack con then Some (-1, [], a)
          else if out_fits a (8 + zlen bs)
               then Some (zlen bs, [],
                      add_out (Pkt bs) (mk_queues (a_out a) l (a_udp a) (a_done a) (a_fed a)))
               else None
      end
  | AppendNoOp =>
      if out_fits a 8 && tcp_fits a 16 then Some (0, [], add_out UdpDone (add_tcp NoOp a)) else None
  end.

Fixpoint a_run (ops : list pb_op) (a : queues) : option (list (Z * list Z) * queues) :=
  match ops with
  | [] => Some ([], a)
  | op :: ops' =>
      match a_step op a with
      | Some (n, bs, a1) =>
          match a_run ops' a1 with Some (l, a2) => Some ((n, bs) :: l, a2) | None => None end
      | None => None
      end
  end.

End Machine.

Definition a_init : queues := mk_queues [] [] false false 0.

(** ** The same operations of the code *)

Section Code.
Context {Q : Type} {F : Fifo Q}.

Definition pb_step (op : pb_op) (p : packet_buffers Q) : outcome (Z * list Z * packet_buffers Q) :=
  match op with
  | Write bs => let! (n, p) := write_to_packet_buffer p bs (zlen bs) in Ok (n, [], p)
  | WriteTcp con ack bs => let! (n, p) := write_to_tcp_buffer p con ack bs (zlen bs) in Ok (n, [], p)
  | Deliver => packet_buffer_to_buffer p 0
  | Dump t h1 h2 => let! (n, p, _) := dump_tcp_buffer p t h1 h2 in Ok (n, [], p)
  | AppendNoOp => let! p := append_no_op p in Ok (0, [], p)
  end.

Fixpoint pb_run (ops : list pb_op) (p : packet_buffers Q)
    : outcome (list (Z * list Z) * packet_buffers Q) :=
  match ops with
  | [] => Ok ([], p)
  | op :: ops' =>
      let! (n, bs, p) := pb_step op p in
      let! (l, p) := pb_run ops' p in
      Ok ((n, bs) :: l, p)
  end.

End Code.

Definition op_tables (op : pb_op) : Prop :=
  match op with Dump t _ _ => con_known t | _ => True end.

(** ** Lemmas on bytes *)

Lemma bytes_cons {A} (enc : A -> list Z) i l : bytes enc (i :: l) = enc i ++ bytes enc l.
Proof. done. Qed.
Lemma bytes_snoc {A} (enc : A -> list Z) i l : bytes enc (l ++ [i]) = bytes enc l ++ enc i.
Proof. unfold bytes. rewrite map_app, concat_app. cbn. by rewrite app_nil_r. Qed.

Lemma ztake_exact {A} (x y : list A) n : zlen x = n -> ztake n (x ++ y) = x.
Proof. intros <-. rewrite ztake_app_l by lia. by apply ztake_ge. Qed.
Lemma zdrop_exact {A} (x y : list A) n : zlen x = n -> zdrop n (x ++ y) = y.
Proof. intros <-. rewrite zdrop_app_r by lia. rewrite Z.sub_diag. by apply zdrop_le0. Qed.

Lemma le_roundtrip n v : 0 <= v < 256 ^ Z.of_nat n -> le_combine (le_split n v) = v.
Proof. intros. rewrite le_combine_split. by apply Z.mod_small. Qed.

Lemma zlen_con_bytes c : zlen (con_bytes c) = 16.
Proof. unfold con_bytes. rewrite !zlen_app, !zlen_le_split. lia. Qed.

Lemma sint32_small x : 0 <= x < 2 ^ 31 -> sint 32 x = x.
Proof. intros. unfold sint. rewrite wrap_small; lia. Qed.

Lemma load_all (bs : list Z) : load bs 0 (zlen bs) = Ok bs.
Proof.
  pose proof (zlen_nonneg bs). unfold load. rewrite !(proj2 (Z.leb_le _ _)) by lia. cbn [andb].
  rewrite zdrop_le0 by lia. by rewrite ztake_ge.
Qed.

Create Rewrite HintDb bytes.
#[export] Hint Rewrite @zlen_app zlen_le_split zlen_con_bytes @bytes_cons @bytes_snoc : bytes.

(** ** Queues of bytes *)

Section Queue.
Context {Q : Type} {F : Fifo Q}.

(** The queue holds [l], with [st] bytes to the end of the memory. *)
Definition queue_holds (cap st : Z) (q : Q) (l : list Z) : Prop :=
  fifo_ok q /\ fifo_cap q = cap /\ fifo_list q = l /\ fifo_straight q = st.

Lemma put_holds cap st q l bs :
  queue_holds cap st q l -> zlen l + zlen bs <= cap ->
  exists q', fifo_put q bs = Ok q' /\ queue_holds cap st q' (l ++ bs).
Proof.
  intros (Hok & <- & <- & <-) Hfit. destruct (fifo_put_law q bs Hok Hfit) as (q' & -> & H).
  exists q'. unfold queue_holds. intuition congruence.
Qed.

Lemma get_holds cap st q bs l n :
  queue_holds cap st q (bs ++ l) -> zlen bs = n ->
  exists q' st', fifo_get q n = Ok (Some bs, q') /\ queue_holds cap st' q' l /\ (n < st -> st' = st - n).
Proof.
  intros (Hok & <- & Hl & <-) Hn. pose proof (zlen_nonneg bs). pose proof (zlen_nonneg l).
  destruct (fifo_get_law q n Hok) as (q' & -> & H1 & H2 & H3 & H4); [rewrite Hl, zlen_app; lia|].
  exists q', (fifo_straight q'). rewrite Hl, ztake_exact, zdrop_exact in * by done. by split_and!.
Qed.

Lemma get_var_holds cap st q n v l :
  queue_holds cap st q (le_split n v ++ l) -> 0 <= v < 256 ^ Z.of_nat n ->
  exists q' st', get_var q (Z.of_nat n) = Ok (v, q') /\ queue_holds cap st' q' l /\
    (Z.of_nat n < st -> st' = st - Z.of_nat n).
Proof.
  intros H Hv. unfold get_var.
  destruct (get_holds _ _ _ _ _ _ H (zlen_le_split n v)) as (q' & st' & -> & Hq & Hst).
  exists q', st'. cbn [obind]. by rewrite le_roundtrip.
Qed.

Lemma used_holds cap st q l : queue_holds cap st q l -> fifo_used q = zlen l.
Proof. intros (Hok & _ & <- & _). by apply fifo_used_law. Qed.

(** The fields of an entry of the TCP buffer, read in place. *)
Lemma peek_chunk cap st q cs l k n v :
  queue_holds cap st q (concat cs ++ l) -> zlen (concat cs) <= st ->
  cs !! k = Some (le_split n v) -> 0 <= v < 256 ^ Z.of_nat n ->
  peek q (zlen (concat (take k cs))) (Z.of_nat n) = Ok v.
Proof.
  intros (Hok & _ & Hl & Hst) Hle Hk Hv.
  destruct (chunk_at cs k (le_split n v) l _ (Z.of_nat n) Hk eq_refl) as [Hc Hend];
    [by rewrite zlen_le_split|].
  pose proof (zlen_nonneg (concat (take k cs))). pose proof (zlen_nonneg l).
  unfold peek. rewrite fifo_peek_law; [|done|lia..|rewrite Hl, zlen_app; lia|lia].
  rewrite Hl, Hc. cbn [obind]. by rewrite le_roundtrip.
Qed.

End Queue.

(** ** The refinement *)

Definition out_ok (i : out_item) : Prop :=
  match i with Pkt bs => plain bs = true | _ => True end.
Definition tcp_ok (i : tcp_item) : Prop :=
  match i with
  | Seg con ack bs =>
      plain bs = true /\ con_fits con = true /\ 0 <= ack < 2 ^ 32 /\ zlen bs < 2 ^ 31
  | NoOp => True
  end.

(** The fields of updated states. *)
Ltac fields :=
  cbn [a_out a_tcp a_udp a_done a_fed add_out add_tcp
       outgoing_buffer tcp_buffer udp_done tcp_done set_outgoing set_tcp set_done].

Section Refinement.
Context {Q : Type} {F : Fifo Q} (cap : Z).

Record rep (p : packet_buffers Q) (a : queues) : Prop := {
  rp_out : exists st, queue_holds cap st (outgoing_buffer p) (bytes enc_out (a_out a));
  rp_tcp : queue_holds cap (cap + 1 - a_fed a + zlen (bytes enc_tcp (a_tcp a)))
             (tcp_buffer p) (bytes enc_tcp (a_tcp a));
  rp_len : zlen (bytes enc_out (a_out a)) < 2 ^ 31;
  rp_fed : zlen (bytes enc_tcp (a_tcp a)) <= a_fed a <= cap;
  rp_udp : udp_done p = c_bool (a_udp a);
  rp_done : tcp_done p = c_bool (a_done a);
  rp_outs : Forall out_ok (a_out a);
  rp_tcps : Forall tcp_ok (a_tcp a)
}.

(** Appending one item to the outgoing buffer. *)
Lemma rep_add_out p a i q :
  rep p a -> out_ok i -> out_fits cap a (zlen (enc_out i)) = true ->
  (exists st, queue_holds cap st q (bytes enc_out (a_out a) ++ enc_out i)) ->
  rep (set_outgoing q p) (add_out i a).
Proof.
  intros [H1 H2 H3 H4 H5 H6 H7 H8] Hi Hf Hq. unfold out_fits in Hf. zbool.
  split; fields; rewrite ?bytes_snoc, ?zlen_app; try done; [lia|]. by apply Forall_app_2, Forall_singleton.
Qed.

Lemma rep_put_out p a bs n :
  rep p a -> out_fits cap a n = true -> zlen bs <= n ->
  exists q st, fifo_put (outgoing_buffer p) bs = Ok q /\
    queue_holds cap st q (bytes enc_out (a_out a) ++ bs).
Proof.
  intros [[st Ho] _ _ _ _ _ _ _] Hf Hn. unfold out_fits in Hf. zbool.
  destruct (put_holds _ _ _ _ bs Ho ltac:(lia)) as (q & -> & Hq). eauto.
Qed.

(** A length and the packet behind it. *)
Lemma put_packet p a bs :
  rep p a -> out_fits cap a (8 + zlen bs) = true ->
  exists q1 q2 st, fifo_put (outgoing_buffer p) (le_split 8 (zlen bs)) = Ok q1 /\
    fifo_put q1 bs = Ok q2 /\ queue_holds cap st q2 (bytes enc_out (a_out a) ++ enc_out (Pkt bs)).
Proof.
  intros Hr Hf. pose proof (zlen_nonneg bs).
  destruct (rep_put_out p a (le_split 8 (zlen bs)) _ Hr Hf) as (q1 & st & -> & Hq);
    [rewrite zlen_le_split; lia|]. unfold out_fits in Hf. zbool.
  destruct (put_holds _ _ _ _ bs Hq) as (q2 & Hput & Hq2); [autorewrite with bytes; lia|].
  exists q1, q2, st. cbn [enc_out]. by rewrite app_assoc.
Qed.

Lemma write_refines p a bs n out a' :
  rep p a -> a_step cap (Write bs) a = Some (n, out, a') ->
  exists p', pb_step (Write bs) p = Ok (n, out, p') /\ rep p' a'.
Proof.
  intros Hr Hs. cbn [a_step] in Hs. destruct (plain bs) eqn:Hp; [|done].
  destruct (out_fits cap a _) eqn:Hf; [|done]. injection Hs as <- <- <-.
  destruct (put_packet p a bs Hr Hf) as (q1 & q2 & st & Hq1 & Hq2 & Hh).
  cbn [pb_step]. unfold write_to_packet_buffer. rewrite Hq1. cbn [obind]. rewrite load_all.
  cbn [obind]. rewrite Hq2. cbn [obind]. pose proof (zlen_nonneg bs). pose proof Hf as Hf'.
  unfold out_fits in Hf'. zbool. pose proof (zlen_nonneg (bytes enc_out (a_out a))).
  rewrite sint32_small by lia. eexists. split; [done|].
  apply (rep_add_out p a (Pkt bs) q2); eauto. cbn [enc_out]. by autorewrite with bytes.
Qed.

(** Appending one item to the TCP buffer. *)
Lemma rep_add_tcp p a i q :
  rep p a -> tcp_ok i -> tcp_fits cap a (zlen (enc_tcp i)) = true ->
  queue_holds cap (cap + 1 - a_fed a + zlen (bytes enc_tcp (a_tcp a))) q
    (bytes enc_tcp (a_tcp a) ++ enc_tcp i) ->
  rep (set_tcp q p) (add_tcp i a).
Proof.
  intros [H1 H2 H3 H4 H5 H6 H7 H8] Hi Hf Hq. unfold tcp_fits in Hf. zbool.
  pose proof (zlen_nonneg (enc_tcp i)).
  split; fields; rewrite ?bytes_snoc, ?zlen_app; try done; [|lia|by apply Forall_app_2, Forall_singleton].
  by replace (cap + 1 - (a_fed a + zlen (enc_tcp i)) + (zlen (bytes enc_tcp (a_tcp a)) + zlen (enc_tcp i)))
    with (cap + 1 - a_fed a + zlen (bytes enc_tcp (a_tcp a))) by lia.
Qed.

Lemma write_tcp_refines p a con ack bs n out a' :
  rep p a -> a_step cap (WriteTcp con ack bs) a = Some (n, out, a') ->
  exists p', pb_step (WriteTcp con ack bs) p = Ok (n, out, p') /\ rep p' a'.
Proof.
  intros Hr Hs. cbn [a_step] in Hs. destruct (_ && _) eqn:Hc in Hs; [|done]. injection Hs as <- <- <-.
  zbool. match goal with H : tcp_fits _ _ _ = true |- _ => rename H into Hf end.
  pose proof (zlen_nonneg bs). pose proof Hf as Hf'. unfold tcp_fits in Hf'. zbool.
  pose proof (rp_tcp _ _ Hr) as Hq0. pose proof (rp_fed _ _ Hr).
  cbn [pb_step]. unfold write_to_tcp_buffer.
  destruct (put_holds _ _ _ _ (con_bytes con) Hq0) as (q1 & -> & Hq1); [rewrite zlen_con_bytes; lia|].
  cbn [obind]. destruct (put_holds _ _ _ _ (le_split 4 ack) Hq1) as (q2 & -> & Hq2);
    [autorewrite with bytes; lia|]. cbn [obind].
  destruct (put_holds _ _ _ _ (le_split 8 (zlen bs)) Hq2) as (q3 & -> & Hq3);
    [autorewrite with bytes; lia|]. cbn [obind]. rewrite load_all. cbn [obind].
  destruct (put_holds _ _ _ _ bs Hq3) as (q4 & -> & Hq4); [autorewrite with bytes; lia|].
  cbn [obind]. rewrite sint32_small by lia. eexists. split; [done|].
  apply rep_add_tcp; [done|by cbn|cbn [enc_tcp]; autorewrite with bytes|].
  - replace (16 + (Z.of_nat 4 + (Z.of_nat 8 + zlen bs))) with (28 + zlen bs) by lia. done.
  - cbn [enc_tcp]. by rewrite <- !app_assoc in Hq4.
Qed.

(** Taking one item from the outgoing buffer. *)
Definition out_tag (i : out_item) : Z :=
  match i with Pkt bs => zlen bs | TcpDone => TCP_DONE_FLAG | UdpDone => UDP_DONE_FLAG end.
Definition out_body (i : out_item) : list Z := match i with Pkt bs => bs | _ => [] end.

Lemma enc_out_split i : enc_out i = le_split 8 (out_tag i) ++ out_body i.
Proof. destruct i; cbn [enc_out out_tag out_body]; by rewrite ?app_nil_r. Qed.

Lemma rep_head p a i l :
  rep p a -> a_out a = i :: l ->
  zlen (bytes enc_out (a_out a)) = 8 + zlen (out_body i) + zlen (bytes enc_out l) /\
  exists q st, get_var (outgoing_buffer p) 8 = Ok (out_tag i, q) /\
    queue_holds cap st q (out_body i ++ bytes enc_out l).
Proof.
  intros Hr Ha. pose proof (rp_len _ _ Hr) as Hl. destruct (rp_out _ _ Hr) as [st Ho].
  rewrite Ha, bytes_cons, enc_out_split in *. autorewrite with bytes in *.
  pose proof (zlen_nonneg (bytes enc_out l)). rewrite <- app_assoc in Ho. split; [lia|].
  destruct (get_var_holds cap st (outgoing_buffer p) 8 (out_tag i) _ Ho) as (q & st' & Hg & Hq & _);
    [|eauto].
  destruct i as [bs| |]; cbn [out_tag out_body] in *; [|unfold TCP_DONE_FLAG; lia|unfold UDP_DONE_FLAG; lia].
  pose proof (zlen_nonneg bs). lia.
Qed.

Lemma rep_pop p a i l q st u d :
  rep p a -> a_out a = i :: l -> queue_holds cap st q (bytes enc_out l) ->
  rep (mk_buffers q (tcp_buffer p) (c_bool u) (c_bool d)) (mk_queues l (a_tcp a) u d (a_fed a)).
Proof.
  intros Hr Ha Hq. destruct (rep_head p a i l Hr Ha) as [Hlen _].
  pose proof (zlen_nonneg (out_body i)). destruct Hr as [H1 H2 H3 H4 H5 H6 H7 H8].
  rewrite Ha in H7. apply Forall_cons in H7 as [_ H7]. split; fields; eauto. lia.
Qed.

Lemma deliver_refines p a n out a' :
  rep p a -> a_step cap Deliver a = Some (n, out, a') ->
  exists p', pb_step Deliver p = Ok (n, out, p') /\ rep p' a'.
Proof.
  intros Hr Hs. cbn [pb_step a_step] in *. unfold packet_buffer_to_buffer.
  destruct (rp_out _ _ Hr) as [st0 Ho]. rewrite (used_holds _ _ _ _ Ho).
  pose proof (rp_len _ _ Hr). pose proof (zlen_nonneg (bytes enc_out (a_out a))).
  rewrite sint32_small by lia. destruct (a_out a) as [|i l] eqn:Ha.
  { injection Hs as <- <- <-. cbn. eauto. }
  rewrite <- Ha in *. destruct (rep_head p a i l Hr Ha) as (Hlen & q & st & -> & Hq).
  pose proof (zlen_nonneg (out_body i)). pose proof (zlen_nonneg (bytes enc_out l)).
  rewrite (proj2 (Z.leb_gt _ _)) by lia. cbn [obind]. fields.
  pose proof (rp_outs _ _ Hr) as Hok. rewrite Ha in Hok. apply Forall_cons in Hok as [Hi _].
  rewrite (rp_udp _ _ Hr), (rp_done _ _ Hr).
  destruct i as [bs| |]; cbn [out_tag out_body out_ok app] in *.
  - unfold plain in Hi. zbool. injection Hs as <- <- <-.
    rewrite !(proj2 (Z.eqb_neq _ _)) by done.
    destruct (get_holds _ _ _ _ _ _ Hq eq_refl) as (q2 & st2 & -> & Hq2 & _). cbn [obind default].
    rewrite sint32_small by lia. eexists. split; [done|].
    unfold set_outgoing. fields. rewrite (rp_udp _ _ Hr), (rp_done _ _ Hr). by eapply rep_pop.
  - rewrite Z.eqb_refl. destruct (a_udp a); injection Hs as <- <- <-; cbn [c_bool Z.eqb Pos.eqb];
      eexists; (split; [done|]); unfold set_done; fields.
    + by apply (rep_pop p a TcpDone l q st false false).
    + by apply (rep_pop p a TcpDone l q st false true).
  - change (UDP_DONE_FLAG =? TCP_DONE_FLAG) with false. rewrite Z.eqb_refl.
    destruct (a_done a); injection Hs as <- <- <-; cbn [c_bool Z.eqb Pos.eqb];
      eexists; (split; [done|]); unfold set_done; fields.
    + by apply (rep_pop p a UdpDone l q st false false).
    + by apply (rep_pop p a UdpDone l q st true false).
Qed.

(** The bytes of an entry of the TCP buffer, field by field. *)
Definition seg_chunks (con : con_id_type) (ack : Z) : list (list Z) :=
  [le_split 4 (src_ip con); le_split 2 (src_port con); le_split 2 (hole1 con);
   le_split 4 (dst_ip con); le_split 2 (dst_port con); le_split 2 (hole2 con); le_split 4 ack].

Lemma seg_bytes con ack l : con_bytes con ++ le_split 4 ack ++ l = concat (seg_chunks con ack) ++ l.
Proof. unfold con_bytes. cbn [seg_chunks concat]. by rewrite app_nil_r, <- !app_assoc. Qed.

(** Passing on the first segment. *)
Lemma pass_refines p a con ack bs l :
  rep p a -> a_tcp a = Seg con ack bs :: l -> out_fits cap a (8 + zlen bs) = true ->
  exists p', pass_tcp p = Ok (zlen bs, p') /\
    rep p' (add_out (Pkt bs) (mk_queues (a_out a) l (a_udp a) (a_done a) (a_fed a))).
Proof.
  intros Hr Ha Hf. pose proof Hr as [H1 H2 H3 H4 H5 H6 H7 H8]. rewrite Ha in *.
  apply Forall_cons in H8 as [(Hp & Hcon & Hack & Hbs) H8]. rewrite bytes_cons in *. cbn [enc_tcp] in *.
  pose proof (zlen_nonneg bs). pose proof (zlen_nonneg (bytes enc_tcp l)).
  rewrite <- !app_assoc in H2. autorewrite with bytes in H2, H4.
  unfold pass_tcp, get_var at 1, sizeof_con_id.
  destruct (get_holds _ _ _ _ _ _ H2 (zlen_con_bytes con)) as (q1 & st1 & -> & Hq1 & Hst1).
  cbn [obind]. specialize (Hst1 ltac:(lia)).
  destruct (get_var_holds _ _ _ 4 _ _ Hq1 ltac:(lia)) as (q2 & st2 & Hg2 & Hq2 & Hst2).
  change (Z.of_nat 4) with 4 in *. rewrite Hg2. cbn [obind]. specialize (Hst2 ltac:(lia)).
  destruct (get_var_holds _ _ _ 8 _ _ Hq2 ltac:(lia)) as (q3 & st3 & Hg3 & Hq3 & Hst3).
  change (Z.of_nat 8) with 8 in *. rewrite Hg3. cbn [obind]. specialize (Hst3 ltac:(lia)).
  destruct (get_holds _ _ _ _ _ _ Hq3 eq_refl) as (q4 & st4 & -> & Hq4 & Hst4).
  cbn [obind]. specialize (Hst4 ltac:(lia)). fields.
  destruct (put_packet p a bs Hr Hf) as (o1 & o2 & st & -> & Ho & Hh). cbn [obind]. rewrite Ho.
  cbn [obind]. pose proof Hf as Hf'. unfold out_fits in Hf'. zbool.
  pose proof (zlen_nonneg (bytes enc_out (a_out a))). rewrite sint32_small by lia.
  eexists. split; [done|]. apply rep_add_out; [|done|cbn [enc_out]; by autorewrite with bytes|eauto].
  split; fields; eauto; [|lia].
  by replace (cap + 1 - a_fed a + zlen (bytes enc_tcp l)) with st4 by lia.
Qed.

Lemma con_fits_spec con :
  con_fits con = true ->
  0 <= src_ip con < 2 ^ 32 /\ 0 <= src_port con < 2 ^ 16 /\ 0 <= dst_ip con < 2 ^ 32 /\
  0 <= dst_port con < 2 ^ 16 /\ (src_ip con =? UINT32_MAX) && (dst_ip con =? UINT32_MAX) = false.
Proof.
  unfold con_fits. intros H. apply andb_true_iff in H as [H Hn]. apply negb_true_iff in Hn.
  zbool. split_and!; lia || done.
Qed.

(** Reading the fields of the first segment in place. *)
Lemma seg_peek p a con ack bs l :
  rep p a -> a_tcp a = Seg con ack bs :: l ->
  peek (tcp_buffer p) 0 4 = Ok (src_ip con) /\ peek (tcp_buffer p) 4 2 = Ok (src_port con) /\
  peek (tcp_buffer p) 8 4 = Ok (dst_ip con) /\ peek (tcp_buffer p) 12 2 = Ok (dst_port con) /\
  peek (tcp_buffer p) 16 4 = Ok ack.
Proof.
  intros [_ H2 _ H4 _ _ _ H8] Ha. rewrite Ha in *. apply Forall_cons in H8 as [(_ & Hcon & Hack & _) _].
  apply con_fits_spec in Hcon as (Hc1 & Hc2 & Hc3 & Hc4 & _).
  rewrite bytes_cons in *. cbn [enc_tcp] in *. rewrite <- !app_assoc, seg_bytes in H2.
  pose proof (zlen_nonneg bs). pose proof (zlen_nonneg (bytes enc_tcp l)).
  autorewrite with bytes in *.
  assert (zlen (concat (seg_chunks con ack)) = 20) as Hl
    by (cbn [seg_chunks concat]; autorewrite with bytes; reflexivity).
  pose proof (fun k n v => peek_chunk _ _ _ _ _ k n v H2 ltac:(lia)) as Hp.
  pose proof (Hp 0%nat 4%nat (src_ip con) eq_refl Hc1). pose proof (Hp 1%nat 2%nat (src_port con) eq_refl Hc2).
  pose proof (Hp 3%nat 4%nat (dst_ip con) eq_refl Hc3). pose proof (Hp 4%nat 2%nat (dst_port con) eq_refl Hc4).
  pose proof (Hp 6%nat 4%nat ack eq_refl Hack). by split_and!.
Qed.

Lemma noop_peek p a l :
  rep p a -> a_tcp a = NoOp :: l ->
  peek (tcp_buffer p) 0 4 = Ok UINT32_MAX /\ peek (tcp_buffer p) 8 4 = Ok UINT32_MAX.
Proof.
  intros [_ H2 _ H4 _ _ _ _] Ha. rewrite Ha in *. rewrite bytes_cons in *. cbn [enc_tcp] in *.
  pose proof (zlen_nonneg (bytes enc_tcp l)). autorewrite with bytes in *.
  set (cs := [le_split 4 UINT32_MAX; le_split 2 0; le_split 2 0; le_split 4 UINT32_MAX;
              le_split 2 0; le_split 2 0]).
  assert (con_bytes no_op_con = concat cs) as Hcs by reflexivity. rewrite Hcs in H2.
  assert (zlen (concat cs) = 16) as Hl by reflexivity.
  pose proof (fun k n v => peek_chunk _ _ _ _ _ k n v H2 ltac:(lia)) as Hp.
  pose proof (Hp 0%nat 4%nat UINT32_MAX eq_refl ltac:(done)).
  pose proof (Hp 3%nat 4%nat UINT32_MAX eq_refl ltac:(done)). by split.
Qed.

Lemma dump_refines p a t h1 h2 n out a' :
  con_known t -> rep p a -> a_step cap (Dump t h1 h2) a = Some (n, out, a') ->
  exists p', pb_step (Dump t h1 h2) p = Ok (n, out, p') /\ rep p' a'.
Proof.
  intros Ht Hr Hs. cbn [pb_step a_step] in *. unfold dump_tcp_buffer.
  rewrite (used_holds _ _ _ _ (rp_tcp _ _ Hr)). destruct (a_tcp a) as [|[con ack bs|] l] eqn:Ha.
  - injection Hs as <- <- <-. cbn [bytes map concat zlen length Z.leb obind]. eauto.
  - rewrite bytes_cons. cbn [enc_tcp]. autorewrite with bytes.
    pose proof (zlen_nonneg bs). pose proof (zlen_nonneg (bytes enc_tcp l)).
    rewrite (proj2 (Z.leb_gt _ _)) by lia. cbn [obind].
    destruct (seg_peek p a con ack bs l Hr Ha) as (H1 & H2 & H3 & H4 & H5). rewrite H1, H3. cbn [obind].
    pose proof (rp_tcps _ _ Hr) as Hok. rewrite Ha in Hok. apply Forall_cons in Hok as [(_ & Hcon & _) _].
    apply con_fits_spec in Hcon as (_ & _ & _ & _ & Hno).
    replace (if src_ip con =? UINT32_MAX then Ok (dst_ip con =? UINT32_MAX) else Ok false)
      with (@Ok bool false) by (destruct (src_ip con =? UINT32_MAX); [|done]; cbn [andb] in Hno; by rewrite Hno).
    cbn [obind]. rewrite H5, H2, H4. cbn [obind].
    rewrite check_block_answers by done.
    replace (blocks t h1 h2 ack _) with (blocks t h1 h2 ack con) by reflexivity. cbn [obind].
    destruct (blocks t h1 h2 ack con); [injection Hs as <- <- <-; cbn; eauto|].
    destruct (out_fits cap a _) eqn:Hf; [|done]. injection Hs as <- <- <-.
    destruct (pass_refines p a con ack bs l Hr Ha Hf) as (p' & -> & Hp'). cbn [c_bool Z.eqb obind]. eauto.
  - rewrite bytes_cons. cbn [enc_tcp]. autorewrite with bytes.
    pose proof (zlen_nonneg (bytes enc_tcp l)). rewrite (proj2 (Z.leb_gt _ _)) by lia.
    destruct (noop_peek p a l Hr Ha) as (H1 & H2). rewrite H1, H2. cbn [obind].
    rewrite Z.eqb_refl. cbn [obind]. destruct (out_fits cap a 8) eqn:Hf; [|done]. injection Hs as <- <- <-.
    destruct (rep_put_out p a (le_split 8 TCP_DONE_FLAG) 8 Hr Hf) as (q & st & -> & Hq); [by rewrite zlen_le_split|].
    cbn [obind]. eexists. split; [done|]. apply (rep_add_out p a TcpDone q); eauto; done.
Qed.

Lemma no_op_refines p a n out a' :
  rep p a -> a_step cap AppendNoOp a = Some (n, out, a') ->
  exists p', pb_step AppendNoOp p = Ok (n, out, p') /\ rep p' a'.
Proof.
  intros Hr Hs. cbn [pb_step a_step] in *. destruct (out_fits cap a 8) eqn:Hf; [|done].
  destruct (tcp_fits cap a 16) eqn:Ht; [|done]. injection Hs as <- <- <-. unfold append_no_op.
  pose proof Ht as Ht'. unfold tcp_fits in Ht'. zbool. pose proof (rp_fed _ _ Hr).
  destruct (put_holds _ _ _ _ (con_bytes no_op_con) (rp_tcp _ _ Hr)) as (q & -> & Hq);
    [rewrite zlen_con_bytes; lia|]. cbn [obind].
  assert (rep (set_tcp q p) (add_tcp NoOp a)) as Hr' by (by apply rep_add_tcp).
  destruct (rep_put_out (set_tcp q p) (add_tcp NoOp a) (le_split 8 UDP_DONE_FLAG) 8 Hr' Hf)
    as (q2 & st & -> & Hq2); [by rewrite zlen_le_split|].
  cbn [obind]. eexists. split; [done|]. apply (rep_add_out _ (add_tcp NoOp a) UdpDone q2); eauto; done.
Qed.

Lemma pb_run_refines ops : forall p a l a',
  rep p a -> Forall op_tables ops -> a_run cap ops a = Some (l, a') ->
  exists p', pb_run ops p = Ok (l, p') /\ rep p' a'.
Proof.
  induction ops as [|op ops IH]; intros p a l a' Hr Hops Hrun; cbn [a_run pb_run] in *.
  { injection Hrun as <- <-. eauto. }
  apply Forall_cons in Hops as [Hop Hops].
  destruct (a_step cap op a) as [[[n bs] a1]|] eqn:Hs; [|done].
  destruct (a_run cap ops a1) as [[l1 a2]|] eqn:Hr2; [|done]. injection Hrun as <- <-.
  assert (exists p1, pb_step op p = Ok (n, bs, p1) /\ rep p1 a1) as (p1 & -> & Hr1).
  { destruct op; eauto using write_refines, write_tcp_refines, deliver_refines, dump_refines, no_op_refines. }
  cbn [obind]. destruct (IH p1 a1 l1 a2 Hr1 Hops Hr2) as (p2 & -> & H2). cbn [obind]. eauto.
Qed.

End Refinement.

(** ** No packet is lost *)

Definition pkts : list out_item -> list (list Z) :=
  omap (fun i => match i with Pkt bs => Some bs | _ => None end).
Definition segs : list tcp_item -> list (list Z) :=
  omap (fun i => match i with Seg _ _ bs => Some bs | NoOp => None end).
(** The packets that are not empty. *)
Definition full (l : list (list Z)) : list (list Z) := filter (fun bs => bs <> []) l.

Definition op_packets (op : pb_op) : list (list Z) :=
  match op with Write bs => [bs] | WriteTcp _ _ bs => [bs] | _ => [] end.
Definition packets (ops : list pb_op) : list (list Z) := concat (map op_packets ops).

(** The item a delivery takes. *)
Definition popped (op : pb_op) (a : queues) : list out_item :=
  match op, a_out a with Deliver, i :: _ => [i] | _, _ => [] end.

Lemma pkts_app l k : pkts (l ++ k) = pkts l ++ pkts k.
Proof. apply omap_app. Qed.
Lemma segs_app l k : segs (l ++ k) = segs l ++ segs k.
Proof. apply omap_app. Qed.
Lemma full_app l k : full (l ++ k) = full l ++ full k.
Proof. apply filter_app. Qed.

Lemma full_submseteq l k : l ⊆+ k -> full l ⊆+ full k.
Proof.
  intros [r Hk]%submseteq_Permutation. unfold full. rewrite Hk, filter_app.
  by apply submseteq_inserts_r.
Qed.

Lemma step_output cap op a n bs a' :
  a_step cap op a = Some (n, bs, a') -> full [bs] = full (pkts (popped op a)).
Proof.
  intros Hs. destruct op; cbn [a_step popped] in *;
    repeat (case_match; simplify_eq/=; try done).
Qed.

(** Before the change of leadership: the packets written so far [W] were
    delivered ([D]) or wait in one of the queues, which hold no markers. *)
Record following (W : list (list Z)) (D : list out_item) (a : queues) : Prop := {
  fw_all : W ≡ₚ pkts (D ++ a_out a) ++ segs (a_tcp a);
  fw_out : Forall (fun i => exists bs, i = Pkt bs) (D ++ a_out a);
  fw_tcp : Forall (fun i => i <> NoOp) (a_tcp a);
  fw_udp : a_udp a = false;
  fw_done : a_done a = false
}.

Lemma following_step cap W D a op n bs a' :
  op <> AppendNoOp -> following W D a -> a_step cap op a = Some (n, bs, a') ->
  following (W ++ op_packets op) (D ++ popped op a) a'.
Proof.
  intros Hop [HW Ho Ht Hu Hd] Hs. destruct op as [bs0|con ack bs0| |t h1 h2|]; [| | | |done];
    cbn [a_step popped op_packets] in *; rewrite ?app_nil_r.
  - destruct (_ && _); [|done]. injection Hs as <- <- <-. split; fields; try done.
    + rewrite HW, !pkts_app. cbn. rewrite <- !app_assoc. do 2 f_equiv. apply Permutation_app_comm.
    + rewrite app_assoc. apply Forall_app_2; [done|]. by apply Forall_singleton; eauto.
  - destruct (_ && _); [|done]. injection Hs as <- <- <-. split; fields; try done.
    + by rewrite HW, segs_app, <- app_assoc.
    + apply Forall_app_2; [done|]. by apply Forall_singleton.
  - destruct (a_out a) as [|i l] eqn:Ha.
    { injection Hs as <- <- <-. rewrite app_nil_r. split; rewrite ?Ha; done. }
    pose proof Ho as Ho'. apply Forall_app in Ho' as [_ [[b ->] _]%Forall_cons].
    injection Hs as <- <- <-. split; fields; rewrite <- ?app_assoc; done.
  - destruct (a_tcp a) as [|[con ack b|] l] eqn:Ha.
    + injection Hs as <- <- <-. split; rewrite ?Ha; done.
    + destruct (blocks _ _ _ _ _); [injection Hs as <- <- <-; split; rewrite ?Ha; done|].
      destruct (out_fits _ _ _); [|done]. injection Hs as <- <- <-.
      apply Forall_cons in Ht as [_ Ht]. split; fields; try done.
      * rewrite HW, app_assoc, !pkts_app. cbn. by rewrite <- !app_assoc.
      * rewrite app_assoc. apply Forall_app_2; [done|]. by apply Forall_singleton; eauto.
    + apply Forall_cons in Ht as [Ht _]. done.
Qed.

(** After it, with [X] the items that went to the guest's queue before and [S]
    the segments that waited: the markers separate old from new. *)
Record taking_over (X : list out_item) (S : list tcp_item) (D : list out_item) (a : queues) : Prop := {
  tv_seg : exists Y S1 S2,
    D ++ a_out a = X ++ (UdpDone :: Y) /\ a_tcp a = S1 ++ (NoOp :: S2) /\ Forall (fun i => i <> NoOp) S1 /\
    ((TcpDone ∉ Y /\ exists S0, S = S0 ++ S1 /\ sublist (segs S0) (pkts Y)) \/
     (S1 = [] /\ exists A B, Y = A ++ TcpDone :: B /\ TcpDone ∉ A /\ sublist (segs S) (pkts A)));
  tv_done : a_done a = true -> TcpDone ∈ D
}.

(** One more item in the guest's queue. *)
Lemma taking_over_out X S D a i :
  i <> TcpDone -> taking_over X S D a -> taking_over X S D (add_out i a).
Proof.
  intros Hi [(Y & S1 & S2 & HX & Ht & Hn & Hc) Hd]. split; fields; [|done].
  exists (Y ++ [i]), S1, S2. rewrite app_assoc, HX, <- app_assoc. split_and!; [done..|].
  destruct Hc as [[Hno (S0 & -> & Hsub)]|(-> & A & B & -> & Hno & Hsub)]; [left|right].
  - split; [set_solver|]. exists S0. split; [done|]. rewrite pkts_app.
    by apply sublist_inserts_r.
  - split; [done|]. exists A, (B ++ [i]). by rewrite <- app_assoc.
Qed.

Lemma taking_over_dump cap X S D a t h1 h2 n bs a' :
  taking_over X S D a -> a_step cap (Dump t h1 h2) a = Some (n, bs, a') -> taking_over X S D a'.
Proof.
  intros Hv Hs. cbn [a_step] in Hs. pose proof Hv as [(Y & S1 & S2 & HX & Ht & Hn & Hc) Hd].
  rewrite Ht in Hs. destruct S1 as [|[con ack b|] S1]; cbn [app] in *.
  - destruct (out_fits cap a 8); [|done]. injection Hs as <- <- <-. split; fields; [|done].
    exists (Y ++ [TcpDone]), [], S2. rewrite app_assoc, HX, <- app_assoc. split_and!; [done..|].
    right. split; [done|]. destruct Hc as [[Hno (S0 & -> & Hsub)]|(_ & A & B & -> & Hno & Hsub)].
    + exists Y, []. by rewrite app_nil_r.
    + exists A, (B ++ [TcpDone]). by rewrite <- app_assoc.
  - destruct (blocks _ _ _ _ _); [by injection Hs as <- <- <-|].
    destruct (out_fits _ _ _); [|done]. injection Hs as <- <- <-. apply Forall_cons in Hn as [_ Hn].
    destruct Hc as [[Hno (S0 & -> & Hsub)]|[? _]]; [|done]. split; fields; [|done].
    exists (Y ++ [Pkt b]), S1, S2. rewrite app_assoc, HX, <- app_assoc. split_and!; [done..|].
    left. split; [set_solver|]. exists (S0 ++ [Seg con ack b]). rewrite <- app_assoc. split; [done|].
    rewrite segs_app, pkts_app. by apply sublist_app.
  - apply Forall_cons in Hn as [Hn _]. done.
Qed.

Lemma taking_over_step cap X S D a op n bs a' :
  op <> AppendNoOp -> taking_over X S D a -> a_step cap op a = Some (n, bs, a') ->
  taking_over X S (D ++ popped op a) a'.
Proof.
  intros Hop Hv Hs. destruct op as [b|con ack b| |t h1 h2|]; [| | | |done].
  - cbn [a_step popped] in *. rewrite app_nil_r. destruct (_ && _); [|done]. injection Hs as <- <- <-.
    by apply taking_over_out.
  - cbn [a_step popped] in *. rewrite app_nil_r. destruct (_ && _); [|done]. injection Hs as <- <- <-.
    destruct Hv as [(Y & S1 & S2 & HX & Ht & Hn & Hc) Hd]. split; fields; [|done].
    exists Y, S1, (S2 ++ [Seg con ack b]). rewrite Ht, <- app_assoc. done.
  - cbn [a_step popped] in *. destruct (a_out a) as [|i l] eqn:Ha.
    { injection Hs as <- <- <-. by rewrite app_nil_r. }
    destruct Hv as [(Y & S1 & S2 & HX & Ht & Hn & Hc) Hd]. rewrite Ha in HX.
    assert (a_out a' = l /\ a_tcp a' = a_tcp a /\ (a_done a' = true -> TcpDone ∈ D ++ [i]))
      as (Hl & Htcp & Hd').
    { destruct i; [|destruct (a_udp a)|destruct (a_done a)]; injection Hs as <- <- <-; fields;
        split_and!; try done; set_solver. }
    split; [|done]. exists Y, S1, S2. rewrite Hl, Htcp, <- app_assoc. done.
  - cbn [popped]. rewrite app_nil_r. by eapply taking_over_dump.
Qed.

(** A delivery that answers -99 has read the marker of [dump_tcp_buffer]. *)
Lemma handover_marker cap X S D a bs a' :
  taking_over X S D a -> a_step cap Deliver a = Some (-99, bs, a') ->
  TcpDone ∈ D ++ popped Deliver a /\ bs = [].
Proof.
  intros [_ Hd] Hs. cbn [a_step popped] in *. destruct (a_out a) as [|[b| |] l]; [done| | |].
  - injection Hs as Hb _ _. pose proof (zlen_nonneg b). lia.
  - destruct (a_udp a); [|done]. injection Hs as <- <-. set_solver.
  - destruct (a_done a); [|done]. injection Hs as <- <-. set_solver.
Qed.

(** When that marker was read, everything in front of it was delivered. *)
Lemma taking_over_delivered X S D a :
  taking_over X S D a -> Forall (fun i => exists bs, i = Pkt bs) X -> TcpDone ∈ D ->
  pkts X ++ segs S ⊆+ pkts D.
Proof.
  intros [(Y & S1 & S2 & HX & _ & _ & Hc) _] HXp Hin.
  assert (TcpDone ∉ X) as HnX by (intros [b Hb]%(proj1 (Forall_forall _ _) HXp); done).
  destruct Hc as [[Hno _]|(_ & A & B & -> & Hno & Hsub)].
  - assert (TcpDone ∈ D ++ a_out a) as H by set_solver. rewrite HX in H. set_solver.
  - assert (D ++ a_out a = (X ++ UdpDone :: A) ++ TcpDone :: B) as HZ by by rewrite <- app_assoc.
    apply app_eq_inv in HZ as [(k & -> & _)|(k & HZ & _)].
    + rewrite !pkts_app. cbn. rewrite <- app_assoc. apply submseteq_app; [done|].
      by apply submseteq_inserts_r, sublist_submseteq.
    + assert (TcpDone ∈ X ++ UdpDone :: A) as H by (rewrite HZ; set_solver). set_solver.
Qed.

(** A run, for an invariant that holds with the delivered items. *)
Lemma a_run_invariant cap (I : list (list Z) -> list out_item -> queues -> Prop) :
  (forall W D a op n bs a', op <> AppendNoOp -> I W D a -> a_step cap op a = Some (n, bs, a') ->
     I (W ++ op_packets op) (D ++ popped op a) a') ->
  forall ops W D a l a', AppendNoOp ∉ ops -> I W D a -> a_run cap ops a = Some (l, a') ->
  exists D', I (W ++ packets ops) (D ++ D') a' /\ full (snd <$> l) = full (pkts D').
Proof.
  intros Hstep. induction ops as [|op ops IH]; intros W D a l a' Hno HI Hrun; cbn [a_run] in Hrun.
  { injection Hrun as <- <-. exists []. by rewrite !app_nil_r. }
  destruct (a_step cap op a) as [[[n bs] a1]|] eqn:Hs; [|done].
  destruct (a_run cap ops a1) as [[l1 a2]|] eqn:Hr; [|done]. injection Hrun as <- <-.
  apply not_elem_of_cons in Hno as [Hop Hno].
  destruct (IH _ _ a1 l1 a2 Hno (Hstep _ _ _ _ _ _ _ (not_eq_sym Hop) HI Hs) Hr) as (D' & HI' & Hl).
  exists (popped op a ++ D'). unfold packets. cbn [map concat]. fold (packets ops).
  rewrite !app_assoc. split; [done|]. change (snd <$> (n, bs) :: l1) with ([bs] ++ (snd <$> l1)).
  by rewrite full_app, pkts_app, full_app, Hl, (step_output _ _ _ _ _ _ Hs).
Qed.

Lemma a_run_app cap ops1 ops2 a l a' :
  a_run cap (ops1 ++ ops2) a = Some (l, a') ->
  exists l1 a1 l2, a_run cap ops1 a = Some (l1, a1) /\ a_run cap ops2 a1 = Some (l2, a') /\ l = l1 ++ l2.
Proof.
  revert a l. induction ops1 as [|op ops1 IH]; intros a l Hrun; cbn [app a_run] in *; [eauto 6|].
  destruct (a_step cap op a) as [[[n bs] a1]|]; [|done].
  destruct (a_run cap (ops1 ++ ops2) a1) as [[l1 a2]|] eqn:Hr; [|done]. injection Hrun as <- <-.
  destruct (IH _ _ Hr) as (l1' & a1' & l2' & -> & Hr2 & ->). eauto 6.
Qed.

(** The marker reaches both queues at once. *)
Lemma taking_over_start cap W D a n bs a' :
  following W D a -> a_step cap AppendNoOp a = Some (n, bs, a') ->
  taking_over (D ++ a_out a) (a_tcp a) D a' /\ bs = [].
Proof.
  intros [_ _ Ht _ Hd] Hs. cbn [a_step] in Hs. destruct (_ && _); [|done]. injection Hs as <- <- <-.
  split; [|done]. split; fields; [|by rewrite Hd].
  exists [], (a_tcp a), []. rewrite <- app_assoc. split_and!; try done.
  left. split; [set_solver|]. exists []. done.
Qed.

(** ** Theorems *)

Lemma rep_init malloc p :
  (forall n m, 0 <= n -> malloc n = Some m -> zlen m = n) ->
  init_packet_buffer true malloc = Some p -> rep TCP_BUFFER_SIZE p a_init.
Proof.
  intros Hm Hp. unfold init_packet_buffer, ringbuf_new, TCP_BUFFER_SIZE, OUTGOING_BUFFER_SIZE in *.
  change (5120000000 +64 1) with 5120000001 in Hp.
  destruct (malloc 5120000001) as [m|] eqn:He; [|done]. injection Hp as <-. apply Hm in He; [|lia].
  set (rb := ringbuf_reset _). assert (rb_inv rb) as Hi by (split; simpl; lia).
  assert (contents rb = []) as Hc by by apply contents_nil.
  assert (forall st, st = 5120000001 -> queue_holds 5120000000 st rb []) as Hh by (intros st ->; by split_and!).
  split; fields; try done; [exists 5120000001|..]; apply Hh; reflexivity.
Qed.

(** C26. The packet buffers are two queues of packets.  From
    [init_packet_buffer] on, any sequence of writes, deliveries to the guest,
    moves from the TCP buffer and [append_no_op] runs without error and gives
    the answers of the abstract machine: packets come out whole and in order,
    a segment stays at the head of its queue as long as [check_block] holds it
    back, and -99 is the answer to the second of the two markers.  The
    sequence must stay within what the code can hold: fewer than 2^31 bytes in
    the outgoing buffer at any time, 5120000000 bytes through the TCP buffer. *)
Theorem packet_buffers_refine_queues malloc p ops l a :
  (forall n m, 0 <= n -> malloc n = Some m -> zlen m = n) ->
  init_packet_buffer true malloc = Some p -> Forall op_tables ops ->
  a_run TCP_BUFFER_SIZE ops a_init = Some (l, a) ->
  exists p', pb_run ops p = Ok (l, p') /\ rep TCP_BUFFER_SIZE p' a.
Proof. intros Hm Hp Hops Hrun. eapply pb_run_refines; eauto using rep_init. Qed.

(** C8. A change of leadership loses no packet.  A server that followed
    ([before]) calls [append_no_op], once, and goes on ([after]), within the
    bounds of the packet buffers under which they are queues; when
    [packet_buffer_to_buffer] then answers -99, the guest has been given every
    packet written before the change that is not empty, the TCP segments
    included, and those written twice twice. *)
Theorem handover_feeds_every_packet malloc p before after l bs a :
  (forall n m, 0 <= n -> malloc n = Some m -> zlen m = n) ->
  init_packet_buffer true malloc = Some p ->
  Forall op_tables (before ++ AppendNoOp :: after ++ [Deliver]) ->
  AppendNoOp ∉ before -> AppendNoOp ∉ after ->
  a_run TCP_BUFFER_SIZE (before ++ AppendNoOp :: after ++ [Deliver]) a_init = Some (l ++ [(-99, bs)], a) ->
  exists p', pb_run (before ++ AppendNoOp :: after ++ [Deliver]) p = Ok (l ++ [(-99, bs)], p') /\
    full (packets before) ⊆+ full (snd <$> l).
Proof.
  intros Hm Hp Hops Hb Ha Hrun.
  destruct (pb_run_refines _ _ _ _ _ _ (rep_init _ _ Hm Hp) Hops Hrun) as (p' & Hp' & _).
  exists p'. split; [done|]. clear Hp' Hops.
  apply a_run_app in Hrun as (l1 & a1 & l2 & Hr1 & Hr2 & Hl).
  assert (following [] [] a_init) as HF0 by by split.
  destruct (a_run_invariant _ _ (following_step TCP_BUFFER_SIZE) _ _ _ _ _ _ Hb HF0 Hr1)
    as (D1 & HF & Hd1). cbn [app] in HF.
  change (AppendNoOp :: after ++ [Deliver]) with ([AppendNoOp] ++ after ++ [Deliver]) in Hr2.
  apply a_run_app in Hr2 as (l3 & a2 & l4 & Hr3 & Hr4 & ->). cbn [a_run] in Hr3.
  destruct (a_step _ AppendNoOp a1) as [[[n3 b3] a2']|] eqn:Hs3; [|done]. injection Hr3 as <- ->.
  destruct (taking_over_start _ _ _ _ _ _ _ HF Hs3) as [HT ->].
  apply a_run_app in Hr4 as (l5 & a3 & l6 & Hr5 & Hr6 & ->). cbn [a_run] in Hr6.
  destruct (a_run_invariant _ (fun _ => taking_over (D1 ++ a_out a1) (a_tcp a1))
    (fun _ D a op n bs a' => taking_over_step TCP_BUFFER_SIZE _ _ D a op n bs a') _ [] D1 a2 _ _ Ha HT Hr5)
    as (D2 & HT2 & Hd2).
  destruct (a_step _ Deliver a3) as [[[n6 b6] a4]|] eqn:Hs6; [|done]. injection Hr6 as <- <-.
  rewrite !app_assoc in Hl. apply app_inj_tail in Hl as [-> [= <- <-]].
  destruct (handover_marker _ _ _ _ _ _ _ HT2 Hs6) as [Hin ->].
  pose proof (taking_over_step TCP_BUFFER_SIZE _ _ _ _ Deliver _ _ _ ltac:(done) HT2 Hs6) as HT3.
  pose proof (taking_over_delivered _ _ _ _ HT3 (fw_out _ _ _ HF) Hin) as Hsub.
  rewrite <- (fw_all _ _ _ HF) in Hsub. apply full_submseteq in Hsub. etrans; [exact Hsub|].
  rewrite !pkts_app, !full_app, !fmap_app, !full_app, <- (step_output _ _ _ _ _ _ Hs6), Hd1, Hd2.
  change (full (snd <$> [(n3, [])])) with (@nil (list Z)). change (full [[]]) with (@nil (list Z)).
  by rewrite !app_nil_r.
Qed.

Definition demo_before : list pb_op :=
  [Write [1; 2; 3]; WriteTcp demo_con 101 [9; 9]; WriteTcp demo_con 50 [8]; Deliver;
   Dump con_manager_tables 0 0].
Definition demo_after : list pb_op :=
  [Write [4]; Dump con_manager_tables 0 0; Dump con_manager_tables 0 0; Deliver; Deliver; Deliver; Deliver].
Definition demo_answers : list (Z * list Z) :=
  [(3, []); (2, []); (1, []); (3, [1; 2; 3]); (2, []); (0, []); (1, []); (1, []); (-99, []);
   (2, [9; 9]); (0, []); (1, [4]); (1, [8])].
Definition zeros (n : Z) : option (list Z) := Some (replicate (Z.to_nat n) 0).
Definition demo_buffers : packet_buffers ringbuf_t :=
  let rb := mk_ringbuf (replicate (Z.to_nat 5120000001) 0) 0 0 5120000001 in mk_buffers rb rb 0 0.

Lemma zeros_length n m : 0 <= n -> zeros n = Some m -> zlen m = n.
Proof. intros Hn [= <-]. unfold zlen. rewrite length_replicate. lia. Qed.

Lemma demo_init : init_packet_buffer true zeros = Some demo_buffers.
Proof. reflexivity. Qed.

Lemma no_tables_known : con_known con_manager_tables.
Proof. intros c [? Hc]. cbn in Hc. by rewrite lookup_empty in Hc. Qed.

Lemma demo_tables : Forall op_tables (demo_before ++ AppendNoOp :: demo_after ++ [Deliver]).
Proof. unfold demo_before, demo_after. repeat constructor; apply no_tables_known. Qed.

Lemma packet_buffers_refine_queues_witness :
  exists p' a, pb_run (demo_before ++ AppendNoOp :: demo_after ++ [Deliver]) demo_buffers =
      Ok (demo_answers ++ [(-99, [])], p') /\ rep TCP_BUFFER_SIZE p' a.
Proof.
  destruct (packet_buffers_refine_queues zeros demo_buffers
    (demo_before ++ AppendNoOp :: demo_after ++ [Deliver]) (demo_answers ++ [(-99, [])])
    (mk_queues [] [NoOp] false false 75)) as (p' & Hrun & Hr).
  - exact zeros_length.
  - exact demo_init.
  - exact demo_tables.
  - vm_compute. reflexivity.
  - exists p'. eexists. split; [exact Hrun|exact Hr].
Defined.

Lemma handover_feeds_every_packet_witness :
  exists p', pb_run (demo_before ++ AppendNoOp :: demo_after ++ [Deliver]) demo_buffers =
      Ok (demo_answers ++ [(-99, [])], p') /\
    full [[1; 2; 3]; [9; 9]; [8]] ⊆+ full (snd <$> demo_answers).
Proof.
  apply (handover_feeds_every_packet zeros demo_buffers demo_before demo_after demo_answers []
           (mk_queues [] [NoOp] false false 75)).
  - exact zeros_length.
  - exact demo_init.
  - exact demo_tables.
  - unfold demo_before. rewrite !not_elem_of_cons. split_and!; try discriminate. apply not_elem_of_nil.
  - unfold demo_after. rewrite !not_elem_of_cons. split_and!; try discriminate. apply not_elem_of_nil.
  - vm_compute. reflexivity.
Defined.

(** A backlog of two gigabytes hides the packets.  The number of bytes is
    read as an [int]: with 2^31 to 2^32 bytes in the outgoing buffer,
    which can hold more than that, the guest is told that there is nothing and
    the buffer stays as it is. *)
Theorem big_backlog_hides_packets (p : packet_buffers ringbuf_t) maxlen :
  rb_inv (outgoing_buffer p) -> 2 ^ 31 <= used (outgoing_buffer p) <= 2 ^ 32 ->
  packet_buffer_to_buffer p maxlen = Ok (0, [], p).
Proof.
  intros Hi Hu. unfold packet_buffer_to_buffer. cbn [fifo_used ringbuf_fifo].
  rewrite bytes_used_eq by done. unfold sint, wrap. change (32 - 1) with 31.
  replace (used (outgoing_buffer p) + 2 ^ 31)
    with (used (outgoing_buffer p) - 2 ^ 31 + 1 * 2 ^ 32) by lia.
  rewrite Z_mod_plus_full, Z.mod_small by lia. by rewrite (proj2 (Z.leb_le _ _)) by lia.
Qed.

Lemma big_backlog_hides_packets_witness :
  let rb := mk_ringbuf (replicate (Z.to_nat 5120000001) 0) (2 ^ 31) 0 5120000001 in
  let p := mk_buffers rb rb 0 0 in
  packet_buffer_to_buffer p 2048 = Ok (0, [], p).
Proof.
  intros rb p. apply (big_backlog_hides_packets p 2048).
  - split; cbn [p rb outgoing_buffer rb_buf rb_head rb_tail rb_size]; [|lia..].
    unfold zlen. rewrite length_replicate. lia.
  - unfold used, p, rb. cbn [outgoing_buffer rb_head rb_tail rb_size]. rewrite Z.mod_small; lia.
Defined.

(** An entry that wraps around is read past the end of the buffer.
    [dump_tcp_buffer] looks at the connection and the acknowledgement of the
    next entry through a plain pointer to the tail; when the twenty bytes do not
    lie before the end of the ring buffer, the access is out of bounds. *)
Theorem wrapped_entry_is_read_past_end (p : packet_buffers ringbuf_t) t h1 h2 :
  rb_inv (tcp_buffer p) -> 28 <= used (tcp_buffer p) -> ring_straight (tcp_buffer p) < 20 ->
  le_combine (ztake 4 (contents (tcp_buffer p))) <> UINT32_MAX ->
  dump_tcp_buffer p t h1 h2 = Undef.
Proof.
  intros Hi Hu Hs Hno. unfold dump_tcp_buffer, peek. cbn [fifo_used fifo_peek ringbuf_fifo].
  pose proof Hi as [Hb Hsz Hh Ht]. unfold ring_straight in Hs.
  rewrite bytes_used_eq, (proj2 (Z.leb_gt _ _)) by (done || lia).
  assert (ring_peek (tcp_buffer p) 16 4 = Undef) as H16.
  { unfold ring_peek, ringbuf_tail, load.
    by rewrite (proj2 (Z.leb_gt (rb_tail _ + 16 + 4) _)), andb_false_r by lia. }
  destruct (Z.le_gt_cases 4 (ring_straight (tcp_buffer p))).
  - rewrite (ring_peek_spec _ 0 4), zdrop_le0 by (try done; rewrite ?zlen_contents by done; lia).
    cbn [obind]. rewrite (proj2 (Z.eqb_neq _ _) Hno). cbn [obind]. by rewrite H16.
  - unfold ring_peek, ringbuf_tail, load, ring_straight in *.
    by rewrite (proj2 (Z.leb_gt (rb_tail _ + 0 + 4) _)), andb_false_r by lia.
Qed.

Lemma wrapped_entry_is_read_past_end_witness :
  let rb := mk_ringbuf (replicate 64 0) 30 50 64 in
  dump_tcp_buffer (mk_buffers rb rb 0 0) con_manager_tables 0 0 = Undef.
Proof.
  intros rb. apply (wrapped_entry_is_read_past_end (mk_buffers rb rb 0 0) con_manager_tables 0 0).
  - split; vm_compute; try split; try reflexivity; discriminate.
  - vm_compute. discriminate.
  - reflexivity.
  - discriminate.
Defined.
