(* ===== verification/PacketLocks.v ===== *)
(** * The spin locks of the packet buffers

    Any number of threads, each a sequence of calls of packet-buffer.c reduced
    to what it does with the two locks.  Without [append_no_op] some thread
    can always go on; [append_no_op] takes the locks in the other order than
    [dump_tcp_buffer], and the two can wait for each other for ever. *)

From stdpp Require Import relations.
From S2P Require Import Prelude PacketBuffer.

(** ** Threads and locks *)

Record locks := mk_locks {
  owner : buf_lock -> option nat;
  todo : list (list lock_act)      (* what each thread still has to do *)
}.

Definition set_owner (l : buf_lock) (o : option nat) (f : buf_lock -> option nat) : buf_lock -> option nat :=
  fun l' => if decide (l' = l) then o else f l'.

Inductive lock_step (s : locks) : locks -> Prop :=
| step_lock i l k :
    todo s !! i = Some (pthread_spin_lock l :: k) -> owner s l = None ->
    lock_step s (mk_locks (set_owner l (Some i) (owner s)) (<[i := k]> (todo s)))
| step_unlock i l k :
    todo s !! i = Some (pthread_spin_unlock l :: k) -> owner s l = Some i ->
    lock_step s (mk_locks (set_owner l None (owner s)) (<[i := k]> (todo s))).

Definition start (threads : list (list lock_act)) : locks := mk_locks (fun _ => None) threads.

(** Some thread has something to do, and none can do it. *)
Definition deadlock (s : locks) : Prop :=
  (exists i a k, todo s !! i = Some (a :: k)) /\ forall s', ~ lock_step s s'.

(** ** Calls *)

Inductive call := Call_outgoing | Call_write_tcp | Call_dump | Call_no_op.
Definition call_locks (c : call) : list lock_act :=
  match c with
  | Call_outgoing => outgoing_locks
  | Call_write_tcp => write_to_tcp_locks
  | Call_dump => dump_tcp_locks
  | Call_no_op => append_no_op_locks
  end.
Definition thread (cs : list call) : list lock_act := concat (map call_locks cs).

(** How far a thread is in the call it is in. *)
Inductive phase := Idle | In_outgoing | In_tcp | In_dump1 | In_dump2.
Definition rest (ph : phase) : list lock_act :=
  match ph with
  | Idle => []
  | In_outgoing => [pthread_spin_unlock outgoing_buffer_lock]
  | In_tcp => [pthread_spin_unlock tcp_buffer_lock]
  | In_dump1 => [pthread_spin_lock tcp_buffer_lock; pthread_spin_unlock tcp_buffer_lock;
                 pthread_spin_unlock outgoing_buffer_lock]
  | In_dump2 => [pthread_spin_unlock tcp_buffer_lock; pthread_spin_unlock outgoing_buffer_lock]
  end.
Definition has (ph : phase) (l : buf_lock) : bool :=
  match ph, l with
  | In_outgoing, outgoing_buffer_lock | In_dump1, outgoing_buffer_lock
  | In_dump2, _ | In_tcp, tcp_buffer_lock => true
  | _, _ => false
  end.

Definition has_at (phs : list phase) (i : nat) (l : buf_lock) : bool :=
  match phs !! i with Some ph => has ph l | None => false end.

(** The threads are somewhere in their calls, and a lock belongs to the thread
    that took it. *)
Definition ordered (phs : list phase) (s : locks) : Prop :=
  (forall i k, todo s !! i = Some k -> exists ph cs, phs !! i = Some ph /\
     k = rest ph ++ thread cs /\ Call_no_op ∉ cs) /\
  length phs = length (todo s) /\
  forall l i, owner s l = Some i <-> has_at phs i l = true.

(** The first action of a thread, and where it leads. *)
Lemma next_phase ph cs a k :
  Call_no_op ∉ cs -> rest ph ++ thread cs = a :: k ->
  exists ph' cs', k = rest ph' ++ thread cs' /\ Call_no_op ∉ cs' /\
    match a with
    | pthread_spin_lock l => has ph l = false /\ forall l', has ph' l' = bool_decide (l' = l) || has ph l'
    | pthread_spin_unlock l =>
        has ph l = true /\ forall l', has ph' l' = negb (bool_decide (l' = l)) && has ph l'
    end.
Proof.
  intros Hno He. destruct ph; cbn in He; [|injection He as <- <-..].
  - destruct cs as [|c cs]; [done|]. apply not_elem_of_cons in Hno as [Hc Hno].
    destruct c; [| | |done]; injection He as <- <-;
      [exists In_outgoing, cs|exists In_tcp, cs|exists In_dump1, cs];
      (split_and!; [done..|by intros []]).
  - exists Idle, cs. split_and!; [done..|by intros []].
  - exists Idle, cs. split_and!; [done..|by intros []].
  - exists In_dump2, cs. split_and!; [done..|by intros []].
  - exists In_outgoing, cs. split_and!; [done..|by intros []].
Qed.

Lemma has_at_insert phs i j ph ph' l :
  phs !! i = Some ph ->
  has_at (<[i := ph']> phs) j l = if decide (i = j) then has ph' l else has_at phs j l.
Proof.
  intros Hi. unfold has_at. case_decide as Hij.
  - subst. by rewrite list_lookup_insert_eq by by eapply lookup_lt_Some.
  - by rewrite list_lookup_insert_ne.
Qed.

(** The owners after one action of thread [i]. *)
Lemma owner_lock phs i ph ph' f l0 :
  phs !! i = Some ph -> (forall l j, f l = Some j <-> has_at phs j l = true) -> f l0 = None ->
  (forall l, has ph' l = bool_decide (l = l0) || has ph l) ->
  forall l j, set_owner l0 (Some i) f l = Some j <-> has_at (<[i := ph']> phs) j l = true.
Proof.
  intros Hi Ho Hf Hp l j. rewrite (has_at_insert _ _ _ _ _ _ Hi). unfold set_owner.
  specialize (Ho l j). repeat case_decide; subst; rewrite ?Hp.
  - rewrite bool_decide_eq_true_2 by done. done.
  - rewrite Hf in Ho. split; [congruence|]. intros H%Ho. done.
  - rewrite bool_decide_eq_false_2 by done. unfold has_at in Ho. by rewrite Hi in Ho.
  - done.
Qed.

Lemma owner_unlock phs i ph ph' f l0 :
  phs !! i = Some ph -> (forall l j, f l = Some j <-> has_at phs j l = true) -> f l0 = Some i ->
  (forall l, has ph' l = negb (bool_decide (l = l0)) && has ph l) ->
  forall l j, set_owner l0 None f l = Some j <-> has_at (<[i := ph']> phs) j l = true.
Proof.
  intros Hi Ho Hf Hp l j. rewrite (has_at_insert _ _ _ _ _ _ Hi). unfold set_owner.
  specialize (Ho l j). repeat case_decide; subst; rewrite ?Hp.
  - rewrite bool_decide_eq_true_2 by done. done.
  - rewrite Hf in Ho. split; [done|]. intros H%Ho. congruence.
  - rewrite bool_decide_eq_false_2 by done. unfold has_at in Ho. by rewrite Hi in Ho.
  - done.
Qed.

Lemma ordered_step phs s s' :
  ordered phs s -> lock_step s s' -> exists phs', ordered phs' s'.
Proof.
  intros (Ht & Hl & Ho) Hs.
  assert (exists i a k, todo s !! i = Some (a :: k) /\ todo s' = <[i := k]> (todo s) /\
    match a with
    | pthread_spin_lock l => owner s l = None /\ owner s' = set_owner l (Some i) (owner s)
    | pthread_spin_unlock l => owner s l = Some i /\ owner s' = set_owner l None (owner s)
    end) as (i & a & k & Hi & Hk & Ha) by (destruct Hs; eauto 10).
  destruct (Ht _ _ Hi) as (ph & cs & Hph & He & Hno).
  destruct (next_phase ph cs a k Hno (eq_sym He)) as (ph' & cs' & -> & Hno' & Hhas).
  pose proof (lookup_lt_Some _ _ _ Hph) as Hlt.
  exists (<[i := ph']> phs). split_and!.
  - intros j k'. rewrite Hk, list_lookup_insert_Some. intros [(<- & <- & _)|[Hij Hj]].
    + exists ph', cs'. by rewrite list_lookup_insert_eq.
    + rewrite list_lookup_insert_ne by done. eauto.
  - rewrite Hk, !length_insert. done.
  - destruct a; destruct Ha as [Hown ->], Hhas as [_ Hhas]; eauto using owner_lock, owner_unlock.
Qed.

(** ** Theorems *)

Lemma ordered_progress phs s : ordered phs s -> ~ deadlock s.
Proof.
  intros (Ht & Hl & Ho) ((i & a & k & Hi) & Hstuck).
  (* the owner of a lock has something to do *)
  assert (forall l j, owner s l = Some j -> exists ph cs, phs !! j = Some ph /\ has ph l = true /\
    todo s !! j = Some (rest ph ++ thread cs) /\ Call_no_op ∉ cs) as Hown.
  { intros l j H%Ho. unfold has_at in H. destruct (phs !! j) as [ph|] eqn:Hj; [|done].
    destruct (todo s !! j) as [k'|] eqn:Hk.
    - destruct (Ht _ _ Hk) as (ph0 & cs & Hj' & -> & Hno). simplify_eq. eauto 10.
    - apply lookup_lt_Some in Hj. apply lookup_ge_None in Hk. lia. }
  destruct (owner s tcp_buffer_lock) as [j|] eqn:Htcp.
  { destruct (Hown _ _ Htcp) as ([] & cs & _ & Hh & Hk & _); try done;
      (eapply Hstuck, (step_unlock _ j tcp_buffer_lock); [exact Hk|exact Htcp]). }
  destruct (owner s outgoing_buffer_lock) as [j|] eqn:Hout.
  { destruct (Hown _ _ Hout) as ([] & cs & Hj & Hh & Hk & _); try done.
    - eapply Hstuck, (step_unlock _ j outgoing_buffer_lock); [exact Hk|exact Hout].
    - eapply Hstuck, (step_lock _ j tcp_buffer_lock); [exact Hk|exact Htcp].
    - assert (owner s tcp_buffer_lock = Some j) by (apply Ho; unfold has_at; by rewrite Hj). congruence. }
  destruct (Ht _ _ Hi) as (ph & cs & Hph & He & Hno).
  destruct (next_phase ph cs a k Hno (eq_sym He)) as (ph1 & cs1 & _ & _ & Hhas).
  destruct a as [l|l]; destruct Hhas as [Hhas _].
  - eapply Hstuck. eapply step_lock; [done|]. by destruct l.
  - assert (owner s l = Some i) by (apply Ho; unfold has_at; by rewrite Hph). destruct l; congruence.
Qed.

(** C34. The spin locks do not deadlock as long as nobody calls [append_no_op].
    Any number of threads, each with any sequence of the other calls, in any
    interleaving: whenever one of them has something left to do, one of them can
    make a step. *)
Theorem locks_never_deadlock (threads : list (list call)) s :
  Forall (fun cs => Call_no_op ∉ cs) threads ->
  rtc lock_step (start (map thread threads)) s -> ~ deadlock s.
Proof.
  intros Hno Hr. assert (exists phs, ordered phs s) as [phs Ho]; [|by eapply ordered_progress].
  assert (exists phs, ordered phs (start (map thread threads))) as Hstart.
  { exists (replicate (length threads) Idle). split_and!; cbn [start todo owner].
    - intros i k Hi. apply list_lookup_fmap_Some in Hi as (cs & -> & Hi).
      exists Idle, cs. rewrite lookup_replicate_2 by by eapply lookup_lt_Some.
      split_and!; [done..|]. by eapply (Forall_lookup_1 _ _ _ _ Hno).
    - by rewrite length_replicate, length_map.
    - intros l i. split; [done|]. unfold has_at.
      destruct (replicate _ _ !! i) as [ph|] eqn:Hi; [|done]. by apply lookup_replicate in Hi as [-> _]. }
  revert Hstart. induction Hr as [|s1 s2 s3 Hs _ IH]; [done|].
  intros [phs Ho]. apply IH. by eapply ordered_step.
Qed.

Definition demo_calls : list (list call) := [[Call_dump]; [Call_write_tcp; Call_outgoing]].
Definition demo_locks : locks :=
  mk_locks (set_owner outgoing_buffer_lock (Some 0%nat) (fun _ => None))
    (<[0%nat := tail dump_tcp_locks]> (map thread demo_calls)).

Lemma locks_never_deadlock_witness :
  rtc lock_step (start (map thread demo_calls)) demo_locks /\ ~ deadlock demo_locks.
Proof.
  assert (rtc lock_step (start (map thread demo_calls)) demo_locks) as Hr.
  { eapply rtc_l; [|apply rtc_refl].
    apply (step_lock (start (map thread demo_calls)) 0%nat outgoing_buffer_lock (tail dump_tcp_locks));
      reflexivity. }
  split; [exact Hr|]. apply (locks_never_deadlock demo_calls).
  - unfold demo_calls. repeat constructor; rewrite ?not_elem_of_cons; split_and?; try discriminate;
      apply not_elem_of_nil.
  - exact Hr.
Defined.

(** [append_no_op], which the DARE thread calls when it becomes leader, and
    [dump_tcp_buffer], which the TCP thread calls all the time, take the two
    locks in opposite orders: with one call of each there is an interleaving
    after which neither thread can make a step. *)
Theorem no_op_deadlocks :
  exists s, rtc lock_step (start [thread [Call_dump]; thread [Call_no_op]]) s /\ deadlock s.
Proof.
  eexists. split.
  - eapply rtc_l; [apply (step_lock _ 0%nat outgoing_buffer_lock); reflexivity|].
    eapply rtc_l; [apply (step_lock _ 1%nat tcp_buffer_lock); reflexivity|]. apply rtc_refl.
  - split; [by exists 0%nat; eauto|]. intros s' Hs.
    inversion Hs as [[|[|i]] l k Hi Ho|[|[|i]] l k Hi Ho]; cbn in Hi, Ho; simplify_eq; done.
Qed.
