(* ===== verification/Proxy.v ===== *)
(** * The proxy (proxy/proxy.c) and its database (db/db-interface.c)

    On the leader the proxy numbers the requests and hands them to the
    consensus through the tail queue; on the followers it replays the agreed
    requests: onto sockets of the local application, or, for raw packets,
    into the packet buffers.  Every request of a connection is also stored in
    a database, whose contents are the snapshot for a server that joins.

    A [void*] is the memory from that address on.  The operating system is a
    record of its answers and of what was written to the sockets. *)

From S2P Require Import Prelude Bytes Ringbuf Fifo State ConManager Framing PacketBuffer.

Open Scope Z_scope.

Definition CONNECT : Z := 4.
Definition SEND : Z := 5.
Definition CLOSE : Z := 6.
Definition RAW : Z := 7.
Definition TCPNEWCON : Z := 8.

(** ** The database

    Berkeley DB is not part of the program: [put] is what [DB->put] with
    [DB_APPEND] does with the records, or an error. *)

Record db_t := mk_db {
  db_records : list (list Z);
  records_len : Z
}.

Definition store_record (put : list (list Z) -> list Z -> option (list (list Z)))
    (db : db_t) (data_size : Z) (data : list Z) : outcome (Z * db_t) :=
  let! d := load data 0 data_size in
  let n := u32 (records_len db + data_size) in
  match put (db_records db) d with
  | Some rs => Ok (0, mk_db rs n)
  | None => Ok (1, mk_db (db_records db) n)
  end.

Definition get_records_len (db : db_t) : Z := records_len db.

(** [room] is the size of the buffer. *)
Fixpoint dump_loop (rs : list (list Z)) (room len : Z) (buf : list Z) : outcome (list Z) :=
  match rs with
  | [] => Ok buf
  | r :: rs' =>
      if len + zlen r <=? room then dump_loop rs' room (u32 (len + zlen r)) (buf ++ r) else Undef
  end.
Definition dump_records (db : db_t) (room : Z) : outcome (list Z) := dump_loop (db_records db) room 0 [].

(** ** The leader *)

Record socket_pair := mk_pair {
  sp_clt_id : Z;
  sp_req_id : Z;
  sp_connection_id : Z;
  sp_p_s : Z
}.

(** [leader_hash_map] by [clt_id], the newest item of a key first;
    [follower_hash_map] by [connection_id]. *)
Record proxy_node := mk_proxy {
  leader_hash_map : list socket_pair;
  follower_hash_map : gmap Z socket_pair;
  highest_rec : Z;
  cur_rec : Z;
  pair_count : Z;
  db_ptr : db_t
}.

Definition set_leader_map v (p : proxy_node) : proxy_node :=
  mk_proxy v (follower_hash_map p) (highest_rec p) (cur_rec p) (pair_count p) (db_ptr p).
Definition set_follower_map v (p : proxy_node) : proxy_node :=
  mk_proxy (leader_hash_map p) v (highest_rec p) (cur_rec p) (pair_count p) (db_ptr p).
Definition set_highest_rec v (p : proxy_node) : proxy_node :=
  mk_proxy (leader_hash_map p) (follower_hash_map p) v (cur_rec p) (pair_count p) (db_ptr p).
Definition set_cur_rec v (p : proxy_node) : proxy_node :=
  mk_proxy (leader_hash_map p) (follower_hash_map p) (highest_rec p) v (pair_count p) (db_ptr p).
Definition set_pair_count v (p : proxy_node) : proxy_node :=
  mk_proxy (leader_hash_map p) (follower_hash_map p) (highest_rec p) (cur_rec p) v (db_ptr p).
Definition set_db v (p : proxy_node) : proxy_node :=
  mk_proxy (leader_hash_map p) (follower_hash_map p) (highest_rec p) (cur_rec p) (pair_count p) v.

Fixpoint hash_find (clt_id : Z) (m : list socket_pair) : option socket_pair :=
  match m with
  | [] => None
  | x :: m' => if sp_clt_id x =? clt_id then Some x else hash_find clt_id m'
  end.
(** Removes the item [hash_find] returns. *)
Fixpoint hash_del (clt_id : Z) (m : list socket_pair) : list socket_pair :=
  match m with
  | [] => []
  | x :: m' => if sp_clt_id x =? clt_id then m' else x :: hash_del clt_id m'
  end.

Definition gen_key (node_id node_count : Z) : Z :=
  Z.lor (Z.lor 0 (u16 (Z.shiftl node_id 8))) node_count.

(** [req_id] and [connection_id], uninitialised unless the request belongs to
    a connection. *)
Definition next_request (node_id : Z) (junk : Z * Z) (type clt_id : Z) (p : proxy_node)
    : outcome (Z * Z * proxy_node) :=
  if type =? CONNECT then
    let pair := mk_pair clt_id 0 (gen_key node_id (pair_count p)) 0 in
    let p := set_pair_count (u8 (pair_count p + 1)) p in
    let pair := mk_pair clt_id (0 +64 1) (sp_connection_id pair) 0 in
    Ok (sp_req_id pair, sp_connection_id pair, set_leader_map (pair :: leader_hash_map p) p)
  else if type =? SEND then
    match hash_find clt_id (leader_hash_map p) with
    | None => Undef
    | Some x =>
        let pair := mk_pair (sp_clt_id x) (sp_req_id x +64 1) (sp_connection_id x) (sp_p_s x) in
        Ok (sp_req_id pair, sp_connection_id pair,
            set_leader_map (pair :: hash_del clt_id (leader_hash_map p)) p)
    end
  else if type =? CLOSE then
    match hash_find clt_id (leader_hash_map p) with
    | None => Undef
    | Some x =>
        Ok (sp_req_id x +64 1, sp_connection_id x,
            set_leader_map (hash_del clt_id (leader_hash_map p)) p)
    end
  else Ok (fst junk, snd junk, p).

(** [sizeof(cmd.cmd)] of a queue entry. *)
Definition TAILQ_CMD_SIZE : Z := 87380.

(** The part of [leader_handle_submit_req] under the lock: the record number
    the caller waits for, and the queue.  [cmd.len] has 16 bits. *)
Definition leader_handle_submit_req (node_id : Z) (junk : Z * Z) (type data_size : Z)
    (buf : list Z) (clt_id : Z) (p : proxy_node) (q : list tailq_entry_t)
    : outcome (Z * proxy_node * list tailq_entry_t) :=
  let cur := cur_rec p +64 1 in
  let p := set_cur_rec cur p in
  let! (req_id, connection_id, p) := next_request node_id junk type clt_id p in
  let! cmd :=
    if data_size =? 0 then Ok []
    else if data_size <=? TAILQ_CMD_SIZE then load buf 0 data_size else Undef in
  Ok (cur, p, q ++ [mk_tailq type connection_id req_id (ztake (u16 data_size) cmd)]).

(** [while (cur_rec > proxy->highest_rec);] has ended. *)
Definition submit_returns (cur : Z) (p : proxy_node) : bool := negb (highest_rec p <? cur).

Definition update_highest_rec (p : proxy_node) : proxy_node := set_highest_rec (highest_rec p +64 1) p.

(** The hooks: nothing on a thread of the proxy, or when not leader. *)
Definition proxy_on (inner leader : bool) (node_id : Z) (junk : Z * Z) (type data_size : Z)
    (buf : list Z) (fd : Z) (p : proxy_node) (q : list tailq_entry_t)
    : outcome (option Z * proxy_node * list tailq_entry_t) :=
  if inner then Ok (None, p, q)
  else if leader then
    let! (cur, p, q) := leader_handle_submit_req node_id junk type data_size buf fd p q in
    Ok (Some cur, p, q)
  else Ok (None, p, q).

(** ** The followers *)

Inductive sock_event :=
| Sk_connect (fd : Z)
| Sk_write (fd : Z) (data : list Z)
| Sk_close (fd : Z).

(** The answers of [socket] and [write] (exhausted: an error, and everything
    written), and what reached the sockets, latest last. *)
Record os := mk_os {
  os_socket : list Z;
  os_write : list Z;
  os_trace : list sock_event
}.
Definition trace (e : sock_event) (o : os) : os := mk_os (os_socket o) (os_write o) (os_trace o ++ [e]).

Definition do_action_connect (clt_id : Z) (p : proxy_node) (o : os) : proxy_node * os :=
  match follower_hash_map p !! clt_id with
  | Some _ => (p, o)
  | None =>
      let sockfd := match os_socket o with fd :: _ => fd | [] => -1 end in
      let o := mk_os (tail (os_socket o)) (os_write o) (os_trace o) in
      if sockfd <? 0 then (p, o)
      else (set_follower_map (<[clt_id := mk_pair 0 0 clt_id sockfd]> (follower_hash_map p)) p,
            trace (Sk_connect sockfd) o)
  end.

(** [write] takes the first [n] bytes; the result is only tested for errors. *)
Definition do_action_send (clt_id data_size : Z) (data : list Z) (p : proxy_node) (o : os)
    : outcome (proxy_node * os) :=
  match follower_hash_map p !! clt_id with
  | None => Ok (p, o)
  | Some x =>
      let! d := load data 0 data_size in
      let n := match os_write o with n :: _ => n | [] => data_size end in
      let o := mk_os (os_socket o) (tail (os_write o)) (os_trace o) in
      if n <? 0 then Ok (p, o)
      else Ok (p, trace (Sk_write (sp_p_s x) (ztake n d)) o)
  end.

Definition do_action_close (clt_id : Z) (p : proxy_node) (o : os) : proxy_node * os :=
  match follower_hash_map p !! clt_id with
  | None => (p, o)
  | Some x => (set_follower_map (delete clt_id (follower_hash_map p)) p, trace (Sk_close (sp_p_s x)) o)
  end.

(** ** Stable storage *)

Definition PROXY_CONNECT_MSG_SIZE : Z := 4.
Definition PROXY_CLOSE_MSG_SIZE : Z := 4.
(** [sizeof(proxy_send_msg)], and where [data.cmd.len] and [data.cmd.cmd] are. *)
Definition sizeof_proxy_send_msg : Z := 24.
Definition SEND_LEN_OFF : Z := 8.
Definition SEND_CMD_OFF : Z := 10.
Definition PROXY_SEND_MSG_SIZE (data : list Z) : outcome Z :=
  let! len := field 2 data SEND_LEN_OFF in Ok (len + sizeof_proxy_send_msg).

Section Storage.
Context (put : list (list Z) -> list Z -> option (list (list Z))).

Definition store_msg (size : Z) (data : list Z) (p : proxy_node) : outcome proxy_node :=
  let! (_, db) := store_record put (db_ptr p) size data in Ok (set_db db p).

Definition stablestorage_save_request (data : list Z) (p : proxy_node) : outcome proxy_node :=
  let! action := field 1 data 2 in
  if action =? CONNECT then store_msg PROXY_CONNECT_MSG_SIZE data p
  else if action =? SEND then
    let! size := PROXY_SEND_MSG_SIZE data in store_msg size data p
  else if action =? CLOSE then store_msg PROXY_CLOSE_MSG_SIZE data p
  else Ok p.

Definition stablestorage_get_records_len (p : proxy_node) : Z := get_records_len (db_ptr p).
Definition stablestorage_dump_records (p : proxy_node) (room : Z) : outcome (list Z) :=
  dump_records (db_ptr p) room.

(** One record of the loop: the new position, or the same one for an action
    that is not known. *)
Definition load_record (buf : list Z) (len : Z) (p : proxy_node) (o : os)
    : outcome (Z * proxy_node * os) :=
  let header := zdrop len buf in
  let! action := field 1 header 2 in
  let! connection_id := field 2 header 0 in
  if action =? SEND then
    let! size := PROXY_SEND_MSG_SIZE header in
    let! p := store_msg size header p in
    let! n := field 2 header SEND_LEN_OFF in
    let! (p, o) := do_action_send connection_id n (zdrop SEND_CMD_OFF header) p o in
    Ok (u32 (len + size), p, o)
  else if action =? CONNECT then
    let! p := store_msg PROXY_CONNECT_MSG_SIZE header p in
    let '(p, o) := do_action_connect connection_id p o in
    Ok (u32 (len + PROXY_CONNECT_MSG_SIZE), p, o)
  else if action =? CLOSE then
    let! p := store_msg PROXY_CLOSE_MSG_SIZE header p in
    let '(p, o) := do_action_close connection_id p o in
    Ok (u32 (len + PROXY_CLOSE_MSG_SIZE), p, o)
  else Ok (len, p, o).

Fixpoint load_loop (fuel : nat) (buf : list Z) (size len : Z) (p : proxy_node) (o : os)
    : outcome (proxy_node * os) :=
  match fuel with
  | O => Spin
  | S fuel' =>
      if len <? size then
        let! (len, p, o) := load_record buf len p o in
        load_loop fuel' buf size len p o
      else Ok (p, o)
  end.

Definition stablestorage_load_records (fuel : nat) (buf : list Z) (size : Z) (p : proxy_node) (o : os)
    : outcome (proxy_node * os) := load_loop fuel buf size 0 p o.

End Storage.

(** ** Packets for the guest *)

Definition TH_SYN : Z := 0x02.
Definition SERVICE_PORT : Z := 4321.
Definition htons (x : Z) : Z := ntohs x.
(** [inet_aton] of 10.22.1.100 *)
Definition guest_vm_ip : Z := le_combine [10; 22; 1; 100].

Section Packets.
Context {Q : Type} {F : Fifo Q}.
(** The serialisation of [con_info_type] by the tpl library. *)
Context (deserialize : list Z -> con_info_type) (serialize : con_info_type -> list Z).

(** What is sent to the guest's manager; [junk] is the uninitialised [isn]. *)
Definition handle_consensused_con (t : con_tables) (junk : Z) (buf : list Z) (len : Z)
    : outcome (list Z) :=
  let! bs := load buf 0 len in
  let con_info := deserialize bs in
  let isn := default junk (get_isn t (ci_con_id con_info)) in
  Ok (serialize (mk_con_info (ci_con_id con_info) (ci_send_seq con_info) isn (ci_options con_info))).

(** The state of the replica next to [proxy_node]: the packet buffers, the
    tables, the sockets, and what was reported to the guest's manager. *)
Record replica := mk_replica {
  r_node : proxy_node;
  r_buf : packet_buffers Q;
  r_con : con_tables;
  r_os : os;
  r_reports : list (list Z);
  tcp_no_empty : Z           (* broadcasts *)
}.
Definition set_r_node v (r : replica) : replica :=
  mk_replica v (r_buf r) (r_con r) (r_os r) (r_reports r) (tcp_no_empty r).
Definition set_r_buf v (r : replica) : replica :=
  mk_replica (r_node r) v (r_con r) (r_os r) (r_reports r) (tcp_no_empty r).
Definition set_r_con v (r : replica) : replica :=
  mk_replica (r_node r) (r_buf r) v (r_os r) (r_reports r) (tcp_no_empty r).
Definition set_r_os v (r : replica) : replica :=
  mk_replica (r_node r) (r_buf r) (r_con r) v (r_reports r) (tcp_no_empty r).
Definition report v (r : replica) : replica :=
  mk_replica (r_node r) (r_buf r) (r_con r) (r_os r) (r_reports r ++ [v]) (tcp_no_empty r).
Definition broadcast_no_empty (r : replica) : replica :=
  mk_replica (r_node r) (r_buf r) (r_con r) (r_os r) (r_reports r) (tcp_no_empty r + 1).

(** The segments [do_action_raw] does not just pass on; [h1] and [h2] are the
    holes of the local variable [con_id]. *)
Definition raw_tcp (h1 h2 : Z) (data : list Z) (size ip : Z) (r : replica) : outcome replica :=
  let! ihs := ip_header_size data ip in
  let tcp := MSG_OFF + eth_hdr_len + ihs in
  let! th_flags := field 1 data (tcp + 13) in
  let! ip_src := field 4 data (ip + 12) in
  let! ip_dst := field 4 data (ip + 16) in
  let! th_sport := field 2 data tcp in
  let! th_dport := field 2 data (tcp + 2) in
  if Z.land th_flags TH_SYN =? TH_SYN then
    let! th_seq := field 4 data (tcp + 4) in
    let! t := save_isn (r_con r) (u32 (ntohl th_seq + 1)) (mk_con ip_dst th_dport h1 ip_src th_sport h2) in
    Ok (set_r_con t r)
  else if negb (ip_dst =? guest_vm_ip) then Ok r
  else if th_sport =? htons SERVICE_PORT then Ok r
  else
    let! payload := payload_length data ip tcp in
    let! th_ack := field 4 data (tcp + 8) in
    let! (_, b) := write_to_tcp_buffer (r_buf r) (mk_con ip_src th_sport h1 ip_dst th_dport h2)
                     (ntohl th_ack) data size in
    Ok (broadcast_no_empty (set_r_buf b r)).

Definition do_action_raw (h1 h2 : Z) (data : list Z) (size : Z) (r : replica) : outcome replica :=
  let ip := MSG_OFF + eth_hdr_len in
  let! ip_p := if MSG_OFF + eth_hdr_len <? size then field 1 data (ip + 9) else Ok 0 in
  if (MSG_OFF + eth_hdr_len <? size) && (ip_p =? 0x06) then raw_tcp h1 h2 data size ip r
  else
    let! (_, b) := write_to_packet_buffer (r_buf r) data size in
    Ok (set_r_buf b r).

Definition do_action_tcpnewcon (junk : Z) (data : list Z) (size : Z) (r : replica) : outcome replica :=
  let! bs := handle_consensused_con (r_con r) junk data size in Ok (report bs r).

(** [junk] is what the uninitialised variables of the callees hold. *)
Definition do_action_to_server (junk : Z * Z * Z) (clt_id type data_size : Z) (data : list Z) (r : replica)
    : outcome replica :=
  let '(h1, h2, isn) := junk in
  if type =? CONNECT then
    let '(p, o) := do_action_connect clt_id (r_node r) (r_os r) in Ok (set_r_os o (set_r_node p r))
  else if type =? SEND then
    let! (p, o) := do_action_send clt_id data_size data (r_node r) (r_os r) in
    Ok (set_r_os o (set_r_node p r))
  else if type =? CLOSE then
    let '(p, o) := do_action_close clt_id (r_node r) (r_os r) in Ok (set_r_os o (set_r_node p r))
  else if type =? RAW then do_action_raw h1 h2 data data_size r
  else if type =? TCPNEWCON then do_action_tcpnewcon isn data data_size r
  else Ok r.

(** ** The TCP thread *)

(** What [handle_tcp_buffer] does after one look at the TCP buffer. *)
Inductive tcp_next := Tcp_again | Tcp_wait_not_empty | Tcp_wait_outgoing | Tcp_exit.

Definition after_dump (leader : bool) (ret : Z) : tcp_next :=
  if ret =? 0 then (if leader then Tcp_again else Tcp_wait_not_empty)
  else if ret =? -1 then Tcp_wait_outgoing
  else if leader && (ret =? -99) then Tcp_exit else Tcp_again.

(** One round, as follower or as leader, with the mutex taken and released as
    [handle_tcp_buffer] does; a wait on [tcp_outgoing] releases it. *)
Definition handle_tcp_round (leader : bool) (h1 h2 : Z) (r : replica) : outcome (tcp_next * replica) :=
  let! t := LOCK (r_con r) in
  let! (ret, b, t) := dump_tcp_buffer (r_buf r) t h1 h2 in
  let r := set_r_con (UNLOCK t) (set_r_buf b r) in
  Ok (after_dump leader ret, r).

End Packets.
