(* ===== verification/ProxySpec.v ===== *)
(** * The snapshot of the stored requests (proxy.c, db-interface.c)

    Loading the dump of a database on a server that joins does what applying
    the requests one by one did.  Records the code does not know, and a
    database that was opened again, break that. *)

From stdpp Require Import relations.
From S2P Require Import Prelude Bytes Ringbuf Fifo RingbufSpec State.
From S2P Require Import ConManager ConSpec Segment PacketBuffer PacketSpec Proxy.

Open Scope Z_scope.

(** ** Stored requests *)

(** A request of a connection, and the bytes from [entry->clt_id] on; [pad]
    and [junk] are the bytes in the holes and behind the command that are
    stored with it. *)
Inductive conn_request :=
| R_connect (c pad : Z)
| R_send (c : Z) (pad data junk : list Z)
| R_close (c pad : Z).

Definition req_bytes (r : conn_request) : list Z :=
  match r with
  | R_connect c pad => le_split 2 c ++ [CONNECT; pad]
  | R_send c pad data junk => le_split 2 c ++ [SEND] ++ pad ++ le_split 2 (zlen data) ++ data ++ junk
  | R_close c pad => le_split 2 c ++ [CLOSE; pad]
  end.

Definition req_ok (r : conn_request) : Prop :=
  match r with
  | R_connect c _ | R_close c _ => 0 <= c < 2 ^ 16
  | R_send c pad data junk =>
      0 <= c < 2 ^ 16 /\ zlen pad = 5 /\ zlen data < 2 ^ 16 /\ zlen junk = 14
  end.

(** The action of a request on the sockets, as [do_action_to_server] does it. *)
Definition replay_one (r : conn_request) (p : proxy_node) (o : os) : outcome (proxy_node * os) :=
  match r with
  | R_connect c _ => Ok (do_action_connect c p o)
  | R_send c _ data _ => do_action_send c (zlen data) data p o
  | R_close c _ => Ok (do_action_close c p o)
  end.
Fixpoint replay (rs : list conn_request) (p : proxy_node) (o : os) : outcome (proxy_node * os) :=
  match rs with
  | [] => Ok (p, o)
  | r :: rs' => let! (p, o) := replay_one r p o in replay rs' p o
  end.

(** Saving each request; behind it in memory there is [rest]. *)
Fixpoint save_all put (rs : list (conn_request * list Z)) (p : proxy_node) : outcome proxy_node :=
  match rs with
  | [] => Ok p
  | (r, rest) :: rs' =>
      let! p := stablestorage_save_request put (req_bytes r ++ rest) p in save_all put rs' p
  end.

Definition stream (rs : list conn_request) : list Z := concat (map req_bytes rs).

Section Snapshot.
Context (put : list (list Z) -> list Z -> option (list (list Z))).
(** [DB_APPEND] on a record-number database adds the record at the end. *)
Context (put_appends : forall rs d, put rs d = Some (rs ++ [d])).

Lemma load_front (x rest : list Z) n : n = zlen x -> load (x ++ rest) 0 n = Ok x.
Proof.
  intros ->. pose proof (zlen_nonneg x). pose proof (zlen_nonneg rest). unfold load. rewrite zlen_app.
  rewrite !(proj2 (Z.leb_le _ _)) by lia. cbn [andb]. by rewrite zdrop_le0, ztake_exact.
Qed.

(** The fields of a request. *)
Definition req_chunks (r : conn_request) : list (list Z) :=
  match r with
  | R_connect c pad => [le_split 2 c; [CONNECT]; [pad]]
  | R_send c pad data junk => [le_split 2 c; [SEND]; pad; le_split 2 (zlen data); data; junk]
  | R_close c pad => [le_split 2 c; [CLOSE]; [pad]]
  end.
Lemma req_bytes_chunks r : req_bytes r = concat (req_chunks r).
Proof. destruct r; cbn [req_bytes req_chunks concat]; by rewrite ?app_nil_r. Qed.

Definition req_con (r : conn_request) : Z :=
  match r with R_connect c _ | R_send c _ _ _ | R_close c _ => c end.
Definition req_action (r : conn_request) : Z :=
  match r with R_connect _ _ => CONNECT | R_send _ _ _ _ => SEND | R_close _ _ => CLOSE end.

Lemma req_field r rest k n o c :
  req_chunks r !! k = Some c -> o = zlen (concat (take k (req_chunks r))) -> n = zlen c ->
  field n (req_bytes r ++ rest) o = Ok (le_combine c).
Proof. intros. unfold field. rewrite req_bytes_chunks. by rewrite (load_chunk _ k c). Qed.

Lemma req_action_field r rest : field 1 (req_bytes r ++ rest) 2 = Ok (req_action r).
Proof.
  replace (req_action r) with (le_combine [req_action r]) by (cbn; lia).
  apply (req_field r rest 1); destruct r; reflexivity.
Qed.

Lemma req_con_field r rest : req_ok r -> field 2 (req_bytes r ++ rest) 0 = Ok (req_con r).
Proof.
  intros Hr. rewrite <- (le_roundtrip 2 (req_con r)) by (destruct r; cbn in *; lia).
  apply (req_field r rest 0); destruct r; cbn [req_chunks req_con]; by rewrite ?zlen_le_split.
Qed.

Lemma send_len_field c pad data junk rest :
  req_ok (R_send c pad data junk) ->
  field 2 (req_bytes (R_send c pad data junk) ++ rest) SEND_LEN_OFF = Ok (zlen data).
Proof.
  intros (Hc & Hp & Hd & Hj). pose proof (zlen_nonneg data).
  rewrite <- (le_roundtrip 2 (zlen data)) by lia. apply (req_field _ rest 3); [done| |by rewrite zlen_le_split].
  cbn [req_chunks take concat]. rewrite !zlen_app, zlen_le_split, Hp. reflexivity.
Qed.

Lemma zlen_send c pad data junk :
  req_ok (R_send c pad data junk) -> zlen (req_bytes (R_send c pad data junk)) = zlen data + 24.
Proof.
  intros (Hc & Hp & Hd & Hj). cbn [req_bytes]. rewrite !zlen_app, !zlen_le_split, Hp, Hj.
  change (zlen [SEND]) with 1. lia.
Qed.

(** Storing the bytes of a request. *)
Lemma store_req r rest p :
  store_msg put (zlen (req_bytes r)) (req_bytes r ++ rest) p =
    Ok (set_db (mk_db (db_records (db_ptr p) ++ [req_bytes r])
                  (u32 (records_len (db_ptr p) + zlen (req_bytes r)))) p).
Proof. unfold store_msg, store_record. rewrite load_front by done. cbn [obind]. by rewrite put_appends. Qed.

Lemma save_req r rest p :
  req_ok r ->
  stablestorage_save_request put (req_bytes r ++ rest) p =
    Ok (set_db (mk_db (db_records (db_ptr p) ++ [req_bytes r])
                  (u32 (records_len (db_ptr p) + zlen (req_bytes r)))) p).
Proof.
  intros Hr. unfold stablestorage_save_request. rewrite req_action_field. cbn [obind].
  destruct r as [c pad|c pad data junk|c pad]; cbn [req_action].
  - exact (store_req (R_connect c pad) rest p).
  - unfold PROXY_SEND_MSG_SIZE. rewrite send_len_field by done. cbn [obind].
    change sizeof_proxy_send_msg with 24. rewrite <- (zlen_send c pad data junk) by done.
    exact (store_req (R_send c pad data junk) rest p).
  - exact (store_req (R_close c pad) rest p).
Qed.

(** One record of the snapshot, wherever it is. *)
Lemma load_record_req pre r rest p o :
  req_ok r -> zlen (pre ++ req_bytes r) < 2 ^ 32 ->
  load_record put (pre ++ req_bytes r ++ rest) (zlen pre) p o =
    let! (p', o') := replay_one r (set_db (mk_db (db_records (db_ptr p) ++ [req_bytes r])
      (u32 (records_len (db_ptr p) + zlen (req_bytes r)))) p) o in
    Ok (zlen (pre ++ req_bytes r), p', o').
Proof.
  intros Hr Hsz. unfold load_record. rewrite zdrop_exact by done.
  rewrite req_action_field. cbn [obind]. rewrite req_con_field by done. cbn [obind].
  pose proof (zlen_nonneg pre). pose proof (zlen_nonneg (req_bytes r)). rewrite zlen_app in *.
  destruct r as [c pad|c pad data junk|c pad]; cbn [req_action req_con replay_one].
  - change PROXY_CONNECT_MSG_SIZE with (zlen (req_bytes (R_connect c pad))).
    rewrite store_req. cbn [CONNECT Z.eqb Pos.eqb SEND obind].
    destruct (do_action_connect _ _ _). by rewrite (wrap_small 32 (zlen pre + _)) by lia.
  - unfold PROXY_SEND_MSG_SIZE. rewrite send_len_field by done. cbn [SEND Z.eqb Pos.eqb obind].
    change sizeof_proxy_send_msg with 24. rewrite <- (zlen_send c pad data junk) by done.
    rewrite store_req. cbn [obind].
    assert (zdrop SEND_CMD_OFF (req_bytes (R_send c pad data junk) ++ rest) = data ++ junk ++ rest) as ->.
    { destruct Hr as (_ & Hp & _).
      replace (req_bytes (R_send c pad data junk) ++ rest) with
        ((le_split 2 c ++ [SEND] ++ pad ++ le_split 2 (zlen data)) ++ data ++ junk ++ rest)
        by (cbn [req_bytes]; by rewrite <- !app_assoc).
      apply zdrop_exact. by rewrite !zlen_app, !zlen_le_split, Hp. }
    unfold do_action_send. destruct (follower_hash_map _ !! c) as [x|]; [|by rewrite (wrap_small 32 (zlen pre + _)) by lia].
    rewrite load_front, load_all by done. cbn [obind].
    destruct (_ <? 0); cbn [obind]; by rewrite (wrap_small 32 (zlen pre + _)) by lia.
  - change PROXY_CLOSE_MSG_SIZE with (zlen (req_bytes (R_close c pad))).
    rewrite store_req. cbn [CONNECT CLOSE Z.eqb Pos.eqb SEND obind].
    destruct (do_action_close _ _ _). by rewrite (wrap_small 32 (zlen pre + _)) by lia.
Qed.

Definition add_records (rs : list conn_request) (d : db_t) : db_t :=
  mk_db (db_records d ++ map req_bytes rs) (u32 (records_len d + zlen (stream rs))).

Lemma add_records_cons r rs d :
  add_records rs (mk_db (db_records d ++ [req_bytes r]) (u32 (records_len d + zlen (req_bytes r)))) =
  add_records (r :: rs) d.
Proof.
  unfold add_records, stream. cbn [db_records records_len map concat]. rewrite <- app_assoc, zlen_app.
  f_equal. unfold wrap. rewrite Zplus_mod_idemp_l. f_equal. lia.
Qed.

Lemma add_records_nil d : 0 <= records_len d < 2 ^ 32 -> add_records [] d = d.
Proof.
  intros Hl. unfold add_records, stream. cbn [map concat]. rewrite app_nil_r.
  change (zlen (@nil Z)) with 0. rewrite Z.add_0_r, wrap_small by done. by destruct d.
Qed.

Lemma save_all_run rs p :
  Forall req_ok (map fst rs) -> 0 <= records_len (db_ptr p) < 2 ^ 32 ->
  exists p1, save_all put rs p = Ok p1 /\ db_ptr p1 = add_records (map fst rs) (db_ptr p).
Proof.
  revert p. induction rs as [|[r rest] rs IH]; intros p Hok Hl.
  { exists p. split; [done|]. by rewrite add_records_nil. }
  cbn [map] in Hok. apply Forall_cons in Hok as [Hr Hok]. cbn [save_all]. rewrite save_req by done. cbn [obind].
  edestruct IH as (p1 & Hrun & Hd); [done| |exists p1; split; [exact Hrun|]].
  - apply u32_range.
  - rewrite Hd. apply add_records_cons.
Qed.

(** Replaying does not look at the database. *)
Lemma replay_one_total r p o :
  exists p' o', replay_one r p o = Ok (p', o') /\ db_ptr p' = db_ptr p /\
    forall d, replay_one r (set_db d p) o = Ok (set_db d p', o').
Proof.
  destruct r as [c pad|c pad data junk|c pad]; cbn [replay_one].
  - unfold do_action_connect. cbn [follower_hash_map set_db].
    destruct (follower_hash_map p !! c); [|destruct (_ <? 0)]; by eexists _, _.
  - unfold do_action_send. cbn [follower_hash_map set_db].
    destruct (follower_hash_map p !! c); [|by eexists _, _]. rewrite load_all. cbn [obind].
    destruct (_ <? 0); by eexists _, _.
  - unfold do_action_close. cbn [follower_hash_map set_db].
    destruct (follower_hash_map p !! c); by eexists _, _.
Qed.

Lemma replay_total rs : forall p o,
  exists p' o', replay rs p o = Ok (p', o') /\
    forall d, replay rs (set_db d p) o = Ok (set_db d p', o').
Proof.
  induction rs as [|r rs IH]; intros p o; cbn [replay]; [by eexists _, _|].
  destruct (replay_one_total r p o) as (p1 & o1 & -> & _ & Hset). cbn [obind].
  destruct (IH p1 o1) as (p2 & o2 & -> & Hset2). exists p2, o2. split; [done|].
  intros d. rewrite Hset. cbn [obind]. apply Hset2.
Qed.

Lemma load_loop_replays rs : forall pre p o,
  Forall req_ok rs -> zlen (pre ++ stream rs) < 2 ^ 32 -> 0 <= records_len (db_ptr p) < 2 ^ 32 ->
  load_loop put (S (length rs)) (pre ++ stream rs) (zlen (pre ++ stream rs)) (zlen pre) p o =
    replay rs (set_db (add_records rs (db_ptr p)) p) o.
Proof.
  induction rs as [|r rs IH]; intros pre p o Hok Hsz Hl.
  { rewrite add_records_nil by done. unfold stream. cbn [map concat length load_loop replay].
    rewrite app_nil_r, Z.ltb_irrefl. by destruct p. }
  apply Forall_cons in Hok as [Hr Hok]. cbn [length]. remember (S (length rs)) as n.
  change (stream (r :: rs)) with (req_bytes r ++ stream rs) in *. cbn [load_loop replay].
  pose proof (zlen_nonneg (stream rs)). pose proof (zlen_nonneg (req_bytes r)) as Hnn.
  assert (0 < zlen (req_bytes r)) as Hpos.
  { rewrite req_bytes_chunks in *. destruct r; cbn [req_chunks concat] in *; rewrite zlen_app, zlen_le_split in *;
      match goal with |- context [zlen ?l] => pose proof (zlen_nonneg l) end; lia. }
  rewrite !zlen_app in *. rewrite (proj2 (Z.ltb_lt _ _)) by lia.
  rewrite load_record_req by (try done; rewrite zlen_app; lia).
  destruct (replay_one_total r p o) as (p1 & o1 & _ & Hd1 & Hset). rewrite !Hset. cbn [obind].
  rewrite (app_assoc pre). replace (zlen pre + (zlen (req_bytes r) + zlen (stream rs)))
    with (zlen ((pre ++ req_bytes r) ++ stream rs)) by (rewrite !zlen_app; lia).
  rewrite IH; [|done|rewrite !zlen_app; lia|apply u32_range]. cbn [db_ptr set_db].
  by rewrite add_records_cons.
Qed.

End Snapshot.

Lemma dump_loop_all rs : forall room len buf,
  0 <= len -> len + zlen (concat rs) <= room -> room < 2 ^ 32 ->
  dump_loop rs room len buf = Ok (buf ++ concat rs).
Proof.
  induction rs as [|r rs IH]; intros room len buf H0 Hr Hroom; cbn [dump_loop concat] in *; [by rewrite app_nil_r|].
  rewrite zlen_app in Hr. pose proof (zlen_nonneg r). pose proof (zlen_nonneg (concat rs)).
  rewrite (proj2 (Z.leb_le _ _)) by lia. rewrite wrap_small by lia.
  rewrite IH by lia. by rewrite <- app_assoc.
Qed.

(** C27. The snapshot stands for the requests.  Servers that start with an empty
    database store the connection requests they apply, fewer than 2^32 bytes of
    records in all (whatever bytes lie in the holes and behind the commands in
    the log); the dump of one of them, in a buffer of the size it announces,
    makes a server that joins with an empty database terminate after one round
    per request, do exactly what applying the requests one by one does to the
    sockets and to its table, and hold the same database. *)
Theorem snapshot_replays_requests put rs p p2 o :
  (forall recs d, put recs d = Some (recs ++ [d])) -> Forall req_ok (map fst rs) ->
  zlen (stream (map fst rs)) < 2 ^ 32 -> db_ptr p = mk_db [] 0 -> db_ptr p2 = mk_db [] 0 ->
  exists p1 buf p' o', save_all put rs p = Ok p1 /\
    stablestorage_dump_records p1 (stablestorage_get_records_len p1) = Ok buf /\
    replay (map fst rs) p2 o = Ok (p', o') /\
    stablestorage_load_records put (S (length rs)) buf (stablestorage_get_records_len p1) p2 o =
      Ok (set_db (db_ptr p1) p', o').
Proof.
  intros Hput Hok Hsz Hp Hp2. pose proof (zlen_nonneg (stream (map fst rs))) as Hnn.
  destruct (save_all_run put Hput rs p Hok) as (p1 & Hrun & Hd); [rewrite Hp; cbn; lia|].
  destruct (replay_total (map fst rs) p2 o) as (p' & o' & Hrep & Hset).
  rewrite Hp in Hd. unfold add_records in Hd. cbn [db_records records_len app] in Hd.
  rewrite Z.add_0_l, wrap_small in Hd by lia.
  exists p1, (stream (map fst rs)), p', o'. split_and!; [done| |done|].
  - unfold stablestorage_dump_records, stablestorage_get_records_len, get_records_len, dump_records.
    rewrite Hd. cbn [db_records records_len]. by rewrite dump_loop_all by (fold (stream (map fst rs)); lia).
  - unfold stablestorage_load_records, stablestorage_get_records_len, get_records_len.
    rewrite Hd. cbn [records_len]. rewrite <- (length_map fst rs).
    pose proof (load_loop_replays put Hput (map fst rs) [] p2 o Hok) as Hload.
    cbn [app] in Hload. change (zlen []) with 0 in Hload. rewrite Hload by (rewrite ?Hp2; cbn; lia).
    rewrite Hset. unfold add_records. rewrite Hp2. cbn [db_records records_len app].
    by rewrite Z.add_0_l, wrap_small by lia.
Qed.

(** A server whose [socket] gives the descriptors 7, 8, ... *)
Definition demo_proxy : proxy_node := mk_proxy [] ∅ 0 0 0 (mk_db [] 0).
Definition demo_os : os := mk_os [7; 8; 9] [] [].
Definition demo_requests : list (conn_request * list Z) :=
  [(R_connect 256 0, [1; 2]);
   (R_send 256 [0; 0; 0; 0; 0] [72; 105] (replicate 14 170), []);
   (R_connect 257 0, []); (R_close 256 0, [])].

Lemma demo_requests_ok : Forall req_ok (map fst demo_requests).
Proof. unfold demo_requests. repeat constructor; cbn; lia. Qed.

Lemma snapshot_replays_requests_witness :
  exists p1 buf p' o', save_all (fun rs d => Some (rs ++ [d])) demo_requests demo_proxy = Ok p1 /\
    stablestorage_dump_records p1 (stablestorage_get_records_len p1) = Ok buf /\
    replay (map fst demo_requests) demo_proxy demo_os = Ok (p', o') /\
    stablestorage_load_records (fun rs d => Some (rs ++ [d])) 5 buf
      (stablestorage_get_records_len p1) demo_proxy demo_os = Ok (set_db (db_ptr p1) p', o').
Proof.
  apply (snapshot_replays_requests (fun rs d => Some (rs ++ [d])) demo_requests demo_proxy demo_proxy demo_os).
  - reflexivity.
  - exact demo_requests_ok.
  - reflexivity.
  - reflexivity.
  - reflexivity.
Defined.

(** C37. A record with any other action at the current position makes the loop of
    [stablestorage_load_records] run for ever: the position does not move. *)
Theorem unknown_record_never_ends put fuel buf size p o a c :
  0 < size -> field 1 buf 2 = Ok a -> field 2 buf 0 = Ok c ->
  a <> SEND -> a <> CONNECT -> a <> CLOSE ->
  stablestorage_load_records put fuel buf size p o = Spin.
Proof.
  intros Hs Ha Hc H1 H2 H3. unfold stablestorage_load_records.
  induction fuel as [|fuel IH]; [done|]. cbn [load_loop]. rewrite (proj2 (Z.ltb_lt _ _)) by done.
  unfold load_record. rewrite zdrop_le0, Ha, Hc by done. cbn [obind].
  rewrite !(proj2 (Z.eqb_neq _ _)) by done. cbn [obind]. exact IH.
Qed.

Lemma unknown_record_never_ends_witness :
  stablestorage_load_records (fun rs d => Some (rs ++ [d])) 1000 [0; 0; 7; 0] 4 demo_proxy demo_os = Spin.
Proof.
  apply (unknown_record_never_ends (fun rs d => Some (rs ++ [d])) 1000 [0; 0; 7; 0] 4 demo_proxy demo_os 7 0);
    try reflexivity; discriminate.
Defined.

(** A database that survived a restart overflows the snapshot: the length
    the server announces starts at 0 again while the old records are still
    dumped. *)
Theorem reopened_db_overflows_snapshot put r rest old p :
  (forall recs d, put recs d = Some (recs ++ [d])) -> req_ok r ->
  zlen (req_bytes r) < 2 ^ 32 -> 0 < zlen (concat old) -> db_ptr p = mk_db old 0 ->
  exists p1, stablestorage_save_request put (req_bytes r ++ rest) p = Ok p1 /\
    stablestorage_dump_records p1 (stablestorage_get_records_len p1) = Undef.
Proof.
  intros Hput Hr Hsz Hold Hp. eexists. split; [by apply save_req|]. rewrite Hp.
  unfold stablestorage_dump_records, stablestorage_get_records_len, get_records_len, dump_records.
  cbn [db_ptr set_db db_records records_len]. pose proof (zlen_nonneg (req_bytes r)).
  rewrite Z.add_0_l, wrap_small by lia.
  assert (forall rs room len buf, 0 <= len <= room -> room < 2 ^ 32 -> room < len + zlen (concat rs) ->
    dump_loop rs room len buf = Undef) as Hover.
  { induction rs as [|x rs IH]; intros room len buf Hl Hroom Hov; cbn [dump_loop concat] in *;
      [change (zlen []) with 0 in Hov; lia|].
    rewrite zlen_app in Hov. pose proof (zlen_nonneg x). zcase; [|done].
    apply IH; rewrite ?wrap_small by lia; lia. }
  apply Hover; [lia..|]. rewrite concat_app, zlen_app. cbn [concat]. rewrite app_nil_r. lia.
Qed.

Lemma reopened_db_overflows_snapshot_witness :
  exists p1, stablestorage_save_request (fun rs d => Some (rs ++ [d])) ([1; 0; 4; 0] ++ [9])
      (set_db (mk_db [[1; 0; 6; 0]] 0) demo_proxy) = Ok p1 /\
    stablestorage_dump_records p1 (stablestorage_get_records_len p1) = Undef.
Proof.
  apply (reopened_db_overflows_snapshot (fun rs d => Some (rs ++ [d])) (R_connect 1 0) [9] [[1; 0; 6; 0]]
           (set_db (mk_db [[1; 0; 6; 0]] 0) demo_proxy)); try reflexivity; cbn; lia.
Defined.
