(* ===== verification/SubmitSpec.v ===== *)
(** * How the leader labels requests

    For any use of the hooks that accepts a descriptor before it reads from
    it, the [n]-th request of the [k]-th connection gets the request number
    [n] and the identifier of [k] modulo 256.  So the labels are unique for
    256 connections; with one more, the followers mix up two connections. *)

From S2P Require Import Prelude Bytes Words Ringbuf RingbufSpec State ConManager Proxy.

Open Scope Z_scope.

(** ** Hooks and labels *)

Inductive hook := H_accept (fd : Z) | H_read (fd : Z) (data : list Z) | H_close (fd : Z).

Section Hooks.
Context (node_id : Z) (junk : Z * Z).

Definition hook_step (h : hook) (p : proxy_node) (q : list tailq_entry_t)
    : outcome (Z * proxy_node * list tailq_entry_t) :=
  match h with
  | H_accept fd => leader_handle_submit_req node_id junk CONNECT 0 [] fd p q
  | H_read fd data => leader_handle_submit_req node_id junk SEND (zlen data) data fd p q
  | H_close fd => leader_handle_submit_req node_id junk CLOSE 0 [] fd p q
  end.

Fixpoint hook_run (hs : list hook) (p : proxy_node) (q : list tailq_entry_t)
    : outcome (proxy_node * list tailq_entry_t) :=
  match hs with
  | [] => Ok (p, q)
  | h :: hs' => let! (_, p, q) := hook_step h p q in hook_run hs' p q
  end.

End Hooks.

(** The open connections: the number of each and its requests so far. *)
Record sessions := mk_sessions { opened : gmap Z (Z * Z); accepted : Z }.

(** The label of the next request; [None] is a descriptor that was not accepted,
    or accepted twice. *)
Definition label_step (h : hook) (s : sessions) : option (Z * Z * sessions) :=
  match h with
  | H_accept fd =>
      match opened s !! fd with
      | None => Some (accepted s, 1, mk_sessions (<[fd := (accepted s, 1)]> (opened s)) (accepted s + 1))
      | Some _ => None
      end
  | H_read fd data =>
      match opened s !! fd with
      | Some (k, n) =>
          if zlen data <=? TAILQ_CMD_SIZE
          then Some (k, n + 1, mk_sessions (<[fd := (k, n + 1)]> (opened s)) (accepted s)) else None
      | None => None
      end
  | H_close fd =>
      match opened s !! fd with
      | Some (k, n) => Some (k, n + 1, mk_sessions (delete fd (opened s)) (accepted s))
      | None => None
      end
  end.

Fixpoint label_run (hs : list hook) (s : sessions) : option (list (Z * Z) * sessions) :=
  match hs with
  | [] => Some ([], s)
  | h :: hs' =>
      match label_step h s with
      | Some (k, n, s1) =>
          match label_run hs' s1 with Some (l, s2) => Some ((k, n) :: l, s2) | None => None end
      | None => None
      end
  end.

Definition no_sessions : sessions := mk_sessions ∅ 0.

(** ** The table of the leader *)

Lemma gen_key_sum node_id c : 0 <= node_id < 256 -> 0 <= c < 256 -> gen_key node_id c = node_id * 256 + c.
Proof.
  intros Hn Hc. unfold gen_key. rewrite Z.lor_0_l, Z.shiftl_mul_pow2, wrap_small by lia.
  change 256 with (2 ^ 8). rewrite <- (Z.add_0_r (node_id * 2 ^ 8)).
  replace c with (0 * 2 ^ 8 + c) at 1 by lia. rewrite lor_split by lia. rewrite Z.lor_0_r, Z.lor_0_l. lia.
Qed.

Definition keys (m : list socket_pair) : list Z := map sp_clt_id m.

Lemma hash_find_None fd m : fd ∉ keys m -> hash_find fd m = None.
Proof.
  induction m as [|x m IH]; cbn [hash_find keys map]; [done|]. intros [Hne Hm]%not_elem_of_cons.
  rewrite (proj2 (Z.eqb_neq _ _)) by congruence. by apply IH.
Qed.

Lemma hash_find_Some fd m x : hash_find fd m = Some x -> sp_clt_id x = fd /\ fd ∈ keys m.
Proof.
  induction m as [|y m IH]; cbn [hash_find keys map]; [done|]. zcase.
  - intros [= ->]. split; [done|]. rewrite <- e. left.
  - intros [H1 H2]%IH. split; [done|]. by right.
Qed.

Lemma hash_del_spec fd m :
  NoDup (keys m) ->
  NoDup (keys (hash_del fd m)) /\ (forall x, x ∈ keys (hash_del fd m) <-> x ∈ keys m /\ x <> fd) /\
  forall fd', hash_find fd' (hash_del fd m) = if decide (fd' = fd) then None else hash_find fd' m.
Proof.
  induction m as [|x m IH]; cbn [keys map]; intros Hnd.
  { split_and!; [constructor|cbn; set_solver|]. intros fd'. by case_decide. }
  apply NoDup_cons in Hnd as [Hx Hnd]. destruct (IH Hnd) as (H1 & H2 & H3). cbn [hash_del].
  fold (keys m) in *. destruct (Z.eqb_spec (sp_clt_id x) fd) as [He|He].
  - split_and!; [done|set_solver|]. intros fd'. case_decide as Hf; cbn [hash_find].
    + subst fd'. rewrite <- He. by apply hash_find_None.
    + by rewrite (proj2 (Z.eqb_neq _ _)) by congruence.
  - cbn [keys map hash_find]. fold (keys (hash_del fd m)). split_and!.
    + constructor; [|done]. rewrite H2. tauto.
    + intros y. rewrite !elem_of_cons, H2. split; [intros [->|]; tauto|]. tauto.
    + intros fd'. rewrite H3. zcase; case_decide; congruence.
Qed.

Section Labels.
Context (node_id : Z) (junk : Z * Z) (Hnode : 0 <= node_id < 256).

Definition pair_of (fd : Z) (kn : Z * Z) : socket_pair :=
  mk_pair fd (u64 (snd kn)) (node_id * 256 + u8 (fst kn)) 0.

Record tracks (p : proxy_node) (s : sessions) : Prop := {
  tr_nodup : NoDup (keys (leader_hash_map p));
  tr_find : forall fd, hash_find fd (leader_hash_map p) = pair_of fd <$> opened s !! fd;
  tr_count : pair_count p = u8 (accepted s)
}.

Lemma tracks_None p s fd : tracks p s -> opened s !! fd = None -> fd ∉ keys (leader_hash_map p).
Proof.
  intros [Hnd Hf _] Ho Hin. specialize (Hf fd). rewrite Ho in Hf. cbn in Hf.
  clear Hnd Ho. induction (leader_hash_map p) as [|x m IH]; cbn [keys map hash_find] in *; [set_solver|].
  destruct (Z.eqb_spec (sp_clt_id x) fd); [done|]. apply elem_of_cons in Hin as [?|?]; [congruence|]. auto.
Qed.

(** Putting a pair in front of a table without it. *)
Lemma tracks_cons p s x m fd kn c acc :
  NoDup (keys m) -> fd ∉ keys m ->
  (forall fd', fd' <> fd -> hash_find fd' m = pair_of fd' <$> opened s !! fd') ->
  x = pair_of fd kn -> leader_hash_map p = x :: m -> pair_count p = c -> c = u8 acc ->
  tracks p (mk_sessions (<[fd := kn]> (opened s)) acc).
Proof.
  intros Hnd Hin Hf -> Hm Hp ->. split; rewrite ?Hm; [by constructor| |done].
  intros fd'. cbn [hash_find opened]. change (sp_clt_id (pair_of fd kn)) with fd. zcase.
  - subst. by rewrite lookup_insert_eq.
  - rewrite lookup_insert_ne by done. by apply Hf.
Qed.

Lemma u64_u64 n : u64 n +64 1 = u64 (n + 1).
Proof. unfold wrap. by rewrite Zplus_mod_idemp_l. Qed.

(** One request: the label the queue entry gets. *)
Lemma hook_labels h p q s k n s' :
  tracks p s -> label_step h s = Some (k, n, s') ->
  exists p' e, hook_step node_id junk h p q = Ok (cur_rec p +64 1, p', q ++ [e]) /\ tracks p' s' /\
    cur_rec p' = cur_rec p +64 1 /\ tq_connection_id e = node_id * 256 + u8 k /\ tq_req_id e = u64 n.
Proof.
  intros Ht Hs. pose proof Ht as [Hnd Hf Hc].
  destruct h as [fd|fd data|fd]; cbn [label_step] in Hs; destruct (opened s !! fd) as [[k0 n0]|] eqn:Ho;
    try done; cbn [hook_step]; unfold leader_handle_submit_req, next_request.
  - injection Hs as <- <- <-. cbn [CONNECT Z.eqb Pos.eqb obind]. eexists _, _. split; [done|].
    cbn [tq_connection_id tq_req_id sp_connection_id sp_req_id cur_rec set_leader_map set_pair_count
         pair_count set_cur_rec]. rewrite Hc, gen_key_sum by (done || apply u8_range).
    split_and!; [|done..]. eapply tracks_cons; [done|by eapply tracks_None|by intros ? _| |done|done|].
    + done.
    + unfold wrap. by rewrite Zplus_mod_idemp_l.
  - destruct (zlen data <=? TAILQ_CMD_SIZE) eqn:Hd; [|done]. injection Hs as <- <- <-.
    cbn [CONNECT SEND Z.eqb Pos.eqb leader_hash_map set_cur_rec]. rewrite Hf, Ho. cbn [fmap option_fmap option_map obind].
    pose proof (hash_del_spec fd _ Hnd) as (H1 & H2 & H3).
    assert (exists cmd, (if zlen data =? 0 then Ok [] else load data 0 (zlen data)) = Ok cmd) as [cmd Hcmd].
    { destruct (zlen data =? 0); [eauto|]. exists data. unfold load. pose proof (zlen_nonneg data).
      rewrite !(proj2 (Z.leb_le _ _)) by lia. cbn [andb]. by rewrite zdrop_le0, ztake_ge. }
    rewrite Hcmd. cbn [obind]. eexists _, _. split; [done|].
    cbn [tq_connection_id tq_req_id sp_connection_id sp_req_id cur_rec set_leader_map pair_of fst snd sp_clt_id sp_p_s].
    split_and!; [|done..|by rewrite u64_u64].
    eapply tracks_cons; [done|rewrite H2; tauto| | |done|done|done].
    + intros fd' Hne. rewrite H3. by case_decide.
    + unfold pair_of. cbn [fst snd]. by rewrite u64_u64.
  - injection Hs as <- <- <-. cbn [CONNECT SEND CLOSE Z.eqb Pos.eqb leader_hash_map set_cur_rec].
    rewrite Hf, Ho. cbn [fmap option_fmap option_map obind].
    pose proof (hash_del_spec fd _ Hnd) as (H1 & H2 & H3). eexists _, _. split; [done|].
    cbn [tq_connection_id tq_req_id cur_rec set_leader_map pair_of fst snd sp_req_id sp_connection_id].
    split_and!; [|done..|by rewrite u64_u64]. split; [done| |done].
    intros fd'. cbn [leader_hash_map set_leader_map opened]. rewrite H3. case_decide.
    + subst. by rewrite lookup_delete_eq.
    + rewrite lookup_delete_ne by done. apply Hf.
Qed.

Definition entry_label (e : tailq_entry_t) : Z * Z := (tq_connection_id e, tq_req_id e).
Definition wire_label (l : Z * Z) : Z * Z := (node_id * 256 + u8 (fst l), u64 (snd l)).

Lemma hooks_label hs : forall p q s l s',
  tracks p s -> label_run hs s = Some (l, s') ->
  exists p' es, hook_run node_id junk hs p q = Ok (p', q ++ es) /\ map entry_label es = map wire_label l.
Proof.
  induction hs as [|h hs IH]; intros p q s l s' Ht Hs; cbn [label_run hook_run] in *.
  { injection Hs as <- <-. exists p, []. by rewrite app_nil_r. }
  destruct (label_step h s) as [[[k n] s1]|] eqn:Hl; [|done].
  destruct (label_run hs s1) as [[l1 s2]|] eqn:Hr; [|done]. injection Hs as <- <-.
  destruct (hook_labels h p q s k n s1 Ht Hl) as (p1 & e & -> & Ht1 & _ & H1 & H2). cbn [obind].
  destruct (IH p1 (q ++ [e]) s1 l1 s2 Ht1 Hr) as (p2 & es & -> & Hes).
  exists p2, (e :: es). rewrite <- app_assoc. split; [done|]. cbn [map]. f_equal; [|done].
  unfold entry_label, wire_label. cbn [fst snd]. by rewrite H1, H2.
Qed.

End Labels.

(** ** The labels are unique *)

(** Labels given so far: numbers of connections below the next one, and at most
    the number of requests of a connection that is still open. *)
Record labelled (l : list (Z * Z)) (s : sessions) : Prop := {
  lb_nodup : NoDup l;
  lb_old : forall k n, (k, n) ∈ l -> 0 <= k < accepted s /\ 1 <= n;
  lb_open : forall fd k n, opened s !! fd = Some (k, n) -> 0 <= k < accepted s /\ 1 <= n /\
    (forall n', (k, n') ∈ l -> n' <= n);
  lb_inj : forall fd fd' k n n', opened s !! fd = Some (k, n) -> opened s !! fd' = Some (k, n') -> fd = fd'
}.

(** The next request of an open connection. *)
Lemma labelled_next l s fd k n :
  labelled l s -> opened s !! fd = Some (k, n) ->
  NoDup (l ++ [(k, n + 1)]) /\
  (forall k' n', (k', n') ∈ l ++ [(k, n + 1)] -> 0 <= k' < accepted s /\ 1 <= n') /\
  (forall n', (k, n') ∈ l ++ [(k, n + 1)] -> n' <= n + 1) /\
  forall fd' k' m, fd' <> fd -> opened s !! fd' = Some (k', m) ->
    0 <= k' < accepted s /\ 1 <= m /\ forall n', (k', n') ∈ l ++ [(k, n + 1)] -> n' <= m.
Proof.
  intros [Hnd Hold Hop Hinj] Ho. destruct (Hop _ _ _ Ho) as (H1 & H2 & H3). split_and!.
  - apply NoDup_app. split_and!; [done| |apply NoDup_singleton].
    intros x Hin ->%list_elem_of_singleton. apply H3 in Hin. lia.
  - intros k' n' [Hin|Hin]%elem_of_app; [by apply Hold|].
    apply list_elem_of_singleton in Hin as [= -> ->]. lia.
  - intros n' [Hin|Hin]%elem_of_app; [apply H3 in Hin; lia|].
    apply list_elem_of_singleton in Hin as [= ->]. lia.
  - intros fd' k' m Hne Hfd. destruct (Hop _ _ _ Hfd) as (H4 & H5 & H6). split_and!; [lia..|].
    intros n' [Hin|Hin]%elem_of_app; [by apply H6|].
    apply list_elem_of_singleton in Hin as [= -> ->]. by pose proof (Hinj _ _ _ _ _ Ho Hfd).
Qed.

Lemma labelled_step h l s k n s' :
  0 <= accepted s -> labelled l s -> label_step h s = Some (k, n, s') ->
  labelled (l ++ [(k, n)]) s' /\ 0 <= accepted s'.
Proof.
  intros Hacc Hlb Hs. pose proof Hlb as [Hnd Hold Hop Hinj].
  destruct h as [fd|fd data|fd]; cbn [label_step] in Hs; destruct (opened s !! fd) as [[k0 n0]|] eqn:Ho; try done.
  - injection Hs as <- <- <-. cbn [accepted]. split; [|lia]. split; cbn [accepted opened].
    + apply NoDup_app. split_and!; [done| |apply NoDup_singleton].
      intros [k n] Hin Hx%list_elem_of_singleton. simplify_eq. apply Hold in Hin. lia.
    + intros k n [Hin|Hin]%elem_of_app; [apply Hold in Hin; lia|].
      apply list_elem_of_singleton in Hin as [= -> ->]. lia.
    + intros fd' k n [[<- [= <- <-]]|[Hne Hfd]]%lookup_insert_Some.
      * split_and!; [lia..|]. intros n' [Hin|Hin]%elem_of_app; [apply Hold in Hin; lia|].
        apply list_elem_of_singleton in Hin as [= ->]. lia.
      * destruct (Hop _ _ _ Hfd) as (H1 & H2 & H3). split_and!; [lia..|].
        intros n' [Hin|Hin]%elem_of_app; [by apply H3|]. apply list_elem_of_singleton in Hin as [= -> ->]. lia.
    + intros f1 f2 k n n' [[<- [= <- <-]]|[Hne1 H1]]%lookup_insert_Some [[<- H2]|[Hne2 H2]]%lookup_insert_Some.
      * done.
      * apply Hop in H2. lia.
      * simplify_eq. apply Hop in H1. lia.
      * by eapply Hinj.
  - destruct (zlen data <=? TAILQ_CMD_SIZE); [|done]. injection Hs as <- <- <-.
    destruct (labelled_next _ _ _ _ _ Hlb Ho) as (H1 & H2 & H3 & H4). split; [|done].
    split; cbn [accepted opened]; [done..| |].
    + intros fd' k n [[<- [= <- <-]]|[Hne Hfd]]%lookup_insert_Some; [|by apply (H4 fd')].
      destruct (Hop _ _ _ Ho) as (H5 & H6 & _). split_and!; [lia..|done].
    + intros f1 f2 k n n' [[<- Hf1]|[Hne1 Hf1]]%lookup_insert_Some [[<- Hf2]|[Hne2 Hf2]]%lookup_insert_Some;
        simplify_eq; eauto.
  - injection Hs as <- <- <-. destruct (labelled_next _ _ _ _ _ Hlb Ho) as (H1 & H2 & H3 & H4). split; [|done].
    split; cbn [accepted opened]; [done..| |].
    + intros fd' k n [Hne Hfd]%lookup_delete_Some. by apply (H4 fd').
    + intros f1 f2 k n n' [_ Hf1]%lookup_delete_Some [_ Hf2]%lookup_delete_Some. eauto.
Qed.

Lemma label_run_unique hs : forall l s l1 s',
  0 <= accepted s -> labelled l s -> label_run hs s = Some (l1, s') ->
  labelled (l ++ l1) s'.
Proof.
  induction hs as [|h hs IH]; intros l s l1 s' Hacc Hl Hs; cbn [label_run] in Hs.
  { injection Hs as <- <-. by rewrite app_nil_r. }
  destruct (label_step h s) as [[[k n] s1]|] eqn:Hst; [|done].
  destruct (label_run hs s1) as [[l2 s2]|] eqn:Hr; [|done]. injection Hs as <- <-.
  destruct (labelled_step _ _ _ _ _ _ Hacc Hl Hst) as [Hl1 Ha1].
  specialize (IH _ _ _ _ Ha1 Hl1 Hr). by rewrite <- app_assoc in IH.
Qed.

(** The request numbers stay below the number of requests. *)
Lemma label_run_small hs : forall s l s' b,
  label_run hs s = Some (l, s') -> (forall fd k n, opened s !! fd = Some (k, n) -> n <= b) -> 0 <= b ->
  forall k n, (k, n) ∈ l -> n <= b + Z.of_nat (length hs).
Proof.
  induction hs as [|h hs IH]; intros s l s' b Hs Hb H0 k n Hin; cbn [label_run] in Hs.
  { injection Hs as <- <-. by apply not_elem_of_nil in Hin. }
  destruct (label_step h s) as [[[k1 n1] s1]|] eqn:Hst; [|done].
  destruct (label_run hs s1) as [[l2 s2]|] eqn:Hr; [|done]. injection Hs as <- <-.
  assert (n1 <= b + 1 /\ forall fd k n, opened s1 !! fd = Some (k, n) -> n <= b + 1) as [Hn1 Hb1].
  { destruct h as [fd|fd data|fd]; cbn [label_step] in Hst; destruct (opened s !! fd) as [[k0 n0]|] eqn:Ho;
      try done; [|destruct (zlen data <=? _); [|done]|]; injection Hst as <- <- <-; cbn [opened];
      try (apply Hb in Ho); (split; [lia|]); intros fd' k' n'.
    - intros [[_ [= <- <-]]|[_ Hf%Hb]]%lookup_insert_Some; lia.
    - intros [[_ [= <- <-]]|[_ Hf%Hb]]%lookup_insert_Some; lia.
    - intros [_ Hf%Hb]%lookup_delete_Some. lia. }
  cbn [length]. apply elem_of_cons in Hin as [[= -> ->]|Hin]; [lia|].
  specialize (IH s1 l2 s2 (b + 1) Hr Hb1 ltac:(lia) k n Hin). lia.
Qed.

(** ** Theorems *)

Definition is_accept (h : hook) : bool := match h with H_accept _ => true | _ => false end.
Definition accepts (hs : list hook) : list hook := filter (fun h => is_accept h = true) hs.

Lemma label_run_accepted hs : forall s l s',
  label_run hs s = Some (l, s') -> accepted s' = accepted s + Z.of_nat (length (accepts hs)).
Proof.
  induction hs as [|h hs IH]; intros s l s' Hs; cbn [label_run] in Hs.
  { injection Hs as <- <-. cbn. lia. }
  destruct (label_step h s) as [[[k1 n1] s1]|] eqn:Hst; [|done].
  destruct (label_run hs s1) as [[l2 s2]|] eqn:Hr; [|done]. injection Hs as <- <-.
  rewrite (IH _ _ _ Hr). unfold accepts. rewrite filter_cons.
  destruct h as [fd|fd data|fd]; cbn [label_step] in Hst; destruct (opened s !! fd) as [[k0 n0]|];
    try done; [|destruct (zlen data <=? _); [|done]|]; injection Hst as <- <- <-;
    cbn [accepted is_accept]; case_decide; try done; cbn [length]; lia.
Qed.

Lemma label_run_length hs : forall s l s', label_run hs s = Some (l, s') -> length l = length hs.
Proof.
  induction hs as [|h hs IH]; intros s l s' Hl; cbn [label_run] in Hl; [by injection Hl as <- <-|].
  destruct (label_step h s) as [[[k1 n1] s1]|]; [|done].
  destruct (label_run hs s1) as [[l2 s2]|] eqn:Hr; [|done]. injection Hl as <- <-. cbn. f_equal. eauto.
Qed.

Lemma tracks_init node_id p :
  leader_hash_map p = [] -> pair_count p = 0 -> tracks node_id p no_sessions.
Proof.
  intros Hm Hp. split; rewrite ?Hm, ?Hp; [constructor| |done]. intros fd. cbn.
  by rewrite lookup_empty.
Qed.

Lemma labelled_init : labelled [] no_sessions.
Proof.
  split; cbn; [constructor|..].
  - intros k n H. by apply not_elem_of_nil in H.
  - intros fd k n H. by rewrite lookup_empty in H.
  - intros fd fd' k n n' H. by rewrite lookup_empty in H.
Qed.

(** C28. Every request has its own label.  The application uses the hooks
    properly (a descriptor is accepted before it is read from or closed, and not
    twice), with at most 256 connections: then no request fails, and no two
    requests the leader puts in the queue have the same connection identifier
    and request number. *)
Theorem requests_have_unique_labels node_id junk hs p l s :
  0 <= node_id < 256 -> leader_hash_map p = [] -> pair_count p = 0 ->
  label_run hs no_sessions = Some (l, s) ->
  Z.of_nat (length (accepts hs)) <= 256 -> Z.of_nat (length hs) < 2 ^ 63 ->
  exists p' q, hook_run node_id junk hs p [] = Ok (p', q) /\ length q = length hs /\
    NoDup (map entry_label q).
Proof.
  intros Hn Hm Hp Hl Ha Hlen.
  destruct (hooks_label node_id junk Hn hs p [] no_sessions l s (tracks_init _ _ Hm Hp) Hl)
    as (p' & q & Hrun & Hq). exists p', q. split; [done|].
  pose proof (label_run_unique hs [] no_sessions l s (Z.le_refl 0) labelled_init Hl) as Hlb. cbn [app] in Hlb.
  pose proof (label_run_accepted _ _ _ _ Hl) as Hacc. cbn [accepted no_sessions] in Hacc.
  assert (forall k n, (k, n) ∈ l -> n <= 0 + Z.of_nat (length hs)) as Hsm.
  { apply (label_run_small hs no_sessions l s 0 Hl); [|done]. intros fd k n H. cbn in H.
    by rewrite lookup_empty in H. }
  pose proof (label_run_length _ _ _ _ Hl) as Hll.
  split; [rewrite <- Hll, <- (length_map entry_label), Hq; apply length_map|].
  rewrite Hq. apply NoDup_fmap_2_strong; [|apply Hlb].
  intros [k1 n1] [k2 n2] H1 H2 [= Hk Hnn].
  pose proof (lb_old _ _ Hlb _ _ H1). pose proof (lb_old _ _ Hlb _ _ H2).
  apply Hsm in H1, H2.
  rewrite !u8_small in Hk by lia. rewrite !u64_small in Hnn by lia. f_equal; lia.
Qed.

Definition demo_hooks : list hook :=
  [H_accept 5; H_read 5 [1; 2]; H_accept 6; H_read 6 [3]; H_close 5; H_accept 5; H_read 5 [4]].
Definition idle_proxy : proxy_node := mk_proxy [] ∅ 0 0 0 (mk_db [] 0).

Lemma requests_have_unique_labels_witness :
  exists p' q, hook_run 1 (0, 0) demo_hooks idle_proxy [] = Ok (p', q) /\ length q = 7%nat /\
    NoDup (map entry_label q).
Proof.
  apply (requests_have_unique_labels 1 (0, 0) demo_hooks idle_proxy
           [(0, 1); (0, 2); (1, 1); (1, 2); (0, 3); (2, 1); (2, 2)] (mk_sessions {[ 5 := (2, 2); 6 := (1, 2) ]} 3)).
  - lia.
  - reflexivity.
  - reflexivity.
  - vm_compute. reflexivity.
  - vm_compute. discriminate.
  - reflexivity.
Defined.

(** The labels of requests of consecutive connections on descriptors from [fd]. *)
Definition many_hooks (n : nat) : list hook := map (fun i => H_accept (10 + Z.of_nat i)) (seq 0 n).

(** The 257th connection gets the identifier of the first: its CONNECT and
    its first data carry the labels of the first connection, and a follower
    that has the first one open ignores the CONNECT and writes the data to
    the wrong socket. *)
Theorem connection_ids_wrap data :
  exists p q, hook_run 1 (0, 0) (many_hooks 257) idle_proxy [] = Ok (p, q) /\
    (entry_label <$> q !! 0%nat) = Some (256, 1) /\ (entry_label <$> q !! 256%nat) = Some (256, 1) /\
    let '(p1, o1) := do_action_connect 256 idle_proxy (mk_os [70; 71] [] []) in
    let '(p2, o2) := do_action_connect 256 p1 o1 in
    (p2, o2) = (p1, o1) /\
    (let! (_, o3) := do_action_send 256 (zlen data) data p2 o2 in Ok (os_trace o3)) =
      Ok [Sk_connect 70; Sk_write 70 data].
Proof.
  assert (exists p q, hook_run 1 (0, 0) (many_hooks 257) idle_proxy [] = Ok (p, q) /\
    (entry_label <$> q !! 0%nat) = Some (256, 1) /\ (entry_label <$> q !! 256%nat) = Some (256, 1))
    as (p & q & H1 & H2 & H3) by (do 2 eexists; split; [vm_compute; reflexivity|split; reflexivity]).
  exists p, q. split_and!; [done..|]. cbn. split; [done|]. unfold do_action_send. cbn.
  pose proof (zlen_nonneg data). unfold load. rewrite !(proj2 (Z.leb_le _ _)) by lia. cbn [andb obind].
  rewrite (proj2 (Z.ltb_ge _ _)) by done. cbn. by rewrite zdrop_le0, !ztake_ge by (rewrite ?ztake_ge; lia).
Qed.

(** A request of 64 kilobytes or more loses its end: the length of a queue
    entry has 16 bits, while data of up to 87380 bytes is accepted. *)
Theorem long_request_is_truncated node_id junk data fd p q x :
  hash_find fd (leader_hash_map p) = Some x -> 65536 <= zlen data <= TAILQ_CMD_SIZE ->
  exists p' e, leader_handle_submit_req node_id junk SEND (zlen data) data fd p q =
      Ok (cur_rec p +64 1, p', q ++ [e]) /\ tq_cmd e = ztake (zlen data - 65536) data.
Proof.
  unfold TAILQ_CMD_SIZE. intros Hf Hd. unfold leader_handle_submit_req, next_request.
  cbn [SEND CONNECT Z.eqb Pos.eqb leader_hash_map set_cur_rec]. rewrite Hf. cbn [obind].
  rewrite (proj2 (Z.eqb_neq _ _)), (proj2 (Z.leb_le _ _)) by (unfold TAILQ_CMD_SIZE; lia).
  unfold load. rewrite !(proj2 (Z.leb_le _ _)) by lia. cbn [andb obind].
  eexists _, _. split; [done|]. cbn [tq_cmd]. rewrite zdrop_le0, (ztake_ge (zlen data)) by lia.
  f_equal. unfold wrap. replace (zlen data) with (zlen data - 65536 + 1 * 2 ^ 16) at 1 by lia.
  rewrite Z_mod_plus_full, Z.mod_small; lia.
Qed.

Lemma long_request_is_truncated_witness :
  let p := mk_proxy [mk_pair 5 1 256 0] ∅ 0 1 1 (mk_db [] 0) in
  let data := replicate (Z.to_nat 65537) 65 in
  exists p' e, leader_handle_submit_req 1 (0, 0) SEND (zlen data) data 5 p [] = Ok (2, p', [e]) /\
    tq_cmd e = ztake (zlen data - 65536) data.
Proof.
  intros p data. apply (long_request_is_truncated 1 (0, 0) data 5 p [] (mk_pair 5 1 256 0)).
  - reflexivity.
  - unfold data, zlen, TAILQ_CMD_SIZE. rewrite length_replicate. lia.
Defined.
