(* ===== verification/RawSpec.v ===== *)
(** * Agreed packets on their way to the guest

    Where [do_action_raw] puts a packet, and the whole way of a TCP segment:
    from the log through the TCP buffer to the guest, held back until the
    guest has sent what it acknowledges. *)

From stdpp Require Import relations.
From S2P Require Import Prelude Bytes Ringbuf Fifo RingbufSpec State.
From S2P Require Import ConManager ConSpec Framing Segment PacketBuffer PacketSpec Proxy.

Open Scope Z_scope.

(** ** Where a packet goes *)

Definition is_syn_seg (s : tcp_segment) : bool := Z.land (sg_flags s) TH_SYN =? TH_SYN.

(** The client's end first, as in the packet, and the other way round. *)
Definition sg_con (h1 h2 : Z) (s : tcp_segment) : con_id_type :=
  mk_con (sg_src s) (sg_sport s) h1 (sg_dst s) (sg_dport s) h2.
Definition sg_con_back (h1 h2 : Z) (s : tcp_segment) : con_id_type :=
  mk_con (sg_dst s) (sg_dport s) h1 (sg_src s) (sg_sport s) h2.

Section Routing.
Context {Q : Type} {F : Fifo Q}.

Lemma raw_segment h1 h2 s post size (r : replica (Q := Q)) :
  sg_ok s -> MSG_OFF + eth_hdr_len < size ->
  do_action_raw h1 h2 (sg_header s ++ post) size r =
    if is_syn_seg s then
      let! t := save_isn (r_con r) (u32 (sg_seq s + 1)) (sg_con_back h1 h2 s) in Ok (set_r_con t r)
    else if (sg_dst s =? guest_vm_ip) && negb (sg_sport s =? htons SERVICE_PORT) then
      let! (_, b) := write_to_tcp_buffer (r_buf r) (sg_con h1 h2 s) (u32 (sg_ack s)) (sg_header s ++ post) size in
      Ok (broadcast_no_empty (set_r_buf b r))
    else Ok r.
Proof.
  intros Hs Hsz. unfold do_action_raw. rewrite (proj2 (Z.ltb_lt _ _)) by lia.
  rewrite (Z.add_comm MSG_OFF eth_hdr_len), (sg_ip_p s post Hs). cbn [obind andb Z.eqb Pos.eqb].
  unfold raw_tcp. rewrite (sg_ip_header_size s post Hs). cbn [obind].
  replace (MSG_OFF + eth_hdr_len + (20 + zlen (sg_ipopt s))) with (44 + zlen (sg_ipopt s))
    by (unfold eth_hdr_len, MSG_OFF; lia).
  rewrite (sg_th_flags s post Hs). cbn [obind]. rewrite (sg_ip_src s post Hs). cbn [obind].
  rewrite (sg_ip_dst s post Hs). cbn [obind]. rewrite (sg_th_sport s post Hs). cbn [obind].
  rewrite (sg_th_dport s post Hs). cbn [obind]. fold (is_syn_seg s). destruct (is_syn_seg s).
  - rewrite (sg_th_seq s post Hs). cbn [obind]. rewrite ntohl_be. unfold sg_con_back.
    replace (u32 (u32 (sg_seq s) + 1)) with (u32 (sg_seq s + 1)); [done|].
    unfold wrap. by rewrite Zplus_mod_idemp_l.
  - destruct (sg_dst s =? guest_vm_ip); cbn [negb andb]; [|done].
    destruct (sg_sport s =? htons SERVICE_PORT); cbn [negb]; [done|].
    rewrite (sg_payload s post Hs). cbn [obind]. rewrite (sg_th_ack s post Hs). cbn [obind].
    by rewrite ntohl_be.
Qed.

End Routing.

(** ** The way of a segment *)

(** The packets [watch_guest_out] sees, one after the other. *)
Fixpoint guest_run (h1 h2 : Z) (gs : list (tcp_segment * list Z)) (t : con_tables) : outcome con_tables :=
  match gs with
  | [] => Ok t
  | (g, post) :: gs' =>
      let! t := watch_guest_out t h1 h2 (sg_header g ++ post) (zlen (sg_header g ++ post)) in
      guest_run h1 h2 gs' t
  end.

Definition guest_event (h1 h2 : Z) (g : tcp_segment) : con_event :=
  Sent (sg_seq g + sg_len g) (sg_con_back h1 h2 g).

Lemma sg_header_length s post : sg_ok s -> MSG_OFF + eth_hdr_len < zlen (sg_header s ++ post).
Proof.
  intros []. pose proof (zlen_nonneg post). pose proof (zlen_nonneg (sg_ipopt s)).
  pose proof (zlen_nonneg (sg_tcpopt s)). unfold sg_header. cbn [sg_chunks concat].
  rewrite !zlen_app, !zlen_be, !zlen_le_split. unfold MSG_OFF, eth_hdr_len.
  repeat match goal with |- context [zlen [?a]] => change (zlen [a]) with 1 end.
  change (zlen [8; 0]) with 2. change (zlen (@nil Z)) with 0. lia.
Qed.

Lemma guest_run_events h1 h2 gs : forall t,
  Forall (fun g => sg_ok (fst g)) gs ->
  guest_run h1 h2 gs t = con_run t (map (fun g => guest_event h1 h2 (fst g)) gs).
Proof.
  induction gs as [|[g post] gs IH]; intros t Hok; [done|]. apply Forall_cons in Hok as [Hg Hok].
  cbn [guest_run map con_run fst guest_event con_step] in *.
  rewrite watch_segment by (try done; rewrite Z.add_comm; by apply sg_header_length).
  fold (sg_con_back h1 h2 g). destruct (update_con_out_seq _ _ _); cbn [obind]; [by apply IH|done..].
Qed.

Lemma reached_inv hist t : con_run con_manager_tables hist = Ok t -> con_inv t.
Proof.
  intros Ht. destruct (con_run_inv hist con_manager_tables) as (t' & Ht' & Hi & _);
    [split; [done|apply no_tables_known]|]. congruence.
Qed.

(** The tables after the SYN of a connection and the packets of the guest,
    whatever was in them before. *)
Lemma managed_tables t0 h1 h2 syn d gs :
  con_inv t0 -> sg_con h1 h2 d = sg_con h1 h2 syn ->
  exists t1 t, save_isn t0 (u32 (sg_seq syn + 1)) (sg_con_back h1 h2 syn) = Ok t1 /\
    con_run t1 (map (fun g => guest_event h1 h2 (fst g)) gs) = Ok t /\ con_inv t /\
    forall ack, blocks (set_out_lock true t) h1 h2 ack (sg_con h1 h2 d) =
      (u32 (highest (sg_con h1 h2 d) (map (fun g : tcp_segment * list Z => guest_event h1 h2 (fst g)) gs) + 1) <? ack).
Proof.
  intros Hi0 Hcon. set (es := map (fun g => guest_event h1 h2 (fst g)) gs).
  destruct (con_run_inv (Syn (sg_seq syn + 1) (sg_con_back h1 h2 syn) :: es) t0 Hi0)
    as (t & Hrun & Hi & Ho & Hk).
  cbn [con_run con_step] in Hrun.
  destruct (save_isn _ _ _) as [t1| |] eqn:Hs; [|done..]. cbn [obind] in Hrun.
  exists t1, t. split_and!; [done..|]. intros ack. unfold blocks. cbn [con_isn_list con_out_seq_list set_out_lock].
  assert (isn_key h1 h2 (sg_con h1 h2 d) = sg_con_back h1 h2 syn) as Hkey by (rewrite Hcon; done).
  rewrite Hkey. destruct (proj2 (Hk (sg_con_back h1 h2 syn))) as [isn ->].
  { right. cbn [existsb is_syn]. by rewrite bool_decide_eq_true_2. }
  rewrite Ho. cbn [fold_left highest_step]. rewrite Hcon. by rewrite decide_True by done.
Qed.

Lemma dump_of_step {Q} {F : Fifo Q} (p : packet_buffers Q) t h1 h2 n out p' :
  pb_step (Dump t h1 h2) p = Ok (n, out, p') -> exists t', dump_tcp_buffer p t h1 h2 = Ok (n, p', t').
Proof.
  cbn [pb_step]. destruct (dump_tcp_buffer p t h1 h2) as [[[n0 p0] t0]| |]; cbn [obind]; [|done..].
  intros [= <- <- <-]. eauto.
Qed.

(** One segment through empty buffers. *)
Lemma segment_through {Q} {F : Fifo Q} cap (p : packet_buffers Q) con ack data :
  rep cap p a_init -> plain data = true -> con_fits con = true -> 0 <= ack < 2 ^ 32 ->
  0 < zlen data < 65536 -> 2 ^ 31 <= cap ->
  exists p1, write_to_tcp_buffer p con ack data (zlen data) = Ok (zlen data, p1) /\
    forall t h1 h2, con_known t -> let b := blocks t h1 h2 ack con in
      exists p2 t' p3, dump_tcp_buffer p1 t h1 h2 = Ok (if b then -1 else zlen data, p2, t') /\
        packet_buffer_to_buffer p2 0 = Ok (if b then 0 else zlen data, if b then [] else data, p3).
Proof.
  intros Hr Hpl Hcf Hack Hd Hcap.
  assert (a_step cap (WriteTcp con ack data) a_init = Some (zlen data, [], add_tcp (Seg con ack data) a_init)) as Hs.
  { cbn [a_step]. rewrite Hpl, Hcf. unfold tcp_fits. cbn [a_fed a_init andb].
    rewrite (proj2 (Z.leb_le 0 ack)), (proj2 (Z.ltb_lt ack _)), (proj2 (Z.ltb_lt (zlen data) _)),
      (proj2 (Z.leb_le _ cap)) by lia. done. }
  destruct (write_tcp_refines cap p a_init _ _ _ _ _ _ Hr Hs) as (p1 & Hw & Hr1).
  exists p1. split.
  { cbn [pb_step] in Hw. destruct (write_to_tcp_buffer _ _ _ _ _) as [[n0 q0]| |]; cbn [obind] in Hw; [|done..].
    by injection Hw as -> ->. }
  intros t h1 h2 Ht b. assert (blocks t h1 h2 ack con = b) as Hb by done. clearbody b. set (a1 := add_tcp (Seg con ack data) a_init) in *.
  assert (exists a2, a_step cap (Dump t h1 h2) a1 = Some (if b then -1 else zlen data, [], a2) /\
    a_out a2 = if b then [] else [Pkt data]) as (a2 & Hs2 & Ho2).
  { cbn [a_step]. change (a_tcp a1) with [Seg con ack data]. cbv beta iota. rewrite Hb. destruct b; [by exists a1|].
    unfold out_fits. change (zlen (bytes enc_out (a_out a1))) with 0.
    rewrite (proj2 (Z.leb_le _ _)) by lia. by eexists. }
  destruct (dump_refines cap p1 a1 t h1 h2 _ _ _ Ht Hr1 Hs2) as (p2 & Hd2 & Hr2).
  apply dump_of_step in Hd2 as [t' Hd2].
  assert (exists a3, a_step cap Deliver a2 = Some (if b then 0 else zlen data, if b then [] else data, a3))
    as [a3 Hs3] by (cbn [a_step]; rewrite Ho2; destruct b; eauto).
  destruct (deliver_refines cap p2 a2 _ _ _ Hr2 Hs3) as (p3 & Hp3 & _). eauto.
Qed.


Definition demo_syn : tcp_segment :=
  mk_segment (replicate 22 0) 0 [0; 1; 0; 0; 64] [0; 0] 33560074 guest_vm_ip [] 41231 36895 99 0 0 2
    [1; 1; 0; 0; 0; 0] [2; 4; 5; 180] 0.
Definition demo_data : tcp_segment :=
  mk_segment (replicate 22 0) 0 [0; 1; 0; 0; 64] [0; 0] 33560074 guest_vm_ip [] 41231 36895 100 501 0 24
    [1; 1; 0; 0; 0; 0] [] 3.
Definition demo_reply : tcp_segment :=
  mk_segment (replicate 22 0) 0 [0; 1; 0; 0; 64] [0; 0] guest_vm_ip 33560074 [] 36895 41231 400 100 0 24
    [1; 1; 0; 0; 0; 0] [] 100.

Lemma demo_segments_ok : sg_ok demo_syn /\ sg_ok demo_data /\ sg_ok demo_reply.
Proof.
  split_and!; split; try reflexivity; try (exists 0; split; vm_compute; try split; try reflexivity; discriminate);
    try (exists 1; split; vm_compute; try split; try reflexivity; discriminate);
    split; vm_compute; try reflexivity; discriminate.
Qed.

(** The connection was opened before, and the guest has sent on it. *)
Definition demo_hist : list con_event :=
  [Syn 50 (sg_con_back 5 6 demo_syn); Sent 900 (sg_con_back 5 6 demo_reply)].
Definition demo_tables : con_tables :=
  match con_run con_manager_tables demo_hist with Ok t => t | _ => con_manager_tables end.

Lemma demo_tables_reached : con_run con_manager_tables demo_hist = Ok demo_tables.
Proof.
  unfold demo_tables. by destruct (con_run_inv demo_hist con_manager_tables) as (t & -> & _);
    [split; [|apply no_tables_known]|].
Qed.


(** ** Where it does not hold *)

(** The bytes in the holes of the key decide.  The SYN is stored under the
    whole of a local variable whose holes are not set; if [check_block] finds
    other bytes in the holes of its own variable, the connection counts as not
    managed and its segments pass at once, whatever they acknowledge. *)
Theorem holes_bypass_blocking t isn c h1 h2 ack :
  out_lock t = false -> (forall x, con_isn_list t !! isn_key h1 h2 x = None) ->
  (hole1 c, hole2 c) <> (h1, h2) ->
  exists t', save_isn t isn c = Ok t' /\ check_block t' h1 h2 ack (swap_con c) = Ok (0, t').
Proof.
  intros Hl Hno Hh. eexists. split; [by apply save_isn_run|]. unfold check_block, get_isn.
  fold (isn_key h1 h2 (swap_con c)). cbn [con_isn_list]. rewrite lookup_insert_ne; [by rewrite Hno|].
  intros Hc. apply Hh. rewrite Hc. done.
Qed.

Lemma holes_bypass_blocking_witness :
  exists t', save_isn con_manager_tables 100 (mk_con 1 2 77 3 4 0) = Ok t' /\
    check_block t' 0 0 4000000000 (swap_con (mk_con 1 2 77 3 4 0)) = Ok (0, t').
Proof.
  apply (holes_bypass_blocking con_manager_tables 100 (mk_con 1 2 77 3 4 0) 0 0 4000000000).
  - reflexivity.
  - intros x. apply lookup_empty.
  - discriminate.
Defined.

(** An ARP request from a card whose address has 06 as its second byte. *)
Definition arp_frame : list Z :=
  replicate 10 0 ++ replicate 6 255 ++ [82; 6; 0; 1; 2; 1] ++ [8; 6] ++
  [0; 1; 8; 0; 6; 4; 0; 1] ++ [82; 6; 0; 1; 2; 1] ++ [10; 22; 1; 7] ++ replicate 6 0 ++ [10; 22; 1; 8].

(** [do_action_raw] does not look at the type of the frame: it drops this
    ARP request because the byte where an IP header has the protocol is 6, so it
    is taken for a TCP segment to somebody else.  With any other byte there the
    frame is passed on. *)
Theorem arp_taken_for_tcp (p : packet_buffers ringbuf_t) node o t reps n :
  do_action_raw 0 0 arp_frame 52 (mk_replica node p t o reps n) = Ok (mk_replica node p t o reps n) /\
  do_action_raw 0 0 (<[33%nat := 7]> arp_frame) 52 (mk_replica node p t o reps n) =
    let! (_, b) := write_to_packet_buffer p (<[33%nat := 7]> arp_frame) 52 in
    Ok (mk_replica node b t o reps n).
Proof. split; reflexivity. Qed.

(** A connection that is agreed on before its SYN, or whose SYN was stored
    with other bytes in the holes, is reported to the guest with an
    uninitialised sequence number. *)
Theorem newcon_reports_junk deserialize serialize (r : replica (Q := ringbuf_t)) data junk :
  get_isn (r_con r) (ci_con_id (deserialize data)) = None ->
  exists r', do_action_tcpnewcon deserialize serialize junk data (zlen data) r = Ok r' /\
    last (r_reports r') = Some (serialize (mk_con_info (ci_con_id (deserialize data))
      (ci_send_seq (deserialize data)) junk (ci_options (deserialize data)))).
Proof.
  intros Hn. unfold do_action_tcpnewcon, handle_consensused_con. rewrite load_all. cbn [obind].
  rewrite Hn. eexists. split; [done|]. cbn [r_reports report default]. apply last_snoc.
Qed.

Lemma newcon_reports_junk_witness :
  let de := fun bs => mk_con_info (con_of_bytes bs) 0 0 zero_options in
  let r := mk_replica (mk_proxy [] ∅ 0 0 0 (mk_db [] 0)) demo_buffers con_manager_tables (mk_os [] [] []) [] 0 in
  exists r', do_action_tcpnewcon de (fun c => le_split 4 (ci_recv_seq c)) 3735928559 (replicate 16 0) 16 r = Ok r' /\
    last (r_reports r') = Some [239; 190; 173; 222].
Proof.
  intros de r. apply (newcon_reports_junk de (fun c => le_split 4 (ci_recv_seq c)) r (replicate 16 0) 3735928559).
  reflexivity.
Defined.
