(* ===== verification/FramingSpec.v ===== *)
(** * Messages survive the stream

    Whatever pieces a message is sent and received in, it arrives as it was
    sent, as long as its length does not arrive in two pieces: the code reads
    it with a single [recv]. *)

From S2P Require Import Prelude Bytes Ringbuf RingbufSpec ConManager Segment PacketSpec Framing.

Open Scope Z_scope.

(** The bytes [bs] arrive in some pieces. *)
Definition arrives (bs : list Z) (s : list rx_event) : Prop :=
  exists ps, s = RxData <$> ps /\ concat ps = bs /\ Forall (fun p => p <> []) ps.

Lemma arrives_nil s : arrives [] s -> s = [].
Proof.
  intros ([|p ps] & -> & Hc & Hp); [done|]. apply Forall_cons in Hp as [Hp _].
  by destruct p.
Qed.

Lemma arrives_cons p bs s : p <> [] -> arrives bs s -> arrives (p ++ bs) (RxData p :: s).
Proof. intros Hp (ps & -> & <- & Hps). exists (p :: ps). split_and!; [done..|by constructor]. Qed.

Lemma arrives_one bs : bs <> [] -> arrives bs [RxData bs].
Proof. intros H. exists [bs]. split_and!; [done| |by constructor]. simpl. apply app_nil_r. Qed.

Lemma arrives_app bs bs' s s' : arrives bs s -> arrives bs' s' -> arrives (bs ++ bs') (s ++ s').
Proof.
  intros (ps & -> & <- & Hps) (ps' & -> & <- & Hps'). exists (ps ++ ps').
  rewrite fmap_app, concat_app, Forall_app. done.
Qed.

Lemma nonempty_zlen {A} (l : list A) : l <> [] <-> 0 < zlen l.
Proof. destruct l; unfold zlen; simpl; split; intros; try done; lia. Qed.

(** [recv] takes a part of what arrives. *)
Lemma recv_some n bs s :
  0 < n -> bs <> [] -> arrives bs s ->
  exists k s', recv n s = Ok (k, ztake k bs, s') /\ 0 < k <= n /\ k <= zlen bs /\
    arrives (zdrop k bs) s'.
Proof.
  intros Hn Hne (ps & -> & <- & Hps). destruct ps as [|p ps]; [done|].
  apply Forall_cons in Hps as [Hp Hps]. pose proof (proj1 (nonempty_zlen p) Hp) as Hl.
  unfold recv. cbn [fmap list_fmap concat]. rewrite (proj2 (Z.eqb_neq n 0)) by lia.
  pose proof (zlen_nonneg (concat ps)). destruct (Z.leb_spec (zlen p) n) as [Hle|Hgt].
  - exists (zlen p), (RxData <$> ps). rewrite ztake_exact, zdrop_exact, zlen_app by done.
    split_and!; [done|lia..|]. by exists ps.
  - exists n, (RxData <$> zdrop n p :: ps). rewrite ztake_app_l, zdrop_app_l, zlen_app by lia.
    split_and!; [done|lia..|]. exists (zdrop n p :: ps). split_and!; [done..|].
    constructor; [|done]. apply nonempty_zlen. rewrite zlen_zdrop. lia.
Qed.

Lemma recv_loop_all fuel : forall m rest data s,
  m <> [] -> arrives (m ++ rest) s -> (length m < fuel)%nat ->
  exists s', recv_loop fuel (zlen m) data s = Ok (1, data ++ m, s') /\ arrives rest s'.
Proof.
  induction fuel as [|fuel IH]; intros m rest data s Hm Hs Hf; [lia|].
  pose proof (proj1 (nonempty_zlen m) Hm) as Hl.
  destruct (recv_some (zlen m) (m ++ rest) s) as (k & s' & Hr & Hk & _ & Hs'); [done| |done|].
  { destruct m; done. }
  cbn [recv_loop]. rewrite Hr. cbn [obind]. rewrite (proj2 (Z.ltb_ge k 0)), (proj2 (Z.eqb_neq k 0)) by lia.
  rewrite ztake_app_l by lia. rewrite zdrop_app_l in Hs' by lia.
  destruct (Z.ltb_spec 0 (zlen m - k)) as [Hlt|Hge].
  - replace (zlen m - k) with (zlen (zdrop k m)) by (rewrite zlen_zdrop; lia).
    destruct (IH (zdrop k m) rest (data ++ ztake k m) s') as (s'' & Hrun & Hs''); [|done| |].
    + apply nonempty_zlen. rewrite zlen_zdrop. lia.
    + unfold zdrop, zlen in *. rewrite length_drop. lia.
    + exists s''. split; [|done]. by rewrite Hrun, <- app_assoc, ztake_zdrop.
  - exists s'. rewrite ztake_ge, zdrop_ge in * by lia. done.
Qed.

(** ** Lengths *)

Lemma message_be m : message m = be 4 (zlen m) ++ m.
Proof.
  unfold message, htonl, ntohl. f_equal. change (be 4 (zlen m)) with (rev (le_split 4 (zlen m))).
  replace 4%nat with (length (rev (le_split 4 (zlen m)))) at 1 by (by rewrite length_rev, length_le_split).
  apply le_split_combine, List.Forall_rev, le_split_bytes.
Qed.

Lemma length_of_be junk v : zlen junk = 4 -> 0 <= v < 2 ^ 31 -> length_of junk (be 4 v) = v.
Proof.
  intros Hj Hv. unfold length_of. rewrite zlen_be, zdrop_ge, app_nil_r, ntohl_be by lia.
  unfold sint, wrap. change (2 ^ (32 - 1)) with (2 ^ 31). change (2 ^ 32) with (2 * 2 ^ 31) in *.
  rewrite (Z.mod_small v), Z.mod_small; lia.
Qed.

(** The first piece has the whole length. *)
Definition length_in_one (s : list rx_event) : Prop :=
  match s with
  | RxData p :: _ => 4 <= zlen p
  | _ => False
  end.

Lemma recv_length m rest s :
  arrives (message m ++ rest) s -> length_in_one s -> 
  exists s', recv 4 s = Ok (4, be 4 (zlen m), s') /\ arrives (m ++ rest) s'.
Proof.
  intros Hs H4. destruct Hs as ([|p ps] & -> & Hc & Hps); [done|]. cbn in H4.
  rewrite message_be, <- app_assoc in Hc. cbn [concat] in Hc. apply Forall_cons in Hps as [Hp Hps].
  assert (ztake 4 p = be 4 (zlen m)) as Ht.
  { rewrite <- (ztake_app_l 4 p (concat ps)), Hc by done. apply ztake_exact, zlen_be. }
  assert (zdrop 4 p ++ concat ps = m ++ rest) as Hd.
  { rewrite <- zdrop_app_l, Hc by done. apply zdrop_exact, zlen_be. }
  unfold recv. cbn [fmap list_fmap Z.eqb]. destruct (Z.leb_spec (zlen p) 4) as [Hle|Hgt].
  - exists (RxData <$> ps). rewrite ztake_ge in Ht by done. rewrite Ht, zlen_be. split; [done|].
    exists ps. rewrite zdrop_ge in Hd by done. done.
  - exists (RxData <$> zdrop 4 p :: ps). rewrite Ht. split; [done|]. exists (zdrop 4 p :: ps).
    split_and!; [done..|]. constructor; [|done]. apply nonempty_zlen. rewrite zlen_zdrop. lia.
Qed.

Section Receive.
Variables (mem : Z -> bool) (m rest : list Z) (s : list rx_event).
Hypothesis Hm : 0 < zlen m < 2 ^ 31.
Hypothesis Hmem : mem (zlen m) = true.
Hypothesis Hs : arrives (message m ++ rest) s.
Hypothesis H4 : length_in_one s.

Lemma recv_message_all s' :
  arrives (m ++ rest) s' ->
  exists s'', recv_message mem (zlen m) s' = Ok (mk_received (zlen m) m (zlen m), s'') /\ arrives rest s''.
Proof using Hm Hmem.
  intros Hs'. unfold recv_message. rewrite (proj2 (Z.leb_le _ _)), Hmem by lia. cbn [andb].
  destruct (recv_loop_all (S (Z.to_nat (zlen m))) m rest [] s') as (s'' & Hr & Hs''); [|done| |].
  - apply nonempty_zlen. lia.
  - unfold zlen. lia.
  - exists s''. by rewrite Hr.
Qed.

Lemma recv_bytes_message junk :
  zlen junk = 4 ->
  exists s', recv_bytes mem junk s = Ok (mk_received (zlen m) m (zlen m), s') /\ arrives rest s'.
Proof using All.
  intros Hj. destruct (recv_length m rest s Hs H4) as (s' & Hr & Hs').
  unfold recv_bytes. rewrite Hr. cbn [obind]. rewrite length_of_be by (lia || done).
  by apply recv_message_all.
Qed.

Lemma guest_recv_bytes_message junk len :
  zlen junk = 4 ->
  exists s', guest_recv_bytes mem junk len s = Ok (mk_received (zlen m) m (zlen m), s') /\ arrives rest s'.
Proof using All.
  intros Hj. destruct (recv_length m rest s Hs H4) as (s' & Hr & Hs').
  unfold guest_recv_bytes. rewrite Hr. cbn [obind Z.ltb Z.eqb Z.compare].
  rewrite length_of_be by (lia || done). by apply recv_message_all.
Qed.
End Receive.

(** A message that arrives in one piece of its own. *)
Lemma guest_recv_bytes_piece mem junk len m rx :
  0 < zlen m < 2 ^ 31 -> mem (zlen m) = true -> zlen junk = 4 ->
  guest_recv_bytes mem junk len (RxData (message m) :: rx) = Ok (mk_received (zlen m) m (zlen m), rx).
Proof.
  intros Hm Hmem Hj. unfold guest_recv_bytes, recv at 1. cbn [Z.eqb].
  assert (zlen (message m) = 4 + zlen m) as Hl by (by rewrite message_be, zlen_app, zlen_be).
  rewrite (proj2 (Z.leb_gt _ 4)) by lia. cbn [obind]. rewrite message_be, ztake_exact, zdrop_exact by apply zlen_be.
  cbn [Z.ltb Z.eqb Z.compare]. rewrite length_of_be by (lia || done). unfold recv_message.
  rewrite (proj2 (Z.leb_le _ _)), Hmem by lia. cbn [andb recv_loop]. unfold recv.
  rewrite (proj2 (Z.eqb_neq (zlen m) 0)), Z.leb_refl by lia. cbn [obind].
  rewrite (proj2 (Z.ltb_ge (zlen m) 0)), (proj2 (Z.eqb_neq (zlen m) 0)), Z.sub_diag by lia. done.
Qed.

(** ** Sending *)

(** No error, and in the end all bytes are accepted. *)
Definition accepts (n : Z) (answers : list Z) : Prop :=
  Forall (fun k => 0 <= k) answers /\ n <= foldr Z.add 0 answers /\ 0 < n.

Lemma send_loop_all answers : forall left sent,
  accepts (zlen left) answers ->
  exists rest, send_loop left answers sent = Ok (0, 0, sent ++ left, rest).
Proof.
  induction answers as [|k answers IH]; intros left sent (Hk & Hsum & Hpos); [simpl in Hsum; lia|].
  apply Forall_cons in Hk as [Hk Hks]. cbn [foldr] in Hsum. cbn [send_loop].
  rewrite (proj2 (Z.ltb_ge k 0)) by done. set (n := Z.min k (zlen left)).
  destruct (Z.ltb_spec 0 (zlen (zdrop n left))) as [Hlt|Hge].
  - destruct (IH (zdrop n left) (sent ++ ztake n left)) as (rest & ->).
    + rewrite zlen_zdrop in *. split_and!; [done|lia..].
    + exists rest. by rewrite <- app_assoc, ztake_zdrop.
  - exists answers. rewrite zlen_zdrop in Hge. rewrite ztake_ge; [done|lia].
Qed.

Lemma send_bytes_all buf answers :
  accepts (zlen (message buf)) answers ->
  exists rest, send_bytes buf answers = Ok (0, 0, message buf, rest).
Proof. intros H. destruct (send_loop_all answers (message buf) [] H) as (rest & Hr). by exists rest. Qed.

(** One [send] that accepts everything. *)
Lemma send_whole bs k answers : zlen bs <= k -> send bs (k :: answers) = Ok (zlen bs, bs, answers).
Proof.
  intros Hk. pose proof (zlen_nonneg bs). unfold send.
  rewrite (proj2 (Z.ltb_ge k 0)), Z.min_r, ztake_ge by lia. done.
Qed.

Lemma send_bytes_whole buf k answers :
  zlen (message buf) <= k -> send_bytes buf (k :: answers) = Ok (0, 0, message buf, answers).
Proof.
  intros Hk. pose proof (zlen_nonneg (message buf)). unfold send_bytes. cbn [send_loop app].
  rewrite (proj2 (Z.ltb_ge k 0)), Z.min_r, ztake_ge, zdrop_ge by lia. done.
Qed.

(** C21. A message that [send_bytes] puts on a stream in any number of partial
    sends arrives whole, in whatever pieces, at [recv_bytes] of the host and
    of the guest, and what follows it on the stream is left for the next
    call; the four bytes of the length have to arrive together. *)
Theorem framing_roundtrip mem m answers rest s junk len :
  0 < zlen m < 2 ^ 31 -> mem (zlen m) = true -> zlen junk = 4 ->
  accepts (zlen (message m)) answers ->
  exists sent answers', send_bytes m answers = Ok (0, 0, sent, answers') /\
    (arrives (sent ++ rest) s -> length_in_one s ->
     exists s', recv_bytes mem junk s = Ok (mk_received (zlen m) m (zlen m), s') /\
       guest_recv_bytes mem junk len s = Ok (mk_received (zlen m) m (zlen m), s') /\ arrives rest s').
Proof.
  intros Hm Hmem Hj Ha. destruct (send_bytes_all m answers Ha) as (answers' & Hsend).
  exists (message m), answers'. split; [done|]. intros Hs H4.
  destruct (recv_bytes_message mem m rest s Hm Hmem Hs H4 junk Hj) as (s' & Hr & Hs').
  exists s'. split; [done|]. split; [|done].
  destruct (recv_length m rest s Hs H4) as (s1 & Hr1 & _).
  rewrite <- Hr. unfold guest_recv_bytes, recv_bytes. by rewrite Hr1.
Qed.

Lemma framing_roundtrip_witness :
  exists sent answers', send_bytes [7; 8; 9] [2; 0; 5] = Ok (0, 0, sent, answers') /\
    (arrives (sent ++ [1]) [RxData [0; 0; 0; 3; 7]; RxData [8]; RxData [9; 1]] ->
     length_in_one [RxData [0; 0; 0; 3; 7]; RxData [8]; RxData [9; 1]] ->
     exists s', recv_bytes (fun _ => true) [1; 2; 3; 4] [RxData [0; 0; 0; 3; 7]; RxData [8]; RxData [9; 1]]
         = Ok (mk_received 3 [7; 8; 9] 3, s') /\
       guest_recv_bytes (fun _ => true) [1; 2; 3; 4] 0 [RxData [0; 0; 0; 3; 7]; RxData [8]; RxData [9; 1]]
         = Ok (mk_received 3 [7; 8; 9] 3, s') /\ arrives [1] s').
Proof.
  apply (framing_roundtrip (fun _ => true) [7; 8; 9] [2; 0; 5] [1]
    [RxData [0; 0; 0; 3; 7]; RxData [8]; RxData [9; 1]] [1; 2; 3; 4] 0); [done..|].
  split_and!; [by repeat constructor|done..].
Defined.

(** When the length arrives in two pieces its first bytes are taken for the
    length.  With zeros in the variable before, any message of less than 65536
    bytes then looks like the end of the connection. *)
Theorem split_length_looks_closed mem j0 j1 len s :
  mem 0 = true ->
  recv_bytes mem [j0; j1; 0; 0] (RxData [0; 0] :: s) = Ok (mk_received 0 [] 0, s) /\
  guest_recv_bytes mem [j0; j1; 0; 0] len (RxData [0; 0] :: s) = Ok (mk_received 0 [] 0, s).
Proof.
  intros Hm. change (recv_bytes mem [j0; j1; 0; 0] (RxData [0; 0] :: s)) with (recv_message mem 0 s).
  change (guest_recv_bytes mem [j0; j1; 0; 0] len (RxData [0; 0] :: s)) with (recv_message mem 0 s).
  unfold recv_message. rewrite Hm. done.
Qed.
