(* ===== verification/TplSpec.v ===== *)
(** * What is serialised arrives

    A [con_info_type] that is serialised and deserialised has all its fields;
    an image that [tpl_load] accepts is read inside its bounds, and one that
    it rejects is read nevertheless. *)

From stdpp Require Import strings.
From S2P Require Import Prelude Bytes Ringbuf RingbufSpec ConManager Segment PacketSpec Framing Tpl.

Open Scope Z_scope.

(** ** The format of the program *)

(** The fields are where C has them. *)
Definition con_nodes : list tpl_node :=
  [ mk_node TPL_TYPE_UINT32 0; mk_node TPL_TYPE_UINT16 4; mk_node TPL_TYPE_UINT32 8;
    mk_node TPL_TYPE_UINT16 12; mk_node TPL_TYPE_UINT32 16; mk_node TPL_TYPE_UINT32 20;
    mk_node TPL_TYPE_UINT16 24; mk_node TPL_TYPE_UINT32 28; mk_node TPL_TYPE_UINT32 32;
    mk_node TPL_TYPE_UINT32 36; mk_node TPL_TYPE_UINT32 40; mk_node TPL_TYPE_UINT16 44;
    mk_node TPL_TYPE_UINT16 46 ].

Lemma con_map : tpl_map con_fmt [0] = Ok (Mapped (mk_root con_fmt con_nodes [])).
Proof. reflexivity. Qed.

Lemma con_fmt_plain : chr "#" ∉ con_fmt.
Proof. apply (bool_decide_eq_true (chr "#" ∉ con_fmt)). reflexivity. Qed.

(** ** Reading inside the image *)

Lemma data_size_cons c cs : data_size (c :: cs) = type_sz (n_type c) + data_size cs.
Proof. done. Qed.

Lemma serlen_size bufsz cs : forall dv len n,
  tpl_serlen bufsz cs dv len = Some n -> n = len + data_size cs /\ (cs <> [] -> dv + data_size cs <= bufsz).
Proof.
  induction cs as [|c cs IH]; intros dv len n; cbn [tpl_serlen].
  - intros [= <-]. split; [cbn; lia|done].
  - rewrite data_size_cons. zcase; [done|]. intros Hn. apply IH in Hn as [-> Hd]. split; [lia|]. intros _.
    destruct cs as [|c' cs]; [cbn; lia|]. specialize (Hd ltac:(done)). lia.
Qed.

Lemma scan_is_start rest : forall dv o o' nul,
  scan_fmt rest dv o = inr (o', nul) -> data_start rest dv o = Ok (nul + 1 + o' * 4) /\ dv <= nul.
Proof.
  induction rest as [|c rest IH]; intros dv o o' nul; cbn [scan_fmt data_start]; [done|].
  destruct (c =? 0); [intros [= <- <-]; split; [done|lia]|].
  destruct (negb _); [done|]. intros H. apply IH in H as [-> ?]. split; [done|lia].
Qed.

Lemma scan_error rest : forall dv o, scan_fmt rest dv o <> inl 0.
Proof.
  induction rest as [|c rest IH]; intros dv o; cbn [scan_fmt]; [done|].
  destruct (c =? 0); [done|]. destruct (negb _); [done|]. apply IH.
Qed.

(** A format without repetitions. *)
Lemma scan_no_octothorpes rest : forall dv o o' nul,
  scan_fmt rest dv o = inr (o', nul) -> chr "#" ∉ ztake (nul - dv) rest -> o' = o.
Proof.
  induction rest as [|c rest IH]; intros dv o o' nul; cbn [scan_fmt]; [done|].
  destruct (c =? 0); [by intros [= <- <-]|]. destruct (negb _); [done|]. intros H Hn.
  pose proof (scan_is_start _ _ _ _ _ H) as [_ Hle].
  replace (ztake (nul - dv) (c :: rest)) with (c :: ztake (nul - (dv + 1)) rest) in Hn.
  - rewrite not_elem_of_cons in Hn. destruct Hn as [Hc Hn].
    rewrite (proj2 (Z.eqb_neq c _)) in H by congruence. by eapply IH.
  - unfold ztake. replace (Z.to_nat (nul - dv)) with (S (Z.to_nat (nul - (dv + 1)))) by lia. done.
Qed.

Lemma load_in_bounds m o n :
  0 <= o -> 0 <= n -> o + n <= zlen m -> exists bs, load m o n = Ok bs /\ zlen bs = n.
Proof.
  intros Ho Hn Hl. unfold load. rewrite (proj2 (Z.leb_le 0 o)), (proj2 (Z.leb_le 0 n)), (proj2 (Z.leb_le _ _)) by done.
  eexists. split; [done|]. rewrite zlen_ztake, zlen_zdrop. lia.
Qed.

Lemma store_in_bounds m o bs :
  0 <= o -> o + zlen bs <= zlen m -> exists m', store m o bs = Ok m' /\ zlen m' = zlen m.
Proof.
  intros Ho Hl. pose proof (zlen_nonneg bs). unfold store. rewrite (proj2 (Z.leb_le 0 o)), (proj2 (Z.leb_le _ _)) by done.
  eexists. split; [done|]. rewrite !zlen_app, zlen_ztake, zlen_zdrop. lia.
Qed.

(** The fields lie inside a structure of [n] bytes. *)
Definition fields_in (n : Z) (cs : list tpl_node) : Prop :=
  Forall (fun c => 0 <= n_addr c /\ n_addr c + type_sz (n_type c) <= n) cs.

Lemma type_sz_pos t : 0 < type_sz t.
Proof. by destruct t. Qed.

Lemma data_size_nonneg cs : 0 <= data_size cs.
Proof.
  induction cs as [|c cs IH]; [done|]. rewrite data_size_cons. pose proof (type_sz_pos (n_type c)). lia.
Qed.

Lemma unpack_loop_ok swap d cs : forall dv m,
  0 <= dv -> dv + data_size cs <= zlen d -> fields_in (zlen m) cs ->
  exists m', unpack_loop swap d dv cs m = Ok m' /\ zlen m' = zlen m.
Proof.
  induction cs as [|c cs IH]; intros dv m Hdv Hd Hf; [by exists m|]. cbn [unpack_loop].
  apply Forall_cons in Hf as [[Ha Hb] Hf]. rewrite data_size_cons in Hd.
  pose proof (type_sz_pos (n_type c)). pose proof (data_size_nonneg cs).
  destruct (load_in_bounds d dv (type_sz (n_type c))) as (bs & -> & Hbs); [lia..|]. cbn [obind].
  set (w := if swap then tpl_byteswap bs else bs).
  assert (zlen w = type_sz (n_type c)) as Hw.
  { unfold w, tpl_byteswap, zlen in *. destruct swap; rewrite ?length_rev; lia. }
  destruct (store_in_bounds m (n_addr c) w) as (m1 & -> & Hm1); [lia..|]. cbn [obind].
  destruct (IH (dv + type_sz (n_type c)) m1) as (m' & -> & Hm'); [lia..| |].
  - by rewrite Hm1.
  - exists m'. split; [done|lia].
Qed.

(** What a successful [tpl_load] has checked. *)
Lemma sanity_ok r d :
  tpl_sanity r d = 0 ->
  exists o nul n, scan_fmt (zdrop 8 d) 8 0 = inr (o, nul) /\ r_fmt r = ztake (nul - 8) (zdrop 8 d) /\
    tpl_serlen (zlen d) (r_children r) (nul + 1) 0 = Some n /\ n + (nul + 1) = zlen d.
Proof.
  unfold tpl_sanity, ERR_NOT_MINSIZE, ERR_MAGIC_MISMATCH, ERR_UNSUPPORTED_FLAGS, ERR_INCONSISTENT_SZ.
  do 4 (case_match; [done|]).
  destruct (scan_fmt (zdrop 8 d) 8 0) as [e|[o nul]] eqn:Hs; [intros ->; by apply scan_error in Hs|].
  unfold ERR_FMT_MISMATCH, ERR_INCONSISTENT_SZ4, ERR_INCONSISTENT_SZ2, ERR_INCONSISTENT_SZ3.
  destruct (negb (bool_decide (r_fmt r = _))) eqn:Hf; [done|].
  destruct (zlen d <? nul + 1 + o * 4); [done|]. destruct (tpl_serlen _ _ _ _) as [n|] eqn:Hn; [|done].
  destruct (negb (n + (nul + 1) =? zlen d)) eqn:Hz; [done|]. intros _. apply negb_false_iff in Hf, Hz. apply bool_decide_eq_true in Hf.
  apply Z.eqb_eq in Hz. by exists o, nul, n.
Qed.

Lemma tpl_unpack_ok r d m :
  tpl_load r d = 0 -> chr "#" ∉ r_fmt r -> fields_in (zlen m) (r_children r) ->
  exists m', tpl_unpack r d m = Ok m' /\ zlen m' = zlen m.
Proof.
  unfold tpl_load. zcase; [|done]. intros _ Hn Hf. destruct (sanity_ok r d) as (o & nul & n & Hs & Hfmt & Hl & Hz); [done|].
  destruct (scan_is_start _ _ _ _ _ Hs) as [Hd Hle]. rewrite Hfmt in Hn.
  apply (scan_no_octothorpes _ _ _ _ _ Hs) in Hn as ->. apply serlen_size in Hl as [-> _].
  unfold tpl_unpack, tpl_find_data_start. rewrite Hd. cbn [obind]. apply unpack_loop_ok; [lia|lia|done].
Qed.

(** C22. Whatever bytes arrive: when [tpl_load] accepts them as the image of a
    connection, [con_info_deserialize] reads inside the image, writes inside
    the structure and returns. *)
Theorem accepted_image_is_read_in_bounds buf m :
  zlen m = sizeof_con_info -> tpl_load (mk_root con_fmt con_nodes []) buf = 0 ->
  exists m', con_info_deserialize m buf = Ok m' /\ zlen m' = sizeof_con_info.
Proof.
  intros Hm Hl. unfold con_info_deserialize. rewrite con_map. cbn [obind]. rewrite <- Hm.
  apply tpl_unpack_ok; [done|exact con_fmt_plain|]. rewrite Hm. by repeat constructor.
Qed.

(** ** The way there and back *)

(** The fields of [m1] in the structure [m2]: the holes are those of [m2]. *)
Definition fields_of (m1 m2 : list Z) : list Z :=
  ztake 6 m1 ++ ztake 2 (zdrop 6 m2) ++ ztake 6 (zdrop 8 m1) ++ ztake 2 (zdrop 14 m2) ++
  ztake 10 (zdrop 16 m1) ++ ztake 2 (zdrop 26 m2) ++ zdrop 28 m1.

Lemma serialize_bytes m :
  length m = 48%nat ->
  con_info_serialize m = Ok (TPL_MAGIC ++ [0] ++ le_split 4 70 ++ con_fmt ++ [0] ++
    ztake 6 m ++ ztake 6 (zdrop 8 m) ++ ztake 10 (zdrop 16 m) ++ zdrop 28 m, 70).
Proof. intros H. do 48 (destruct m as [|? m]; [done|]). destruct m; [|done]. vm_compute. reflexivity. Qed.

Lemma deserialize_bytes m m2 :
  length m = 48%nat -> length m2 = 48%nat ->
  con_info_deserialize m2 (TPL_MAGIC ++ [0] ++ le_split 4 70 ++ con_fmt ++ [0] ++
    ztake 6 m ++ ztake 6 (zdrop 8 m) ++ ztake 10 (zdrop 16 m) ++ zdrop 28 m) = Ok (fields_of m m2).
Proof.
  intros H H2. do 48 (destruct m as [|? m]; [done|]). destruct m; [|done].
  do 48 (destruct m2 as [|? m2]; [done|]). destruct m2; [|done]. vm_compute. reflexivity.
Qed.

(** The numbers fit the fields. *)
Record info_ok (i : con_info_type) : Prop := {
  io_con : let c := ci_con_id i in
    u32 (src_ip c) = src_ip c /\ u16 (src_port c) = src_port c /\ u32 (dst_ip c) = dst_ip c /\
    u16 (dst_port c) = dst_port c;
  io_seqs : u32 (ci_send_seq i) = ci_send_seq i /\ u32 (ci_recv_seq i) = ci_recv_seq i;
  io_options : let o := ci_options i in
    u16 (has_timestamp o) = has_timestamp o /\ u32 (timestamp o) = timestamp o /\
    u32 (mss_clamp o) = mss_clamp o /\ u32 (snd_wscale o) = snd_wscale o /\
    u32 (rcv_wscale o) = rcv_wscale o /\ u16 (has_rcv_wscale o) = has_rcv_wscale o /\
    u16 (con_type o) = con_type o
}.

(** All fields of [i], with the holes of the key that [j] has. *)
Definition with_holes (i j : con_info_type) : con_info_type :=
  let c := ci_con_id i in
  mk_con_info (mk_con (src_ip c) (src_port c) (hole1 (ci_con_id j)) (dst_ip c) (dst_port c) (hole2 (ci_con_id j)))
    (ci_send_seq i) (ci_recv_seq i) (ci_options i).

Lemma length_info_bytes pad i : length (info_bytes pad i) = 48%nat.
Proof. reflexivity. Qed.

Lemma combine_four x : u32 x = x -> le_combine (le_split 4 x) = x.
Proof. intros <-. rewrite le_combine_split. apply Z.mod_mod. done. Qed.
Lemma combine_two x : u16 x = x -> le_combine (le_split 2 x) = x.
Proof. intros <-. rewrite le_combine_split. apply Z.mod_mod. done. Qed.

Lemma info_of_fields pad i m2 :
  info_ok i -> length m2 = 48%nat ->
  info_of_bytes (fields_of (info_bytes pad i) m2) = with_holes i (info_of_bytes m2).
Proof.
  intros [(H1 & H2 & H3 & H4) [H5 H6] (H7 & H8 & H9 & H10 & H11 & H12 & H13)] Hm.
  do 48 (destruct m2 as [|? m2]; [done|]). destruct m2; [|done].
  destruct i as [[c1 c2 c3 c4 c5 c6] s r [o1 o2 o3 o4 o5 o6 o7]]; simpl in *.
  unfold info_of_bytes, with_holes, con_of_bytes, fields_of, info_bytes, con_bytes.
  cbv -[le_combine Z.modulo Z.div].
  apply combine_four in H1, H3, H5, H6, H8, H9, H10, H11. apply combine_two in H2, H4, H7, H12, H13.
  cbn -[Z.modulo Z.div le_combine] in H1, H2, H3, H4, H5, H6, H7, H8, H9, H10, H11, H12, H13.
  by rewrite H1, H2, H3, H4, H5, H6, H7, H8, H9, H10, H11, H12, H13.
Qed.

(** C20. A connection that is serialised on one machine and deserialised into
    any structure on another has all its fields there; the image has 70
    bytes, whatever the connection is. *)
Theorem con_info_roundtrip pad i m :
  info_ok i -> zlen m = sizeof_con_info ->
  exists img m', con_info_serialize (info_bytes pad i) = Ok (img, 70) /\ zlen img = 70 /\
    con_info_deserialize m img = Ok m' /\ info_of_bytes m' = with_holes i (info_of_bytes m).
Proof.
  intros Hi Hm. assert (length m = 48%nat) as Hl by (unfold zlen, sizeof_con_info in Hm; lia).
  eexists _, _. split_and!.
  - apply serialize_bytes, length_info_bytes.
  - reflexivity.
  - apply deserialize_bytes; [apply length_info_bytes|done].
  - by apply info_of_fields.
Qed.

Definition demo_info : con_info_type :=
  mk_con_info (mk_con 16777343 20480 0 1677792266 8080 0) 4294967295 17 (mk_options 1 99 1460 7 9 1 ACCEPT_CON).

Lemma con_info_roundtrip_witness :
  exists img m', con_info_serialize (info_bytes 7 demo_info) = Ok (img, 70) /\ zlen img = 70 /\
    con_info_deserialize (replicate 48 3) img = Ok m' /\
    info_of_bytes m' = with_holes demo_info (info_of_bytes (replicate 48 3)).
Proof. apply (con_info_roundtrip 7 demo_info (replicate 48 3)); by repeat split. Defined.

Lemma accepted_image_is_read_in_bounds_witness :
  exists m', con_info_deserialize (replicate 48 0)
    (TPL_MAGIC ++ [1] ++ [0; 0; 0; 70] ++ con_fmt ++ [0] ++ replicate 42 1) = Ok m' /\ zlen m' = sizeof_con_info.
Proof.
  apply (accepted_image_is_read_in_bounds
    (TPL_MAGIC ++ [1] ++ [0; 0; 0; 70] ++ con_fmt ++ [0] ++ replicate 42 1) (replicate 48 0)); reflexivity.
Defined.

(** The functions on values that the rest of the program computes with these:
    a structure that was set to zero before. *)
Definition serialize_info (i : con_info_type) : list Z :=
  match con_info_serialize (info_bytes 0 i) with Ok (img, _) => img | _ => [] end.
Definition deserialize_info (buf : list Z) : con_info_type :=
  match con_info_deserialize (replicate 48 0) buf with Ok m => info_of_bytes m | _ => zero_info end.

Lemma zlen_serialize_info i : zlen (serialize_info i) = 70.
Proof. reflexivity. Qed.

Lemma deserialize_serialize_info i :
  info_ok i -> hole1 (ci_con_id i) = 0 -> hole2 (ci_con_id i) = 0 ->
  deserialize_info (serialize_info i) = i.
Proof.
  intros Hi H1 H2. unfold serialize_info, deserialize_info.
  rewrite serialize_bytes by apply length_info_bytes.
  rewrite deserialize_bytes by (apply length_info_bytes || done).
  rewrite info_of_fields by done. destruct i as [[] ? ? ?]; simpl in *. by subst.
Qed.

(** *** What goes wrong *)

(** [con_info_deserialize] unpacks an image that [tpl_load] has rejected: 41
    bytes without a zero are read behind their end. *)
Theorem rejected_image_read_out_of_bounds m :
  tpl_load (mk_root con_fmt con_nodes []) (replicate 41 1) = -1 /\
  con_info_deserialize m (replicate 41 1) = Undef.
Proof. split; reflexivity. Qed.

(** The callers of [con_info_serialize] pass the address of an [int] for a
    [size_t]: the variable behind it in memory becomes zero. *)
Theorem size_overwrites_neighbour before len next after sz :
  zlen len = 4 -> zlen next = 4 -> 0 <= sz < 2 ^ 32 ->
  store_size (before ++ len ++ next ++ after) (zlen before) sz =
  Ok (before ++ le_split 4 sz ++ [0; 0; 0; 0] ++ after).
Proof.
  intros Hl Hn Hs. pose proof (zlen_nonneg before). pose proof (zlen_nonneg after).
  unfold store_size, store. rewrite zlen_le_split, !zlen_app, (proj2 (Z.leb_le 0 _)), (proj2 (Z.leb_le _ _)) by lia.
  cbn [andb]. rewrite ztake_exact by done. rewrite (app_assoc len), zdrop_app_r by lia.
  replace (zlen before + Z.of_nat 8 - zlen before) with 8 by lia. f_equal.
  rewrite (zdrop_exact (len ++ next) after) by (rewrite zlen_app; lia).
  change (le_split 8 sz) with (le_split 4 sz ++ le_split 4 (sz / 256 / 256 / 256 / 256)).
  replace (sz / 256 / 256 / 256 / 256) with 0 by (rewrite !Z.div_div, Z.div_small; lia).
  by rewrite <- !app_assoc.
Qed.
