(* ===== verification/Serve.v ===== *)
(** * The service threads of the host (vpb/con-manager.c)

    [wait_for_connection] starts a thread for every connection of the guest's
    manager and passes it the address of its variable [ask]; the thread reads
    the variable through that pointer whenever it uses the socket.  All
    threads share the variable, which has the socket accepted last.

    [hb_to_guest] tells the guest that its host is the leader. *)

From S2P Require Import Prelude Bytes Ringbuf ConManager Framing.

Open Scope Z_scope.

(** [inet_aton] of 10.22.1.2 *)
Definition MY_IP : Z := le_combine [10; 22; 1; 2].

(** The datagram of one pass; without one the thread waits to become
    leader. *)
Definition hb_to_guest (is_leader : bool) : option (list Z) :=
  if is_leader then Some (le_split 8 MY_IP) else None.

(** ** Threads *)

(** A thread is about to call [recv_bytes], waits in it on a socket, or has
    ended. *)
Inductive thread := Ready | Waits (sk : Z) | Ended.

Record service := mk_service {
  ask : Z;
  arriving : gmap Z (list rx_event);    (* by socket *)
  threads : list thread;
  replies : list (Z * list Z);          (* socket and bytes *)
  submitted : list (list Z)             (* by [tcpnewcon_handle] *)
}.

Definition service_init (rx : gmap Z (list rx_event)) : service := mk_service (-1) rx [] [] [].

Definition set_thread (i : nat) (t : thread) (s : service) : service :=
  mk_service (ask s) (arriving s) (<[i := t]> (threads s)) (replies s) (submitted s).
Definition set_arriving (sk : Z) (rx : list rx_event) (s : service) : service :=
  mk_service (ask s) (<[sk := rx]> (arriving s)) (threads s) (replies s) (submitted s).
Definition tcpnewcon (buf : list Z) (s : service) : service :=
  mk_service (ask s) (arriving s) (threads s) (replies s) (submitted s ++ [buf]).
(** A [send] to the socket in the variable, with the answer [k] of the
    system. *)
Definition reply (bs : list Z) (k : Z) (s : service) : service :=
  if k <? 0 then s
  else mk_service (ask s) (arriving s) (threads s) (replies s ++ [(ask s, bs)]) (submitted s).

(** One pass of [wait_for_connection]: [accept] returns [sk]. *)
Definition wait_for_connection (sk : Z) (s : service) : service :=
  mk_service sk (arriving s) (threads s ++ [Ready]) (replies s) (submitted s).

(** [recv_bytes] is called with the value the variable has now. *)
Definition serve_enter (i : nat) (s : service) : service :=
  match threads s !! i with
  | Some Ready => set_thread i (Waits (ask s)) s
  | _ => s
  end.

(** The rest of the pass, once a message, an error or the end arrives. *)
Definition serve (mem : Z -> bool) (junk : list Z) (is_leader : bool) (k : Z) (i : nat) (s : service)
    : outcome service :=
  match threads s !! i with
  | Some (Waits sk) =>
      let! (r, rx) := recv_bytes mem junk (default [] (arriving s !! sk)) in
      let s := set_arriving sk rx s in
      if rx_ret r <? 0 then Ok (set_thread i Ended s)
      else if rx_ret r =? 0 then Ok (set_thread i Ended (set_arriving (ask s) [] s))
      else if rx_length r =? 1 then Ok (set_thread i Ready (reply [c_bool is_leader] k s))
      else if is_leader then
        let s := reply [1] k (tcpnewcon (rx_buf r) s) in
        Ok (set_thread i (if k <? 0 then Ended else Ready) s)
      else Ok (set_thread i Ready s)
  | _ => Ok s
  end.

Inductive service_event :=
| Accept (sk : Z)
| Enter (i : nat)
| Serve (is_leader : bool) (i : nat).

(** The answer of every [send] is that the byte was accepted. *)
Definition service_step (mem : Z -> bool) (junk : list Z) (e : service_event) (s : service)
    : outcome service :=
  match e with
  | Accept sk => Ok (wait_for_connection sk s)
  | Enter i => Ok (serve_enter i s)
  | Serve is_leader i => serve mem junk is_leader 1 i s
  end.

Fixpoint service_run (mem : Z -> bool) (junk : list Z) (es : list service_event) (s : service)
    : outcome service :=
  match es with
  | [] => Ok s
  | e :: es' => let! s := service_step mem junk e s in service_run mem junk es' s
  end.

(** ** Replies *)

(** On one connection the requests are answered where they came from: with a
    single [accept] every reply goes to that socket. *)
Definition one_socket (sk : Z) (s : service) : Prop :=
  ask s = sk /\ Forall (fun t => t = Waits sk \/ t = Ready \/ t = Ended) (threads s) /\
  Forall (fun r => fst r = sk) (replies s).

Lemma set_thread_one sk i t s :
  (t = Waits sk \/ t = Ready \/ t = Ended) -> one_socket sk s -> one_socket sk (set_thread i t s).
Proof.
  intros Ht (H1 & H2 & H3). split_and!; [done| |done]. cbn [threads set_thread].
  by apply Forall_insert.
Qed.

Lemma reply_keeps_socket sk bs k s : one_socket sk s -> one_socket sk (reply bs k s).
Proof.
  intros (H1 & H2 & H3). unfold reply. destruct (k <? 0); [done|]. split_and!; [done..|].
  cbn [replies]. apply Forall_app. split; [done|]. by constructor.
Qed.

Lemma serve_one mem junk b k i sk s s' :
  one_socket sk s -> serve mem junk b k i s = Ok s' -> one_socket sk s'.
Proof.
  intros Hs. unfold serve. destruct (threads s !! i) as [[| t |]|]; try (by intros [= <-]).
  destruct (recv_bytes mem junk (default [] (arriving s !! t))) as [[r rx]| |]; try done. cbn [obind].
  assert (one_socket sk (set_arriving t rx s)) as Hs' by done.
  repeat case_match; intros [= <-]; apply set_thread_one; auto using reply_keeps_socket.
Qed.

Lemma service_step_one mem junk e sk s s' :
  (forall sk', e <> Accept sk') -> one_socket sk s -> service_step mem junk e s = Ok s' -> one_socket sk s'.
Proof.
  intros He Hs. destruct e as [sk'|i|b i]; cbn [service_step].
  - by destruct (He sk').
  - intros [= <-]. unfold serve_enter. destruct (threads s !! i) as [[| |]|]; try done.
    pose proof Hs as [-> _]. apply set_thread_one; auto.
  - by apply serve_one.
Qed.

Lemma service_run_one mem junk es : forall sk s s',
  (forall sk', Accept sk' ∉ es) -> one_socket sk s -> service_run mem junk es s = Ok s' -> one_socket sk s'.
Proof.
  induction es as [|e es IH]; intros sk s s' He Hs; cbn [service_run]; [by intros [= <-]|].
  destruct (service_step mem junk e s) as [s1| |] eqn:H1; try done. cbn [obind]. intros Hrun.
  eapply IH; [|eapply service_step_one; [|exact Hs|exact H1]|exact Hrun].
  - intros sk' Hin. apply (He sk'). by right.
  - intros sk' ->. apply (He sk'). by left.
Qed.

(** As long as one connection was accepted every reply goes to it. *)
Theorem one_connection_is_answered mem junk es sk rx s' :
  (forall x, Accept x ∉ es) -> service_run mem junk (Accept sk :: es) (service_init rx) = Ok s' ->
  Forall (fun r => fst r = sk) (replies s').
Proof.
  intros He Hrun. cbn [service_run service_step obind] in Hrun.
  assert (one_socket sk (wait_for_connection sk (service_init rx))) as H0.
  { split_and!; [done| |by constructor]. constructor; [auto|constructor]. }
  by destruct (service_run_one mem junk es sk _ s' He H0 Hrun) as (_ & _ & H).
Qed.

(** The manager of the guest connects again, and the request it sent on the
    first connection is answered on the second. *)
Definition two_clients : gmap Z (list rx_event) :=
  <[5 := [RxData [0; 0; 0; 2; 7; 7]]]> (<[6 := []]> ∅).

Theorem reply_goes_to_last_accepted :
  exists s', service_run (fun _ => true) [0; 0; 0; 0]
      [Accept 5; Enter 0; Accept 6; Serve true 0] (service_init two_clients) = Ok s' /\
    replies s' = [(6, [1])] /\ submitted s' = [ [7; 7] ].
Proof. by eexists; vm_compute. Qed.
