(* ===== verification/Guest.v ===== *)
(** * The connection manager of the guest (project/src/con-manager-guest.c)

    A daemon in the virtual machine.  Its host tells it with heartbeats
    whether this copy is the leader's and with reports which connections the
    group has agreed on.  The preloaded library ([Intercept]) asks it whether
    this is the leader, gives it new connections of the leader, and asks it
    for the connections a backup has to imitate.

    One pass through the loop of a thread is one step.  The serialisation of
    tpl is a parameter. *)

From S2P Require Import Prelude Bytes Ringbuf ConManager Framing.

Open Scope Z_scope.

Definition ECONNRESET : Z := 104.
Definition EDESTADDRREQ : Z := 89.
(** [inet_aton] of 10.22.1.2 *)
Definition MY_HOST_IP : Z := le_combine [10; 22; 1; 2].

Record con_list_entry := mk_entry {
  en_src_ip : Z;
  en_src_port : Z;
  en_send_seq : Z;
  en_recv_seq : Z;
  en_has_timestamp : Z;
  en_timestamp : Z;
  en_mss_clamp : Z;
  en_snd_wscale : Z;
  en_rcv_wscale : Z;
  en_has_rcv_wscale : Z
}.

(** The table is keyed by [struct con_list_key]: address and port of the
    destination, with the hole cleared. *)
Record guest := mk_guest {
  iamleader : bool;
  sk_consensus_connected : bool;
  connect_con_list : gmap (Z * Z) con_list_entry;
  report_thread : bool;     (* [serve_report] is running *)
  hb_buf : list Z           (* [buf] of [recv_hb] *)
}.
Definition set_iamleader v (g : guest) : guest :=
  mk_guest v (sk_consensus_connected g) (connect_con_list g) (report_thread g) (hb_buf g).
Definition set_connected v (g : guest) : guest :=
  mk_guest (iamleader g) v (connect_con_list g) (report_thread g) (hb_buf g).
Definition set_con_list v (g : guest) : guest :=
  mk_guest (iamleader g) (sk_consensus_connected g) v (report_thread g) (hb_buf g).
Definition stop_reports (g : guest) : guest :=
  mk_guest (iamleader g) (sk_consensus_connected g) (connect_con_list g) false (hb_buf g).
Definition set_hb_buf v (g : guest) : guest :=
  mk_guest (iamleader g) (sk_consensus_connected g) (connect_con_list g) (report_thread g) v.

(** After a successful start; [buf] is what is on the stack of [recv_hb]. *)
Definition init_con_manager_guest (buf : list Z) : guest := mk_guest false false ∅ true buf.

(** What the operating system answers, and what was sent: to the host, to
    the library on the connection that is served, and on connections to the
    local server, with their addresses. *)
Record guest_os := mk_gos {
  connects : list Z;
  sends : list Z;
  to_host : list Z;
  to_client : list Z;
  created : list (Z * Z * list Z)
}.
Definition set_connects v (o : guest_os) : guest_os :=
  mk_gos v (sends o) (to_host o) (to_client o) (created o).
Definition set_sends v (o : guest_os) : guest_os :=
  mk_gos (connects o) v (to_host o) (to_client o) (created o).
Definition host_gets bs (o : guest_os) : guest_os :=
  mk_gos (connects o) (sends o) (to_host o ++ bs) (to_client o) (created o).
Definition client_gets bs (o : guest_os) : guest_os :=
  mk_gos (connects o) (sends o) (to_host o) (to_client o ++ bs) (created o).
Definition add_created c (o : guest_os) : guest_os :=
  mk_gos (connects o) (sends o) (to_host o) (to_client o) (created o ++ [c]).

(** ** The table *)

Definition hash_insert (con_info : con_info_type) (g : guest) : guest :=
  let id := ci_con_id con_info in
  let o := ci_options con_info in
  let entry := mk_entry (src_ip id) (src_port id) (ci_send_seq con_info) (ci_recv_seq con_info)
    (has_timestamp o) (timestamp o) (mss_clamp o) (snd_wscale o) (rcv_wscale o) (has_rcv_wscale o) in
  set_con_list (<[(dst_ip id, dst_port id) := entry]> (connect_con_list g)) g.

(** [None] is the result -1. *)
Definition hash_find (con_info : con_info_type) (g : guest) : option con_info_type :=
  let id := ci_con_id con_info in
  match connect_con_list g !! (dst_ip id, dst_port id) with
  | None => None
  | Some e =>
      Some (mk_con_info
        (mk_con (en_src_ip e) (en_src_port e) (hole1 id) (dst_ip id) (dst_port id) (hole2 id))
        (en_send_seq e) (en_recv_seq e)
        (mk_options (en_has_timestamp e) (en_timestamp e) (en_mss_clamp e) (en_snd_wscale e)
          (en_rcv_wscale e) (en_has_rcv_wscale e) (con_type (ci_options con_info))))
  end.

(** ** Heartbeats *)

(** A datagram [d] of the host, or [None] when [recvfrom] fails. *)
Definition recv_hb (d : option (list Z)) (g : guest) : guest :=
  let g :=
    match d with
    | Some bs => let bs := ztake 32 bs in set_hb_buf (bs ++ zdrop (zlen bs) (hb_buf g)) g
    | None => g
    end in
  set_iamleader (le_combine (ztake 8 (hb_buf g)) =? MY_HOST_IP) g.

Section Manager.
Context (deserialize : list Z -> con_info_type) (serialize : con_info_type -> list Z).

(** ** Reports *)

(** [tries] calls of [connect] at most: the last result. *)
Fixpoint connect_loop (tries : nat) (ret : Z) (answers : list Z) : outcome (Z * list Z) :=
  match tries with
  | O => Ok (ret, answers)
  | S tries' =>
      match answers with
      | [] => Spin
      | ret :: answers' => if ret <? 0 then connect_loop tries' ret answers' else Ok (ret, answers')
      end
  end.

(** [sk] is what [socket] returns; the result says whether the thread goes on
    after the call or has ended in it. *)
Definition create_connection (sk : Z) (con_info : con_info_type) (o : guest_os)
    : outcome (bool * guest_os) :=
  if sk <? 0 then Ok (false, o)
  else
    let! (ret, answers) := connect_loop 10 (-1) (connects o) in
    let o := set_connects answers o in
    if ret <? 0 then Ok (false, o)
    else
      let! (ret, errno, sent, answers) := send_bytes (serialize con_info) (sends o) in
      let id := ci_con_id con_info in
      Ok (true, add_created (src_ip id, src_port id, sent) (set_sends answers o)).

(** A datagram [buf] from the address [from]; nobody receives it when the
    thread has ended. *)
Definition serve_report (sk from : Z) (buf : list Z) (g : guest) (o : guest_os)
    : outcome (guest * guest_os) :=
  if negb (report_thread g) then Ok (g, o)
  else if negb (from =? MY_HOST_IP) then Ok (g, o)
  else if negb (iamleader g) then
    let con_info := deserialize buf in
    if con_type (ci_options con_info) =? ACCEPT_CON then
      let! (goes_on, o) := create_connection sk con_info o in
      Ok (if goes_on then g else stop_reports g, o)
    else if con_type (ci_options con_info) =? CONNECT_CON then Ok (hash_insert con_info g, o)
    else Ok (g, o)
  else Ok (g, o).

(** ** Asking the host for consensus *)

Definition sk_ask_consensus_connect (g : guest) (o : guest_os) : outcome (Z * guest * guest_os) :=
  match connects o with
  | [] => Spin
  | ret :: answers =>
      let o := set_connects answers o in
      if ret <? 0 then Ok (-1, g, o) else Ok (0, set_connected true g, o)
  end.

Definition send_to_host (buffer : list Z) (o : guest_os) : outcome (Z * Z * guest_os) :=
  let! (ret, errno, sent, answers) := send_bytes buffer (sends o) in
  Ok (ret, errno, host_gets sent (set_sends answers o)).

Definition send_for_consensus (con_info : con_info_type) (g : guest) (o : guest_os)
    : outcome (Z * guest * guest_os) :=
  let buffer := serialize con_info in
  let! (ret, g, o) :=
    if negb (sk_consensus_connected g) then sk_ask_consensus_connect g o else Ok (0, g, o) in
  if ret <? 0 then Ok (-1, g, o)
  else
    let! (ret, errno, o) := send_to_host buffer o in
    if ret <? 0 then
      if (errno =? ECONNRESET) || (errno =? EDESTADDRREQ) then
        let! (ret, g, o) := sk_ask_consensus_connect g o in
        if negb (ret =? 0) then Ok (-1, g, o)
        else
          let! (ret, _, o) := send_to_host buffer o in
          if negb (ret =? 0) then Ok (-1, g, o) else Ok (0, g, o)
      else Ok (-1, g, o)
    else Ok (0, g, o).

(** ** Queries of the preloaded library *)

(** [send] and [send_bytes] on the connection that is served; their results
    are only logged. *)
Definition send_client (bs : list Z) (o : guest_os) : outcome guest_os :=
  let! (_, sent, answers) := send bs (sends o) in
  Ok (client_gets sent (set_sends answers o)).
Definition send_bytes_client (buf : list Z) (o : guest_os) : outcome guest_os :=
  let! (_, _, sent, answers) := send_bytes buf (sends o) in
  Ok (client_gets sent (set_sends answers o)).

Definition answer_query (con_info : con_info_type) (g : guest) (o : guest_os) : outcome guest_os :=
  match hash_find con_info g with
  | None => send_client [0] o
  | Some con_info =>
      let! o := send_client [1] o in
      send_bytes_client (serialize con_info) o
  end.

(** One pass; [junk] is the variable [tmp] of [recv_bytes].  The result says
    whether the thread goes on. *)
Definition serve_query (mem : Z -> bool) (junk : list Z) (rx : list rx_event) (g : guest) (o : guest_os)
    : outcome (bool * list rx_event * guest * guest_os) :=
  let! (r, rx) := guest_recv_bytes mem junk 0 rx in
  if rx_ret r <=? 0 then Ok (false, rx, g, o)
  else if rx_length r =? 1 then
    let! o := send_bytes_client [c_bool (iamleader g)] o in
    Ok (true, rx, g, o)
  else
    let con_info := deserialize (rx_buf r) in
    if iamleader g then
      let! (ret, g, o) := send_for_consensus con_info g o in
      if ret <? 0 then Ok (false, rx, g, o)
      else
        (* [iamleader] is an enumeration: four bytes *)
        let! o := send_client (le_split 4 (c_bool (iamleader g))) o in
        Ok (true, rx, g, o)
    else if con_type (ci_options con_info) =? CONNECT_QUERY then
      let! o := answer_query con_info g o in
      Ok (true, rx, g, o)
    else Ok (true, rx, g, o).
End Manager.
