(* ===== verification/Intercept.v ===== *)
(** * The preloaded library of the guest (project/src/intercept.c)

    It replaces [accept], [connect], [bind] and [socket] of the server that
    runs in the virtual machine.  On the leader a new connection is described
    to the guest's manager, which has the group agree on it.  On a backup,
    where no client ever connects, the library makes a socket that continues
    the leader's connection: the repair mode of Linux sets its addresses,
    sequence numbers and options without sending a packet.

    The system calls are a parameter, [TcpStack]; what they do is stated in
    [InterceptSpec].  [noret] is what a caller gets from a function that ends
    without a [return], which [get_tcp_queue_seq] and [connect] do. *)

From S2P Require Import Prelude Bytes Ringbuf ConManager Framing.

Open Scope Z_scope.

(** ** System calls *)

Record addr := mk_addr { sin_addr : Z; sin_port : Z }.

Definition TCP_RECV_QUEUE : Z := 1.
Definition TCP_SEND_QUEUE : Z := 2.
Definition TCPI_OPT_TIMESTAMPS : Z := 1.
Definition TCPI_OPT_WSCALE : Z := 4.
Definition EINPROGRESS : Z := 115.

(** The options that are set, with their values. *)
Inductive sockopt :=
| SO_REUSEADDR (aux : Z)
| SO_REUSEPORT (aux : Z)
| TCP_REPAIR (aux : Z)
| TCP_REPAIR_QUEUE (queue : Z)
| TCP_QUEUE_SEQ (seq : Z)
| TCP_TIMESTAMP (ts : Z)
| TCPOPT_TIMESTAMP (opt_val : Z)     (* these three with [TCP_REPAIR_OPTIONS] *)
| TCPOPT_MAXSEG (opt_val : Z)
| TCPOPT_WINDOW (opt_val : Z).

Record tcp_info := mk_tcp_info {
  tcpi_options : Z;
  tcpi_snd_wscale : Z;
  tcpi_rcv_wscale : Z
}.

(** Results are those of the system calls; [sys_errno] is the error of the last
    [connect]. *)
Class TcpStack (K : Type) := {
  sys_socket : K -> Z * K;
  sys_close : Z -> K -> Z * K;
  sys_accept : Z -> K -> Z * K;
  sys_bind : Z -> addr -> K -> Z * K;
  sys_connect : Z -> addr -> K -> Z * K;
  sys_errno : K -> Z;
  sys_send : Z -> list Z -> K -> Z * K;
  sys_setsockopt : Z -> sockopt -> K -> Z * K;
  sys_get_queue_seq : Z -> K -> Z * Z;
  sys_get_timestamp : Z -> K -> Z * Z;
  sys_get_maxseg : Z -> K -> Z * Z;
  sys_get_info : Z -> K -> Z * tcp_info;
  sys_getsockname : Z -> K -> Z * addr;
  sys_getpeername : Z -> K -> Z * addr
}.

(** ** Code of the library

    Its state: the sockets of the guest, the connection to the manager
    (arriving pieces, answers of [send], bytes sent), and what arrives on the
    accepted connection. *)

Record lib (K : Type) := mk_lib {
  stack : K;
  mgr_rx : list rx_event;
  mgr_sends : list Z;
  mgr_out : list Z;
  con_rx : list rx_event
}.
Arguments mk_lib {K} stack mgr_rx mgr_sends mgr_out con_rx.
Arguments stack {K} _.
Arguments mgr_rx {K} _.
Arguments mgr_sends {K} _.
Arguments mgr_out {K} _.
Arguments con_rx {K} _.

Definition set_stack {K} (k : K) (l : lib K) : lib K :=
  mk_lib k (mgr_rx l) (mgr_sends l) (mgr_out l) (con_rx l).
Definition set_mgr_rx {K} v (l : lib K) : lib K :=
  mk_lib (stack l) v (mgr_sends l) (mgr_out l) (con_rx l).
Definition set_con_rx {K} v (l : lib K) : lib K :=
  mk_lib (stack l) (mgr_rx l) (mgr_sends l) (mgr_out l) v.
Definition mgr_gets {K} bs answers (l : lib K) : lib K :=
  mk_lib (stack l) (mgr_rx l) answers (mgr_out l ++ bs) (con_rx l).

(** A piece of the body of a function that returns an [R]: it goes on with an
    [A], or the function returns. *)
Definition C (K R A : Type) : Type := lib K -> outcome ((R + A) * lib K).

#[export] Instance C_ret {K R} : MRet (C K R) := fun A a l => Ok (inr a, l).
#[export] Instance C_bind {K R} : MBind (C K R) := fun A B k c l =>
  match c l with
  | Ok (inr a, l') => k a l'
  | Ok (inl r, l') => Ok (inl r, l')
  | Undef => Undef
  | Spin => Spin
  end.

Definition return_ {K R A} (r : R) : C K R A := fun l => Ok (inl r, l).
Definition undef {K R A} : C K R A := fun _ => Undef.
(** A call of a function with the given body. *)
Definition call {K R A} (body : C K A A) : C K R A := fun l =>
  match body l with
  | Ok (inl a, l') | Ok (inr a, l') => Ok (inr a, l')
  | Undef => Undef
  | Spin => Spin
  end.

Definition sys {K R} (f : K -> Z * K) : C K R Z := fun l =>
  let '(r, k) := f (stack l) in Ok (inr r, set_stack k l).
Definition get {K R A} (f : K -> A) : C K R A := fun l => Ok (inr (f (stack l)), l).

(** [if (b) return r;] *)
Definition return_if {K R} (b : bool) (r : R) : C K R unit := if b then return_ r else mret tt.
Definition when {K R} (b : bool) (c : C K R unit) : C K R unit := if b then c else mret tt.

Section Intercept.
Context {K : Type} {T : TcpStack K}.
Context (deserialize : list Z -> con_info_type) (serialize : con_info_type -> list Z).
(** Whether [malloc] succeeds; what the variables [tmp] and [recv_len] hold
    before they are written. *)
Context (mem : Z -> bool) (junk : list Z) (junk_len noret : Z).

(** ** Options *)

Definition setsockopt {R} (sk : Z) (o : sockopt) : C K R Z := sys (sys_setsockopt sk o).
Definition tcp_repair_on {R} (fd : Z) : C K R Z := setsockopt fd (TCP_REPAIR 1).
Definition tcp_repair_off {R} (fd : Z) : C K R Z := setsockopt fd (TCP_REPAIR 0).

(** The result and [*seq]. *)
Definition get_tcp_queue_seq {R} (sk queue : Z) : C K R (Z * Z) :=
  call (r ← setsockopt sk (TCP_REPAIR_QUEUE queue);
        return_if (r <? 0) (-1, 0) ;;
        '(r, seq) ← get (sys_get_queue_seq sk);
        return_if (r <? 0) (-1, 0) ;;
        mret (noret, seq)).

Definition set_tcp_queue_seq {R} (sk queue seq : Z) : C K R Z :=
  call (r ← setsockopt sk (TCP_REPAIR_QUEUE queue);
        return_if (r <? 0) (-1) ;;
        r ← setsockopt sk (TCP_QUEUE_SEQ seq);
        return_if (r <? 0) (-1) ;;
        mret 0).

Definition set_dst (a : addr) (i : con_info_type) : con_info_type :=
  let c := ci_con_id i in
  mk_con_info (mk_con (src_ip c) (src_port c) (hole1 c) (sin_addr a) (sin_port a) (hole2 c))
    (ci_send_seq i) (ci_recv_seq i) (ci_options i).
Definition set_src (a : addr) (i : con_info_type) : con_info_type :=
  let c := ci_con_id i in
  mk_con_info (mk_con (sin_addr a) (sin_port a) (hole1 c) (dst_ip c) (dst_port c) (hole2 c))
    (ci_send_seq i) (ci_recv_seq i) (ci_options i).

Definition get_tcp_con_id {R} (sk : Z) (con_info : con_info_type) : C K R (Z * con_info_type) :=
  call ('(r, remoteaddr) ← get (sys_getpeername sk);
        return_if (negb (r =? 0)) (-1, con_info) ;;
        let con_info := set_dst remoteaddr con_info in
        '(r, localaddr) ← get (sys_getsockname sk);
        return_if (negb (r =? 0)) (-1, con_info) ;;
        mret (0, set_src localaddr con_info)).

(** ** [bind] and [socket] *)

Definition reuse (sk : Z) : C K Z unit :=
  r ← setsockopt sk (SO_REUSEADDR 1);
  return_if (r <? 0) (-1) ;;
  r ← setsockopt sk (SO_REUSEPORT 1);
  return_if (r <? 0) (-1).

Definition bind {R} (sockfd : Z) (a : addr) : C K R Z :=
  call (reuse sockfd ;; sys (sys_bind sockfd a)).

Definition socket {R} : C K R Z :=
  call (sk ← sys sys_socket; reuse sk ;; mret sk).

(** ** Continuing a connection *)

Definition repair_options (sk : Z) (con_info : con_info_type) : C K Z unit :=
  let o := ci_options con_info in
  when (c_true (has_timestamp o))
    (r ← setsockopt sk (TCPOPT_TIMESTAMP 0);
     return_if (r <? 0) (-1) ;;
     r ← setsockopt sk (TCP_TIMESTAMP (timestamp o));
     return_if (r <? 0) (-1)) ;;
  r ← setsockopt sk (TCPOPT_MAXSEG (mss_clamp o));
  return_if (r <? 0) (-1) ;;
  when (c_true (has_rcv_wscale o))
    (r ← setsockopt sk (TCPOPT_WINDOW (u32 (snd_wscale o + u32 (Z.shiftl (rcv_wscale o) 16))));
     return_if (r <? 0) (-1)).

(** The new socket [sk] gets the local address, the peer and the state. *)
Definition repair_tcp {R} (sk : Z) (localaddr : addr) (con_info : con_info_type) : C K R Z :=
  call (r ← tcp_repair_on sk;
        return_if (negb (r =? 0)) r ;;
        r ← set_tcp_queue_seq sk TCP_RECV_QUEUE (ci_recv_seq con_info);
        return_if (negb (r =? 0)) (-1) ;;
        r ← set_tcp_queue_seq sk TCP_SEND_QUEUE (u32 (ci_send_seq con_info - 1));
        return_if (negb (r =? 0)) (-1) ;;
        reuse sk ;;
        r ← bind sk localaddr;
        return_if (negb (r =? 0)) (-1) ;;
        r ← sys (sys_connect sk (mk_addr (dst_ip (ci_con_id con_info)) (dst_port (ci_con_id con_info))));
        return_if (negb (r =? 0)) (-1) ;;
        repair_options sk con_info ;;
        sys (sys_send sk [1]) ;;
        tcp_repair_off sk ;;
        mret 0).

(** The result and [*sk]. *)
Definition replace_tcp {R} (sk : Z) (con_info : con_info_type) : C K R (Z * Z) :=
  call (r ← tcp_repair_on sk;
        return_if (negb (r =? 0)) (r, sk) ;;
        '(r, localaddr) ← get (sys_getsockname sk);
        return_if (negb (r =? 0)) (-1, sk) ;;
        sys (sys_close sk) ;;
        sk ← socket;
        r ← repair_tcp sk localaddr con_info;
        mret (r, sk)).

(** ** Describing a connection *)

(** What the leader finds out about a connection. *)
Definition describe (sk type : Z) : C K Z con_info_type :=
  tcp_repair_on sk ;;
  '(r, send_seq) ← get_tcp_queue_seq sk TCP_SEND_QUEUE;
  return_if (r <? 0) (-1) ;;
  '(r, recv_seq) ← get_tcp_queue_seq sk TCP_RECV_QUEUE;
  return_if (r <? 0) (-1) ;;
  '(r, tcpi) ← get (sys_get_info sk);
  return_if (negb (r =? 0)) (-1) ;;
  let has_ts := c_true (Z.land (tcpi_options tcpi) TCPI_OPT_TIMESTAMPS) in
  let has_ws := c_true (Z.land (tcpi_options tcpi) TCPI_OPT_WSCALE) in
  '(r, ts) ← (if has_ts then get (sys_get_timestamp sk) else mret (0, 0));
  return_if (negb (r =? 0)) (-1) ;;
  '(r, mss) ← get (sys_get_maxseg sk);
  return_if (r <? 0) (-1) ;;
  tcp_repair_off sk ;;
  let options := mk_options (c_bool has_ts) ts mss
    (if has_ws then tcpi_snd_wscale tcpi else 0) (if has_ws then tcpi_rcv_wscale tcpi else 0)
    (c_bool has_ws) type in
  '(_, con_info) ← get_tcp_con_id sk (mk_con_info zero_con 0 0 options);
  mret (mk_con_info (ci_con_id con_info) send_seq recv_seq options).

(** ** The manager *)

Definition CON_MGR_PORT : Z := 7777.
Definition QEMU_PORT : Z := 4321.
Definition CON_MGR_IP : Z := le_combine [127; 0; 0; 1].
Definition GUEST_IP : Z := le_combine [10; 22; 1; 100].

Definition send_mgr {R} (buf : list Z) : C K R Z := fun l =>
  let! (r, _, sent, answers) := send_bytes buf (mgr_sends l) in
  Ok (inr r, mgr_gets sent answers l).
Definition recv_mgr_bytes {R} : C K R received := fun l =>
  let! (r, rx) := guest_recv_bytes mem junk junk_len (mgr_rx l) in Ok (inr r, set_mgr_rx rx l).
(** One byte into a variable that holds [x]. *)
Definition recv_mgr_byte {R} (x : Z) : C K R Z := fun l =>
  let! (_, bs, rx) := recv 1 (mgr_rx l) in Ok (inr (default x (head bs)), set_mgr_rx rx l).
Definition recv_con_bytes {R} : C K R received := fun l =>
  let! (r, rx) := guest_recv_bytes mem junk junk_len (con_rx l) in Ok (inr r, set_con_rx rx l).

(** The memory at [*buf], of which something is not written when [recv_bytes]
    fails. *)
Definition buffer_of {R} (r : received) : C K R (list Z) :=
  if rx_ret r <=? 0 then undef else mret (rx_buf r).

(** Connect to the manager and ask it whether this is the leader: the socket
    and the answer. *)
Definition ask_manager : C K Z (Z * Z) :=
  sk_tomgr ← socket;
  return_if (sk_tomgr <? 0) (-1) ;;
  r ← sys (sys_connect sk_tomgr (mk_addr CON_MGR_IP (ntohs CON_MGR_PORT)));
  return_if (r <? 0) (-1) ;;
  send_mgr [0] ;;
  r ← recv_mgr_bytes;
  return_if (negb (rx_length r =? 1)) (-1) ;;
  leader ← buffer_of r;
  mret (sk_tomgr, default 0 (head leader)).

Definition ask_for_consensus {R} (con_info : con_info_type) : C K R Z :=
  call (r ← send_mgr (serialize con_info);
        return_if (r <? 0) (-1) ;;
        recv_mgr_byte 0 ;;
        mret 0).

(** ** [accept] *)

(** -1, or the new value of [*sk]. *)
Definition handle_accepted_sk (sk : Z) : C K Z Z :=
  '(sk_tomgr, leader) ← ask_manager;
  sk ← (if leader =? 1 then
           con_info ← describe sk ACCEPT_CON;
           ask_for_consensus con_info ;;
           mret sk
         else
           r ← recv_con_bytes;
           in_buf ← buffer_of r;
           '(_, sk) ← replace_tcp sk (deserialize in_buf);
           mret sk);
  sys (sys_close sk_tomgr) ;;
  mret sk.

Definition accept {R} (sockfd : Z) : C K R Z :=
  call (sk ← sys (sys_accept sockfd);
        return_if (sk <? 0) sk ;;
        '(_, localaddr) ← get (sys_getsockname sk);
        return_if (ntohs (sin_port localaddr) =? CON_MGR_PORT) sk ;;
        handle_accepted_sk sk).

Definition accept4 {R} (sockfd : Z) : C K R Z :=
  call (sk ← sys (sys_accept sockfd);
        return_if (sk <? 0) sk ;;
        handle_accepted_sk sk).

(** ** [connect] *)

(** The loop of a backup: it asks the manager until it knows the
    connection. *)
Fixpoint query_loop (fuel : nat) (buf : list Z) : C K Z unit :=
  match fuel with
  | O => fun _ => Spin
  | S fuel' =>
      r ← send_mgr buf;
      return_if (r <? 0) (-1) ;;
      success ← recv_mgr_byte 0;
      if success =? 0 then query_loop fuel' buf else mret tt
  end.

Definition query_info (a : addr) : con_info_type :=
  mk_con_info (mk_con 0 0 0 (sin_addr a) (sin_port a) 0) 0 0 (mk_options 0 0 0 0 0 0 CONNECT_QUERY).

Definition local_pair (a : addr) : bool :=
  (ntohs (sin_port a) =? QEMU_PORT) || (ntohs (sin_port a) =? CON_MGR_PORT) ||
  (sin_addr a =? CON_MGR_IP) || (sin_addr a =? GUEST_IP).

Definition connect {R} (fuel : nat) (sockfd : Z) (a : addr) : C K R Z :=
  call (if local_pair a then sys (sys_connect sockfd a)
        else
          '(sk_tomgr, leader) ← ask_manager;
          (if leader =? 1 then
             r ← sys (sys_connect sockfd a);
             errno ← get sys_errno;
             return_if ((r <? 0) && negb (errno =? EINPROGRESS)) r ;;
             con_info ← describe sockfd CONNECT_CON;
             ask_for_consensus con_info ;;
             mret tt
           else
             query_loop fuel (serialize (query_info a)) ;;
             r ← recv_mgr_bytes;
             in_buf ← buffer_of r;
             let con_info := deserialize in_buf in
             r ← repair_tcp sockfd
                    (mk_addr (src_ip (ci_con_id con_info)) (src_port (ci_con_id con_info))) con_info;
             return_if (r <? 0) (-1)) ;;
          sys (sys_close sk_tomgr) ;;
          mret noret).
End Intercept.
