(* ===== verification/InterceptSpec.v ===== *)
(** * A backup continues the connections of the leader

    What Linux documents of its repair mode, as laws of the system calls, and
    what the preloaded library makes of it: the code keeps to the rules of
    that mode, so none of its calls fails, and the socket of a backup has the
    peer, the sequence numbers and the options of the leader's. *)

From S2P Require Import Prelude Bytes Ringbuf RingbufSpec ConManager Framing FramingSpec Intercept.

Open Scope Z_scope.

(** ** Sockets *)

Inductive tcp_state := Closed | Established.

Record tcp_view := mk_view {
  v_state : tcp_state;
  v_repair : bool;
  v_queue : Z;                   (* of [TCP_REPAIR_QUEUE] *)
  v_reuse : bool * bool;         (* address, port *)
  v_local : option addr;
  v_peer : option addr;
  v_send_seq : Z;                (* of the next byte that is sent *)
  v_recv_seq : Z;                (* of the next byte that arrives *)
  v_ts : bool;                   (* timestamps were negotiated *)
  v_clock : Z;                   (* the clock of the timestamps *)
  v_mss : Z;                     (* limit of the peer *)
  v_wscale : option (Z * Z)      (* window scales, sending and receiving *)
}.

Definition closed (v : tcp_view) : bool := match v_state v with Closed => true | _ => false end.
Definition set_repair b (v : tcp_view) : tcp_view :=
  mk_view (v_state v) b (if b then 0 else v_queue v) (v_reuse v) (v_local v) (v_peer v)
    (v_send_seq v) (v_recv_seq v) (v_ts v) (v_clock v) (v_mss v) (v_wscale v).
Definition set_queue q (v : tcp_view) : tcp_view :=
  mk_view (v_state v) (v_repair v) q (v_reuse v) (v_local v) (v_peer v)
    (v_send_seq v) (v_recv_seq v) (v_ts v) (v_clock v) (v_mss v) (v_wscale v).
Definition set_reuse r (v : tcp_view) : tcp_view :=
  mk_view (v_state v) (v_repair v) (v_queue v) r (v_local v) (v_peer v)
    (v_send_seq v) (v_recv_seq v) (v_ts v) (v_clock v) (v_mss v) (v_wscale v).
Definition set_local a (v : tcp_view) : tcp_view :=
  mk_view (v_state v) (v_repair v) (v_queue v) (v_reuse v) (Some a) (v_peer v)
    (v_send_seq v) (v_recv_seq v) (v_ts v) (v_clock v) (v_mss v) (v_wscale v).
Definition set_peer a (v : tcp_view) : tcp_view :=
  mk_view Established (v_repair v) (v_queue v) (v_reuse v) (v_local v) (Some a)
    (v_send_seq v) (v_recv_seq v) (v_ts v) (v_clock v) (v_mss v) (v_wscale v).
Definition set_seqs s r (v : tcp_view) : tcp_view :=
  mk_view (v_state v) (v_repair v) (v_queue v) (v_reuse v) (v_local v) (v_peer v)
    s r (v_ts v) (v_clock v) (v_mss v) (v_wscale v).
Definition set_opts ts c m w (v : tcp_view) : tcp_view :=
  mk_view (v_state v) (v_repair v) (v_queue v) (v_reuse v) (v_local v) (v_peer v)
    (v_send_seq v) (v_recv_seq v) ts c m w.

(** When the kernel accepts an option, ... *)
Definition setopt_ok (o : sockopt) (v : tcp_view) : bool :=
  match o with
  | SO_REUSEADDR _ | SO_REUSEPORT _ | TCP_REPAIR _ => true
  | TCP_REPAIR_QUEUE q => v_repair v && (0 <=? q) && (q <=? 2)
  | TCP_QUEUE_SEQ _ => closed v && v_repair v && (1 <=? v_queue v)
  | TCP_TIMESTAMP _ => v_repair v
  | TCPOPT_TIMESTAMP x => v_repair v && negb (closed v) && (x =? 0)
  | TCPOPT_MAXSEG _ => v_repair v && negb (closed v)
  | TCPOPT_WINDOW x =>
      v_repair v && negb (closed v) && (Z.land x 0xFFFF <=? 14) && (Z.shiftr x 16 <=? 14)
  end.

(** ... and what it does then. *)
Definition setopt_view (o : sockopt) (v : tcp_view) : tcp_view :=
  match o with
  | SO_REUSEADDR x => set_reuse (c_true x, snd (v_reuse v)) v
  | SO_REUSEPORT x => set_reuse (fst (v_reuse v), c_true x) v
  | TCP_REPAIR x => set_repair (c_true x) v
  | TCP_REPAIR_QUEUE q => set_queue q v
  | TCP_QUEUE_SEQ s =>
      if v_queue v =? TCP_RECV_QUEUE then set_seqs (v_send_seq v) s v else set_seqs s (v_recv_seq v) v
  | TCP_TIMESTAMP x => set_opts (v_ts v) x (v_mss v) (v_wscale v) v
  | TCPOPT_TIMESTAMP _ => set_opts true (v_clock v) (v_mss v) (v_wscale v) v
  | TCPOPT_MAXSEG x => set_opts (v_ts v) (v_clock v) x (v_wscale v) v
  | TCPOPT_WINDOW x => set_opts (v_ts v) (v_clock v) (v_mss v) (Some (Z.land x 0xFFFF, Z.shiftr x 16)) v
  end.

Definition fresh_socket (v : tcp_view) : Prop :=
  v_state v = Closed /\ v_repair v = false /\ v_local v = None /\ v_ts v = false /\ v_wscale v = None.

(** ** The laws of the system calls

    For a process that may administer the network and has descriptors left. *)

Class RepairLaws (K : Type) {T : TcpStack K} := {
  view : K -> gmap Z tcp_view;
  socket_law k : exists fd k' v, sys_socket k = (fd, k') /\ 0 <= fd /\ view k !! fd = None /\
    fresh_socket v /\ view k' = <[fd := v]> (view k);
  close_law k fd : is_Some (view k !! fd) ->
    exists k', sys_close fd k = (0, k') /\ view k' = delete fd (view k);
  setsockopt_law k fd v o : view k !! fd = Some v -> setopt_ok o v = true ->
    exists k', sys_setsockopt fd o k = (0, k') /\ view k' = <[fd := setopt_view o v]> (view k);
  getsockname_law k fd v a : view k !! fd = Some v -> v_local v = Some a -> sys_getsockname fd k = (0, a);
  getpeername_law k fd v a : view k !! fd = Some v -> v_peer v = Some a -> sys_getpeername fd k = (0, a);
  queue_seq_law k fd v : view k !! fd = Some v -> v_repair v = true ->
    v_queue v = TCP_RECV_QUEUE \/ v_queue v = TCP_SEND_QUEUE ->
    sys_get_queue_seq fd k = (0, if v_queue v =? TCP_RECV_QUEUE then v_recv_seq v else v_send_seq v);
  timestamp_law k fd v : view k !! fd = Some v -> sys_get_timestamp fd k = (0, v_clock v);
  (* in repair mode [TCP_MAXSEG] is the limit of the peer *)
  maxseg_law k fd v : view k !! fd = Some v -> v_repair v = true -> sys_get_maxseg fd k = (0, v_mss v);
  info_law k fd v : view k !! fd = Some v -> v_state v = Established ->
    exists i, sys_get_info fd k = (0, i) /\
      c_true (Z.land (tcpi_options i) TCPI_OPT_TIMESTAMPS) = v_ts v /\
      match v_wscale v with
      | Some (s, r) => c_true (Z.land (tcpi_options i) TCPI_OPT_WSCALE) = true /\
          tcpi_snd_wscale i = s /\ tcpi_rcv_wscale i = r
      | None => c_true (Z.land (tcpi_options i) TCPI_OPT_WSCALE) = false
      end;
  bind_law k fd v a : view k !! fd = Some v -> v_state v = Closed -> v_local v = None ->
    v_reuse v = (true, true) ->
    exists k', sys_bind fd a k = (0, k') /\ view k' = <[fd := set_local a v]> (view k);
  (* in repair mode [connect] only sets the state *)
  connect_law k fd v a : view k !! fd = Some v -> v_state v = Closed -> v_repair v = true ->
    exists k', sys_connect fd a k = (0, k') /\ view k' = <[fd := set_peer a v]> (view k);
  (* and [send] puts the bytes into the queue as if they were sent *)
  send_law k fd v bs : view k !! fd = Some v -> v_state v = Established -> v_repair v = true ->
    v_queue v = TCP_SEND_QUEUE ->
    exists k', sys_send fd bs k = (zlen bs, k') /\
      view k' = <[fd := set_seqs (u32 (v_send_seq v + zlen bs)) (v_recv_seq v) v]> (view k)
}.

(** ** Running the code *)

Section Rules.
Context {K : Type} {T : TcpStack K} {W : RepairLaws K}.

(** The code goes on, with a value and a state for which [Q] holds. *)
Definition cwp {R A} (c : C K R A) (Q : A -> lib K -> Prop) (l : lib K) : Prop :=
  match c l with Ok (inr a, l') => Q a l' | _ => False end.

Lemma cwp_bind {R A B} (c : C K R A) (f : A -> C K R B) Q l :
  cwp c (fun a => cwp (f a) Q) l -> cwp (c ≫= f) Q l.
Proof. unfold cwp, mbind, C_bind. by destruct (c l) as [[[r|a] l']| |]. Qed.

Lemma cwp_ret {R A} (a : A) (Q : A -> lib K -> Prop) l : Q a l -> cwp (mret a : C K R A) Q l.
Proof. done. Qed.

Lemma cwp_call {R A} (c : C K A A) Q l : cwp c Q l -> cwp (call c : C K R A) Q l.
Proof. unfold cwp, call. by destruct (c l) as [[[r|a] l']| |]. Qed.

Lemma cwp_mono {R A} (c : C K R A) (Q Q' : A -> lib K -> Prop) l :
  cwp c Q l -> (forall a l', Q a l' -> Q' a l') -> cwp c Q' l.
Proof. unfold cwp. destruct (c l) as [[[r|a] l']| |]; auto. Qed.

(** Code that goes on with something undefined, or waits for ever. *)
Definition stuck {A} (undefined : bool) : outcome A := if undefined then Undef else Spin.

Lemma cwp_stuck {R A B} u (c : C K R A) (f : A -> C K R B) l :
  cwp c (fun a l' => f a l' = stuck u) l -> (c ≫= f) l = stuck u.
Proof. unfold cwp, mbind, C_bind. by destruct (c l) as [[[r|a] l']| |]. Qed.

Lemma bind_stuck {R A B} u (c : C K R A) (f : A -> C K R B) l : c l = stuck u -> (c ≫= f) l = stuck u.
Proof. unfold mbind, C_bind. intros ->. by destruct u. Qed.

(** The socket [fd] has the view [v], the others are [M]. *)
Definition on (fd : Z) (v : tcp_view) (M : gmap Z tcp_view) (l : lib K) : Prop :=
  view (stack l) = <[fd := v]> M.

Lemma on_lookup fd v M l : on fd v M l -> view (stack l) !! fd = Some v.
Proof. intros ->. apply lookup_insert_eq. Qed.

Lemma on_insert fd v v' M (k : K) l :
  on fd v M l -> view k = <[fd := v']> (view (stack l)) -> on fd v' M (set_stack k l).
Proof. intros H Hk. unfold on in *. cbn. by rewrite Hk, H, insert_insert_eq. Qed.

Lemma cwp_setsockopt {R} fd o v M (Q : Z -> lib K -> Prop) l :
  on fd v M l -> setopt_ok o v = true ->
  (forall k, on fd (setopt_view o v) M (set_stack k l) -> Q 0 (set_stack k l)) ->
  cwp (setsockopt fd o : C K R Z) Q l.
Proof.
  intros Hon Hok HQ. destruct (setsockopt_law (stack l) fd v o) as (k & Hk & Hv); [|done|].
  { by eapply on_lookup. }
  unfold cwp, setsockopt, sys. rewrite Hk. apply HQ. by eapply on_insert.
Qed.

(** A system call that changes the socket [fd]. *)
Lemma cwp_sys {R} fd (f : K -> Z * K) r v v' M (Q : Z -> lib K -> Prop) l :
  on fd v M l -> (exists k, f (stack l) = (r, k) /\ view k = <[fd := v']> (view (stack l))) ->
  (forall k, on fd v' M (set_stack k l) -> Q r (set_stack k l)) ->
  cwp (sys f : C K R Z) Q l.
Proof.
  intros Hon (k & Hk & Hv) HQ. unfold cwp, sys. rewrite Hk. apply HQ. by eapply on_insert.
Qed.

Lemma cwp_sys_any {R} (f : K -> Z * K) (Q : Z -> lib K -> Prop) l :
  (forall r k, f (stack l) = (r, k) -> Q r (set_stack k l)) -> cwp (sys f : C K R Z) Q l.
Proof. intros HQ. unfold cwp, sys. destruct (f (stack l)) as [r k]. by apply HQ. Qed.

Lemma cwp_get {R A} (f : K -> A) a (Q : A -> lib K -> Prop) l :
  f (stack l) = a -> Q a l -> cwp (get f : C K R A) Q l.
Proof. intros <-. done. Qed.
End Rules.

(** Run one call that sets an option of the socket in [on], or one test of a
    result that is 0. *)
Ltac opt :=
  eapply cwp_setsockopt; [eassumption|reflexivity|];
  let k := fresh "k" in let H := fresh "Hon" in
  intros k H; cbn in H.
Ltac step :=
  lazymatch goal with
  | |- cwp (_ ≫= _) _ _ => apply cwp_bind
  | |- cwp (call _) _ _ => apply cwp_call
  | |- cwp (return_if false _) _ _ => apply cwp_ret
  | |- cwp (return_if ?b _) _ _ => replace b with false by reflexivity
  | |- cwp (when false _) _ _ => apply cwp_ret
  | |- cwp (when true _) _ _ => unfold when
  | |- cwp (mret _) _ _ => apply cwp_ret
  | |- cwp (setsockopt _ _) _ _ => opt
  | |- cwp (match _ with (_, _) => _ end) _ _ => progress cbn match
  end.

Section Continue.
Context {K : Type} {T : TcpStack K} {W : RepairLaws K}.

Lemma set_stack_twice (k k' : K) l : set_stack k (set_stack k' l) = set_stack k l.
Proof. done. Qed.

Lemma reuse_spec fd v M Q l :
  on fd v M l -> (forall k, on fd (set_reuse (true, true) v) M (set_stack k l) -> Q tt (set_stack k l)) ->
  cwp (reuse fd) Q l.
Proof.
  intros Hon HQ. unfold reuse. repeat step. apply HQ. by destruct v.
Qed.

Lemma set_tcp_queue_seq_spec {R} fd q s v M Q l :
  on fd v M l -> v_state v = Closed -> v_repair v = true -> q = TCP_RECV_QUEUE \/ q = TCP_SEND_QUEUE ->
  (forall k, on fd (setopt_view (TCP_QUEUE_SEQ s) (set_queue q v)) M (set_stack k l) -> Q 0 (set_stack k l)) ->
  cwp (set_tcp_queue_seq fd q s : C K R Z) Q l.
Proof.
  intros Hon Hc Hr Hq HQ. unfold set_tcp_queue_seq. step. step.
  eapply cwp_setsockopt; [done|by destruct Hq as [-> | ->]; simpl; rewrite Hr|].
  intros k Hon1. repeat step. eapply cwp_setsockopt; [done| |].
  { destruct Hq as [-> | ->]; destruct v; simpl in *; by subst. }
  intros k' Hon2. repeat step. by apply HQ.
Qed.

(** *** Options *)

Lemma window_option s r :
  0 <= s <= 14 -> 0 <= r <= 14 ->
  let x := u32 (s + u32 (Z.shiftl r 16)) in Z.land x 0xFFFF = s /\ Z.shiftr x 16 = r.
Proof.
  intros Hs Hr x. assert (x = s + r * 65536) as ->.
  { unfold x, wrap. rewrite Z.shiftl_mul_pow2 by lia. change (2 ^ 16) with 65536. change (2 ^ 32) with 4294967296.
    rewrite (Z.mod_small (r * 65536)), Z.mod_small by lia. done. }
  change 0xFFFF with (Z.ones 16). rewrite Z.land_ones, Z.shiftr_div_pow2 by lia. change (2 ^ 16) with 65536.
  split; [rewrite Z.mod_add by lia; apply Z.mod_small; lia|].
  rewrite Z.div_add by lia. rewrite Z.div_small; lia.
Qed.

(** Window scales that TCP knows. *)
Definition scales_ok (o : con_options) : Prop :=
  c_true (has_rcv_wscale o) = true -> 0 <= snd_wscale o <= 14 /\ 0 <= rcv_wscale o <= 14.

Definition options_view (o : con_options) (v : tcp_view) : tcp_view :=
  set_opts
    (if c_true (has_timestamp o) then true else v_ts v)
    (if c_true (has_timestamp o) then timestamp o else v_clock v)
    (mss_clamp o)
    (if c_true (has_rcv_wscale o) then Some (snd_wscale o, rcv_wscale o) else v_wscale v) v.

Lemma repair_options_spec fd i v M Q l :
  on fd v M l -> v_state v = Established -> v_repair v = true -> scales_ok (ci_options i) ->
  (forall k, on fd (options_view (ci_options i) v) M (set_stack k l) -> Q tt (set_stack k l)) ->
  cwp (repair_options fd i) Q l.
Proof.
  intros Hon Hs Hr Hw HQ. unfold repair_options, options_view, scales_ok in *. destruct v; simpl in Hs, Hr; subst.
  set (o := ci_options i) in *. step.
  apply cwp_mono with (Q := fun _ l' => exists k, l' = set_stack k l /\
    on fd (set_opts (if c_true (has_timestamp o) then true else v_ts0)
      (if c_true (has_timestamp o) then timestamp o else v_clock0) v_mss0 v_wscale0
      (mk_view Established true v_queue0 v_reuse0 v_local0 v_peer0 v_send_seq0 v_recv_seq0 v_ts0 v_clock0 v_mss0 v_wscale0)) M l').
  { destruct (c_true (has_timestamp o)); repeat step; [by eexists|]. exists (stack l). by destruct l. }
  intros [] l' (k & -> & Hon1). clear Hon. repeat step.
  destruct (c_true (has_rcv_wscale o)); [|step; by apply HQ].
  destruct Hw as [Hsw Hrw]; [done|]. destruct (window_option _ _ Hsw Hrw) as [E1 E2]. repeat step.
  eapply cwp_setsockopt; [eassumption| |].
  { cbn. rewrite E1, E2. cbn. apply andb_true_iff. split; apply Z.leb_le; lia. }
  intros k2 Hon2. repeat step. apply HQ. cbn in Hon2. rewrite E1, E2 in Hon2. done.
Qed.

(** *** The socket of a backup *)

(** The state in which the connection [i] is continued. *)
Definition continued (la : addr) (i : con_info_type) (v : tcp_view) : tcp_view :=
  options_view (ci_options i)
    (mk_view Established false TCP_SEND_QUEUE (true, true) (Some la)
      (Some (mk_addr (dst_ip (ci_con_id i)) (dst_port (ci_con_id i))))
      (ci_send_seq i) (ci_recv_seq i) (v_ts v) (v_clock v) (v_mss v) (v_wscale v)).

Lemma u32_pred_succ x : 0 <= x < 2 ^ 32 -> u32 (u32 (x - 1) + 1) = x.
Proof.
  intros H. unfold wrap. rewrite Zplus_mod_idemp_l. replace (x - 1 + 1) with x by lia. by apply Z.mod_small.
Qed.

Lemma repair_tcp_spec {R} fd la i v M Q l :
  on fd v M l -> v_state v = Closed -> v_local v = None -> scales_ok (ci_options i) ->
  0 <= ci_send_seq i < 2 ^ 32 ->
  (forall k, on fd (continued la i v) M (set_stack k l) -> Q 0 (set_stack k l)) ->
  cwp (repair_tcp fd la i : C K R Z) Q l.
Proof.
  intros Hon Hs Hl Hw Hseq HQ. destruct v; simpl in Hs, Hl; subst. unfold repair_tcp, tcp_repair_on.
  repeat step. eapply set_tcp_queue_seq_spec; [eassumption|done|done|by left|]. intros k1 Hon1. cbn in Hon1.
  repeat step. eapply set_tcp_queue_seq_spec; [eassumption|done|done|by right|]. intros k2 Hon2. cbn in Hon2.
  repeat step. eapply reuse_spec; [eassumption|]. intros k3 Hon3. cbn in Hon3.
  repeat step. unfold bind. repeat step. eapply reuse_spec; [eassumption|]. intros k4 Hon4. cbn in Hon4.
  eapply cwp_sys; [eassumption|eapply bind_law; [by eapply on_lookup|done..]|]. intros k5 Hon5. cbn in Hon5.
  repeat step. eapply cwp_sys; [eassumption|eapply connect_law; [by eapply on_lookup|done..]|].
  intros k6 Hon6. cbn in Hon6.
  repeat step. eapply repair_options_spec; [eassumption|done|done|done|]. intros k7 Hon7. cbn in Hon7.
  repeat step. eapply cwp_sys; [eassumption|eapply send_law; [by eapply on_lookup|done..]|].
  intros k8 Hon8. cbn in Hon8. change (zlen [1]) with 1 in Hon8. rewrite u32_pred_succ in Hon8 by done.
  unfold tcp_repair_off. repeat step. by apply HQ.
Qed.

Lemma socket_spec {R} (Q : Z -> lib K -> Prop) l :
  (forall fd k v, 0 <= fd -> view (stack l) !! fd = None -> fresh_socket v ->
    on fd (set_reuse (true, true) v) (view (stack l)) (set_stack k l) -> Q fd (set_stack k l)) ->
  cwp (socket : C K R Z) Q l.
Proof.
  intros HQ. unfold socket. do 2 step. destruct (socket_law (stack l)) as (fd & k & v & Hk & Hfd & Hn & Hv & Hview).
  unfold cwp at 1, sys. rewrite Hk. step. eapply reuse_spec; [exact Hview|]. intros k' Hon. step.
  by eapply HQ.
Qed.

Lemma replace_tcp_spec {R} fd la i v M (Q : Z * Z -> lib K -> Prop) l :
  on fd v M l -> v_local v = Some la -> scales_ok (ci_options i) -> 0 <= ci_send_seq i < 2 ^ 32 ->
  (forall fd' k v', fresh_socket v' -> delete fd M !! fd' = None ->
    on fd' (continued la i v') (delete fd M) (set_stack k l) -> Q (0, fd') (set_stack k l)) ->
  cwp (replace_tcp fd i : C K R (Z * Z)) Q l.
Proof.
  intros Hon Hl Hw Hseq HQ. unfold replace_tcp, tcp_repair_on. repeat step.
  eapply cwp_get; [eapply getsockname_law; [by eapply on_lookup|done]|]. repeat step.
  destruct (close_law k fd) as (k1 & Hk1 & Hv1); [eexists; by apply (on_lookup _ _ _ _ Hon0)|].
  apply cwp_sys_any. cbn [stack set_stack]. rewrite Hk1. intros rc k0 [= <- <-]. repeat step.
  unfold on in Hon0. cbn in Hon0. rewrite Hon0, delete_insert_eq in Hv1.
  apply socket_spec. intros fd' k2 v' _ Hn Hf Hon2. cbn in Hn, Hon2. rewrite Hv1 in Hn, Hon2. step.
  destruct Hf as (H1 & H2 & H3 & H4 & H5).
  eapply repair_tcp_spec; [exact Hon2|done..|]. intros k3 Hon3. step. by eapply (HQ fd' k3 v').
Qed.

(** *** What the leader describes *)

Definition described (la pa : addr) (type : Z) (v : tcp_view) : con_info_type :=
  mk_con_info (mk_con (sin_addr la) (sin_port la) 0 (sin_addr pa) (sin_port pa) 0)
    (v_send_seq v) (v_recv_seq v)
    (mk_options (c_bool (v_ts v)) (if v_ts v then v_clock v else 0) (v_mss v)
      (match v_wscale v with Some (s, _) => s | None => 0 end)
      (match v_wscale v with Some (_, r) => r | None => 0 end)
      (c_bool (bool_decide (is_Some (v_wscale v)))) type).

Lemma get_tcp_queue_seq_spec {R} noret fd q v M Q l :
  on fd v M l -> v_repair v = true -> q = TCP_RECV_QUEUE \/ q = TCP_SEND_QUEUE ->
  (forall k, on fd (set_queue q v) M (set_stack k l) ->
    Q (noret, if q =? TCP_RECV_QUEUE then v_recv_seq v else v_send_seq v) (set_stack k l)) ->
  cwp (get_tcp_queue_seq noret fd q : C K R (Z * Z)) Q l.
Proof.
  intros Hon Hr Hq HQ. unfold get_tcp_queue_seq. repeat step.
  eapply cwp_setsockopt; [done|by destruct Hq as [-> | ->]; simpl; rewrite Hr|]. intros k Hk. repeat step.
  eapply cwp_get; [eapply queue_seq_law; [by eapply on_lookup|done|done]|]. cbn. repeat step.
  by apply HQ.
Qed.

Lemma describe_spec noret fd type la pa v M Q l :
  on fd v M l -> v_state v = Established -> v_local v = Some la -> v_peer v = Some pa -> 0 <= noret ->
  (forall k, on fd (set_repair false (set_queue TCP_RECV_QUEUE v)) M (set_stack k l) ->
    Q (described la pa type v) (set_stack k l)) ->
  cwp (describe noret fd type) Q l.
Proof.
  intros Hon Hs Hl Hp Hn HQ. destruct v; simpl in Hs, Hl, Hp; subst. unfold describe, tcp_repair_on, tcp_repair_off.
  repeat step. eapply get_tcp_queue_seq_spec; [eassumption|done|by right|]. intros k1 Hon1. cbn in Hon1. repeat step.
  rewrite (proj2 (Z.ltb_ge noret 0)) by done. repeat step.
  eapply get_tcp_queue_seq_spec; [eassumption|done|by left|]. intros k2 Hon2. cbn in Hon2. repeat step.
  rewrite (proj2 (Z.ltb_ge noret 0)) by done. repeat step.
  destruct (info_law k2 fd _ (on_lookup _ _ _ _ Hon2) eq_refl) as (tcpi & Hi & Hts & Hws). cbn in Hts, Hws.
  eapply cwp_get; [exact Hi|]. repeat step. rewrite Hts.
  apply cwp_mono with (Q := fun a l' => a = (0, if v_ts0 then v_clock0 else 0) /\ l' = set_stack k2 l).
  { destruct v_ts0; [|by step]. eapply cwp_get; [eapply timestamp_law; by eapply on_lookup|done]. }
  intros a l' [-> ->]. repeat step.
  eapply cwp_get; [eapply maxseg_law; [by eapply on_lookup|done]|]. repeat step.
  unfold get_tcp_con_id. repeat step.
  eapply cwp_get; [eapply getpeername_law; [by eapply on_lookup|done]|]. repeat step.
  eapply cwp_get; [eapply getsockname_law; [by eapply on_lookup|done]|]. repeat step.
  unfold described in HQ. cbn in HQ.
  destruct v_wscale0 as [[sw rw]|]; [destruct Hws as (-> & -> & ->)|rewrite Hws]; by apply HQ.
Qed.
End Continue.

(** ** With the manager *)

Section Manager.
Context {K : Type} {T : TcpStack K} {W : RepairLaws K}.
Context (deserialize : list Z -> con_info_type) (serialize : con_info_type -> list Z).
Context (mem : Z -> bool) (junk : list Z) (junk_len noret : Z).
Hypothesis Hmem : forall n, 0 < n -> mem n = true.
Hypothesis Hjunk : zlen junk = 4.

(** The manager accepts connections. *)
Definition manager_listens : Prop := forall k fd v,
  view k !! fd = Some v -> v_state v = Closed ->
  exists k', sys_connect fd (mk_addr CON_MGR_IP (ntohs CON_MGR_PORT)) k = (0, k') /\
    view k' = <[fd := set_peer (mk_addr CON_MGR_IP (ntohs CON_MGR_PORT)) v]> (view k).
Hypothesis Hmgr : manager_listens.

Lemma send_mgr_spec {R} buf k answers (Q : Z -> lib K -> Prop) l :
  mgr_sends l = k :: answers -> zlen (message buf) <= k -> Q 0 (mgr_gets (message buf) answers l) ->
  cwp (send_mgr buf : C K R Z) Q l.
Proof. intros Hs Hk HQ. unfold cwp, send_mgr. by rewrite Hs, send_bytes_whole. Qed.

Lemma recv_mgr_bytes_spec {R} r s (Q : received -> lib K -> Prop) l :
  guest_recv_bytes mem junk junk_len (mgr_rx l) = Ok (r, s) -> Q r (set_mgr_rx s l) ->
  cwp (recv_mgr_bytes mem junk junk_len : C K R received) Q l.
Proof. intros Hr HQ. unfold cwp, recv_mgr_bytes. by rewrite Hr. Qed.

Lemma recv_mgr_byte_spec {R} x b rest (Q : Z -> lib K -> Prop) l :
  arrives (b :: rest) (mgr_rx l) -> (forall s, arrives rest s -> Q b (set_mgr_rx s l)) ->
  cwp (recv_mgr_byte x : C K R Z) Q l.
Proof.
  intros Ha HQ. unfold cwp, recv_mgr_byte.
  destruct (recv_some 1 (b :: rest) (mgr_rx l)) as (n & s & -> & Hn & _ & Hs); [lia|done|done|].
  replace n with 1 in * by lia. by apply HQ.
Qed.

Lemma cwp_recv_one {R} x b rx (Q : Z -> lib K -> Prop) l :
  recv 1 (mgr_rx l) = Ok (1, [b], rx) -> Q b (set_mgr_rx rx l) -> cwp (recv_mgr_byte x : C K R Z) Q l.
Proof. intros Hrx HQ. unfold cwp, recv_mgr_byte. by rewrite Hrx. Qed.

Lemma recv_con_bytes_spec {R} m rest (Q : received -> lib K -> Prop) l :
  0 < zlen m < 2 ^ 31 -> arrives (message m ++ rest) (con_rx l) -> length_in_one (con_rx l) ->
  (forall s, arrives rest s -> Q (mk_received (zlen m) m (zlen m)) (set_con_rx s l)) ->
  cwp (recv_con_bytes mem junk junk_len : C K R received) Q l.
Proof using Hmem Hjunk.
  intros Hm Ha H1 HQ. unfold cwp, recv_con_bytes.
  destruct (guest_recv_bytes_message mem m rest (con_rx l) Hm) with (junk := junk) (len := junk_len)
    as (s & -> & Hs); [apply Hmem; lia|done..|]. by apply HQ.
Qed.

(** The manager answers [b]; [fd] is the connection to it. *)
Lemma ask_manager_spec b s k answers (Q : Z * Z -> lib K -> Prop) l :
  mgr_sends l = k :: answers -> 5 <= k ->
  guest_recv_bytes mem junk junk_len (mgr_rx l) = Ok (mk_received 1 [b] 1, s) ->
  (forall fd v k', view (stack l) !! fd = None -> view k' = <[fd := v]> (view (stack l)) ->
     Q (fd, b) (mk_lib k' s answers (mgr_out l ++ message [0]) (con_rx l))) ->
  cwp (ask_manager mem junk junk_len) Q l.
Proof using Hmgr.
  intros Hsend Hk Ha HQ. unfold ask_manager. repeat step. apply socket_spec.
  intros fd k1 v Hfd Hn Hf Hon. rewrite (proj2 (Z.ltb_ge fd 0)) by done. repeat step.
  eapply cwp_sys; [exact Hon|eapply Hmgr; [by eapply on_lookup|apply Hf]|]. intros k2 Hon2.
  repeat step. eapply send_mgr_spec; [exact Hsend|exact Hk|]. repeat step.
  eapply recv_mgr_bytes_spec; [exact Ha|]. repeat step.
  unfold buffer_of. cbn. repeat step. by eapply HQ.
Qed.

Lemma manager_says b rest l :
  arrives (message [b] ++ rest) (mgr_rx l) -> length_in_one (mgr_rx l) ->
  exists s, guest_recv_bytes mem junk junk_len (mgr_rx (K := K) l) = Ok (mk_received 1 [b] 1, s) /\ arrives rest s.
Proof using Hmem Hjunk.
  intros Ha H1. by apply (guest_recv_bytes_message mem [b] rest (mgr_rx l)); [|apply Hmem|..].
Qed.

(** *** Accepting *)

(** [v'] continues the connection [v] from the address [la], with [r] as the
    next sequence number of the peer. *)
Record continues (v : tcp_view) (la : addr) (r : Z) (v' : tcp_view) : Prop := {
  con_state : v_state v' = Established /\ v_repair v' = false;
  con_local : v_local v' = Some la;
  con_peer : v_peer v' = v_peer v;
  con_send_seq : v_send_seq v' = v_send_seq v;
  con_recv_seq : v_recv_seq v' = r;
  con_ts : v_ts v' = v_ts v /\ (v_ts v = true -> v_clock v' = v_clock v);
  con_mss : v_mss v' = v_mss v;
  con_wscale : v_wscale v' = v_wscale v
}.

(** A connection with values that TCP allows. *)
Record good_connection (v : tcp_view) (la pa : addr) : Prop := {
  gc_state : v_state v = Established;
  gc_local : v_local v = Some la;
  gc_peer : v_peer v = Some pa;
  gc_send_seq : 0 <= v_send_seq v < 2 ^ 32;
  gc_wscale : forall s r, v_wscale v = Some (s, r) -> 0 <= s <= 14 /\ 0 <= r <= 14
}.

(** What the host does to a description: [handle_consensused_con]. *)
Definition with_recv_seq (r : Z) (i : con_info_type) : con_info_type :=
  mk_con_info (ci_con_id i) (ci_send_seq i) r (ci_options i).

Lemma described_scales la pa type v : good_connection v la pa -> scales_ok (ci_options (described la pa type v)).
Proof.
  intros [_ _ _ _ Hw]. unfold scales_ok, described. cbn. destruct (v_wscale v) as [[s r]|]; [|done].
  intros _. by apply Hw.
Qed.

Lemma continued_continues la' la pa type r v v' :
  good_connection v la pa -> v_ts v' = false -> v_wscale v' = None ->
  continues v la' r (continued la' (with_recv_seq r (described la pa type v)) v').
Proof.
  intros [] Hts Hw. split; cbn; try done.
  - rewrite gc_peer0. by destruct pa.
  - rewrite Hts. by destruct (v_ts v).
  - rewrite Hw. by destruct (v_wscale v) as [[]|].
Qed.

(** The leader sends the description to its manager. *)
Lemma leader_accepts sk v la pa k1 k2 answers x rest l :
  view (stack l) !! sk = Some v -> good_connection v la pa -> 0 <= noret ->
  mgr_sends l = k1 :: k2 :: answers -> 5 <= k1 ->
  zlen (message (serialize (described la pa ACCEPT_CON v))) <= k2 ->
  arrives (message [1] ++ x :: rest) (mgr_rx l) -> length_in_one (mgr_rx l) ->
  exists l', handle_accepted_sk deserialize serialize mem junk junk_len noret sk l = Ok (inr sk, l') /\
    mgr_out l' = mgr_out l ++ message [0] ++ message (serialize (described la pa ACCEPT_CON v)).
Proof using Hmem Hjunk Hmgr W.
  intros Hv Hgood Hn Hsend Hk1 Hk2 Ha H1. destruct (manager_says _ _ _ Ha H1) as (s & Hsay & Hs).
  assert (cwp (handle_accepted_sk deserialize serialize mem junk junk_len noret sk)
    (fun a l' => a = sk /\
      mgr_out l' = mgr_out l ++ message [0] ++ message (serialize (described la pa ACCEPT_CON v))) l) as H.
  { unfold handle_accepted_sk. step. eapply ask_manager_spec; [exact Hsend|done|exact Hsay|].
    intros fd vm k' Hfd Hview. repeat step. cbn match. rewrite Z.eqb_refl. repeat step.
    assert (on sk v (view k') (mk_lib k' s (k2 :: answers) (mgr_out l ++ message [0]) (con_rx l))) as Hon.
    { unfold on. cbn. rewrite insert_id; [done|]. rewrite Hview, lookup_insert_ne by congruence. done. }
    eapply describe_spec; [exact Hon|apply Hgood..|done|]. intros k3 Hon3. repeat step.
    unfold ask_for_consensus. repeat step. eapply send_mgr_spec; [done|exact Hk2|]. repeat step.
    eapply recv_mgr_byte_spec; [exact Hs|]. intros s' Hs'. repeat step. apply cwp_sys_any. intros rc k4 _.
    repeat step. split; [done|]. cbn. by rewrite <- app_assoc. }
  unfold cwp in H. destruct (handle_accepted_sk _ _ _ _ _ _ _ _) as [[[]]| |]; try done.
  destruct H as [-> H]. eauto.
Qed.

(** The backup makes a socket from the description that arrives. *)
Lemma backup_accepts sk v2 la2 i k answers rest rest' l :
  view (stack l) !! sk = Some v2 -> v_local v2 = Some la2 ->
  scales_ok (ci_options i) -> 0 <= ci_send_seq i < 2 ^ 32 ->
  mgr_sends l = k :: answers -> 5 <= k ->
  arrives (message [0] ++ rest) (mgr_rx l) -> length_in_one (mgr_rx l) ->
  deserialize (serialize i) = i -> 0 < zlen (serialize i) < 2 ^ 31 ->
  arrives (message (serialize i) ++ rest') (con_rx l) -> length_in_one (con_rx l) ->
  exists fd l' v', handle_accepted_sk deserialize serialize mem junk junk_len noret sk l = Ok (inr fd, l') /\
    fresh_socket v' /\ view (stack l') !! fd = Some (continued la2 i v').
Proof using Hmem Hjunk Hmgr W.
  intros Hv Hl Hw Hseq Hsend Hk Ha H1 Hser Hlen Hc H2. destruct (manager_says _ _ _ Ha H1) as (s & Hsay & Hs).
  assert (cwp (handle_accepted_sk deserialize serialize mem junk junk_len noret sk)
    (fun fd l' => exists v', fresh_socket v' /\ view (stack l') !! fd = Some (continued la2 i v')) l) as H.
  { unfold handle_accepted_sk. step. eapply ask_manager_spec; [exact Hsend|done|exact Hsay|].
    intros fd vm k' Hfd Hview. repeat step. cbn match. change (0 =? 1) with false. cbn match. repeat step.
    eapply recv_con_bytes_spec; [exact Hlen|exact Hc|done|]. intros s' Hs'. repeat step.
    unfold buffer_of. cbn [rx_ret rx_buf]. rewrite (proj2 (Z.leb_gt _ _)) by lia. repeat step. rewrite Hser.
    assert (sk <> fd) as Hne by congruence.
    eapply (replace_tcp_spec sk la2 i v2 (view k')); [|done..|].
    { unfold on. cbn. rewrite insert_id; [done|]. by rewrite Hview, lookup_insert_ne. }
    intros fd' k3 v' Hf Hn Hon. repeat step.
    assert (fd' <> fd) as Hne'.
    { intros ->. by rewrite Hview, lookup_delete_ne, lookup_insert_eq in Hn. }
    destruct (close_law k3 fd) as (k4 & Hk4 & Hv4).
    { unfold on in Hon. cbn in Hon. rewrite Hon, lookup_insert_ne, lookup_delete_ne, Hview, lookup_insert_eq by done. eauto. }
    apply cwp_sys_any. cbn [stack set_con_rx set_stack]. rewrite Hk4. intros rc k5 [= <- <-]. repeat step. exists v'. split; [done|].
    cbn. rewrite Hv4, lookup_delete_ne by done. by apply (on_lookup _ _ _ _ Hon). }
  unfold cwp in H. destruct (handle_accepted_sk _ _ _ _ _ _ _ _) as [[[|fd] l']| |]; try done.
  destruct H as (v' & H). exists fd, l', v'. tauto.
Qed.

(** *** Connecting *)

(** The leader's server connects to [a], which accepts. *)
Lemma leader_connects fuel sk a v la k1 k2 answers x rest l :
  local_pair a = false ->
  (forall k, view k !! sk = view (stack l) !! sk ->
     exists k', sys_connect sk a k = (0, k') /\ view k' = <[sk := v]> (view k)) ->
  is_Some (view (stack l) !! sk) -> good_connection v la a -> 0 <= noret ->
  mgr_sends l = k1 :: k2 :: answers -> 5 <= k1 ->
  zlen (message (serialize (described la a CONNECT_CON v))) <= k2 ->
  arrives (message [1] ++ x :: rest) (mgr_rx l) -> length_in_one (mgr_rx l) ->
  exists l', connect deserialize serialize mem junk junk_len noret fuel sk a l = Ok (inr noret : Z + Z, l') /\
    mgr_out l' = mgr_out l ++ message [0] ++ message (serialize (described la a CONNECT_CON v)).
Proof using Hmem Hjunk Hmgr W.
  intros Hpair Hcon [v0 Hv0] Hgood Hn Hsend Hk1 Hk2 Ha H1. destruct (manager_says _ _ _ Ha H1) as (s & Hsay & Hs).
  assert (cwp (connect deserialize serialize mem junk junk_len noret fuel sk a : C K Z Z)
    (fun r l' => r = noret /\
      mgr_out l' = mgr_out l ++ message [0] ++ message (serialize (described la a CONNECT_CON v))) l) as H.
  { unfold connect. step. rewrite Hpair. step. eapply ask_manager_spec; [exact Hsend|done|exact Hsay|].
    intros fd vm k' Hfd Hview. repeat step. cbn match. rewrite Z.eqb_refl. repeat step.
    destruct (Hcon k') as (k3 & Hk3 & Hv3); [rewrite Hview, lookup_insert_ne by congruence; done|].
    apply cwp_sys_any. cbn [stack]. rewrite Hk3. intros rc k4 [= <- <-]. repeat step.
    eapply cwp_get; [done|]. repeat step.
    eapply describe_spec; [exact Hv3|apply Hgood..|done|]. intros k5 Hon5. repeat step.
    unfold ask_for_consensus. repeat step. eapply send_mgr_spec; [done|exact Hk2|]. repeat step.
    eapply recv_mgr_byte_spec; [exact Hs|]. intros s' Hs'. repeat step. apply cwp_sys_any. intros rc k6 _.
    repeat step. split; [done|]. cbn. by rewrite <- app_assoc. }
  unfold cwp in H. destruct (connect _ _ _ _ _ _ _ _ _ _) as [[[|r] l']| |]; try done.
  destruct H as [-> H]. eauto.
Qed.

(** [n] answers that there is nothing yet, one that there is, then [rest]. *)
Fixpoint polls (n : nat) (s rest : list rx_event) : Prop :=
  match n with
  | O => recv 1 s = Ok (1, [1], rest)
  | S n' => exists s', recv 1 s = Ok (1, [0], s') /\ polls n' s' rest
  end.

Lemma query_loop_spec buf rest n : forall fuel (Q : unit -> lib K -> Prop) l,
  (n < fuel)%nat -> (n < length (mgr_sends l))%nat -> Forall (fun k => zlen (message buf) <= k) (mgr_sends l) ->
  polls n (mgr_rx l) rest ->
  (forall answers out, Q tt (mk_lib (stack l) rest answers out (con_rx l))) ->
  cwp (query_loop fuel buf) Q l.
Proof.
  induction n as [|n IH]; intros fuel Q l Hf Hlen Hall Hrx HQ; (destruct fuel as [|fuel]; [lia|]);
    cbn [query_loop]; (destruct (mgr_sends l) as [|k answers] eqn:Hs; [simpl in Hlen; lia|]);
    apply Forall_cons in Hall as [Hk Hall]; repeat step; (eapply send_mgr_spec; [exact Hs|exact Hk|]);
    repeat step.
  - eapply cwp_recv_one; [exact Hrx|]. repeat step. apply HQ.
  - destruct Hrx as (s' & Hr & Hrx). eapply cwp_recv_one; [exact Hr|].
    apply IH; [lia|simpl in *; lia|done|done|]. intros answers' out. apply HQ.
Qed.

Lemma backup_connects fuel sk a i v n s l :
  view (stack l) !! sk = Some v -> v_state v = Closed -> v_local v = None ->
  local_pair a = false -> scales_ok (ci_options i) -> 0 <= ci_send_seq i < 2 ^ 32 ->
  deserialize (serialize i) = i -> 0 < zlen (serialize i) < 2 ^ 31 ->
  5 <= zlen (message (serialize (query_info a))) ->
  (n < fuel)%nat -> (S n < length (mgr_sends l))%nat ->
  Forall (fun k => zlen (message (serialize (query_info a))) <= k) (mgr_sends l) ->
  mgr_rx l = RxData (message [0]) :: s -> polls n s [RxData (message (serialize i))] ->
  exists l', connect deserialize serialize mem junk junk_len noret fuel sk a l = Ok (inr noret : Z + Z, l') /\
    view (stack l') !! sk =
      Some (continued (mk_addr (src_ip (ci_con_id i)) (src_port (ci_con_id i))) i v).
Proof using Hmem Hjunk Hmgr W.
  intros Hv Hst Hloc Hpair Hw Hseq Hser Hlen Hq Hfuel Hsends Hall Hrx Hpolls.
  assert (cwp (connect deserialize serialize mem junk junk_len noret fuel sk a : C K Z Z)
    (fun r l' => r = noret /\ view (stack l') !! sk =
      Some (continued (mk_addr (src_ip (ci_con_id i)) (src_port (ci_con_id i))) i v)) l) as H.
  { unfold connect. step. rewrite Hpair. step.
    destruct (mgr_sends l) as [|k answers] eqn:Hs; [simpl in Hsends; lia|]. apply Forall_cons in Hall as [Hk Hall].
    eapply ask_manager_spec; [exact Hs|lia|rewrite Hrx; apply (guest_recv_bytes_piece mem junk junk_len [0]); [done|by apply Hmem|done]|].
    intros fd vm k' Hfd Hview. repeat step. change (0 =? 1) with false. cbn match. repeat step.
    eapply query_loop_spec; [exact Hfuel|simpl in *; lia|done|exact Hpolls|]. intros answers' out. repeat step.
    eapply recv_mgr_bytes_spec; [apply guest_recv_bytes_piece; [done|apply Hmem; lia|done]|]. repeat step.
    unfold buffer_of. cbn [rx_ret rx_buf]. rewrite (proj2 (Z.leb_gt _ _)) by lia. repeat step. rewrite Hser.
    assert (sk <> fd) as Hne by congruence.
    eapply (repair_tcp_spec sk _ i v (view k')); [|done..|].
    { unfold on. cbn. rewrite insert_id; [done|]. by rewrite Hview, lookup_insert_ne. }
    intros k3 Hon. repeat step. apply cwp_sys_any. intros rc k4 Hk4. repeat step. split; [done|].
    cbn [stack set_stack set_mgr_rx] in *. destruct (close_law k3 fd) as (k5 & Hk5 & Hv5).
    { unfold on in Hon. cbn in Hon. rewrite Hon, lookup_insert_ne, Hview, lookup_insert_eq by done. eauto. }
    rewrite Hk4 in Hk5. injection Hk5 as -> ->. rewrite Hv5, lookup_delete_ne by done.
    by apply (on_lookup _ _ _ _ Hon). }
  unfold cwp in H. destruct (connect _ _ _ _ _ _ _ _ _ _) as [[[|r] l']| |]; try done.
  destruct H as [-> H]. eauto.
Qed.
End Manager.

(** ** A TCP stack that obeys the laws

    A concrete [TcpStack], a table of sockets, that satisfies the laws: they can
    be met, and the library can be run on it. *)


Abbreviation sockets := (gmap Z tcp_view).

(** The next free descriptor. *)
Definition next_fd (m : sockets) : Z := map_fold (fun fd _ r => Z.max (fd + 1) r) 3 m.

Lemma next_fd_spec (m : sockets) : 3 <= next_fd m /\ forall fd, is_Some (m !! fd) -> fd < next_fd m.
Proof.
  unfold next_fd. apply (map_fold_weak_ind (fun r m => 3 <= r /\ forall fd, is_Some (m !! fd) -> fd < r)).
  - split; [lia|]. intros fd. rewrite lookup_empty. intros [? [=]].
  - intros fd v m' r Hn [H3 Hr]. split; [lia|]. intros fd' Hs. destruct (decide (fd' = fd)) as [->|Hne]; [lia|].
    rewrite lookup_insert_ne in Hs by done. specialize (Hr _ Hs). lia.
Qed.

Definition new_socket : tcp_view :=
  mk_view Closed false 0 (false, false) None None 0 0 false 0 536 None.

Definition demo_info_of (v : tcp_view) : tcp_info :=
  mk_tcp_info (c_bool (v_ts v) + match v_wscale v with Some _ => 4 | None => 0 end)
    (match v_wscale v with Some (s, _) => s | None => 0 end)
    (match v_wscale v with Some (_, r) => r | None => 0 end).

(** An operation on the socket [fd]. *)
Definition on_socket (fd : Z) (m : sockets) (f : tcp_view -> option tcp_view) : Z * sockets :=
  match m !! fd with
  | Some v => match f v with Some v' => (0, <[fd := v']> m) | None => (-1, m) end
  | None => (-1, m)
  end.
Definition of_socket {A} (fd : Z) (m : sockets) (d : A) (f : tcp_view -> option A) : Z * A :=
  match m !! fd with
  | Some v => match f v with Some a => (0, a) | None => (-1, d) end
  | None => (-1, d)
  end.

#[export] Instance linux_stack : TcpStack sockets := {
  sys_socket m := (next_fd m, <[next_fd m := new_socket]> m);
  sys_close fd m := (0, delete fd m);
  sys_accept _ m := (-1, m);
  sys_bind fd a m := on_socket fd m (fun v => if closed v then Some (set_local a v) else None);
  sys_connect fd a m := on_socket fd m (fun v => if closed v then Some (set_peer a v) else None);
  sys_errno _ := 0;
  sys_send fd bs m :=
    match m !! fd with
    | Some v => (zlen bs, <[fd := set_seqs (u32 (v_send_seq v + zlen bs)) (v_recv_seq v) v]> m)
    | None => (-1, m)
    end;
  sys_setsockopt fd o m := on_socket fd m (fun v => if setopt_ok o v then Some (setopt_view o v) else None);
  sys_get_queue_seq fd m := of_socket fd m 0 (fun v =>
    Some (if v_queue v =? TCP_RECV_QUEUE then v_recv_seq v else v_send_seq v));
  sys_get_timestamp fd m := of_socket fd m 0 (fun v => Some (v_clock v));
  sys_get_maxseg fd m := of_socket fd m 0 (fun v => Some (v_mss v));
  sys_get_info fd m := of_socket fd m (mk_tcp_info 0 0 0) (fun v => Some (demo_info_of v));
  sys_getsockname fd m := of_socket fd m (mk_addr 0 0) v_local;
  sys_getpeername fd m := of_socket fd m (mk_addr 0 0) v_peer
}.

(** Look the socket up. *)
Ltac call_socket Hv :=
  cbv beta in Hv;
  cbn [sys_bind sys_connect sys_send sys_setsockopt sys_getsockname sys_getpeername sys_get_queue_seq
    sys_get_timestamp sys_get_maxseg sys_get_info linux_stack]; unfold on_socket, of_socket, closed; rewrite Hv.

#[export] Program Instance linux_laws : RepairLaws sockets := {
  view m := m
}.
Next Obligation.
  intros m. destruct (next_fd_spec m) as [H3 Hm]. exists (next_fd m), (<[next_fd m := new_socket]> m), new_socket.
  split_and!; [done|lia| |by repeat split|done].
  destruct (m !! next_fd m) eqn:E; [|done]. specialize (Hm (next_fd m) ltac:(eauto)). lia.
Qed.
Next Obligation. intros m fd _. by eexists. Qed.
Next Obligation. intros m fd v o Hv Hok. call_socket Hv. rewrite Hok. by eexists. Qed.
Next Obligation. intros m fd v a Hv Ha. call_socket Hv. by rewrite Ha. Qed.
Next Obligation. intros m fd v a Hv Ha. call_socket Hv. by rewrite Ha. Qed.
Next Obligation. intros m fd v Hv _ _. call_socket Hv. done. Qed.
Next Obligation. intros m fd v Hv. call_socket Hv. done. Qed.
Next Obligation. intros m fd v Hv _. call_socket Hv. done. Qed.
Next Obligation.
  intros m fd v Hv _. call_socket Hv. eexists. split; [done|].
  unfold demo_info_of. cbn. destruct (v_ts v), (v_wscale v) as [[]|]; done.
Qed.
Next Obligation.
  intros m fd v a Hv Hs _ _. call_socket Hv. rewrite Hs. by eexists.
Qed.
Next Obligation. intros m fd v a Hv Hs _. call_socket Hv. rewrite Hs. by eexists. Qed.
Next Obligation. intros m fd v bs Hv _ _ _. call_socket Hv. by eexists. Qed.

Lemma linux_manager_listens : manager_listens (K := sockets).
Proof. intros m fd v Hv Hs. change (m !! fd = Some v) in Hv. call_socket Hv. rewrite Hs. by eexists. Qed.
