(* ===== verification/GuestSpec.v ===== *)
(** * What the manager of the guest knows

    The table of a backup has, for every destination, the connection that was
    reported last; a query is answered with it.  Heartbeats of the own host
    make a guest the leader. *)

From S2P Require Import Prelude Bytes Ringbuf RingbufSpec ConManager Segment PacketSpec Framing FramingSpec Serve Guest.

Open Scope Z_scope.

(** ** Heartbeats *)

Lemma take_heartbeat (d buf : list Z) : zlen d = 8 -> ztake 8 (ztake 32 d ++ zdrop (zlen (ztake 32 d)) buf) = d.
Proof. intros Hd. rewrite (ztake_ge 32) by lia. by apply ztake_exact. Qed.

(** What the host of the leader sends makes its guest the leader; any other
    datagram of eight bytes makes it a backup. *)
Theorem heartbeat_makes_leader g d :
  hb_to_guest true = Some d -> iamleader (recv_hb (Some d) g) = true /\
  forall d', zlen d' = 8 -> le_combine d' <> MY_HOST_IP -> iamleader (recv_hb (Some d') g) = false.
Proof.
  intros [= <-]. split.
  - unfold recv_hb. cbn [hb_buf set_hb_buf iamleader set_iamleader]. by rewrite take_heartbeat.
  - intros d' Hd Hne. unfold recv_hb. cbn [hb_buf set_hb_buf iamleader set_iamleader].
    rewrite take_heartbeat by done. by apply Z.eqb_neq.
Qed.

(** ** Reports *)

Section Reports.
Context (deserialize : list Z -> con_info_type) (serialize : con_info_type -> list Z).

(** The datagrams that arrive, each with its sender and the socket that
    [create_connection] would get. *)
Fixpoint serve_reports (l : list (Z * Z * list Z)) (g : guest) (o : guest_os) : outcome (guest * guest_os) :=
  match l with
  | [] => Ok (g, o)
  | (sk, from, buf) :: l' =>
      let! (g, o) := serve_report deserialize serialize sk from buf g o in
      serve_reports l' g o
  end.

Definition dst_of (i : con_info_type) : Z * Z := (dst_ip (ci_con_id i), dst_port (ci_con_id i)).

(** The last of the reported connections to [d] that were made by
    [connect]. *)
Fixpoint latest (d : Z * Z) (l : list (Z * Z * list Z)) : option con_info_type :=
  match l with
  | [] => None
  | (_, from, buf) :: l' =>
      match latest d l' with
      | Some i => Some i
      | None =>
          let i := deserialize buf in
          if (from =? MY_HOST_IP) && (con_type (ci_options i) =? CONNECT_CON) && bool_decide (dst_of i = d)
          then Some i else None
      end
  end.

Definition entry_of (i : con_info_type) : con_list_entry :=
  let o := ci_options i in
  mk_entry (src_ip (ci_con_id i)) (src_port (ci_con_id i)) (ci_send_seq i) (ci_recv_seq i)
    (has_timestamp o) (timestamp o) (mss_clamp o) (snd_wscale o) (rcv_wscale o) (has_rcv_wscale o).

Lemma serve_reports_dead l g o : report_thread g = false -> serve_reports l g o = Ok (g, o).
Proof.
  intros Hg. induction l as [|[[sk from] buf] l IH]; [done|]. cbn [serve_reports]. unfold serve_report.
  by rewrite Hg.
Qed.

(** Once a connection to the local server cannot be made, the thread that
    reads the reports has ended and nothing that is reported is noticed any
    more. *)
Theorem failed_connection_ends_reports l sk buf g o :
  report_thread g = true -> iamleader g = false -> 0 <= sk ->
  con_type (ci_options (deserialize buf)) = ACCEPT_CON ->
  (exists answers rest, connects o = answers ++ rest /\ length answers = 10%nat /\ Forall (fun r => r < 0) answers) ->
  exists g' o', serve_reports ((sk, MY_HOST_IP, buf) :: l) g o = Ok (g', o') /\
    connect_con_list g' = connect_con_list g /\ created o' = created o.
Proof.
  intros Hg Hl Hsk Ht (answers & rest & Hc & Hlen & Hneg). cbn [serve_reports]. unfold serve_report.
  rewrite Hg, Hl, Ht, Z.eqb_refl. cbn [negb]. rewrite Z.eqb_refl. unfold create_connection.
  rewrite (proj2 (Z.ltb_ge sk 0)) by done.
  assert (forall n ret, length answers = n -> ret < 0 -> exists ret',
    connect_loop n ret (answers ++ rest) = Ok (ret', rest) /\ ret' < 0) as Hloop.
  { clear Hc Hlen. induction answers as [|a answers IH]; intros n ret <- Hret; cbn; [eauto|].
    apply Forall_cons in Hneg as [Ha Hneg]. rewrite (proj2 (Z.ltb_lt a 0)) by done. by apply IH. }
  destruct (Hloop 10%nat (-1)) as (ret' & Hr & Hr'); [done|lia|]. rewrite Hc, Hr. cbn [obind].
  rewrite (proj2 (Z.ltb_lt ret' 0)) by done. cbn [obind]. rewrite serve_reports_dead by done. by eexists _, _.
Qed.

(** One report does to the table what it means to. *)
Lemma serve_report_table sk from buf g o g' o' :
  serve_report deserialize serialize sk from buf g o = Ok (g', o') ->
  iamleader g = false -> report_thread g' = true ->
  iamleader g' = false /\
  forall d, connect_con_list g' !! d =
    match latest d [(sk, from, buf)] with
    | Some i => Some (entry_of i)
    | None => connect_con_list g !! d
    end.
Proof.
  unfold serve_report. cbn [latest]. destruct (report_thread g) eqn:Hg; cbn [negb].
  2: { intros [= <- <-]. by rewrite Hg. }
  destruct (from =? MY_HOST_IP); cbn [negb andb]; [|by intros [= <- <-]].
  intros H Hl Hg'. rewrite Hl in H. cbn [negb] in H. set (i := deserialize buf) in *.
  destruct (Z.eqb_spec (con_type (ci_options i)) ACCEPT_CON) as [Ha|Ha].
  - rewrite Ha. destruct (create_connection _ _ _ _) as [[goes_on o1]| |]; try done. injection H as <- <-.
    by destruct goes_on.
  - destruct (con_type (ci_options i) =? CONNECT_CON); [|by injection H as <- <-]. injection H as <- <-.
    split; [done|]. intros d. cbn [connect_con_list hash_insert set_con_list]. case_bool_decide as Hd.
    + rewrite <- Hd. by rewrite lookup_insert_eq.
    + by rewrite lookup_insert_ne.
Qed.

Lemma serve_reports_table l : forall g o g' o',
  serve_reports l g o = Ok (g', o') -> iamleader g = false -> report_thread g' = true ->
  iamleader g' = false /\
  forall d, connect_con_list g' !! d =
    match latest d l with Some i => Some (entry_of i) | None => connect_con_list g !! d end.
Proof.
  induction l as [|[[sk from] buf] l IH]; intros g o g' o'; [by intros [= <- <-]|]. cbn [serve_reports].
  destruct (serve_report deserialize serialize sk from buf g o) as [[g1 o1]| |] eqn:H1; try done. cbn [obind].
  intros H2 Hl Hg'. assert (report_thread g1 = true) as Hg1.
  { destruct (report_thread g1) eqn:E; [done|]. rewrite serve_reports_dead in H2 by done.
    injection H2 as <- <-. congruence. }
  destruct (serve_report_table _ _ _ _ _ _ _ H1 Hl Hg1) as [Hl1 Ht1].
  destruct (IH _ _ _ _ H2 Hl1 Hg') as [Hl2 Ht2]. split; [done|]. intros d. rewrite Ht2, Ht1. cbn [latest].
  by destruct (latest d l).
Qed.

(** What [hash_find] makes of a query [q] and the entry of [i]. *)
Definition found (i q : con_info_type) : con_info_type :=
  let c := ci_con_id q in let o := ci_options i in
  mk_con_info (mk_con (src_ip (ci_con_id i)) (src_port (ci_con_id i)) (hole1 c) (dst_ip c) (dst_port c) (hole2 c))
    (ci_send_seq i) (ci_recv_seq i)
    (mk_options (has_timestamp o) (timestamp o) (mss_clamp o) (snd_wscale o) (rcv_wscale o) (has_rcv_wscale o)
      (con_type (ci_options q))).

Lemma hash_find_latest l g o g' o' q :
  serve_reports l g o = Ok (g', o') -> iamleader g = false -> report_thread g' = true ->
  connect_con_list g = ∅ -> hash_find q g' = (fun i => found i q) <$> latest (dst_of q) l.
Proof.
  intros Hr Hl Ht He. destruct (serve_reports_table _ _ _ _ _ Hr Hl Ht) as [_ Htab].
  unfold hash_find. change (dst_ip (ci_con_id q), dst_port (ci_con_id q)) with (dst_of q).
  rewrite Htab, He, lookup_empty. by destruct (latest (dst_of q) l).
Qed.

(** ** Queries *)

(** The answers of [send] are large enough for a message of [n] bytes each. *)
Definition roomy (n : Z) (answers : list Z) : Prop :=
  exists a b rest, answers = a :: b :: rest /\ n <= a /\ n <= b.

Definition reply_to (q : con_info_type) (i : option con_info_type) : list Z :=
  match i with
  | None => [0]
  | Some i => [1] ++ message (serialize (found i q))
  end.

Lemma answer_query_bytes q g o i :
  hash_find q g = (fun i => found i q) <$> i ->
  roomy (zlen (message (serialize (default q (hash_find q g))))) (sends o) ->
  exists o', answer_query serialize q g o = Ok o' /\ to_client o' = to_client o ++ reply_to q i /\
    to_host o' = to_host o.
Proof.
  intros Hf (a & b & rest & Hs & Ha & Hb). unfold answer_query. rewrite Hf in *.
  assert (forall m, 4 <= zlen (message m)) as Hm.
  { intros m. pose proof (zlen_nonneg m). rewrite message_be, zlen_app, zlen_be. lia. }
  destruct i as [i|]; cbn [fmap option_fmap option_map default] in *; unfold send_client.
  - rewrite Hs, send_whole by (etrans; [|exact Ha]; etrans; [|apply Hm]; done). cbn [obind].
    unfold send_bytes_client. cbn [sends set_sends client_gets]. rewrite send_bytes_whole by done. cbn [obind].
    eexists. split; [done|]. cbn. by rewrite <- app_assoc.
  - rewrite Hs, send_whole by (etrans; [|exact Ha]; etrans; [|apply Hm]; done). cbn [obind]. by eexists.
Qed.
End Reports.
