(* ===== verification/Takeover.v ===== *)
(** * A connection on its way to a backup

    What the leader's library finds out about a connection reaches the library
    of a backup through six programs: library, manager and host on the leader,
    host, manager and library on the backup.  Each step below is the code of
    one of them, run on the bytes the one before has sent; the socket the
    backup gets in the end continues the leader's connection. *)

From S2P Require Import Prelude Bytes Ringbuf Fifo RingbufSpec ConManager Segment PacketBuffer PacketSpec Proxy ProxySpec RawSpec Framing FramingSpec Tpl TplSpec Serve Guest GuestSpec Intercept InterceptSpec.

Open Scope Z_scope.

(** ** Small messages *)

(** The system accepts the next [n] sends whole; no message of the protocol
    has more than 74 bytes. *)
Definition plenty (n : nat) (answers : list Z) : Prop :=
  (n <= length answers)%nat /\ Forall (fun k => 74 <= k) answers.

Lemma plenty_cons n answers :
  plenty (S n) answers -> exists k rest, answers = k :: rest /\ 74 <= k /\ plenty n rest.
Proof.
  intros [Hn Ha]. destruct answers as [|k rest]; [simpl in Hn; lia|]. apply Forall_cons in Ha as [Hk Hr].
  exists k, rest. split_and!; [done..|]. split; [simpl in Hn; lia|done].
Qed.

Lemma info_length i : 1 < zlen (serialize_info i) < 2 ^ 31.
Proof. rewrite zlen_serialize_info. lia. Qed.

Lemma described_back la pa type v isn :
  info_ok (described la pa type v) -> u32 isn = isn ->
  let i := described la pa type v in
  deserialize_info (serialize_info i) = i /\
  deserialize_info (serialize_info (with_recv_seq isn i)) = with_recv_seq isn i.
Proof.
  intros Hok Hisn i. split; [by apply deserialize_serialize_info|].
  apply deserialize_serialize_info; [|done..]. destruct Hok as [H1 [H2 _] H3]. split; [done|by split|done].
Qed.

(** ** The managers and the hosts *)

Section Stations.
Context (mem : Z -> bool) (junk : list Z).
Hypothesis Hmem : forall n, 0 < n -> mem n = true.
Hypothesis Hjunk : zlen junk = 4.
Context (deserialize : list Z -> con_info_type) (serialize : con_info_type -> list Z).
Hypothesis Hlen : forall i, zlen (serialize i) = 70.

Abbreviation query_pass := (serve_query deserialize serialize mem junk).
Abbreviation report_pass := (serve_report deserialize serialize).

Lemma zlen_info_message i : zlen (message (serialize i)) = 74.
Proof using Hlen. by rewrite message_be, zlen_app, zlen_be, Hlen. Qed.

Lemma recv_whole m rx len :
  0 < zlen m < 2 ^ 31 -> arrives (message m) rx -> length_in_one rx ->
  recv_bytes mem junk rx = Ok (mk_received (zlen m) m (zlen m), []) /\
  guest_recv_bytes mem junk len rx = Ok (mk_received (zlen m) m (zlen m), []).
Proof using Hmem Hjunk.
  intros Hm Ha H1. rewrite <- (app_nil_r (message m)) in Ha. assert (mem (zlen m) = true) by (apply Hmem; lia). split.
  - destruct (recv_bytes_message mem m [] rx Hm) with (junk := junk) as (s & -> & ->%arrives_nil); done.
  - destruct (guest_recv_bytes_message mem m [] rx Hm) with (junk := junk) (len := len)
      as (s & -> & ->%arrives_nil); done.
Qed.

(** The manager says whether it is the leader's. *)
Lemma manager_answers g o n rx :
  arrives (message [0]) rx -> length_in_one rx -> plenty (S n) (sends o) ->
  exists o', query_pass rx g o = Ok (true, [], g, o') /\ to_client o' = to_client o ++ message [c_bool (iamleader g)] /\
    to_host o' = to_host o /\ connects o' = connects o /\ plenty n (sends o').
Proof using Hmem Hjunk.
  intros Ha H1 (k & rest & Hs & Hk & Hp)%plenty_cons. destruct (recv_whole [0] rx 0) as [_ Hr]; [done..|].
  unfold Guest.serve_query. rewrite Hr. cbn [obind rx_ret rx_length]. change (zlen [0]) with 1. cbn match. unfold send_bytes_client.
  rewrite Hs, send_bytes_whole by (destruct (iamleader g); etrans; [|exact Hk| |exact Hk]; done). cbn [obind]. by eexists.
Qed.

(** The manager has a connection to its host, or gets one. *)
Definition host_reachable (g : guest) (o : guest_os) : Prop :=
  sk_consensus_connected g = true \/ exists c rest, connects o = c :: rest /\ 0 <= c.

(** The leader's manager passes a description on to its host and tells the
    library. *)
Lemma manager_forwards g o i n rx :
  deserialize (serialize i) = i ->
  arrives (message (serialize i)) rx -> length_in_one rx ->
  iamleader g = true -> host_reachable g o -> plenty (S (S n)) (sends o) ->
  exists g' o', query_pass rx g o = Ok (true, [], g', o') /\
    to_host o' = to_host o ++ message (serialize i) /\ to_client o' = to_client o ++ [1; 0; 0; 0].
Proof using All.
  intros Hi Ha H1 Hl Hh (k1 & rest1 & Hs & Hk1 & (k2 & rest2 & -> & Hk2 & _)%plenty_cons)%plenty_cons.
  destruct (recv_whole (serialize i) rx 0) as [_ Hr]; [by rewrite Hlen|done..|].
  unfold Guest.serve_query. rewrite Hr. cbn [obind rx_ret rx_length rx_buf]. rewrite Hlen. cbn match.
  rewrite Hi, Hl. unfold send_for_consensus.
  assert (exists g1 o1, (if negb (sk_consensus_connected g) then sk_ask_consensus_connect g o else Ok (0, g, o))
    = Ok (0, g1, o1) /\ iamleader g1 = true /\ sends o1 = sends o /\ to_host o1 = to_host o /\ to_client o1 = to_client o)
    as (g1 & o1 & -> & Hg1 & Hs1 & Hh1 & Hc1).
  { destruct (sk_consensus_connected g) eqn:E; cbn [negb]; [by eexists _, _|].
    destruct Hh as [?|(c & rest & Hc & Hpos)]; [congruence|]. unfold sk_ask_consensus_connect. rewrite Hc.
    rewrite (proj2 (Z.ltb_ge c 0)) by done. by eexists _, _. }
  cbn [obind]. change (0 <? 0) with false. cbn match. unfold send_to_host.
  rewrite Hs1, Hs, send_bytes_whole by (by rewrite zlen_info_message). cbn [obind]. change (0 <? 0) with false. cbn match.
  cbn [obind]. change (0 <? 0) with false. cbn match. unfold send_client. cbn [sends host_gets set_sends].
  rewrite Hg1. rewrite send_whole by (etrans; [|exact Hk2]; done). cbn [obind]. eexists _, _. split; [done|].
  cbn. by rewrite Hh1, Hc1.
Qed.

(** The leader's host has the group agree on it. *)
Lemma host_submits sk m rx :
  1 < zlen m < 2 ^ 31 -> arrives (message m) rx -> length_in_one rx ->
  exists s, service_run mem junk [Accept sk; Enter 0; Serve true 0] (service_init {[sk := rx]}) = Ok s /\
    submitted s = [m] /\ replies s = [(sk, [1])].
Proof using Hmem Hjunk.
  intros Hm Ha H1. destruct (recv_whole m rx 0) as [Hr _]; [lia|done..|].
  change (service_run mem junk [Accept sk; Enter 0; Serve true 0] (service_init {[sk := rx]})) with
    (let! s := serve mem junk true 1 0 (mk_service sk {[sk := rx]} [Waits sk] [] []) in Ok s).
  unfold serve. change ([Waits sk] !! 0%nat) with (Some (Waits sk)). cbn [threads arriving lookup list_lookup].
  rewrite lookup_singleton_eq. cbn [default from_option id]. unfold id. rewrite Hr. cbn [obind rx_ret rx_length rx_buf].
  rewrite (proj2 (Z.ltb_ge (zlen m) 0)), (proj2 (Z.eqb_neq (zlen m) 0)), (proj2 (Z.eqb_neq (zlen m) 1)) by lia.
  by eexists.
Qed.

(** The host of a backup completes it and reports it. *)
Lemma replica_reports {Q} {F : Fifo Q} i isn x (r : replica (Q := Q)) :
  deserialize (serialize i) = i -> get_isn (r_con r) (ci_con_id i) = Some isn ->
  exists r', do_action_tcpnewcon deserialize serialize x (serialize i) (zlen (serialize i)) r = Ok r' /\
    r_reports r' = r_reports r ++ [serialize (with_recv_seq isn i)].
Proof.
  intros Hi Hisn. unfold do_action_tcpnewcon, handle_consensused_con. rewrite load_all. cbn [obind].
  rewrite Hi, Hisn. by eexists.
Qed.

(** The manager of a backup connects to its own server. *)
Lemma manager_creates g o i n sk :
  deserialize (serialize i) = i -> con_type (ci_options i) = ACCEPT_CON ->
  iamleader g = false -> report_thread g = true -> 0 <= sk ->
  (exists c rest, connects o = c :: rest /\ 0 <= c) -> plenty (S n) (sends o) ->
  exists o', report_pass sk MY_HOST_IP (serialize i) g o = Ok (g, o') /\
    created o' = created o ++ [(src_ip (ci_con_id i), src_port (ci_con_id i), message (serialize i))].
Proof using Hlen.
  intros Hi Ht Hl Hr Hsk (c & cs & Hc & Hpos) (k & rest & Hs & Hk & _)%plenty_cons.
  unfold Guest.serve_report. rewrite Hr, Hl, Hi, Ht, Z.eqb_refl. cbn [negb]. rewrite Z.eqb_refl. unfold create_connection.
  rewrite (proj2 (Z.ltb_ge sk 0)) by done. cbn [connect_loop]. rewrite Hc, (proj2 (Z.ltb_ge c 0)) by done. cbn [obind].
  rewrite (proj2 (Z.ltb_ge c 0)) by done. cbn [sends set_connects]. rewrite Hs, send_bytes_whole by (by rewrite zlen_info_message).
  cbn [obind]. by eexists.
Qed.
End Stations.

(** ** The way to the backup *)

Section Relay.
Context {K : Type} {T : TcpStack K} {W : RepairLaws K} {Q : Type} {F : Fifo Q}.
Context (mem : Z -> bool) (junk : list Z) (junk_len noret : Z).
Hypothesis Hmem : forall n, 0 < n -> mem n = true.
Hypothesis Hjunk : zlen junk = 4.
Hypothesis Hmgr : manager_listens (K := K).
Hypothesis Hnoret : 0 <= noret.

Abbreviation query_pass := (serve_query deserialize_info serialize_info mem junk).
Abbreviation report_pass := (serve_report deserialize_info serialize_info).
Abbreviation accepted_sk := (handle_accepted_sk deserialize_info serialize_info mem junk junk_len noret).
Abbreviation lib_connect := (connect deserialize_info serialize_info mem junk junk_len noret).

(** What the leader's library has [sent] goes through its manager, with the
    state [g] and [o], its host, and the host of a backup, which has the state
    [r] and reports bytes for which [P] holds. *)
Definition relayed (sent : list Z) (g : guest) (o : guest_os) (r : replica (Q := Q)) (P : list Z -> Prop) : Prop :=
  exists q1 q2, sent = q1 ++ q2 /\
  forall rx1 rx2, arrives q1 rx1 -> length_in_one rx1 -> arrives q2 rx2 -> length_in_one rx2 ->
  exists o1 g2 o2, query_pass rx1 g o = Ok (true, [], g, o1) /\ query_pass rx2 g o1 = Ok (true, [], g2, o2) /\
    to_client o2 = to_client o ++ message [1] ++ [1; 0; 0; 0] /\
  forall sk x rx, arrives (to_host o2) rx -> length_in_one rx ->
  exists s img r' rep,
    service_run mem junk [Accept sk; Enter 0; Serve true 0] (service_init {[sk := rx]}) = Ok s /\
    submitted s = [img] /\
    do_action_tcpnewcon deserialize_info serialize_info x img (zlen img) r = Ok r' /\
    r_reports r' = r_reports r ++ [rep] /\ P rep.

(** A leader's manager, fresh and with a host. *)
Definition leader_manager (g : guest) (o : guest_os) : Prop :=
  iamleader g = true /\ host_reachable g o /\ to_host o = [] /\ plenty 3 (sends o).

Lemma relay i isn g o r (P : list Z -> Prop) :
  deserialize_info (serialize_info i) = i -> leader_manager g o ->
  get_isn (r_con r) (ci_con_id i) = Some isn -> P (serialize_info (with_recv_seq isn i)) ->
  relayed (message [0] ++ message (serialize_info i)) g o r P.
Proof using Hmem Hjunk F.
  intros Hi (Hl & Hh & Ho & Hp) Hisn HP. eexists _, _. split; [done|]. intros rx1 rx2 Ha1 H1 Ha2 H2.
  destruct (manager_answers mem junk Hmem Hjunk deserialize_info serialize_info g o 2 rx1) as (o1 & E1 & C1 & T1 & N1 & P1); [done..|].
  destruct (manager_forwards mem junk Hmem Hjunk deserialize_info serialize_info zlen_serialize_info g o1 i 0 rx2)
    as (g2 & o2 & E2 & T2 & C2); [exact Hi|exact Ha2|exact H2|exact Hl| |exact P1|].
  { unfold host_reachable in *. by rewrite N1. }
  exists o1, g2, o2. split_and!; [exact E1|exact E2|by rewrite C2, C1, Hl, <- app_assoc|].
  intros sk x rx Ha H. rewrite T2, T1, Ho in Ha.
  destruct (host_submits mem junk Hmem Hjunk sk (serialize_info i) rx) as (s & E3 & S3 & _);
    [apply info_length|exact Ha|exact H|].
  destruct (replica_reports deserialize_info serialize_info i isn x r Hi Hisn) as (r' & E4 & R4).
  exists s, (serialize_info i), r', (serialize_info (with_recv_seq isn i)). tauto.
Qed.

(** ** Accepted connections *)

(** [bs] is what the manager of a backup writes on the connection it makes to
    its server at [la]: the library gives the server a socket that continues
    [v] in its place. *)
Definition backup_continues (v : tcp_view) (la : addr) (isn : Z) (bs : list Z) : Prop :=
  forall (l : lib K) sk v2,
  view (stack l) !! sk = Some v2 -> v_local v2 = Some la -> plenty 1 (mgr_sends l) ->
  arrives (message [0]) (mgr_rx l) -> length_in_one (mgr_rx l) ->
  arrives bs (con_rx l) -> length_in_one (con_rx l) ->
  exists fd l' v', accepted_sk sk l = Ok (inr fd, l') /\
    view (stack l') !! fd = Some v' /\ continues v la isn v'.

Lemma library_continues v la pa isn :
  good_connection v la pa -> info_ok (described la pa ACCEPT_CON v) -> u32 isn = isn ->
  backup_continues v la isn (message (serialize_info (with_recv_seq isn (described la pa ACCEPT_CON v)))).
Proof using All.
  intros Hgood Hok Hisn l sk v2 Hv Hla (k & rest & Hs & Hk & _)%plenty_cons Ha H1 Hc H2.
  destruct (described_back _ _ _ _ isn Hok Hisn) as [_ Hb].
  edestruct (backup_accepts deserialize_info serialize_info mem junk junk_len noret Hmem Hjunk Hmgr sk v2 la
    (with_recv_seq isn (described la pa ACCEPT_CON v)) k rest [] [] l) as (fd & l' & v' & E & Hf & Hview);
    [exact Hv|exact Hla|by eapply described_scales|apply Hgood|exact Hs|lia|by rewrite app_nil_r|exact H1|exact Hb
    |pose proof (info_length (with_recv_seq isn (described la pa ACCEPT_CON v))); lia|by rewrite app_nil_r|exact H2|].
  destruct Hf as (_ & _ & _ & Hts & Hws). eexists fd, l', _. split_and!; [exact E|exact Hview|].
  by eapply continued_continues.
Qed.

(** C9. A connection that the leader's server accepts exists on a backup as
    well: the description goes from the leader's library through its manager
    and host into the agreement, and from the host of the backup through its
    manager to a connection to the backup's server, where the library
    replaces the socket by one with the same peer, options and sending
    sequence number, and the receiving sequence number behind the SYN. *)
Theorem accepted_connection_continues (l : lib K) sk v la pa isn rest g o (r : replica (Q := Q)) gb ob skb :
  view (stack l) !! sk = Some v -> good_connection v la pa -> info_ok (described la pa ACCEPT_CON v) ->
  mgr_out l = [] -> plenty 2 (mgr_sends l) ->
  arrives (message [1] ++ 1 :: rest) (mgr_rx l) -> length_in_one (mgr_rx l) ->
  leader_manager g o ->
  get_isn (r_con r) (ci_con_id (described la pa ACCEPT_CON v)) = Some isn -> u32 isn = isn ->
  iamleader gb = false -> report_thread gb = true -> 0 <= skb -> plenty 1 (sends ob) -> created ob = [] ->
  (exists c cs, connects ob = c :: cs /\ 0 <= c) ->
  exists l', accepted_sk sk l = Ok (inr sk, l') /\
  relayed (mgr_out l') g o r (fun rep =>
    exists ob' bs, report_pass skb MY_HOST_IP rep gb ob = Ok (gb, ob') /\
      created ob' = [(sin_addr la, sin_port la, bs)] /\ backup_continues v la isn bs).
Proof using All.
  intros Hv Hgood Hok Hout (k1 & ? & Hs & Hk1 & (k2 & ks & -> & Hk2 & _)%plenty_cons)%plenty_cons Ha H1 Hlead Hisn Hu
    Hlb Hrb Hskb Hpb Hcb Hconb.
  destruct (described_back _ _ _ _ isn Hok Hu) as [Hb1 Hb2].
  destruct (leader_accepts deserialize_info serialize_info mem junk junk_len noret Hmem Hjunk Hmgr sk v la pa k1 k2 ks 1 rest l)
    as (l' & E & Hm); [exact Hv|exact Hgood|exact Hnoret|exact Hs|lia|..|exact Ha|exact H1|].
  { by rewrite (zlen_info_message serialize_info zlen_serialize_info). }
  exists l'. split; [exact E|]. rewrite Hm, Hout. apply (relay _ isn); [exact Hb1|exact Hlead|exact Hisn|].
  destruct (manager_creates deserialize_info serialize_info zlen_serialize_info gb ob
    (with_recv_seq isn (described la pa ACCEPT_CON v)) 0 skb) as (ob' & E5 & C5);
    [exact Hb2|reflexivity|exact Hlb|exact Hrb|exact Hskb|exact Hconb|exact Hpb|].
  eexists ob', _. split; [exact E5|]. split; [rewrite C5, Hcb; reflexivity|]. by eapply library_continues.
Qed.
(** ** Connections to other servers *)

(** What a backup's manager replies to a query for [a] when it knows [i]. *)
Definition answer (a : addr) (i : con_info_type) : list Z := message (serialize_info (found i (query_info a))).

Lemma query_back la a v :
  info_ok (described la a CONNECT_CON v) -> deserialize_info (serialize_info (query_info a)) = query_info a.
Proof.
  intros [(_ & _ & H3 & H4) _ _]. apply deserialize_serialize_info; [|done..]. by repeat split.
Qed.

Lemma found_back la a v isn :
  info_ok (described la a CONNECT_CON v) -> u32 isn = isn ->
  let j := found (with_recv_seq isn (described la a CONNECT_CON v)) (query_info a) in
  deserialize_info (serialize_info j) = j.
Proof.
  intros [H1 [H2 _] (H3 & H4 & H5 & H6 & H7 & H8 & _)] Hu j. apply deserialize_serialize_info; [|done..].
  split; [exact H1|by split|by split_and!].
Qed.

(** A backup's manager, when it has had the report of [i] and then others that
    are not of connections to the same server. *)
Lemma manager_finds gb ob i a sk others gb' ob' n rx :
  deserialize_info (serialize_info i) = i -> con_type (ci_options i) = CONNECT_CON -> dst_of i = (sin_addr a, sin_port a) ->
  deserialize_info (serialize_info (query_info a)) = query_info a ->
  iamleader gb = false -> report_thread gb = true ->
  latest deserialize_info (dst_of i) others = None ->
  serve_reports deserialize_info serialize_info ((sk, MY_HOST_IP, serialize_info i) :: others) gb ob = Ok (gb', ob') ->
  report_thread gb' = true -> plenty (S (S n)) (sends ob') ->
  arrives (message (serialize_info (query_info a))) rx -> length_in_one rx ->
  exists ob2, query_pass rx gb' ob' = Ok (true, [], gb', ob2) /\
    to_client ob2 = to_client ob' ++ [1] ++ answer a i.
Proof using Hmem Hjunk.
  intros Hi Ht Hd Hq Hl Hr Hlast Hrun Hr' (k1 & ? & Hs & Hk1 & (k2 & ks & -> & Hk2 & _)%plenty_cons)%plenty_cons Ha H1.
  destruct (serve_reports_table deserialize_info serialize_info _ _ _ _ _ Hrun Hl Hr') as [Hl' Htab].
  assert (hash_find (query_info a) gb' = Some (found i (query_info a))) as Hf.
  { unfold hash_find. specialize (Htab (sin_addr a, sin_port a)). cbn [latest] in Htab.
    rewrite <- Hd, Hlast, Hi, Ht, (bool_decide_eq_true_2 _ eq_refl) in Htab. cbn [andb Z.eqb Pos.eqb MY_HOST_IP] in Htab.
    rewrite Z.eqb_refl, Hd in Htab. cbn [ci_con_id query_info dst_ip dst_port]. by rewrite Htab. }
  destruct (recv_whole mem junk Hmem Hjunk (serialize_info (query_info a)) rx 0) as [_ Hrecv];
    [pose proof (info_length (query_info a)); lia|exact Ha|exact H1|].
  unfold Guest.serve_query. rewrite Hrecv. cbn [obind rx_ret rx_length rx_buf]. rewrite zlen_serialize_info, Hq, Hl'. cbn match.
  destruct (answer_query_bytes serialize_info (query_info a) gb' ob' (Some i)) as (ob2 & E & C & _); [exact Hf| |].
  { rewrite Hf. cbn [default from_option]. rewrite (zlen_info_message serialize_info zlen_serialize_info). exists k1, k2, ks. split; [exact Hs|split; assumption]. }
  cbn [con_type ci_options query_info]. rewrite Z.eqb_refl. rewrite E. cbn [obind]. exists ob2. split; [reflexivity|exact C].
Qed.
(** The server on a backup connects a fresh socket to [a]; its library asks
    [n] times in vain and then gets the answer [bs]. *)
Definition backup_reconnects (v : tcp_view) (la a : addr) (isn : Z) (bs : list Z) : Prop :=
  forall (l : lib K) sk v2 n s fuel,
  view (stack l) !! sk = Some v2 -> fresh_socket v2 -> (n < fuel)%nat -> plenty (S (S n)) (mgr_sends l) ->
  mgr_rx l = RxData (message [0]) :: s -> polls n s [RxData bs] ->
  exists l' v', lib_connect fuel sk a l = Ok (inr noret : Z + Z, l') /\
    view (stack l') !! sk = Some v' /\ continues v la isn v'.

Lemma library_reconnects v la a isn :
  local_pair a = false -> good_connection v la a -> info_ok (described la a CONNECT_CON v) -> u32 isn = isn ->
  backup_reconnects v la a isn (answer a (with_recv_seq isn (described la a CONNECT_CON v))).
Proof using All.
  intros Hpair Hgood Hok Hu l sk v2 n s fuel Hv (Hst & _ & Hloc & Hts & Hws) Hfuel [Hlen Hall] Hrx Hpolls.
  set (j := found (with_recv_seq isn (described la a CONNECT_CON v)) (query_info a)).
  pose proof (info_length j) as Hj.
  assert (zlen (message (serialize_info (query_info a))) = 74) as Hq
    by apply (zlen_info_message serialize_info zlen_serialize_info).
  edestruct (backup_connects deserialize_info serialize_info mem junk junk_len noret Hmem Hjunk Hmgr fuel sk a j v2 n s l)
    as (l' & E & Hview); [exact Hv|exact Hst|exact Hloc|exact Hpair|by eapply (described_scales la a CONNECT_CON)|apply Hgood
    |by eapply found_back|lia|rewrite Hq; lia|exact Hfuel|lia|rewrite Hq; exact Hall|exact Hrx|exact Hpolls|].
  eexists l', _. split_and!; [exact E|exact Hview|].
  assert (mk_addr (src_ip (ci_con_id j)) (src_port (ci_con_id j)) = la) as -> by (by destruct la).
  exact (continued_continues la la a CONNECT_CON isn v v2 Hgood Hts Hws).
Qed.

(** C10. A connection that the leader's server makes exists on a backup as
    well: the description reaches the table of the backup's manager, and when
    the backup's server connects to the same address, its library gets the
    description and gives the socket the leader's local address, options and
    sequence numbers, without a packet to the peer.  Reports that follow do
    not matter; none of them must be of a connection to the same address, which
    would replace the description. *)
Theorem made_connection_continues (l : lib K) fuel sk v la a isn rest g o (r : replica (Q := Q)) gb ob skb :
  local_pair a = false -> is_Some (view (stack l) !! sk) ->
  (forall k, view k !! sk = view (stack l) !! sk ->
     exists k', sys_connect sk a k = (0, k') /\ view k' = <[sk := v]> (view k)) ->
  good_connection v la a -> info_ok (described la a CONNECT_CON v) ->
  mgr_out l = [] -> plenty 2 (mgr_sends l) ->
  arrives (message [1] ++ 1 :: rest) (mgr_rx l) -> length_in_one (mgr_rx l) ->
  leader_manager g o ->
  get_isn (r_con r) (ci_con_id (described la a CONNECT_CON v)) = Some isn -> u32 isn = isn ->
  iamleader gb = false -> report_thread gb = true ->
  exists l', lib_connect fuel sk a l = Ok (inr noret : Z + Z, l') /\
  relayed (mgr_out l') g o r (fun rep =>
    forall others gb' ob', latest deserialize_info (sin_addr a, sin_port a) others = None ->
    serve_reports deserialize_info serialize_info ((skb, MY_HOST_IP, rep) :: others) gb ob = Ok (gb', ob') ->
    report_thread gb' = true -> plenty 2 (sends ob') ->
    forall rx, arrives (message (serialize_info (query_info a))) rx -> length_in_one rx ->
    exists ob2 bs, query_pass rx gb' ob' = Ok (true, [], gb', ob2) /\
      to_client ob2 = to_client ob' ++ [1] ++ bs /\ backup_reconnects v la a isn bs).
Proof using All.
  intros Hpair Hsk Hcon Hgood Hok Hout (k1 & ? & Hs & Hk1 & (k2 & ks & -> & Hk2 & _)%plenty_cons)%plenty_cons Ha H1
    Hlead Hisn Hu Hlb Hrb.
  destruct (described_back _ _ _ _ isn Hok Hu) as [Hb1 Hb2].
  destruct (leader_connects deserialize_info serialize_info mem junk junk_len noret Hmem Hjunk Hmgr fuel sk a v la k1 k2 ks 1 rest l)
    as (l' & E & Hm); [exact Hpair|exact Hcon|exact Hsk|exact Hgood|exact Hnoret|exact Hs|lia|..|exact Ha|exact H1|].
  { by rewrite (zlen_info_message serialize_info zlen_serialize_info). }
  exists l'. split; [exact E|]. rewrite Hm, Hout. apply (relay _ isn); [exact Hb1|exact Hlead|exact Hisn|].
  intros others gb' ob' Hlast Hrun Hr' Hp rx Hrx Hrx1.
  destruct (manager_finds gb ob (with_recv_seq isn (described la a CONNECT_CON v)) a skb others gb' ob' 0 rx)
    as (ob2 & E2 & C2); [exact Hb2|reflexivity|reflexivity|by eapply query_back|exact Hlb|exact Hrb|exact Hlast|exact Hrun
    |exact Hr'|exact Hp|exact Hrx|exact Hrx1|].
  eexists ob2, _. split; [exact E2|]. split; [exact C2|]. by eapply library_reconnects.
Qed.
(** ** A backup that becomes leader *)

Lemma polls_reply n : polls n (replicate n (RxData [0]) ++ [RxData [1; 0; 0; 0]]) [RxData [0; 0; 0]].
Proof. induction n as [|n IH]; [done|]. cbn. by eexists. Qed.

(** Three bytes of zero are taken for a length, with the byte they leave of
    the variable as the lowest: of an empty message, which is there, or of one
    that never comes. *)
Lemma recv_three_zeros jk len :
  zlen jk = 4 -> Forall byte_ok jk ->
  guest_recv_bytes mem jk len [RxData [0; 0; 0]] =
    if bool_decide (last jk = Some 0) && mem 0 then Ok (mk_received 0 [] 0, []) else Spin.
Proof using Hmem.
  clear -Hmem. intros Hjunk Hb. destruct jk as [|j0 [|j1 [|j2 [|j3 [|]]]]];
    try (unfold zlen in Hjunk; simpl in Hjunk; lia).
  assert (0 <= j3 < 256) as Hj by (by apply (proj1 (Forall_forall _ _) Hb); set_solver).
  change (guest_recv_bytes mem [j0; j1; j2; j3] len [RxData [0; 0; 0]])
    with (recv_message mem (length_of [j0; j1; j2; j3] [0; 0; 0]) []).
  replace (length_of [j0; j1; j2; j3] [0; 0; 0]) with j3.
  2:{ change (length_of [j0; j1; j2; j3] [0; 0; 0]) with (length_of [j0; j1; j2; j3] [0; 0; 0; j3]).
      replace [0; 0; 0; j3] with (be 4 j3); [symmetry; by apply length_of_be; [|lia]|].
      unfold be. cbn [le_split rev app]. by rewrite (Z.div_small j3 256), (Z.mod_small j3 256) by lia. }
  unfold recv_message. rewrite (proj2 (Z.leb_le 0 j3)) by lia. cbn [andb last].
  destruct (Z.eq_dec j3 0) as [->|Hne].
  - rewrite bool_decide_eq_true_2 by done. cbn [andb]. by destruct (mem 0).
  - rewrite bool_decide_eq_false_2, Hmem by (congruence || lia). cbn [andb].
    cbn [recv_loop]. unfold recv. by rewrite (proj2 (Z.eqb_neq _ _) Hne).
Qed.

(** C40. A guest that becomes the leader's while its server waits in [connect]
    breaks it.  Its manager proposes the query to the group as if it were a
    connection, and replies with the four bytes of a variable, of which the
    library reads one and takes the other three for a length.  The fourth byte
    of that length is what an uninitialised variable holds.  If it is zero and
    an empty block can be allocated, the library uses a description that never
    came, which is undefined; in every other case it waits for ever for a
    description of that length. *)
Theorem takeover_breaks_connect (l : lib K) fuel sk a g o rx n :
  iamleader g = true -> host_reachable g o -> plenty 2 (sends o) -> info_ok (query_info a) ->
  arrives (message (serialize_info (query_info a))) rx -> length_in_one rx ->
  local_pair a = false -> (n < fuel)%nat -> plenty (S (S n)) (mgr_sends l) -> Forall byte_ok junk ->
  exists g' o' reply, query_pass rx g o = Ok (true, [], g', o') /\
    to_host o' = to_host o ++ message (serialize_info (query_info a)) /\ to_client o' = to_client o ++ reply /\
    (mgr_rx l = RxData (message [0]) :: replicate n (RxData [0]) ++ [RxData reply] ->
     lib_connect fuel sk a l =
       ((if bool_decide (last junk = Some 0) && mem 0 then Undef else Spin) : outcome ((Z + Z) * lib K))).
Proof using Hmem Hjunk Hmgr W.
  intros Hl Hh Hp Hok Ha H1 Hpair Hfuel [Hlen Hall] Hbytes.
  assert (deserialize_info (serialize_info (query_info a)) = query_info a) as Hq by by apply deserialize_serialize_info.
  destruct (manager_forwards mem junk Hmem Hjunk deserialize_info serialize_info zlen_serialize_info g o (query_info a) 0 rx)
    as (g' & o' & E & T1 & C1); [exact Hq|exact Ha|exact H1|exact Hl|exact Hh|exact Hp|].
  exists g', o', [1; 0; 0; 0]. split_and!; [exact E|exact T1|exact C1|]. intros Hrx. clear Hq E T1 C1 Ha H1 Hok.
  assert (forall k, 74 <= k -> zlen (message (serialize_info (query_info a))) <= k) as H74.
  { intros k Hk. by rewrite (zlen_info_message serialize_info zlen_serialize_info). }
  unfold Intercept.connect, call. set (q := serialize_info (query_info a)) in *. clearbody q. rewrite Hpair. destruct (mgr_sends l) as [|k answers] eqn:Hs; [simpl in Hlen; lia|].
  apply Forall_cons in Hall as [Hk Hall]. set (u := bool_decide _ && _). change (if u then Undef else Spin) with (@stuck ((Z + Z) * lib K) u).
  erewrite (cwp_stuck u); [by destruct u|].
  eapply (ask_manager_spec mem junk junk_len Hmgr); [exact Hs|lia
    |rewrite Hrx; apply (guest_recv_bytes_piece mem junk junk_len [0]); [done|by apply Hmem|exact Hjunk]|].
  intros fd vm k' Hfd Hview. cbn match. change (0 =? 1) with false. cbn match.
  apply bind_stuck, cwp_stuck. eapply query_loop_spec; [exact Hfuel|simpl in *; lia|by eapply Forall_impl|apply polls_reply|].
  intros answers' out. pose proof (recv_three_zeros junk junk_len Hjunk Hbytes) as Hrecv.
  fold u in Hrecv. destruct u.
  - apply (cwp_stuck true). eapply recv_mgr_bytes_spec; [exact Hrecv|]. done.
  - apply (bind_stuck false). unfold recv_mgr_bytes. cbn [mgr_rx]. by rewrite Hrecv.
Qed.
End Relay.

(** ** A run *)

Definition demo_la : addr := mk_addr (le_combine [10; 22; 1; 100]) 20480.
Definition demo_pa : addr := mk_addr (le_combine [10; 22; 1; 7]) 4660.
Definition demo_socket : tcp_view :=
  mk_view Established false 0 (false, false) (Some demo_la) (Some demo_pa) 4294967295 1000 true 77 1460 (Some (7, 9)).
Definition demo_lib (m : sockets) (rx : list rx_event) : lib sockets := mk_lib m rx [100; 100; 100] [] [].
Definition demo_os_guest : guest_os := mk_gos [0] [100; 100; 100; 100] [] [] [].
Definition demo_manager (leader : bool) : guest := set_iamleader leader (init_con_manager_guest (replicate 32 0)).
Definition demo_replica (type : Z) : replica (Q := ringbuf_t) :=
  mk_replica (mk_proxy [] ∅ 0 0 0 (mk_db [] 0)) demo_buffers
    (set_isn_list {[ci_con_id (described demo_la demo_pa type demo_socket) := 999]} con_manager_tables)
    (mk_os [] [] []) [] 0.

Lemma demo_good : good_connection demo_socket demo_la demo_pa.
Proof. split; [done..|]. intros s r [= <- <-]. lia. Qed.

Lemma demo_leader_manager : leader_manager (demo_manager true) demo_os_guest.
Proof. split_and!; [done| |done|split; [simpl; lia|by repeat constructor]]. right. by exists 0, []. Qed.

Lemma arrives_leader : arrives (message [1] ++ 1 :: [0; 0; 0]) [RxData (message [1]); RxData [1; 0; 0; 0]].
Proof. exists [message [1]; [1; 0; 0; 0]]. split_and!; [done..|by repeat constructor]. Qed.

Lemma accepted_connection_continues_witness :
  let l := demo_lib {[5 := demo_socket]} [RxData (message [1]); RxData [1; 0; 0; 0]] in
  exists l', handle_accepted_sk deserialize_info serialize_info (fun _ => true) [9; 9; 9; 9] 0 0 5 l = Ok (inr 5, l') /\
  relayed (fun _ => true) [9; 9; 9; 9] (mgr_out l') (demo_manager true) demo_os_guest (demo_replica ACCEPT_CON) (fun rep =>
    exists ob' bs, serve_report deserialize_info serialize_info 3 MY_HOST_IP rep (demo_manager false) demo_os_guest
        = Ok (demo_manager false, ob') /\
      created ob' = [(sin_addr demo_la, sin_port demo_la, bs)] /\
      backup_continues (fun _ => true) [9; 9; 9; 9] 0 0 demo_socket demo_la 999 bs).
Proof.
  intros l. apply (accepted_connection_continues (K := sockets) (fun _ => true) [9; 9; 9; 9] 0 0
    (fun _ _ => eq_refl) eq_refl linux_manager_listens (Z.le_refl 0) l 5 demo_socket demo_la demo_pa 999 [0; 0; 0]
    (demo_manager true) demo_os_guest (demo_replica ACCEPT_CON) (demo_manager false) demo_os_guest 3);
    try reflexivity; try (split; [simpl; lia|by repeat constructor]).
  - apply demo_good.
  - by repeat split.
  - apply arrives_leader.
  - by vm_compute.
  - apply demo_leader_manager.
  - by vm_compute.
  - by exists 0, [].
Defined.

(** The socket before it is connected. *)
Definition demo_closed : tcp_view :=
  mk_view Closed false 0 (false, false) (Some demo_la) None 4294967295 1000 true 77 1460 (Some (7, 9)).

Lemma made_connection_continues_witness :
  let l := demo_lib {[5 := demo_closed]} [RxData (message [1]); RxData [1; 0; 0; 0]] in
  exists l', connect deserialize_info serialize_info (fun _ => true) [9; 9; 9; 9] 0 0 0 5 demo_pa l = Ok (inr 0 : Z + Z, l') /\
  relayed (fun _ => true) [9; 9; 9; 9] (mgr_out l') (demo_manager true) demo_os_guest (demo_replica CONNECT_CON) (fun rep =>
    forall others gb' ob', latest deserialize_info (sin_addr demo_pa, sin_port demo_pa) others = None ->
    serve_reports deserialize_info serialize_info ((3, MY_HOST_IP, rep) :: others) (demo_manager false) demo_os_guest = Ok (gb', ob') ->
    report_thread gb' = true -> plenty 2 (sends ob') ->
    forall rx, arrives (message (serialize_info (query_info demo_pa))) rx -> length_in_one rx ->
    exists ob2 bs, serve_query deserialize_info serialize_info (fun _ => true) [9; 9; 9; 9] rx gb' ob' = Ok (true, [], gb', ob2) /\
      to_client ob2 = to_client ob' ++ [1] ++ bs /\
      backup_reconnects (fun _ => true) [9; 9; 9; 9] 0 0 demo_socket demo_la demo_pa 999 bs).
Proof.
  intros l. apply (made_connection_continues (K := sockets) (fun _ => true) [9; 9; 9; 9] 0 0
    (fun _ _ => eq_refl) eq_refl linux_manager_listens (Z.le_refl 0) l 0 5 demo_socket demo_la demo_pa 999 [0; 0; 0]
    (demo_manager true) demo_os_guest (demo_replica CONNECT_CON) (demo_manager false) demo_os_guest 3);
    try reflexivity; try (split; [simpl; lia|by repeat constructor]).
  - by exists demo_closed.
  - intros k Hk. change (k !! 5 = Some demo_closed) in Hk. call_socket Hk. by eexists.
  - apply demo_good.
  - by repeat split.
  - apply arrives_leader.
  - by vm_compute.
  - apply demo_leader_manager.
Defined.

Lemma takeover_breaks_connect_witness :
  let q := message (serialize_info (query_info demo_pa)) in
  let l := demo_lib {[5 := demo_closed]} [RxData (message [0]); RxData [0]; RxData [1; 0; 0; 0]] in
  exists g' o' reply, serve_query deserialize_info serialize_info (fun _ => true) [9; 9; 9; 0] [RxData q]
      (demo_manager true) demo_os_guest = Ok (true, [], g', o') /\
    to_host o' = [] ++ q /\ to_client o' = [] ++ reply /\
    (mgr_rx l = RxData (message [0]) :: replicate 1 (RxData [0]) ++ [RxData reply] ->
     connect deserialize_info serialize_info (fun _ => true) [9; 9; 9; 0] 0 0 2 5 demo_pa l
       = (Undef : outcome ((Z + Z) * lib sockets))).
Proof.
  intros q l. apply (takeover_breaks_connect (K := sockets) (fun _ => true) [9; 9; 9; 0] 0 0
    (fun _ _ => eq_refl) eq_refl linux_manager_listens l 2 5 demo_pa (demo_manager true) demo_os_guest [RxData q] 1);
    try reflexivity; [apply demo_leader_manager|split; [simpl; lia|by repeat constructor]|by repeat split|..].
  - apply arrives_one. by vm_compute.
  - by vm_compute.
  - lia.
  - split; [simpl; lia|by repeat constructor].
  - repeat constructor; lia.
Defined.
