(* ===== verification/NetQueue.v ===== *)
(** * Network clients and their queues (qemu-kvm/net.c, net/queue.c, iov.c)

    A network client of the emulator has a device behind it and a queue of
    the packets its peer has sent and it could not take yet.  The device is a
    parameter: what it does with a packet and whether it can take one.

    The peer that sends is a state [X]; the callback of a queued packet
    changes it when the packet is taken at last.  Neither the device nor the
    callback sends into the queue that is being delivered, so [delivering] is
    never seen set; the code that tests it is there. *)

From S2P Require Import Prelude Bytes Ringbuf.

Open Scope Z_scope.

(** ** Vectors (iov.c) *)

Fixpoint iov_size (iov : list (list Z)) : Z :=
  match iov with
  | [] => 0
  | v :: iov' => zlen v + iov_size iov'
  end.

(** At most [bytes] bytes from [offset] on; an [offset] behind the end fails
    the assertion. *)
Fixpoint iov_to_buf (iov : list (list Z)) (offset bytes : Z) : outcome (list Z) :=
  match iov with
  | [] => if offset =? 0 then Ok [] else Undef
  | v :: iov' =>
      if (0 <? offset) || (0 <? bytes) then
        if offset <? zlen v then
          let len := Z.min (zlen v - offset) bytes in
          let! rest := iov_to_buf iov' 0 (bytes - len) in
          Ok (ztake len (zdrop offset v) ++ rest)
        else iov_to_buf iov' (offset - zlen v) bytes
      else Ok []
  end.

(** ** Devices and clients *)

(** The results are those of [receive]: 0 when the packet cannot be taken
    now, otherwise the number of bytes or a negative error.  [None] is a
    handler that the client does not have. *)
Class Device (D : Type) := {
  dev_receive : list Z -> D -> Z * D;
  dev_receive_raw : option (list Z -> D -> Z * D);
  dev_receive_iov : option (list (list Z) -> D -> Z * D);
  dev_can_receive : option (D -> bool)
}.

Definition QEMU_NET_PACKET_FLAG_NONE : Z := 0.
Definition QEMU_NET_PACKET_FLAG_RAW : Z := 1.

Record client (D : Type) := mk_client {
  link_down : bool;
  receive_disabled : bool;
  device : D
}.
Arguments mk_client {D} link_down receive_disabled device.
Arguments link_down {D} _.
Arguments receive_disabled {D} _.
Arguments device {D} _.

Definition set_receive_disabled {D} v (c : client D) : client D := mk_client (link_down c) v (device c).
Definition set_device {D} v (c : client D) : client D := mk_client (link_down c) (receive_disabled c) v.

Record NetPacket := mk_packet {
  pk_sender : Z;
  pk_flags : Z;
  pk_data : list Z;
  sent_cb : bool      (* there is a callback *)
}.

Record NetQueue := mk_queue {
  packets : list NetPacket;
  delivering : bool
}.
Definition qemu_new_net_queue : NetQueue := mk_queue [] false.

(** A client with its queue, and its peer, which has a link of its own. *)
Record link (D X : Type) := mk_link {
  send_queue : NetQueue;
  nc : client D;
  peer_link_down : bool;
  peer : X
}.
Arguments mk_link {D X} send_queue nc peer_link_down peer.
Arguments send_queue {D X} _.
Arguments nc {D X} _.
Arguments peer_link_down {D X} _.
Arguments peer {D X} _.

Section Net.
Context {D : Type} {E : Device D} {X : Type}.
(** The callback: the sender and the result. *)
Context (on_sent : Z -> Z -> X -> X).

Definition set_queue (q : NetQueue) (l : link D X) : link D X := mk_link q (nc l) (peer_link_down l) (peer l).
Definition set_nc (c : client D) (l : link D X) : link D X := mk_link (send_queue l) c (peer_link_down l) (peer l).
Definition set_peer (x : X) (l : link D X) : link D X := mk_link (send_queue l) (nc l) (peer_link_down l) x.
Definition set_packets (ps : list NetPacket) (l : link D X) : link D X :=
  set_queue (mk_queue ps (delivering (send_queue l))) l.
Definition set_delivering (b : bool) (l : link D X) : link D X :=
  set_queue (mk_queue (packets (send_queue l)) b) l.

(** ** Delivery (net.c) *)

Definition qemu_can_send_packet (l : link D X) : bool :=
  if receive_disabled (nc l) then false
  else match dev_can_receive with Some can => can (device (nc l)) | None => true end.

(** A call of a handler of the device. *)
Definition received_by (f : D -> Z * D) (c : client D) : Z * client D :=
  let '(ret, d) := f (device c) in
  let c := set_device d c in
  (ret, if ret =? 0 then set_receive_disabled true c else c).

Definition qemu_deliver_packet (flags : Z) (data : list Z) (c : client D) : Z * client D :=
  if link_down c then (zlen data, c)
  else if receive_disabled c then (0, c)
  else
    match dev_receive_raw with
    | Some raw =>
        if c_true (Z.land flags QEMU_NET_PACKET_FLAG_RAW) then received_by (raw data) c
        else received_by (dev_receive data) c
    | None => received_by (dev_receive data) c
    end.

Definition nc_sendv_compat (iov : list (list Z)) (c : client D) : outcome (Z * client D) :=
  let! buffer := iov_to_buf iov 0 4096 in
  Ok (received_by (dev_receive buffer) c).

Definition qemu_deliver_packet_iov (flags : Z) (iov : list (list Z)) (c : client D) : outcome (Z * client D) :=
  if link_down c then Ok (iov_size iov, c)
  else if receive_disabled c then Ok (0, c)
  else
    match dev_receive_iov with
    | Some receive_iov => Ok (received_by (receive_iov iov) c)
    | None => nc_sendv_compat iov c
    end.

(** ** Queues (net/queue.c) *)

Definition qemu_net_queue_append (sender flags : Z) (buf : list Z) (cb : bool) (l : link D X) : link D X :=
  set_packets (packets (send_queue l) ++ [mk_packet sender flags buf cb]) l.

Definition qemu_net_queue_append_iov (sender flags : Z) (iov : list (list Z)) (cb : bool) (l : link D X) : link D X :=
  set_packets (packets (send_queue l) ++ [mk_packet sender flags (concat iov) cb]) l.

Definition qemu_net_queue_deliver (flags : Z) (data : list Z) (l : link D X) : Z * link D X :=
  let l := set_delivering true l in
  let '(ret, c) := qemu_deliver_packet flags data (nc l) in
  (ret, set_delivering false (set_nc c l)).

Definition qemu_net_queue_deliver_iov (flags : Z) (iov : list (list Z)) (l : link D X) : outcome (Z * link D X) :=
  let l := set_delivering true l in
  let! (ret, c) := qemu_deliver_packet_iov flags iov (nc l) in
  Ok (ret, set_delivering false (set_nc c l)).

(** The loop over the packets [ps]; the first one is taken off the queue, and
    put back when it cannot be delivered. *)
Fixpoint flush_loop (ps : list NetPacket) (l : link D X) : bool * link D X :=
  match ps with
  | [] => (true, set_packets [] l)
  | packet :: ps' =>
      let l := set_packets ps' l in
      let '(ret, l) := qemu_net_queue_deliver (pk_flags packet) (pk_data packet) l in
      if ret =? 0 then (false, set_packets (packet :: ps') l)
      else
        let l := if sent_cb packet then set_peer (on_sent (pk_sender packet) ret (peer l)) l else l in
        flush_loop ps' l
  end.
Definition qemu_net_queue_flush (l : link D X) : bool * link D X := flush_loop (packets (send_queue l)) l.

Definition qemu_net_queue_send (sender flags : Z) (data : list Z) (cb : bool) (l : link D X) : Z * link D X :=
  if delivering (send_queue l) || negb (qemu_can_send_packet l) then (0, qemu_net_queue_append sender flags data cb l)
  else
    let '(ret, l) := qemu_net_queue_deliver flags data l in
    if ret =? 0 then (0, qemu_net_queue_append sender flags data cb l)
    else (ret, snd (qemu_net_queue_flush l)).

Definition qemu_net_queue_send_iov (sender flags : Z) (iov : list (list Z)) (cb : bool) (l : link D X)
    : outcome (Z * link D X) :=
  if delivering (send_queue l) || negb (qemu_can_send_packet l) then Ok (0, qemu_net_queue_append_iov sender flags iov cb l)
  else
    let! (ret, l) := qemu_net_queue_deliver_iov flags iov l in
    if ret =? 0 then Ok (0, qemu_net_queue_append_iov sender flags iov cb l)
    else Ok (ret, snd (qemu_net_queue_flush l)).

Definition qemu_net_queue_purge (from : Z) (l : link D X) : link D X :=
  set_packets (filter (fun p => pk_sender p <> from) (packets (send_queue l))) l.

(** ** Sending (net.c) *)

Definition qemu_send_packet_async_with_flags (sender flags : Z) (buf : list Z) (cb : bool) (l : link D X) : Z * link D X :=
  if peer_link_down l then (zlen buf, l)
  else qemu_net_queue_send sender flags buf cb l.
Definition qemu_send_packet_async (sender : Z) (buf : list Z) (cb : bool) (l : link D X) : Z * link D X :=
  qemu_send_packet_async_with_flags sender QEMU_NET_PACKET_FLAG_NONE buf cb l.
Definition qemu_send_packet_raw (sender : Z) (buf : list Z) (l : link D X) : Z * link D X :=
  qemu_send_packet_async_with_flags sender QEMU_NET_PACKET_FLAG_RAW buf false l.
Definition qemu_sendv_packet_async (sender : Z) (iov : list (list Z)) (cb : bool) (l : link D X) : outcome (Z * link D X) :=
  if peer_link_down l then Ok (iov_size iov, l)
  else qemu_net_queue_send_iov sender QEMU_NET_PACKET_FLAG_NONE iov cb l.

(** Whether the loop of the emulator is told to poll again, and the state. *)
Definition qemu_flush_queued_packets (l : link D X) : bool * link D X :=
  qemu_net_queue_flush (set_nc (set_receive_disabled false (nc l)) l).
End Net.
