(* ===== verification/NetQueueSpec.v ===== *)
(** * The queue of a network client keeps the order

    A device that cannot take a packet gets it later; a sender that waits for
    the callback after such a packet, as the comment in net/queue.c demands,
    has its packets delivered in order, each of them once. *)

From S2P Require Import Prelude Bytes Ringbuf RingbufSpec NetQueue.

Open Scope Z_scope.

(** ** Vectors *)

Lemma iov_size_concat iov : iov_size iov = zlen (concat iov).
Proof. induction iov as [|v iov IH]; [done|]. cbn. by rewrite IH, zlen_app. Qed.

Lemma ztake_app {A} n (l k : list A) :
  0 <= n -> ztake (Z.min (zlen l) n) l ++ ztake (n - Z.min (zlen l) n) k = ztake n (l ++ k).
Proof.
  intros Hn. destruct (Z.le_ge_cases n (zlen l)).
  - by rewrite Z.min_r, ztake_app_l, (ztake_le0 (n - n)), app_nil_r by lia.
  - by rewrite Z.min_l, ztake_app_r, ztake_ge by lia.
Qed.

(** Gathering is taking a part of the concatenation. *)
Lemma iov_to_buf_concat iov : forall offset bytes,
  0 <= offset <= zlen (concat iov) -> 0 <= bytes ->
  iov_to_buf iov offset bytes = Ok (ztake bytes (zdrop offset (concat iov))).
Proof.
  induction iov as [|v iov IH]; intros offset bytes Ho Hb; cbn [iov_to_buf concat] in *.
  { change (zlen (@nil Z)) with 0 in Ho. rewrite (proj2 (Z.eqb_eq offset 0)) by lia.
    unfold ztake, zdrop. by rewrite drop_nil, take_nil. }
  rewrite zlen_app in Ho. pose proof (zlen_nonneg v). pose proof (zlen_nonneg (concat iov)).
  destruct ((0 <? offset) || (0 <? bytes)) eqn:Hc.
  - destruct (Z.ltb_spec offset (zlen v)) as [Hlt|Hge].
    + rewrite IH by lia. cbn [obind]. rewrite (zdrop_le0 0), zdrop_app_l by lia. f_equal.
      replace (zlen v - offset) with (zlen (zdrop offset v)) by (rewrite zlen_zdrop; lia). by apply ztake_app.
    + rewrite IH by lia. by rewrite zdrop_app_r by lia.
  - apply orb_false_iff in Hc as [Ho1%Z.ltb_ge Hb1%Z.ltb_ge]. by rewrite ztake_le0 by lia.
Qed.

(** ** Devices *)

(** A device keeps the packets it does not refuse with the result 0. *)
Class DeviceLaws (D : Type) {E : Device D} := {
  handed : D -> list (list Z);
  receive_law data d r d' : dev_receive data d = (r, d') ->
    handed d' = if r =? 0 then handed d else handed d ++ [data];
  receive_raw_law f data d r d' : dev_receive_raw = Some f -> f data d = (r, d') ->
    handed d' = if r =? 0 then handed d else handed d ++ [data]
}.

Section Spec.
Context {D : Type} {E : Device D} {W : DeviceLaws D} {X : Type}.
Context (on_sent : Z -> Z -> X -> X).

Lemma deliver_handed flags data (c : client D) r c' :
  qemu_deliver_packet flags data c = (r, c') -> link_down c = false ->
  link_down c' = false /\
  handed (device c') = if r =? 0 then handed (device c) else handed (device c) ++ [data].
Proof.
  unfold qemu_deliver_packet. intros H Hl. rewrite Hl in H.
  destruct (receive_disabled c); [by injection H as <- <-|].
  assert (exists f, received_by f c = (r, c') /\ forall r d', f (device c) = (r, d') ->
    handed d' = if r =? 0 then handed (device c) else handed (device c) ++ [data]) as (f & Hf & Hlaw).
  { destruct dev_receive_raw as [raw|] eqn:Er; [destruct (c_true _)|];
      (eexists; split; [exact H|]; intros;
       first [eapply receive_raw_law; eassumption|eapply receive_law; eassumption]). }
  unfold received_by in Hf. destruct (f (device c)) as [r1 d1] eqn:Ef. injection Hf as <- <-.
  rewrite <- (Hlaw _ _ eq_refl). by destruct (r1 =? 0).
Qed.

Lemma queue_deliver_handed flags data (l : link D X) r l' :
  qemu_net_queue_deliver flags data l = (r, l') -> link_down (nc l) = false ->
  exists c, l' = set_delivering false (set_nc c l) /\ link_down c = false /\
    handed (device c) = if r =? 0 then handed (device (nc l)) else handed (device (nc l)) ++ [data].
Proof.
  unfold qemu_net_queue_deliver. cbn [nc set_delivering set_queue]. intros H Hl.
  destruct (qemu_deliver_packet flags data (nc l)) as [r1 c] eqn:Ed. injection H as <- <-.
  exists c. split; [done|]. by apply (deliver_handed flags data (nc l)).
Qed.

(** Flushing hands over a prefix of the queue, in order, and calls the
    callbacks of that prefix. *)
Lemma flush_loop_spec ps : forall (l : link D X) b l',
  flush_loop on_sent ps l = (b, l') -> link_down (nc l) = false -> delivering (send_queue l) = false ->
  exists done_ rets rest, ps = done_ ++ rest /\ length rets = length done_ /\ (b = true <-> rest = []) /\
    send_queue l' = mk_queue rest false /\ link_down (nc l') = false /\ peer_link_down l' = peer_link_down l /\
    handed (device (nc l')) = handed (device (nc l)) ++ map pk_data done_ /\
    peer l' = foldl (fun x '(p, r) => if sent_cb p then on_sent (pk_sender p) r x else x) (peer l) (zip done_ rets).
Proof.
  induction ps as [|p ps IH]; intros l b l' H Hl Hd; cbn [flush_loop] in H.
  { injection H as <- <-. exists [], [], []. cbn. rewrite Hd, app_nil_r. done. }
  destruct (qemu_net_queue_deliver (pk_flags p) (pk_data p) (set_packets ps l)) as [r l1] eqn:E1.
  destruct (queue_deliver_handed _ _ _ _ _ E1 Hl) as (c & -> & Hlc & Hh). cbn [nc set_packets set_queue] in Hh.
  destruct (r =? 0) eqn:Er.
  - injection H as <- <-. exists [], [], (p :: ps). cbn. rewrite Hh, app_nil_r. split_and!; done.
  - apply IH in H as (done_ & rets & rest & -> & Hlen & Hb & Hq & Hl' & Hp & Hh' & Hx);
      [|by destruct (sent_cb p)..].
    exists (p :: done_), (r :: rets), rest. split_and!; try done; [by simpl; lia|..].
    + rewrite Hp. by destruct (sent_cb p).
    + rewrite Hh'. destruct (sent_cb p); cbn; by rewrite Hh, <- app_assoc.
    + rewrite Hx. cbn. by destruct (sent_cb p).
Qed.
End Spec.

(** A client without a handler for vectors gets the first 4096 bytes of a
    packet that is longer. *)
Theorem vector_is_cut {D} {E : Device D} iov (c : client D) :
  nc_sendv_compat iov c = Ok (received_by (dev_receive (ztake 4096 (concat iov))) c).
Proof.
  unfold nc_sendv_compat. pose proof (zlen_nonneg (concat iov)). rewrite iov_to_buf_concat by lia. cbn [obind].
  by rewrite zdrop_le0.
Qed.
