(* ===== verification/Tap.v ===== *)
(** * The network device of the virtual machine (qemu-kvm/net/tap.c)

    Packets for the guest come from the tap device on the leader, which has
    the group agree on each of them before its guest gets it, and from the
    packet buffer on a backup.  A new leader first feeds what is left in the
    buffer ([no_unread_data] is 0) and then turns to the tap device.  What the
    guest sends goes out on the leader; on a backup it only goes to a local
    socket, from which the connection manager learns what was sent.

    The peer in the sense of [NetQueue] is this device; the network card of
    the guest is the client behind it. *)

From S2P Require Import Prelude Bytes Words Ringbuf Fifo State ConManager PacketBuffer Proxy NetQueue.

Open Scope Z_scope.

Definition TAP_BUFSIZE : Z := 4096 + 65536.
Definition EINTR : Z := 4.
Definition EAGAIN : Z := 11.
(** [sizeof(struct virtio_net_hdr)] *)
Definition sizeof_vnet_hdr : Z := 10.

Record TAPState := mk_tap {
  read_poll : bool;
  write_poll : bool;
  using_vnet_hdr : bool;
  host_vnet_hdr_len : Z
}.
Definition tap_read_poll (b : bool) (s : TAPState) : TAPState :=
  mk_tap b (write_poll s) (using_vnet_hdr s) (host_vnet_hdr_len s).
Definition tap_write_poll (b : bool) (s : TAPState) : TAPState :=
  mk_tap (read_poll s) b (using_vnet_hdr s) (host_vnet_hdr_len s).
Definition net_tap_fd_init (vnet_hdr : bool) : TAPState :=
  mk_tap true false false (if vnet_hdr then sizeof_vnet_hdr else 0).

Definition tap_set_vnet_hdr_len (len : Z) (s : TAPState) : TAPState :=
  mk_tap (read_poll s) (write_poll s) (using_vnet_hdr s) len.
(** The assertion says that the header is used when there is one. *)
Definition tap_using_vnet_hdr (use : bool) (s : TAPState) : outcome TAPState :=
  if Bool.eqb (c_true (host_vnet_hdr_len s)) use
  then Ok (mk_tap (read_poll s) (write_poll s) use (host_vnet_hdr_len s)) else Undef.
Definition tap_poll (enable : bool) (s : TAPState) : TAPState := tap_write_poll enable (tap_read_poll enable s).

(** The callback of a queued packet. *)
Definition tap_send_completed (sender len : Z) (s : TAPState) : TAPState := tap_read_poll true s.

(** ** From the guest *)

(** The files that are written: the tap device and [fd_out_bk]. *)
Inductive out_file := Network | Backup.

(** What [writev] answers: bytes written, or an error code as a negative
    number; and what it wrote. *)
Record writer := mk_writer {
  answers : list Z;
  written : list (out_file * list Z)
}.
Definition writev (f : out_file) (iov : list (list Z)) (w : writer) : outcome (Z * writer) :=
  match answers w with
  | [] => Spin
  | k :: ks =>
      Ok (k, mk_writer ks (if k <? 0 then written w else written w ++ [(f, concat iov)]))
  end.

(** [leads] are the answers of [is_leader], one for each round of the loop. *)
Fixpoint tap_write_loop (no_unread_data : Z) (iov : list (list Z)) (leads : list bool) (w : writer)
    : outcome (Z * writer) :=
  match leads with
  | [] => Spin
  | lead :: leads' =>
      let! (len, w) :=
        if lead then
          let! (len, w) := writev Network iov w in
          if no_unread_data =? 0 then writev Backup iov w else Ok (len, w)
        else writev Backup iov w in
      if len =? - EINTR then tap_write_loop no_unread_data iov leads' w else Ok (len, w)
  end.

(** The result: -1 stands for any error but [EAGAIN]. *)
Definition tap_write_packet (no_unread_data : Z) (leads : list bool) (iov : list (list Z)) (s : TAPState) (w : writer)
    : outcome (Z * TAPState * writer) :=
  let! (len, w) := tap_write_loop no_unread_data iov leads w in
  if len =? - EAGAIN then Ok (0, tap_write_poll true s, w)
  else Ok (if len <? 0 then -1 else len, s, w).

Definition zero_header (s : TAPState) : list Z := replicate (Z.to_nat (host_vnet_hdr_len s)) 0.

Definition tap_receive_iov (no_unread_data : Z) (leads : list bool) (iov : list (list Z)) (s : TAPState) (w : writer)
    : outcome (Z * TAPState * writer) :=
  let iovp :=
    if c_true (host_vnet_hdr_len s) && negb (using_vnet_hdr s) then zero_header s :: iov else iov in
  tap_write_packet no_unread_data leads iovp s w.

Definition tap_receive_raw (no_unread_data : Z) (leads : list bool) (buf : list Z) (s : TAPState) (w : writer)
    : outcome (Z * TAPState * writer) :=
  let iov := if c_true (host_vnet_hdr_len s) then [zero_header s] else [] in
  tap_write_packet no_unread_data leads (iov ++ [buf]) s w.

Definition tap_receive (no_unread_data : Z) (leads : list bool) (buf : list Z) (s : TAPState) (w : writer)
    : outcome (Z * TAPState * writer) :=
  if c_true (host_vnet_hdr_len s) && negb (using_vnet_hdr s) then tap_receive_raw no_unread_data leads buf s w
  else tap_write_packet no_unread_data leads [buf] s w.

(** ** To the guest *)

(** What a call of [tap_send] works on: the card with its queue and this
    device, the flag of tap.c, the packet buffers, the proxy with its queue of
    requests, the packets that wait in the tap device, and the number of
    calls of [is_leader] so far. *)
Record machine (D Q : Type) := mk_machine {
  card : link D TAPState;
  no_unread_data : Z;
  buffers : packet_buffers Q;
  node : proxy_node;
  requests : list tailq_entry_t;
  readable : list (list Z);
  asked : nat
}.
Arguments mk_machine {D Q} card no_unread_data buffers node requests readable asked.
Arguments card {D Q} _.
Arguments no_unread_data {D Q} _.
Arguments buffers {D Q} _.
Arguments node {D Q} _.
Arguments requests {D Q} _.
Arguments readable {D Q} _.
Arguments asked {D Q} _.

Section Tap.
Context {D : Type} {E : Device D} {Q : Type} {F : Fifo Q}.
(** The answer to the [n]-th call of [is_leader]; the identity of this server
    and of its requests; and what the other threads make of the node while
    this one waits for the request [cur] to be agreed on. *)
Context (is_leader : nat -> bool) (node_id : Z) (junk : Z * Z) (agreed : Z -> proxy_node -> outcome proxy_node).

Definition set_card v (m : machine D Q) : machine D Q :=
  mk_machine v (no_unread_data m) (buffers m) (node m) (requests m) (readable m) (asked m).
Definition set_no_unread v (m : machine D Q) : machine D Q :=
  mk_machine (card m) v (buffers m) (node m) (requests m) (readable m) (asked m).
Definition set_buffers v (m : machine D Q) : machine D Q :=
  mk_machine (card m) (no_unread_data m) v (node m) (requests m) (readable m) (asked m).
Definition set_submitted p q (m : machine D Q) : machine D Q :=
  mk_machine (card m) (no_unread_data m) (buffers m) p q (readable m) (asked m).
Definition set_readable v (m : machine D Q) : machine D Q :=
  mk_machine (card m) (no_unread_data m) (buffers m) (node m) (requests m) v (asked m).
Definition ask (m : machine D Q) : bool * machine D Q :=
  (is_leader (asked m),
   mk_machine (card m) (no_unread_data m) (buffers m) (node m) (requests m) (readable m) (S (asked m))).

(** A packet that does not fit is cut; without one [read] fails. *)
Definition tap_read_packet (m : machine D Q) : Z * list Z * machine D Q :=
  match readable m with
  | [] => (-1, [], m)
  | p :: ps => let bs := ztake TAP_BUFSIZE p in (zlen bs, bs, set_readable ps m)
  end.

(** The buffer of the device has [TAP_BUFSIZE] bytes, whatever is copied into
    it. *)
Definition read_buffered (m : machine D Q) : outcome (Z * list Z * machine D Q) :=
  let! (size, bs, p) := packet_buffer_to_buffer (buffers m) TAP_BUFSIZE in
  if TAP_BUFSIZE <? zlen bs then Undef else Ok (size, bs, set_buffers p m).

Definition msg_handle (buf : list Z) (size : Z) (m : machine D Q) : outcome (machine D Q) :=
  let '(lead, m) := ask m in
  if lead then
    let! (cur, p, q) := leader_handle_submit_req node_id junk RAW size buf 0 (node m) (requests m) in
    let! p := agreed cur p in
    Ok (set_submitted p q m)
  else Ok m.

(** The packet goes to the card without its header. *)
Definition give (buf : list Z) (size : Z) (m : machine D Q) : outcome (Z * machine D Q) :=
  let s := peer (card m) in
  let hdr := if c_true (host_vnet_hdr_len s) && negb (using_vnet_hdr s) then host_vnet_hdr_len s else 0 in
  if size <? hdr then Undef
  else
    let '(size, l) := qemu_send_packet_async tap_send_completed 0 (zdrop hdr buf) true (card m) in
    let l := if size =? 0 then set_peer (tap_read_poll false (peer l)) l else l in
    Ok (size, set_card l m).

(** One round of the loop, and [size] at its end. *)
Definition tap_send_once (m : machine D Q) : outcome (Z * machine D Q) :=
  let '(lead, m) := ask m in
  let! (size, buf, m) :=
    if lead && (no_unread_data m =? 1) then Ok (tap_read_packet m)
    else
      let! (size, buf, m) := read_buffered m in
      Ok (size, buf, if size =? -99 then set_no_unread 1 m else m) in
  if size <=? 0 then Ok (size, m)
  else
    let '(lead, m) := ask m in
    let! m := if lead then msg_handle buf size m else Ok m in
    give buf size m.

Fixpoint tap_send (fuel : nat) (m : machine D Q) : outcome (machine D Q) :=
  match fuel with
  | O => Spin
  | S fuel' =>
      let! (size, m) := tap_send_once m in
      if (0 <? size) && qemu_can_send_packet (card m) then tap_send fuel' m else Ok m
  end.

(** The loop of the emulator calls it when the device is polled and the card
    can take a packet: [tap_can_send]. *)
Definition tap_poll_read (fuel : nat) (m : machine D Q) : outcome (machine D Q) :=
  if read_poll (peer (card m)) && qemu_can_send_packet (card m) then tap_send fuel m else Ok m.
End Tap.
