(* ===== verification/TapSpec.v ===== *)
(** * What the guest gets and what it sends

    The guest of the leader gets the packets that the group is asked to agree
    on, the guest of a backup those the packet buffer delivers, each in order
    and once, whatever the card refuses in between.  Only a leader writes to
    the network. *)

From S2P Require Import Prelude Bytes Words Ringbuf Fifo RingbufSpec State ConManager ConSpec Segment PacketBuffer PacketSpec Proxy NetQueue NetQueueSpec Tap.

Open Scope Z_scope.

(** ** The queue of the card *)

(** The bytes of the header that is removed. *)
Definition hdr (s : TAPState) : Z :=
  if c_true (host_vnet_hdr_len s) && negb (using_vnet_hdr s) then host_vnet_hdr_len s else 0.

Section Card.
Context {D : Type} {E : Device D} {W : DeviceLaws D}.

(** Links that are up; the device is polled unless a packet waits for the
    card. *)
Record steady (l : link D TAPState) : Prop := {
  st_links : link_down (nc l) = false /\ peer_link_down l = false;
  st_idle : delivering (send_queue l) = false;
  st_poll : match NetQueue.packets (send_queue l) with
            | [] => read_poll (peer l) = true
            | [p] => read_poll (peer l) = false /\ sent_cb p = true
            | _ => False
            end
}.

(** What the card has, and what waits for it. *)
Definition gave (l : link D TAPState) : list (list Z) :=
  handed (device (nc l)) ++ map pk_data (NetQueue.packets (send_queue l)).

Lemma steady_empty l : steady l -> read_poll (peer l) = true -> NetQueue.packets (send_queue l) = [].
Proof. intros [_ _ H] Hr. destruct (NetQueue.packets (send_queue l)) as [|p [|]]; [done|destruct H; congruence|done]. Qed.

(** Sending one packet; the device is not polled when it had to be queued. *)
Definition send_one (data : list Z) (l : link D TAPState) : Z * link D TAPState :=
  let '(size, l) := qemu_send_packet_async tap_send_completed 0 data true l in
  (size, if size =? 0 then set_peer (tap_read_poll false (peer l)) l else l).

Lemma send_one_steady data l size l' :
  send_one data l = (size, l') -> steady l -> read_poll (peer l) = true ->
  steady l' /\ gave l' = gave l ++ [data] /\ hdr (peer l') = hdr (peer l) /\
  (size <> 0 -> read_poll (peer l') = true).
Proof.
  intros H Hs Hr. pose proof (steady_empty l Hs Hr) as Hp. destruct Hs as [[Hl Hpl] Hd _].
  unfold send_one, qemu_send_packet_async, qemu_send_packet_async_with_flags, qemu_net_queue_send in H.
  rewrite Hpl, Hd in H. cbn [orb] in H. destruct (qemu_can_send_packet l) eqn:Hc; cbn [negb] in H.
  2: { injection H as <- <-. unfold gave. cbn. rewrite Hp. split_and!; [by split; cbn; rewrite ?Hp|by rewrite app_nil_r|done..]. }
  destruct (qemu_net_queue_deliver QEMU_NET_PACKET_FLAG_NONE data l) as [r l1] eqn:E1.
  destruct (queue_deliver_handed _ _ _ _ _ E1 Hl) as (c & -> & Hlc & Hh). destruct (r =? 0) eqn:Er.
  - injection H as <- <-. unfold gave. cbn. rewrite Hp, Hh, app_nil_r. split_and!; [by split; cbn; rewrite ?Hp|done..].
  - rewrite Er in H. injection H as <- <-. unfold qemu_net_queue_flush, gave. cbn. rewrite Hp. cbn.
    rewrite Hh, !app_nil_r. split_and!; [by split; cbn; rewrite ?Hp|done..].
Qed.

(** When the card can take packets again it gets the one that waits. *)
Lemma flush_steady l b l' :
  qemu_flush_queued_packets tap_send_completed l = (b, l') -> steady l ->
  steady l' /\ gave l' = gave l /\ hdr (peer l') = hdr (peer l).
Proof.
  intros H [[Hl Hpl] Hd Hp]. unfold qemu_flush_queued_packets, qemu_net_queue_flush in H. cbn [send_queue set_nc] in H.
  destruct (flush_loop_spec tap_send_completed _ _ _ _ H Hl Hd)
    as (done_ & rets & rest & Heq & Hlen & _ & Hq & Hl' & Hpl' & Hh & Hx). cbn in Hh, Hx.
  unfold gave. rewrite Hq, Hh. cbn [NetQueue.packets]. rewrite Heq in *. split; [|split].
  - split; [by rewrite Hpl'|by rewrite Hq|]. rewrite Hq, Hx. cbn [NetQueue.packets].
    destruct done_ as [|p [|]]; destruct rest as [|p' [|]]; cbn in Hp |- *; try done; destruct rets as [|r [|]]; try done.
    destruct Hp as [_ Hcb]. unfold foldl. by rewrite Hcb.
  - by rewrite map_app, app_assoc.
  - rewrite Hx. generalize (zip done_ rets) as z, (peer l) as s. induction z as [|[p r] z IH]; intros s; [done|].
    cbn [foldl]. rewrite IH. by destruct (sent_cb p).
Qed.

Lemma device_steady l d :
  handed d = handed (device (nc l)) -> steady l ->
  steady (set_nc (set_device d (nc l)) l) /\ gave (set_nc (set_device d (nc l)) l) = gave l.
Proof. intros Hd [H1 H2 H3]. split; [by split|]. unfold gave. cbn. by rewrite Hd. Qed.
End Card.

(** ** One call of [tap_send] *)

Section Machine.
Context {D : Type} {E : Device D} {W : DeviceLaws D} {Q : Type} {F : Fifo Q}.
Context (node_id : Z) (junk : Z * Z) (agreed : Z -> proxy_node -> outcome proxy_node).

Abbreviation machine := (machine D Q).
Abbreviation send_once lead := (tap_send_once (fun _ => lead) node_id junk agreed).
Abbreviation send_all lead := (tap_send (fun _ => lead) node_id junk agreed).
Abbreviation poll_read lead := (tap_poll_read (fun _ => lead) node_id junk agreed).

Definition ready (m : machine) : Prop := steady (card m) /\ read_poll (peer (card m)) = true.

(** The request for a packet: its length has 16 bits. *)
Definition raw_request (bs : list Z) : tailq_entry_t :=
  mk_tailq RAW (snd junk) (fst junk) (ztake (u16 (zlen bs)) bs).

Definition cut (bs : list Z) : list Z := ztake TAP_BUFSIZE bs.
Definition strip (m : machine) (bs : list Z) : list Z := zdrop (hdr (peer (card m))) bs.

Lemma give_ready buf size (m : machine) size' m' :
  give buf size m = Ok (size', m') -> ready m ->
  steady (card m') /\ (size' <> 0 -> ready m') /\ gave (card m') = gave (card m) ++ [strip m buf] /\
  hdr (peer (card m')) = hdr (peer (card m)) /\
  buffers m' = buffers m /\ requests m' = requests m /\ readable m' = readable m /\ no_unread_data m' = no_unread_data m.
Proof.
  unfold give. fold (hdr (peer (card m))). intros H [Hs Hr]. destruct (size <? hdr (peer (card m))); [done|].
  fold (strip m buf) in H. destruct (send_one (strip m buf) (card m)) as [r l] eqn:E1. unfold send_one in E1.
  destruct (qemu_send_packet_async tap_send_completed 0 (strip m buf) true (card m)) as [r1 l1] eqn:E2.
  injection E1 as -> E1. rewrite E1 in H. injection H as <- <-.
  destruct (send_one_steady (strip m buf) (card m) r l) as (H1 & H2 & H3 & H4); [unfold send_one; by rewrite E2, E1|done..|].
  cbn. split_and!; try done. intros Hne. split; [done|]. by apply H4.
Qed.

Lemma submit_raw buf (m : machine) m' :
  msg_handle (fun _ => true) node_id junk agreed buf (zlen buf) m = Ok m' -> 0 < zlen buf <= TAP_BUFSIZE ->
  card m' = card m /\ buffers m' = buffers m /\ readable m' = readable m /\ no_unread_data m' = no_unread_data m /\
  requests m' = requests m ++ [raw_request buf].
Proof.
  intros H Hb. unfold msg_handle, leader_handle_submit_req, next_request in H. cbn in H.
  rewrite (proj2 (Z.eqb_neq (zlen buf) 0)), (proj2 (Z.leb_le (zlen buf) TAILQ_CMD_SIZE)), load_all in H
    by (unfold TAILQ_CMD_SIZE, TAP_BUFSIZE in *; lia). cbn [obind] in H.
  destruct (agreed _ _) as [p| |]; try done. by injection H as <-.
Qed.

(** The packet goes to the group, on a leader, and to the card. *)
Definition pass (lead : bool) (buf : list Z) (size : Z) (m : machine) : outcome (Z * machine) :=
  let m := snd (ask (fun _ => lead) m) in
  let! m := if lead then msg_handle (fun _ => lead) node_id junk agreed buf size m else Ok m in
  give buf size m.

Lemma pass_ready lead buf (m : machine) size' m' :
  pass lead buf (zlen buf) m = Ok (size', m') -> 0 < zlen buf <= TAP_BUFSIZE -> ready m ->
  steady (card m') /\ (size' <> 0 -> ready m') /\ gave (card m') = gave (card m) ++ [strip m buf] /\
  hdr (peer (card m')) = hdr (peer (card m)) /\
  buffers m' = buffers m /\ requests m' = requests m ++ (if lead then [raw_request buf] else []) /\
  readable m' = readable m /\ no_unread_data m' = no_unread_data m.
Proof.
  unfold pass. intros H Hb Hr. set (m0 := snd (ask (fun _ => lead) m)) in H.
  destruct lead.
  - destruct (msg_handle _ _ _ _ _ _ _) as [m1| |] eqn:E1; try done. cbn [obind] in H.
    destruct (submit_raw _ _ _ E1 Hb) as (Hc & Hb1 & Hr1 & Hn1 & Hq1).
    destruct (give_ready _ _ _ _ _ H) as (H1 & H2 & H3 & H4 & H5 & H6 & H7 & H8); [by unfold ready; rewrite Hc|].
    unfold strip in *. rewrite Hc in H3, H4. rewrite Hb1 in H5. rewrite Hq1 in H6. rewrite Hr1 in H7. rewrite Hn1 in H8. done.
  - cbn [obind] in H. destruct (give_ready _ _ _ _ _ H Hr) as (H1 & H2 & H3 & H4 & H5 & H6 & H7 & H8).
    rewrite app_nil_r. done.
Qed.
Lemma strip_ext (m m' : machine) l :
  hdr (peer (card m)) = hdr (peer (card m')) -> map (strip m) l = map (strip m') l.
Proof. intros H. apply map_ext. intros bs. unfold strip. by rewrite H. Qed.

(** A round that reads the tap device. *)
Lemma once_reading (m : machine) :
  no_unread_data m = 1 ->
  send_once true m =
    match readable m with
    | [] => Ok (-1, snd (ask (fun _ => true) m))
    | p :: ps =>
        let m1 := set_readable ps (snd (ask (fun _ => true) m)) in
        if zlen (cut p) <=? 0 then Ok (zlen (cut p), m1) else pass true (cut p) (zlen (cut p)) m1
    end.
Proof.
  destruct m as [c n b nd rq re k]. cbn [no_unread_data]. intros ->. destruct re as [|p ps]; [reflexivity|].
  unfold Tap.tap_send_once, tap_read_packet, pass, cut. cbn. by destruct (zlen (ztake TAP_BUFSIZE p) <=? 0).
Qed.

(** A round that reads the packet buffer. *)
Lemma once_buffered lead (m : machine) :
  lead && (no_unread_data m =? 1) = false ->
  send_once lead m =
    let! (size, buf, p) := pb_step Deliver (buffers m) in
    if TAP_BUFSIZE <? zlen buf then Undef
    else
      let m1 := set_buffers p (snd (ask (fun _ => lead) m)) in
      let m1 := if size =? -99 then set_no_unread 1 m1 else m1 in
      if size <=? 0 then Ok (size, m1) else pass lead buf size m1.
Proof.
  intros Hn. destruct m as [c n b nd rq re k]. cbn [no_unread_data] in Hn. unfold Tap.tap_send_once, read_buffered, pass.
  cbn [ask no_unread_data buffers]. rewrite Hn.
  change (packet_buffer_to_buffer b TAP_BUFSIZE) with (pb_step Deliver b).
  destruct (pb_step Deliver b) as [[[size buf] p]| |]; try done. cbn [obind].
  destruct (TAP_BUFSIZE <? zlen buf); [done|]. cbn [obind]. by destruct (size =? -99), (size <=? 0).
Qed.

(** The wait for the agreement always ends. *)
Definition agreement : Prop := forall cur p, exists p', agreed cur p = Ok p'.
(** A packet that has its header and fits into the buffer. *)
Definition whole (m : machine) (bs : list Z) : Prop := hdr (peer (card m)) <= zlen bs <= TAP_BUFSIZE.

Lemma pass_total lead buf (m : machine) :
  agreement -> whole m buf -> 0 < zlen buf -> exists size' m', pass lead buf (zlen buf) m = Ok (size', m').
Proof.
  intros Ha [H1 H2] H0. unfold pass. set (m0 := snd (ask (fun _ => lead) m)).
  assert (exists m1, (if lead then msg_handle (fun _ => lead) node_id junk agreed buf (zlen buf) m0 else Ok m0) = Ok m1 /\
    card m1 = card m) as (m1 & -> & Hc).
  { destruct lead; [|by exists m0]. unfold msg_handle, leader_handle_submit_req, next_request. cbn.
    rewrite (proj2 (Z.eqb_neq (zlen buf) 0)), (proj2 (Z.leb_le (zlen buf) TAILQ_CMD_SIZE)), load_all
      by (unfold TAILQ_CMD_SIZE, TAP_BUFSIZE in *; lia). cbn [obind].
    edestruct Ha as [p' ->]. cbn [obind]. by eexists. }
  cbn [obind]. unfold give. fold (hdr (peer (card m1))). rewrite Hc, (proj2 (Z.ltb_ge _ _)) by done.
  destruct (qemu_send_packet_async _ _ _ _ _) as [r l]. by eexists _, _.
Qed.

(** *** The leader *)

Lemma cut_bounds bs : zlen (cut bs) <= TAP_BUFSIZE.
Proof. unfold cut. rewrite zlen_ztake. unfold TAP_BUFSIZE. lia. Qed.

Lemma full_cons bs l : full (bs :: l) = if decide (bs <> []) then bs :: full l else full l.
Proof. done. Qed.

Lemma full_one bs l : 0 < zlen bs -> full (bs :: l) = bs :: full l.
Proof.
  intros H. rewrite full_cons. destruct (decide (bs <> [])) as [|Hne]; [done|].
  exfalso. apply Hne. intros ->. by apply Z.lt_irrefl in H.
Qed.

Lemma send_leading fuel : forall (m : machine),
  agreement -> no_unread_data m = 1 -> ready m -> (length (readable m) < fuel)%nat ->
  Forall (fun bs => hdr (peer (card m)) <= zlen (cut bs)) (readable m) ->
  exists m' taken, send_all true fuel m = Ok m' /\ readable m = taken ++ readable m' /\
    steady (card m') /\ no_unread_data m' = 1 /\ hdr (peer (card m')) = hdr (peer (card m)) /\
    gave (card m') = gave (card m) ++ map (strip m) (full (map cut taken)) /\
    requests m' = requests m ++ map raw_request (full (map cut taken)).
Proof.
  induction fuel as [|fuel IH]; intros m Ha Hn Hr Hf Hall; [lia|]. cbn [Tap.tap_send]. rewrite once_reading by done.
  destruct (readable m) as [|p ps] eqn:Hre.
  { eexists _, []. cbn [obind]. split; [done|]. cbn. rewrite Hre, !app_nil_r. by destruct Hr. }
  apply Forall_cons in Hall as [Hp Hall]. pose proof (cut_bounds p) as Hcut. set (m1 := set_readable ps (snd (ask (fun _ => true) m))).
  cbn zeta. destruct (Z.leb_spec (zlen (cut p)) 0) as [H0|H0].
  - cbn [obind]. rewrite (proj2 (Z.ltb_ge 0 _)) by done. cbn [andb]. exists m1, [p]. cbn [map]. rewrite full_cons.
    destruct (decide (cut p <> [])) as [Hne|_]; [pose proof (zlen_nonneg (cut p)); destruct (cut p); [done|unfold zlen in *; simpl in *; lia]|].
    cbn. rewrite !app_nil_r. by destruct Hr.
  - destruct (pass_total true (cut p) m1 Ha) as (size' & m2 & E2); [by split|done|].
    destruct (pass_ready true (cut p) m1 size' m2 E2) as (S2 & R2 & G2 & H2 & B2 & Q2 & L2 & N2); [lia|done|].
    rewrite E2. cbn [obind].
    assert (full (map cut [p]) = [cut p]) as Hfull by (by apply full_one).
    destruct ((0 <? size') && qemu_can_send_packet (card m2)) eqn:Hc.
    + apply andb_true_iff in Hc as [Hc%Z.ltb_lt _]. destruct (IH m2) as (m' & taken & E' & L' & S' & N' & H' & G' & Q');
        [done|by rewrite N2|apply R2; lia|rewrite L2; cbn; simpl in Hf; lia|rewrite L2, H2; done|].
      exists m', (p :: taken). change (p :: taken) with ([p] ++ taken). rewrite map_app, full_app, Hfull, map_app, !map_app.
      split_and!; [done| |done|done|by rewrite H', H2| |].
      * cbn [app]. by rewrite <- L', L2.
      * by rewrite G', G2, <- app_assoc, (strip_ext m2 m) by done.
      * by rewrite Q', Q2, <- app_assoc.
    + exists m2, [p]. rewrite Hfull. split_and!; [done|by rewrite L2|done|by rewrite N2|by rewrite H2|by rewrite G2|by rewrite Q2].
Qed.
(** *** Feeding the buffer *)

(** The next item of the buffer: a packet, or nothing that is fed. *)
Lemma next_item cap a :
  exists n bs a', a_step cap Deliver a = Some (n, bs, a') /\
    ((0 < n /\ n = zlen bs /\ a_out a = Pkt bs :: a_out a') \/ (n <= 0 /\ bs = [])).
Proof.
  cbn [a_step]. destruct (a_out a) as [|[bs| |] l]; [|..|destruct (a_udp a)|destruct (a_done a)];
    try (eexists _, _, _; split; [done|]; right; done).
  eexists _, _, _. split; [done|]. destruct bs as [|b bs]; [by right|]. left. cbn [a_out]. unfold zlen. simpl. split_and!; [lia|done..].
Qed.

Lemma send_buffered lead cap fuel : forall (m : machine) a,
  agreement -> lead && (no_unread_data m =? 1) = false -> ready m -> rep cap (buffers m) a ->
  (length (a_out a) < fuel)%nat -> Forall (whole m) (full (pkts (a_out a))) ->
  exists m' n answers a', send_all lead fuel m = Ok m' /\
    a_run cap (replicate n Deliver) a = Some (answers, a') /\
    pb_run (replicate n Deliver) (buffers m) = Ok (answers, buffers m') /\ rep cap (buffers m') a' /\
    steady (card m') /\ hdr (peer (card m')) = hdr (peer (card m)) /\ readable m' = readable m /\
    gave (card m') = gave (card m) ++ map (strip m) (full (map snd answers)) /\
    requests m' = requests m ++ (if lead then map raw_request (full (map snd answers)) else []).
Proof.
  induction fuel as [|fuel IH]; intros m a Ha Hn Hr Hrep Hf Hall; [lia|]. cbn [Tap.tap_send].
  rewrite once_buffered by done. destruct (next_item cap a) as (n & bs & a1 & Hs & Hcase).
  destruct (deliver_refines cap _ _ _ _ _ Hrep Hs) as (p1 & Hp1 & Hrep1). rewrite Hp1. cbn [obind]. cbn zeta.
  set (m1 := set_buffers p1 (snd (ask (fun _ => lead) m))).
  destruct Hcase as [(H0 & -> & Hout)|[H0 ->]].
  - rewrite Hout in Hall, Hf. assert (full (pkts (Pkt bs :: a_out a1)) = bs :: full (pkts (a_out a1))) as Hfu by (by apply full_one).
    rewrite Hfu in Hall. apply Forall_cons in Hall as [Hw Hall].
    rewrite (proj2 (Z.ltb_ge TAP_BUFSIZE _)), (proj2 (Z.eqb_neq (zlen bs) (-99))), (proj2 (Z.leb_gt (zlen bs) 0)) by (destruct Hw; lia).
    destruct (pass_total lead bs m1 Ha Hw H0) as (size' & m2 & E2).
    destruct (pass_ready lead bs m1 size' m2 E2) as (S2 & R2 & G2 & H2 & B2 & Q2 & L2 & N2); [destruct Hw; lia|done|].
    rewrite E2. cbn [obind]. assert (full [bs] = [bs]) as Hf1 by (by apply full_one).
    destruct ((0 <? size') && qemu_can_send_packet (card m2)) eqn:Hc.
    + apply andb_true_iff in Hc as [Hc%Z.ltb_lt _].
      destruct (IH m2 a1) as (m' & k & answers & a' & E' & A' & P' & R' & S' & H' & L' & G' & Q');
        [done|by rewrite N2|apply R2; lia|by rewrite B2|simpl in Hf; lia|by eapply Forall_impl; [exact Hall|]; intros x; unfold whole; rewrite H2|].
      exists m', (S k), ((zlen bs, bs) :: answers), a'. cbn [replicate a_run pb_run map snd].
      rewrite Hs, A', Hp1. cbn [obind]. rewrite B2 in P'. change (buffers m1) with p1 in P'. rewrite P'. cbn [obind].
      change (bs :: map snd answers) with ([bs] ++ map snd answers). rewrite full_app, Hf1, !map_app.
      split_and!; [done..|by rewrite H', H2|by rewrite L', L2| |].
      * by rewrite G', G2, <- app_assoc, (strip_ext m2 m) by done.
      * rewrite Q', Q2, <- app_assoc. by destruct lead.
    + exists m2, 1%nat, [(zlen bs, bs)], a1. cbn [replicate a_run pb_run map snd]. rewrite Hs, Hp1, Hf1, B2. cbn [obind].
      split_and!; [done..|by rewrite H2|by rewrite L2|by rewrite G2|]. rewrite Q2. by destruct lead.
  - change (TAP_BUFSIZE <? zlen []) with false. cbn match. rewrite (proj2 (Z.leb_le n 0)) by done. cbn [obind].
    rewrite (proj2 (Z.ltb_ge 0 n)) by done. cbn [andb].
    exists (if n =? -99 then set_no_unread 1 m1 else m1), 1%nat, [(n, [])], a1. cbn [replicate a_run pb_run map snd].
    rewrite Hs, Hp1. cbn [obind]. assert (full [[]] = []) as -> by done. destruct Hr as [Hst _].
    destruct (n =? -99); cbn; rewrite !app_nil_r; split_and!; try done; by destruct lead; rewrite ?app_nil_r.
Qed.
(** ** The machine at work *)

(** A packet arrives at the tap device, the emulator polls the devices, or
    the card goes on: its driver has made room, and the queue is flushed. *)
Inductive tap_event :=
| Arrives (bs : list Z)
| Poll
| Wake (f : D -> D).

Definition tap_step lead (e : tap_event) (m : machine) : outcome machine :=
  match e with
  | Arrives bs => Ok (set_readable (readable m ++ [bs]) m)
  | Poll => poll_read lead (S (length (readable m))) m
  | Wake f =>
      let l := set_nc (set_device (f (device (nc (card m)))) (nc (card m))) (card m) in
      Ok (set_card (snd (qemu_flush_queued_packets tap_send_completed l)) m)
  end.
Fixpoint tap_run lead (es : list tap_event) (m : machine) : outcome machine :=
  match es with
  | [] => Ok m
  | e :: es' => let! m := tap_step lead e m in tap_run lead es' m
  end.

Definition arrivals (es : list tap_event) : list (list Z) :=
  omap (fun e => match e with Arrives bs => Some bs | _ => None end) es.

(** Packets that [read] returns whole, and cards that lose nothing. *)
Definition event_ok (m : machine) (e : tap_event) : Prop :=
  match e with
  | Arrives bs => whole m bs /\ bs <> []
  | Poll => True
  | Wake f => forall d, handed (f d) = handed d
  end.

Lemma full_cut (m : machine) l : Forall (fun bs => whole m bs /\ bs <> []) l -> full (map cut l) = l.
Proof.
  induction 1 as [|bs l [[_ Hb] Hne] _ IH]; [done|]. cbn [map].
  assert (cut bs = bs) as -> by (unfold cut; by rewrite ztake_ge). by rewrite full_cons, decide_True, IH.
Qed.

Lemma tap_step_leads (m : machine) e :
  agreement -> no_unread_data m = 1 -> steady (card m) -> event_ok m e ->
  Forall (fun bs => whole m bs /\ bs <> []) (readable m) ->
  exists m' taken, tap_step true e m = Ok m' /\ readable m ++ arrivals [e] = taken ++ readable m' /\
    steady (card m') /\ no_unread_data m' = 1 /\ hdr (peer (card m')) = hdr (peer (card m)) /\
    gave (card m') = gave (card m) ++ map (strip m) taken /\ requests m' = requests m ++ map raw_request taken.
Proof.
  intros Ha Hn Hs He Hall. destruct e as [bs| |f]; cbn [tap_step arrivals omap list_omap].
  - eexists _, []. split; [done|]. cbn. by rewrite !app_nil_r.
  - rewrite app_nil_r. unfold Tap.tap_poll_read. destruct (read_poll (peer (card m))) eqn:Hr; cbn [andb];
      [destruct (qemu_can_send_packet (card m))|]; [|by exists m, []; cbn; rewrite !app_nil_r..].
    destruct (send_leading (S (length (readable m))) m) as (m' & taken & E' & L' & S' & N' & H' & G' & Q'); [done..|by split|lia| |].
    { eapply Forall_impl; [exact Hall|]. intros bs [[Hb1 Hb2] _]. cbn beta. unfold cut. by rewrite ztake_ge. }
    exists m', taken. rewrite L' in Hall. apply Forall_app in Hall as [Htaken _]. rewrite (full_cut m taken Htaken) in G', Q'. done.
  - rewrite app_nil_r. set (l := set_nc _ _). destruct (qemu_flush_queued_packets tap_send_completed l) as [b l'] eqn:E1.
    destruct (device_steady (card m) (f (device (nc (card m)))) (He _) Hs) as [Hs1 G1].
    destruct (flush_steady l b l' E1 Hs1) as (Hs2 & G2 & H2). eexists _, []. split; [done|]. cbn. rewrite !app_nil_r.
    split_and!; try done. rewrite G2. done.
Qed.

(** C11. The guest of a leader gets what the group is asked to agree on.
    However packets arrive, the devices are polled and the card refuses
    packets and goes on: the packets that have left the tap device were all
    submitted, in the order of their arrival, and the card has or will get
    them in that order without their headers, each of them once. *)
Theorem leader_feeds_what_it_submits es : forall (m : machine),
  agreement -> no_unread_data m = 1 -> steady (card m) -> Forall (event_ok m) es ->
  Forall (fun bs => whole m bs /\ bs <> []) (readable m) ->
  exists m' taken, tap_run true es m = Ok m' /\ readable m ++ arrivals es = taken ++ readable m' /\
    gave (card m') = gave (card m) ++ map (strip m) taken /\
    requests m' = requests m ++ map raw_request taken.
Proof.
  induction es as [|e es IH]; intros m Ha Hn Hs Hes Hall; cbn [tap_run].
  { exists m, []. cbn. by rewrite !app_nil_r. }
  apply Forall_cons in Hes as [He Hes].
  destruct (tap_step_leads m e Ha Hn Hs He Hall) as (m1 & t1 & E1 & L1 & S1 & N1 & H1 & G1 & Q1). rewrite E1. cbn [obind].
  assert (forall bs, whole m bs <-> whole m1 bs) as Hw by (intros bs; unfold whole; by rewrite H1).
  destruct (IH m1) as (m' & taken & E' & L' & G' & Q'); [done..| | |].
  - eapply Forall_impl; [exact Hes|]. intros [bs| |f]; cbn [event_ok]; try done. by rewrite Hw.
  - assert (Forall (fun bs => whole m bs /\ bs <> []) (t1 ++ readable m1)) as [_ Hre]%Forall_app.
    { rewrite <- L1. apply Forall_app. split; [done|]. destruct e as [bs| |f]; [by apply Forall_singleton|by constructor..]. }
    eapply Forall_impl; [exact Hre|]. intros bs. cbn beta. by rewrite Hw.
  - exists m', (t1 ++ taken). split; [done|]. rewrite !map_app, G', Q', G1, Q1, <- !app_assoc, (strip_ext m1 m) by done.
    split_and!; [|done..]. change (arrivals (e :: es)) with (arrivals ([e] ++ es)). unfold arrivals in *.
    rewrite omap_app, app_assoc, L1, <- app_assoc, L'. done.
Qed.

(** C12. The guest of a backup gets what the packet buffer delivers: a call of
    [tap_send] comes to an end, amounts to a number of deliveries of the
    buffer, whose packets the card has or will get in order without their
    headers, and neither takes a packet from the tap device nor submits one. *)
Theorem backup_feeds_the_buffer cap fuel (m : machine) a :
  agreement -> ready m -> rep cap (buffers m) a ->
  (length (a_out a) < fuel)%nat -> Forall (whole m) (full (pkts (a_out a))) ->
  exists m' n answers a', send_all false fuel m = Ok m' /\
    a_run cap (replicate n Deliver) a = Some (answers, a') /\
    pb_run (replicate n Deliver) (buffers m) = Ok (answers, buffers m') /\ rep cap (buffers m') a' /\
    gave (card m') = gave (card m) ++ map (strip m) (full (map snd answers)) /\
    readable m' = readable m /\ requests m' = requests m.
Proof.
  intros Ha Hr Hrep Hf Hall.
  destruct (send_buffered false cap fuel m a) as (m' & n & answers & a' & E' & A' & P' & R' & S' & H' & L' & G' & Q'); [done..|].
  exists m', n, answers, a'. rewrite Q', app_nil_r. done.
Qed.

(** A new leader that still feeds its guest from the buffer has the group
    agree a second time on packets it has agreed on. *)
Theorem new_leader_submits_again cap fuel (m : machine) a :
  agreement -> no_unread_data m = 0 -> ready m -> rep cap (buffers m) a ->
  (length (a_out a) < fuel)%nat -> Forall (whole m) (full (pkts (a_out a))) ->
  exists m' n answers a', send_all true fuel m = Ok m' /\
    pb_run (replicate n Deliver) (buffers m) = Ok (answers, buffers m') /\ rep cap (buffers m') a' /\
    gave (card m') = gave (card m) ++ map (strip m) (full (map snd answers)) /\
    requests m' = requests m ++ map raw_request (full (map snd answers)).
Proof.
  intros Ha Hn Hr Hrep Hf Hall.
  destruct (send_buffered true cap fuel m a) as (m' & n & answers & a' & E' & A' & P' & R' & S' & H' & L' & G' & Q');
    [done|by rewrite Hn|done..|].
  exists m', n, answers, a'. done.
Qed.

(** A packet of the group always fits into the buffer of the device, although
    [packet_buffer_to_buffer] does not look at its size; but one of 64
    kilobytes or more is cut to a few bytes. *)
Theorem request_length bs :
  zlen (tq_cmd (raw_request bs)) <= TAP_BUFSIZE /\ (2 ^ 16 <= zlen bs -> tq_cmd (raw_request bs) <> bs).
Proof.
  cbn [tq_cmd raw_request]. assert (0 <= u16 (zlen bs) < 2 ^ 16) as Hu by (by apply Z.mod_pos_bound).
  rewrite zlen_ztake. unfold TAP_BUFSIZE. split; [lia|]. intros Hl Heq. apply (f_equal zlen) in Heq.
  rewrite zlen_ztake in Heq. lia.
Qed.
(** A server that stops being the leader between the two questions of a
    round gives its guest a packet from the network that no other guest gets:
    it is not submitted. *)
Theorem lost_leader_feeds_unsubmitted (m : machine) p ps :
  ready m -> no_unread_data m = 1 -> readable m = p :: ps -> whole m p -> p <> [] ->
  exists size m', Tap.tap_send_once (fun n => Nat.eqb n (asked m)) node_id junk agreed m = Ok (size, m') /\
    gave (card m') = gave (card m) ++ [strip m p] /\ requests m' = requests m.
Proof.
  intros Hr Hn Hre [Hw1 Hw2] Hne. destruct m as [c n b nd rq re k]. cbn in Hn, Hre, Hw1, Hr. subst n re.
  assert (0 < zlen p) as H0 by (destruct p; [done|unfold zlen; simpl; lia]).
  set (m := mk_machine c 1 b nd rq ps (S (S k))). unfold Tap.tap_send_once. cbn [ask asked no_unread_data]. rewrite Nat.eqb_refl.
  cbn [andb Z.eqb Pos.eqb]. unfold tap_read_packet. cbn [readable obind]. rewrite ztake_ge by done.
  rewrite (proj2 (Z.leb_gt (zlen p) 0)) by done. cbn [set_readable ask asked].
  rewrite (proj2 (Nat.eqb_neq (S k) k)) by lia. cbn [obind]. fold m. destruct (give p (zlen p) m) as [[size m']| |] eqn:E1.
  - exists size, m'. split; [done|]. by destruct (give_ready _ _ _ _ _ E1 Hr) as (_ & _ & H3 & _ & _ & H6 & _).
  - unfold give in E1. fold (hdr (peer (card m))) in E1. rewrite (proj2 (Z.ltb_ge _ _)) in E1 by done. repeat case_match; done.
  - unfold give in E1. fold (hdr (peer (card m))) in E1. rewrite (proj2 (Z.ltb_ge _ _)) in E1 by done. repeat case_match; done.
Qed.
End Machine.

(** ** From the guest *)

(** The bytes that are written for a packet of the guest. *)
Definition on_wire (s : TAPState) (buf : list Z) : list Z :=
  if c_true (host_vnet_hdr_len s) && negb (using_vnet_hdr s) then zero_header s ++ buf else buf.

Lemma tap_receive_write nu leads buf s w :
  exists iov, tap_receive nu leads buf s w = tap_write_packet nu leads iov s w /\ concat iov = on_wire s buf.
Proof.
  unfold tap_receive, tap_receive_raw, on_wire. destruct (c_true (host_vnet_hdr_len s)), (using_vnet_hdr s); cbn [andb negb];
    eexists; (split; [done|]); cbn; by rewrite ?app_nil_r.
Qed.

(** What the loop adds: only while it leads to the network, and always whole
    packets. *)
Lemma write_loop_outs nu iov leads : forall w len w',
  tap_write_loop nu iov leads w = Ok (len, w') ->
  exists outs, written w' = written w ++ outs /\ Forall (fun x => snd x = concat iov) outs /\
    (true ∉ leads -> Forall (fun x => fst x = Backup) outs) /\
    (false ∉ leads -> nu <> 0 -> Forall (fun x => fst x = Network) outs).
Proof.
  induction leads as [|lead leads IH]; intros w len w' H; [done|]. cbn [tap_write_loop] in H.
  assert (forall f w1 k w2, writev f iov w1 = Ok (k, w2) -> exists o, written w2 = written w1 ++ o /\
    Forall (fun x => x = (f, concat iov)) o) as Hw.
  { intros f w1 k w2. unfold writev. destruct (answers w1) as [|a ks]; [done|]. intros [= <- <-]. cbn.
    destruct (a <? 0); [by exists []; rewrite app_nil_r|]. exists [(f, concat iov)]. by repeat constructor. }
  destruct (if lead then _ else _) as [[k w1]| |] eqn:E1; try done. cbn [obind] in H.
  assert (exists o, written w1 = written w ++ o /\ Forall (fun x => snd x = concat iov) o /\
    (lead = false -> Forall (fun x => fst x = Backup) o) /\ (lead = true -> nu <> 0 -> Forall (fun x => fst x = Network) o))
    as (o1 & O1 & O2 & O3 & O4).
  { destruct lead.
    - destruct (writev Network iov w) as [[k1 w0]| |] eqn:E2; try done. cbn [obind] in E1.
      destruct (Hw _ _ _ _ E2) as (o & Ho & Hof). destruct (Z.eqb_spec nu 0) as [->|Hnu].
      + destruct (Hw _ _ _ _ E1) as (o' & Ho' & Hof'). exists (o ++ o'). rewrite Ho', Ho, <- app_assoc. split_and!; [done| |done..].
        apply Forall_app. split; (eapply Forall_impl; [eassumption|]); by intros x ->.
      + injection E1 as <- <-. exists o. split_and!; [done| |done|]; intros; (eapply Forall_impl; [exact Hof|]); by intros x ->.
    - destruct (Hw _ _ _ _ E1) as (o & Ho & Hof). exists o. split_and!; [done| | |done]; intros;
        (eapply Forall_impl; [exact Hof|]); by intros x ->. }
  destruct (k =? - EINTR).
  - destruct (IH _ _ _ H) as (o2 & P1 & P2 & P3 & P4). exists (o1 ++ o2). rewrite P1, O1, <- app_assoc.
    split_and!; [done|by apply Forall_app|intros Hn|intros Hn Hnu]; apply not_elem_of_cons in Hn as [Hn1 Hn2]; apply Forall_app;
      (split; [|by auto]); destruct lead; naive_solver.
  - injection H as <- <-. exists o1. split_and!; [done..|intros Hn|intros Hn Hnu]; apply not_elem_of_cons in Hn as [Hn1 Hn2];
      destruct lead; naive_solver.
Qed.

(** C23. A server that is no leader writes nothing to the network, whatever
    its guest sends and whatever [writev] answers, and a leader that has fed
    its guest the backlog writes nothing to the local socket; what is written
    are whole packets. *)
Theorem only_leader_writes_network nu leads buf s w len s' w' :
  tap_receive nu leads buf s w = Ok (len, s', w') ->
  exists outs, written w' = written w ++ outs /\ Forall (fun x => snd x = on_wire s buf) outs /\
    (true ∉ leads -> Forall (fun x => fst x = Backup) outs) /\
    (false ∉ leads -> nu <> 0 -> Forall (fun x => fst x = Network) outs).
Proof.
  destruct (tap_receive_write nu leads buf s w) as (iov & -> & <-). unfold tap_write_packet.
  destruct (tap_write_loop nu iov leads w) as [[k w1]| |] eqn:E1; try done. cbn [obind]. intros H.
  destruct (write_loop_outs _ _ _ _ _ _ E1) as (outs & H1). exists outs. by destruct (k =? - EAGAIN); injection H as <- <- <-.
Qed.

(** What the guest of a backup sends on a TCP connection is known to its
    host: the device writes the packet to the local socket with the header
    the connection manager expects, and [watch_guest_out] records the
    sequence number behind its payload. *)
Theorem backup_output_is_recorded t h1 h2 nu buf s k ks outs seg post :
  on_wire s buf = sg_header seg ++ post -> sg_ok seg -> 0 <= k ->
  exists d w', tap_receive nu [false] buf s (mk_writer (k :: ks) outs) = Ok (k, s, w') /\
    written w' = outs ++ [(Backup, d)] /\
    watch_guest_out t h1 h2 d (zlen d) =
      update_con_out_seq t (u32 (sg_seq seg + sg_len seg))
        (mk_con (sg_dst seg) (sg_dport seg) h1 (sg_src seg) (sg_sport seg) h2).
Proof.
  intros Hwire Hok Hk. destruct (tap_receive_write nu [false] buf s (mk_writer (k :: ks) outs)) as (iov & -> & Hiov).
  exists (sg_header seg ++ post). eexists. unfold tap_write_packet. cbn [tap_write_loop]. unfold writev. cbn [answers obind].
  rewrite (proj2 (Z.eqb_neq k (- EINTR))) by (unfold EINTR; lia). cbn [obind].
  split; [by rewrite (proj2 (Z.eqb_neq k (- EAGAIN))), (proj2 (Z.ltb_ge k 0)) by (unfold EAGAIN; lia)|]. split; [cbn; by rewrite Hiov, Hwire|].
  apply watch_segment; [done|]. pose proof (zlen_nonneg post). rewrite zlen_app.
  assert (24 < zlen (sg_header seg)); [|unfold eth_hdr_len, MSG_OFF; lia].
  destruct Hok. unfold sg_header, sg_chunks. cbn [concat]. rewrite !zlen_app, sgo_pre, sgo_id.
  pose proof (zlen_nonneg (sg_ipopt seg)). unfold zlen in *. simpl. lia.
Qed.

(** A leader that still feeds the backlog writes to both files in turn; when
    the second write is interrupted, the packet goes to the network twice. *)
Theorem interrupted_write_repeats_packet buf s outs :
  exists w', tap_receive 0 [true; true] buf s (mk_writer [60; - EINTR; 60; 60] outs) = Ok (60, s, w') /\
    written w' = outs ++ [(Network, on_wire s buf); (Network, on_wire s buf); (Backup, on_wire s buf)].
Proof.
  destruct (tap_receive_write 0 [true; true] buf s (mk_writer [60; - EINTR; 60; 60] outs)) as (iov & -> & <-).
  eexists. split; [done|]. cbn. change (- EINTR <? 0) with true. by rewrite <- !app_assoc.
Qed.

(** ** A card *)

(** It refuses packets while the flag is set, and empty ones. *)
Abbreviation demo_card := (bool * list (list Z))%type.

#[export] Instance demo_device : Device demo_card := {
  dev_receive data d := if fst d || (zlen data =? 0) then (0, d) else (zlen data, (false, snd d ++ [data]));
  dev_receive_raw := None;
  dev_receive_iov := None;
  dev_can_receive := None
}.

#[export] Program Instance demo_device_laws : DeviceLaws demo_card := { handed d := snd d }.
Next Obligation.
  intros data [busy l] r d'. cbn. destruct (busy || (zlen data =? 0)) eqn:Hb; intros [= <- <-]; [done|].
  apply orb_false_iff in Hb as [_ Hz]. by rewrite Hz.
Qed.
Next Obligation. done. Qed.

Definition demo_agreed (cur : Z) (p : proxy_node) : outcome proxy_node := Ok (set_highest_rec cur p).
Lemma demo_agreement : agreement demo_agreed.
Proof. intros cur p. by eexists. Qed.

(** A small packet buffer, and one with a packet in it. *)
Definition small_buffers : packet_buffers ringbuf_t :=
  let rb := mk_ringbuf (replicate 101 0) 0 0 101 in mk_buffers rb rb 0 0.
Lemma small_rep : rep 100 small_buffers a_init.
Proof.
  set (rb := mk_ringbuf (replicate 101 0) 0 0 101). assert (rb_inv rb) as Hi by (split; simpl; lia || done).
  assert (contents rb = []) as Hc by by apply contents_nil.
  assert (queue_holds 100 101 rb []) as Hh by by split_and!.
  split; fields; try done. by exists 101.
Qed.

Definition demo_packet (x : Z) : list Z := replicate 10 0 ++ [x; x; x].
Definition filled_buffers : packet_buffers ringbuf_t :=
  Eval vm_compute in match pb_step (Write (demo_packet 7)) small_buffers with Ok (_, _, b) => b | _ => small_buffers end.
Lemma filled_rep : rep 100 filled_buffers (add_out (Pkt (demo_packet 7)) a_init).
Proof.
  destruct (write_refines 100 small_buffers a_init (demo_packet 7) 13 [] (add_out (Pkt (demo_packet 7)) a_init) small_rep)
    as (p & Hp & Hr); [reflexivity|]. assert (pb_step (Write (demo_packet 7)) small_buffers = Ok (13, [], filled_buffers)) as Hq by (vm_compute; reflexivity).
  rewrite Hp in Hq. by injection Hq as ->.
Qed.

Definition demo_machine (nu : Z) (b : packet_buffers ringbuf_t) (re : list (list Z)) : machine demo_card ringbuf_t :=
  mk_machine (mk_link qemu_new_net_queue (mk_client false false (false, [])) false (net_tap_fd_init true))
    nu b (mk_proxy [] ∅ 0 0 0 (mk_db [] 0)) [] re 0.
Lemma demo_machine_ready nu b re : ready (demo_machine nu b re).
Proof. by repeat split. Qed.

(** The card refuses the first packet and takes it later. *)
Definition demo_events : list tap_event :=
  [Wake (fun d : demo_card => (true, snd d)); Arrives (demo_packet 1); Arrives (demo_packet 2); Poll; Wake (fun d : demo_card => (false, snd d)); Poll].

Lemma leader_feeds_what_it_submits_witness :
  let m := demo_machine 1 small_buffers [] in
  exists m' taken, tap_run 3 (0, 0) demo_agreed true demo_events m = Ok m' /\
    readable m ++ arrivals demo_events = taken ++ readable m' /\
    gave (card m') = gave (card m) ++ map (strip m) taken /\ requests m' = requests m ++ map (raw_request (0, 0)) taken.
Proof.
  intros m. apply (leader_feeds_what_it_submits 3 (0, 0) demo_agreed demo_events m demo_agreement);
    [done|apply demo_machine_ready| |constructor].
  repeat constructor; done.
Defined.

(** The run ends with both packets at the card. *)
Lemma demo_run :
  match tap_run 3 (0, 0) demo_agreed true demo_events (demo_machine 1 small_buffers []) with
  | Ok m => (device (nc (card m)), readable m) = ((false, [[1; 1; 1]; [2; 2; 2]]), [])
  | _ => False
  end.
Proof. vm_compute. reflexivity. Qed.

Lemma backup_feeds_the_buffer_witness :
  let m := demo_machine 0 filled_buffers [[9]] in
  exists m' n answers a', tap_send (fun _ => false) 3 (0, 0) demo_agreed 2 m = Ok m' /\
    a_run 100 (replicate n Deliver) (add_out (Pkt (demo_packet 7)) a_init) = Some (answers, a') /\
    pb_run (replicate n Deliver) (buffers m) = Ok (answers, buffers m') /\ rep 100 (buffers m') a' /\
    gave (card m') = gave (card m) ++ map (strip m) (full (map snd answers)) /\
    readable m' = readable m /\ requests m' = requests m.
Proof.
  intros m. apply (backup_feeds_the_buffer 3 (0, 0) demo_agreed 100 2 m _ demo_agreement);
    [apply demo_machine_ready|apply filled_rep|simpl; lia|]. repeat constructor; done.
Defined.

Lemma new_leader_submits_again_witness :
  let m := demo_machine 0 filled_buffers [[9]] in
  exists m' n answers a', tap_send (fun _ => true) 3 (0, 0) demo_agreed 2 m = Ok m' /\
    pb_run (replicate n Deliver) (buffers m) = Ok (answers, buffers m') /\ rep 100 (buffers m') a' /\
    gave (card m') = gave (card m) ++ map (strip m) (full (map snd answers)) /\
    requests m' = requests m ++ map (raw_request (0, 0)) (full (map snd answers)).
Proof.
  intros m. apply (new_leader_submits_again 3 (0, 0) demo_agreed 100 2 m (add_out (Pkt (demo_packet 7)) a_init) demo_agreement);
    [done|apply demo_machine_ready|apply filled_rep|simpl; lia|]. repeat constructor; done.
Defined.

Lemma lost_leader_feeds_unsubmitted_witness :
  let m := demo_machine 1 small_buffers [demo_packet 5] in
  exists size m', tap_send_once (fun n => Nat.eqb n (asked m)) 3 (0, 0) demo_agreed m = Ok (size, m') /\
    gave (card m') = gave (card m) ++ [strip m (demo_packet 5)] /\ requests m' = requests m.
Proof.
  intros m. by apply (lost_leader_feeds_unsubmitted 3 (0, 0) demo_agreed m (demo_packet 5) []); [apply demo_machine_ready|..].
Defined.

Lemma only_leader_writes_network_witness :
  let s := net_tap_fd_init true in
  exists outs, [(Backup, on_wire s [7; 8])] = [] ++ outs /\ Forall (fun x => snd x = on_wire s [7; 8]) outs /\
    (true ∉ [false; false] -> Forall (fun x => fst x = Backup) outs) /\
    (false ∉ [false; false] -> 0 <> 0 -> Forall (fun x => fst x = Network) outs).
Proof.
  intros s. by apply (only_leader_writes_network 0 [false; false] [7; 8] s (mk_writer [- EINTR; 12] []) 12 s
    (mk_writer [] [(Backup, on_wire s [7; 8])])).
Defined.

Lemma backup_output_is_recorded_witness :
  let s := net_tap_fd_init true in
  let buf := zdrop 10 (sg_header demo_segment ++ replicate 100 1) in
  exists d w', tap_receive 0 [false] buf s (mk_writer [168] []) = Ok (168, s, w') /\ written w' = [] ++ [(Backup, d)] /\
    watch_guest_out con_manager_tables 7 7 d (zlen d) =
      update_con_out_seq con_manager_tables 1100 (mk_con 33560074 41231 7 1677792778 36895 7).
Proof.
  intros s buf. apply (backup_output_is_recorded con_manager_tables 7 7 0 buf s 168 [] [] demo_segment (replicate 100 1));
    [reflexivity| |done].
  split; try reflexivity; [exists 1|exists 0|..]; split; vm_compute; try reflexivity; try split; discriminate.
Defined.
