(* ===== verification/WaitSpec.v ===== *)
(** * The two waits of the TCP thread

    [handle_tcp_buffer] waits on [tcp_outgoing] for the guest and on
    [tcp_no_empty] for a new segment.  The first wait starts while the mutex
    is held under which the guest's progress is recorded and broadcast, so it
    cannot miss it (a new SYN, which is not broadcast, can only free a segment
    that acknowledges 1); the second starts after every mutex was released. *)

From stdpp Require Import relations.
From S2P Require Import Prelude Bytes Ringbuf Fifo RingbufSpec State.
From S2P Require Import ConManager ConSpec Segment PacketBuffer PacketSpec Proxy.

Open Scope Z_scope.

(** The TCP thread: between two looks at the buffer, about to wait for a
    segment, waiting, or at its end. *)
Inductive tcp_thread :=
| Running
| Leaving
| Waiting_not_empty
| Waiting_outgoing (h1 h2 : Z)
| Exited.

Record waits := mk_waits { w_queues : queues; w_tables : con_tables; w_thread : tcp_thread }.

Definition thread_after (h1 h2 : Z) (n : tcp_next) : tcp_thread :=
  match n with
  | Tcp_wait_not_empty => Leaving
  | Tcp_wait_outgoing => Waiting_outgoing h1 h2
  | Tcp_again => Running
  | Tcp_exit => Exited
  end.

(** The broadcasts. *)
Definition wake_outgoing (woken : bool) (th : tcp_thread) : tcp_thread :=
  match th with Waiting_outgoing _ _ => if woken then Running else th | _ => th end.
Definition wake_not_empty (th : tcp_thread) : tcp_thread :=
  match th with Waiting_not_empty => Running | _ => th end.

(** A round of the thread, as follower or as leader; the thread goes to sleep,
    or wakes up for no reason; the guest sends; a SYN, a segment or another
    packet is applied; the guest is given a packet; [append_no_op].  The two
    buffers are the queues of [PacketSpec], which answer while the bytes fit. *)
Inductive wait_step (w : waits) : waits -> Prop :=
| ws_round leader h1 h2 ret out a :
    w_thread w = Running -> a_step TCP_BUFFER_SIZE (Dump (w_tables w) h1 h2) (w_queues w) = Some (ret, out, a) ->
    wait_step w (mk_waits a (w_tables w) (thread_after h1 h2 (after_dump leader ret)))
| ws_sleep :
    w_thread w = Leaving -> wait_step w (mk_waits (w_queues w) (w_tables w) Waiting_not_empty)
| ws_spurious :
    wait_step w (mk_waits (w_queues w) (w_tables w) (wake_outgoing true (wake_not_empty (w_thread w))))
| ws_guest seq con t :
    update_con_out_seq (w_tables w) seq con = Ok t ->
    wait_step w (mk_waits (w_queues w) t
      (wake_outgoing (tcp_wakeups (w_tables w) <? tcp_wakeups t) (w_thread w)))
| ws_syn isn con t :
    save_isn (w_tables w) isn con = Ok t -> wait_step w (mk_waits (w_queues w) t (w_thread w))
| ws_segment con ack bs n out a :
    a_step TCP_BUFFER_SIZE (WriteTcp con ack bs) (w_queues w) = Some (n, out, a) ->
    wait_step w (mk_waits a (w_tables w) (wake_not_empty (w_thread w)))
| ws_queue op n out a :
    (exists bs, op = Write bs) \/ op = Deliver \/ op = AppendNoOp ->
    a_step TCP_BUFFER_SIZE op (w_queues w) = Some (n, out, a) ->
    wait_step w (mk_waits a (w_tables w) (w_thread w)).

Definition waits_init : waits := mk_waits a_init con_manager_tables Running.

(** ** No wake-up for the guest's progress is lost *)

(** There is a first segment; it is still held back, unless it acknowledges 1. *)
Definition held (w : waits) (h1 h2 : Z) : Prop :=
  exists con ack bs l, a_tcp (w_queues w) = Seg con ack bs :: l /\
    (ack <> 1 -> blocks (w_tables w) h1 h2 ack con = true).

Definition waits_ok (w : waits) : Prop :=
  forall h1 h2, w_thread w = Waiting_outgoing h1 h2 -> held w h1 h2.

(** A change of the table of sequence numbers is broadcast. *)
Lemma update_wakes t seq con t' :
  update_con_out_seq t seq con = Ok t' ->
  con_isn_list t' = con_isn_list t /\
  (con_out_seq_list t' = con_out_seq_list t \/ tcp_wakeups t' = tcp_wakeups t + 1).
Proof.
  unfold update_con_out_seq, LOCK. destruct (out_lock t); [done|]. cbn [obind].
  destruct (match _ with Some s => _ | None => _ end).
  - intros [= <-]. auto.
  - intros [= <-]. auto.
Qed.

Lemma blocks_after_syn t isn c t' h1 h2 ack con :
  save_isn t isn c = Ok t' -> ack <> 1 -> blocks t h1 h2 ack con = true -> blocks t' h1 h2 ack con = true.
Proof.
  unfold save_isn, flush_con_out_seq, LOCK. destruct (out_lock t); [done|]. cbn [obind].
  intros [= <-] Hack. unfold blocks. cbn [con_isn_list con_out_seq_list UNLOCK set_out_lock set_out_seq_list set_isn_list].
  destruct (con_isn_list t !! isn_key h1 h2 con) as [i|] eqn:Hk; [|done].
  destruct (<[c := isn]> (con_isn_list t) !! isn_key h1 h2 con) as [i'|] eqn:Hk'.
  2: { apply lookup_insert_None in Hk' as [Hk' _]. congruence. }
  fold (swap_con c). destruct (decide (swap_con c = clean_con con)) as [He|He].
  - intros Hb%Z.ltb_lt. rewrite He, lookup_insert_eq. cbn [default]. change (u32 (id 0 + 1)) with 1.
    apply Z.ltb_lt. match type of Hb with u32 ?x < _ => pose proof (u32_range x) end. lia.
  - by rewrite lookup_insert_ne.
Qed.

(** What the other operations on the queues leave at the head. *)
Lemma queue_head op q n out a con ack bs l :
  (exists bs, op = Write bs) \/ op = Deliver \/ op = AppendNoOp ->
  a_step TCP_BUFFER_SIZE op q = Some (n, out, a) -> a_tcp q = Seg con ack bs :: l ->
  exists l', a_tcp a = Seg con ack bs :: l'.
Proof.
  intros [[b ->]|[->| ->]] Hst Hq; cbn [a_step] in Hst.
  - destruct (_ && _); [|done]. injection Hst as <- <- <-. cbn. eauto.
  - destruct (a_out q) as [|[b| |] k]; [|..|destruct (a_done _)]; try destruct (a_udp _);
      injection Hst as <- <- <-; cbn; eauto.
  - destruct (_ && _); [|done]. injection Hst as <- <- <-. cbn. rewrite Hq. cbn [app]. eauto.
Qed.

Lemma round_waits w leader h1 h2 ret out a :
  a_step TCP_BUFFER_SIZE (Dump (w_tables w) h1 h2) (w_queues w) = Some (ret, out, a) ->
  waits_ok (mk_waits a (w_tables w) (thread_after h1 h2 (after_dump leader ret))).
Proof.
  intros Hst h1' h2'. cbn [a_step] in Hst. destruct (a_tcp (w_queues w)) as [|[con ack bs|] l] eqn:Hq.
  - injection Hst as <- <- <-. by destruct leader.
  - destruct (blocks _ _ _ _ _) eqn:Hb.
    + injection Hst as <- <- <-. cbn. intros [= <- <-]. exists con, ack, bs, l. by split.
    + destruct (out_fits _ _ _); [|done]. injection Hst as <- <- <-. cbn [w_thread].
      unfold after_dump. pose proof (zlen_nonneg bs). rewrite (proj2 (Z.eqb_neq _ (-1))) by lia.
      rewrite (proj2 (Z.eqb_neq _ (-99))), andb_false_r by lia. by destruct (_ =? 0), leader.
  - destruct (out_fits _ _ _); [|done]. injection Hst as <- <- <-. by destruct leader.
Qed.

Lemma wait_step_inv w w' : waits_ok w -> wait_step w w' -> waits_ok w'.
Proof.
  intros Hw Hs. destruct Hs as [leader h1 h2 ret out a _ Hst|Hth| |seq con t Hup|isn con t Hsy
    |con ack bs n out a Hst|op n out a Hop Hst]; intros h1' h2' Hth'; cbn [w_thread] in Hth'.
  - by eapply round_waits.
  - done.
  - by destruct (w_thread w).
  - destruct (update_wakes _ _ _ _ Hup) as [Hisn [Hout|Hwk]].
    + destruct (Hw h1' h2') as (c & ack & bs & l & Hq & Hb).
      { destruct (w_thread w); try done. cbn [wake_outgoing] in Hth'. by destruct (_ <? _). }
      exists c, ack, bs, l. split; [done|]. cbn [w_tables]. unfold blocks in *. by rewrite Hisn, Hout.
    + rewrite Hwk, (proj2 (Z.ltb_lt _ _)) in Hth' by lia. by destruct (w_thread w).
  - destruct (Hw h1' h2' Hth') as (c & ack & bs & l & Hq & Hb).
    exists c, ack, bs, l. split; [done|]. intros Hack. eapply blocks_after_syn; eauto.
  - destruct (Hw h1' h2') as (c & ack' & bs' & l & Hq & Hb); [by destruct (w_thread w)|].
    cbn [a_step] in Hst. destruct (_ && _); [|done]. injection Hst as <- <- <-.
    unfold held. cbn [w_queues w_tables add_tcp a_tcp]. rewrite Hq. cbn [app]. eauto 10.
  - destruct (Hw h1' h2' Hth') as (c & ack & bs & l & Hq & Hb).
    destruct (queue_head _ _ _ _ _ _ _ _ _ Hop Hst Hq) as [l' Hl']. exists c, ack, bs, l'. by split.
Qed.

(** C33. The TCP thread does not sleep through the guest's progress.  In every
    interleaving of the thread, as follower and as leader, with the guest's
    packets, SYNs, segments and other packets, deliveries and [append_no_op],
    within what the buffers hold: as long as the thread waits on [tcp_outgoing]
    there is a segment at the head of the TCP buffer and it is really held
    back, unless it acknowledges the number 1. *)
Theorem outgoing_wakeup_not_lost w h1 h2 :
  rtc wait_step waits_init w -> w_thread w = Waiting_outgoing h1 h2 -> held w h1 h2.
Proof.
  intros Hr. enough (waits_ok w) as H by auto. assert (waits_ok waits_init) as Hi by done.
  revert Hi. induction Hr; eauto using wait_step_inv.
Qed.

(** A connection whose segment acknowledges 500 before the guest has answered. *)
Definition wait_con : con_id_type := mk_con 33560074 41231 0 1677792778 36895 0.
Definition blocked_waits : waits :=
  mk_waits (add_tcp (Seg wait_con 500 [1]) a_init)
    (mk_tables {[ swap_con wait_con := 100 ]} {[ wait_con := 0 ]} false 0) (Waiting_outgoing 0 0).

Lemma blocked_reached : rtc wait_step waits_init blocked_waits.
Proof.
  eapply rtc_l; [apply (ws_syn waits_init 100 (swap_con wait_con)); reflexivity|].
  eapply rtc_l; [apply (ws_segment _ wait_con 500 [1] 1 [] (add_tcp (Seg wait_con 500 [1]) a_init)); reflexivity|].
  eapply rtc_l; [eapply (ws_round _ false 0 0 (-1) []); [reflexivity|vm_compute; reflexivity]|].
  apply rtc_refl.
Qed.

Lemma outgoing_wakeup_not_lost_witness : held blocked_waits 0 0.
Proof. apply (outgoing_wakeup_not_lost blocked_waits 0 0); [exact blocked_reached|reflexivity]. Defined.

(** The other wake-up can be lost: the thread looks at the empty TCP buffer
    and releases [out_lock]; a segment arrives and is broadcast; then the thread
    waits on [tcp_no_empty], with a segment in the buffer that nothing holds
    back. *)
Theorem not_empty_wakeup_lost :
  exists w, rtc wait_step waits_init w /\ w_thread w = Waiting_not_empty /\
    a_tcp (w_queues w) = [Seg wait_con 500 [1]] /\ blocks (w_tables w) 0 0 500 wait_con = false.
Proof.
  eexists. split; [|split; [|split]].
  - eapply rtc_l; [eapply (ws_round _ false 0 0 0 []); reflexivity|].
    eapply rtc_l; [apply (ws_segment _ wait_con 500 [1] 1 [] (add_tcp (Seg wait_con 500 [1]) a_init)); reflexivity|].
    eapply rtc_l; [apply ws_sleep; reflexivity|]. apply rtc_refl.
  - reflexivity.
  - reflexivity.
  - reflexivity.
Qed.

(** The connection, its SYN [isn] and the number [out] the guest has sent. *)
Definition one_con (isn out n : Z) : con_tables :=
  mk_tables {[ swap_con wait_con := isn ]} {[ wait_con := out ]} false n.
Definition acks_one : queues := add_tcp (Seg wait_con 1 [1]) a_init.

Lemma one_con_syn isn out n isn' : save_isn (one_con isn out n) isn' (swap_con wait_con) = Ok (one_con isn' 0 n).
Proof.
  rewrite save_isn_run by done. cbn [one_con con_isn_list con_out_seq_list tcp_wakeups].
  change (swap_con (swap_con wait_con)) with wait_con. by rewrite !insert_singleton_eq.
Qed.

Lemma one_con_sent isn out n seq :
  out < seq -> update_con_out_seq (one_con isn out n) seq wait_con = Ok (one_con isn seq (n + 1)).
Proof.
  intros H. unfold update_con_out_seq, LOCK. change (clean_con wait_con) with wait_con.
  cbn [one_con out_lock obind con_out_seq_list set_out_lock]. rewrite lookup_singleton_eq, (proj2 (Z.leb_gt _ _)) by done.
  unfold one_con. by rewrite <- (insert_singleton_eq wait_con out seq).
Qed.

Lemma one_con_blocks isn out n ack : blocks (one_con isn out n) 0 0 ack wait_con = (u32 (out + 1) <? ack).
Proof.
  unfold blocks. cbn [one_con con_isn_list con_out_seq_list].
  change (isn_key 0 0 wait_con) with (swap_con wait_con). change (clean_con wait_con) with wait_con.
  by rewrite !lookup_singleton_eq.
Qed.

Lemma guest_at_the_end : rtc wait_step waits_init (mk_waits a_init (one_con 100 4294967295 1) Running).
Proof.
  apply (rtc_l _ _ (mk_waits a_init (one_con 100 0 0) Running)).
  - apply (ws_syn waits_init 100 (swap_con wait_con)). by rewrite save_isn_run.
  - apply rtc_once, (ws_guest (mk_waits a_init (one_con 100 0 0) Running) 4294967295 wait_con).
    by apply (one_con_sent 100 0 0).
Qed.

(** The exception is real.  The guest has sent the last sequence number, so a
    segment that acknowledges 1 is held back; then the client opens the
    connection again.  [save_isn] forgets what the guest has sent and does not
    wake the thread, which waits for a segment that nothing holds back. *)
Theorem syn_wakeup_lost :
  exists w, rtc wait_step waits_init w /\ w_thread w = Waiting_outgoing 0 0 /\
    a_tcp (w_queues w) = [Seg wait_con 1 [1]] /\ blocks (w_tables w) 0 0 1 wait_con = false.
Proof.
  exists (mk_waits acks_one (one_con 200 0 1) (Waiting_outgoing 0 0)).
  split; [|split; [done|split; [done|apply one_con_blocks]]].
  etrans; [exact guest_at_the_end|]. set (t := one_con 100 4294967295 1).
  apply (rtc_l _ _ (mk_waits acks_one t Running)).
  { by apply (ws_segment (mk_waits a_init t Running) wait_con 1 [1] 1 [] acks_one). }
  apply (rtc_l _ _ (mk_waits acks_one t (Waiting_outgoing 0 0))).
  { apply (ws_round (mk_waits acks_one t Running) false 0 0 (-1) [] acks_one); [done|].
    cbn [a_step acks_one add_tcp a_tcp a_init app w_tables w_queues]. unfold t. by rewrite one_con_blocks. }
  apply rtc_once, (ws_syn (mk_waits acks_one t (Waiting_outgoing 0 0)) 200 (swap_con wait_con)).
  apply one_con_syn.
Qed.
