(* ===== verification/Rbtree.v ===== *)
(** * The red-black tree (utils/rbtree)

    The tree under the endpoint database, on a memory of nodes: a node has the
    address of its parent with its colour in the lowest bit, and two children.
    An access to an address where there is no node, the null pointer included,
    is undefined behaviour.

    The code writes every rotation twice, once for each side; here the side is
    an argument.  The callbacks of augmented trees are left out: for the
    functions the database uses they do nothing. *)

From S2P Require Import Prelude.

Open Scope Z_scope.

Record rb_node := mk_rb_node {
  rb_parent_color : Z;
  rb_right : Z;
  rb_left : Z
}.

(** The root pointer and the nodes in memory. *)
Record rb_mem := mk_rb_mem {
  rb_root : Z;
  rb_nodes : gmap Z rb_node
}.

Definition RB_ROOT : rb_mem := mk_rb_mem 0 ∅.

(** ** Code on the tree *)

Definition RB (A : Type) : Type := rb_mem -> outcome (A * rb_mem).

#[export] Instance rb_ret : MRet RB := fun A a m => Ok (a, m).
#[export] Instance rb_bind : MBind RB := fun A B k x m =>
  match x m with
  | Ok (a, m') => k a m'
  | Undef => Undef
  | Spin => Spin
  end.

Definition rb_spin {A} : RB A := fun _ => Spin.
Definition rb_when (b : bool) (c : RB unit) : RB unit := if b then c else mret tt.

Definition node_at (a : Z) : RB rb_node := fun m =>
  let! n := or_undef (rb_nodes m !! a) in Ok (n, m).
Definition put_node (a : Z) (n : rb_node) : RB unit := fun m =>
  Ok (tt, mk_rb_mem (rb_root m) (<[a := n]> (rb_nodes m))).
Definition set_root (a : Z) : RB unit := fun m => Ok (tt, mk_rb_mem a (rb_nodes m)).

Inductive side := SLeft | SRight.
Definition other (d : side) : side := match d with SLeft => SRight | SRight => SLeft end.

Definition child (d : side) (n : rb_node) : Z :=
  match d with SLeft => rb_left n | SRight => rb_right n end.
Definition with_child (d : side) (v : Z) (n : rb_node) : rb_node :=
  match d with
  | SLeft => mk_rb_node (rb_parent_color n) (rb_right n) v
  | SRight => mk_rb_node (rb_parent_color n) v (rb_left n)
  end.
Definition with_pc (v : Z) (n : rb_node) : rb_node := mk_rb_node v (rb_right n) (rb_left n).

Definition get_child (d : side) (a : Z) : RB Z := n ← node_at a; mret (child d n).
Definition set_child (d : side) (a v : Z) : RB unit := n ← node_at a; put_node a (with_child d v n).
Definition get_pc (a : Z) : RB Z := n ← node_at a; mret (rb_parent_color n).
Definition set_pc (a v : Z) : RB unit := n ← node_at a; put_node a (with_pc v n).

(** ** Parents and colours *)

Definition RB_RED : Z := 0.
Definition RB_BLACK : Z := 1.

Definition __rb_parent (pc : Z) : Z := Z.land pc (Z.lnot 3).
Definition __rb_color (pc : Z) : Z := Z.land pc 1.
Definition __rb_is_black (pc : Z) : bool := c_true (__rb_color pc).

Definition rb_parent (a : Z) : RB Z := pc ← get_pc a; mret (__rb_parent pc).
Definition rb_is_black (a : Z) : RB bool := pc ← get_pc a; mret (__rb_is_black pc).
Definition rb_is_red (a : Z) : RB bool := b ← rb_is_black a; mret (negb b).

Definition rb_set_parent (a p : Z) : RB unit :=
  pc ← get_pc a; set_pc a (Z.lor (__rb_color pc) p).
Definition rb_set_parent_color (a p color : Z) : RB unit := set_pc a (Z.lor p color).
Definition rb_set_black (a : Z) : RB unit := pc ← get_pc a; set_pc a (Z.lor pc RB_BLACK).
Definition rb_red_parent (a : Z) : RB Z := get_pc a.

Definition __rb_change_child (old new parent : Z) : RB unit :=
  if c_true parent then
    l ← get_child SLeft parent;
    if l =? old then set_child SLeft parent new else set_child SRight parent new
  else set_root new.

Definition __rb_rotate_set_parents (old new color : Z) : RB unit :=
  parent ← rb_parent old;
  pc ← get_pc old;
  set_pc new pc ;;
  rb_set_parent_color old new color ;;
  __rb_change_child old new parent.

(** ** Insertion *)

(** Where a new node is linked: [&root->rb_node] or a child of a node. *)
Inductive rb_link := LRoot | LChild (d : side) (a : Z).

Definition rb_link_node (node parent : Z) (link : rb_link) : RB unit :=
  set_pc node parent ;;
  set_child SRight node 0 ;;
  set_child SLeft node 0 ;;
  match link with
  | LRoot => set_root node
  | LChild d a => set_child d a node
  end.

(** Cases 2 and 3: [parent] is the child of [gparent] on side [d]. *)
Definition insert_rotate (d : side) (node parent gparent : Z) : RB unit :=
  tmp ← get_child (other d) parent;
  r ← (if node =? tmp then
         tmp ← get_child d node;
         set_child (other d) parent tmp ;;
         set_child d node parent ;;
         rb_when (c_true tmp) (rb_set_parent_color tmp parent RB_BLACK) ;;
         rb_set_parent_color parent node RB_RED ;;
         tmp ← get_child (other d) node;
         mret (node, tmp)
       else mret (parent, tmp));
  let '(parent, tmp) := (r : Z * Z) in
  set_child d gparent tmp ;;
  set_child (other d) parent gparent ;;
  rb_when (c_true tmp) (rb_set_parent_color tmp gparent RB_BLACK) ;;
  __rb_rotate_set_parents gparent parent RB_RED.

Fixpoint insert_loop (fuel : nat) (node parent : Z) : RB unit :=
  match fuel with
  | O => rb_spin
  | S fuel' =>
      if parent =? 0 then rb_set_parent_color node 0 RB_BLACK
      else
        black ← rb_is_black parent;
        if (black : bool) then mret tt
        else
          gparent ← rb_red_parent parent;
          tmp ← get_child SRight gparent;
          let d := if parent =? tmp then SRight else SLeft in
          tmp ← get_child (other d) gparent;
          red ← (if c_true tmp then rb_is_red tmp else mret false);
          if (red : bool) then
            rb_set_parent_color tmp gparent RB_BLACK ;;
            rb_set_parent_color parent gparent RB_BLACK ;;
            let node := gparent in
            parent ← rb_parent node;
            rb_set_parent_color node parent RB_RED ;;
            insert_loop fuel' node parent
          else insert_rotate d node parent gparent
  end.

Definition __rb_insert (fuel : nat) (node : Z) : RB unit :=
  parent ← rb_red_parent node; insert_loop fuel node parent.

Definition rb_insert_color (fuel : nat) (node : Z) : RB unit := __rb_insert fuel node.

(** ** Removal *)

Definition null_or_black (a : Z) : RB bool :=
  if c_true a then rb_is_black a else mret true.

(** Case 1: the sibling of the child of [parent] on side [d] becomes black. *)
Definition red_sibling (d : side) (parent sibling : Z) : RB Z :=
  red ← rb_is_red sibling;
  if (red : bool) then
    tmp1 ← get_child d sibling;
    set_child (other d) parent tmp1 ;;
    set_child d sibling parent ;;
    rb_set_parent_color tmp1 parent RB_BLACK ;;
    __rb_rotate_set_parents parent sibling RB_RED ;;
    mret tmp1
  else mret sibling.

(** Case 2; the result is where the loop goes on. *)
Definition flip_sibling (parent sibling : Z) : RB (option (Z * Z)) :=
  rb_set_parent_color sibling parent RB_RED ;;
  red ← rb_is_red parent;
  if (red : bool) then rb_set_black parent ;; mret None
  else
    let node := parent in
    parent ← rb_parent node;
    mret (if c_true parent then Some (node, parent) else None).

(** Case 4. *)
Definition rotate_sibling (d : side) (parent sibling tmp1 : Z) : RB unit :=
  tmp2 ← get_child d sibling;
  set_child (other d) parent tmp2 ;;
  set_child d sibling parent ;;
  rb_set_parent_color tmp1 sibling RB_BLACK ;;
  rb_when (c_true tmp2) (rb_set_parent tmp2 parent) ;;
  __rb_rotate_set_parents parent sibling RB_BLACK.

(** Cases 2 to 4; case 3 rotates at the sibling first. *)
Definition black_sibling (d : side) (parent sibling : Z) : RB (option (Z * Z)) :=
  tmp1 ← get_child (other d) sibling;
  black1 ← null_or_black tmp1;
  if (black1 : bool) then
    tmp2 ← get_child d sibling;
    black2 ← null_or_black tmp2;
    if (black2 : bool) then flip_sibling parent sibling
    else
      tmp1 ← get_child (other d) tmp2;
      set_child d sibling tmp1 ;;
      set_child (other d) tmp2 sibling ;;
      set_child (other d) parent tmp2 ;;
      rb_when (c_true tmp1) (rb_set_parent_color tmp1 sibling RB_BLACK) ;;
      rotate_sibling d parent tmp2 sibling ;;
      mret None
  else
    rotate_sibling d parent sibling tmp1 ;;
    mret None.

Fixpoint erase_loop (fuel : nat) (node parent : Z) : RB unit :=
  match fuel with
  | O => rb_spin
  | S fuel' =>
      sibling ← get_child SRight parent;
      let d := if node =? sibling then SRight else SLeft in
      sibling ← get_child (other d) parent;
      sibling ← red_sibling d parent sibling;
      r ← black_sibling d parent sibling;
      match (r : option (Z * Z)) with
      | Some (node, parent) => erase_loop fuel' node parent
      | None => mret tt
      end
  end.

Definition ____rb_erase_color (fuel : nat) (parent : Z) : RB unit := erase_loop fuel 0 parent.

(** The loop of case 3 of [__rb_erase_augmented]: the leftmost node under
    [successor], whose left child is [tmp], and its parent. *)
Fixpoint successor_loop (fuel : nat) (successor tmp : Z) : RB (Z * Z) :=
  match fuel with
  | O => rb_spin
  | S fuel' =>
      let parent := successor in
      let successor := tmp in
      tmp ← get_child SLeft tmp;
      if c_true tmp then successor_loop fuel' successor tmp else mret (parent, successor)
  end.

(** Take the successor of [node] out of its place; [parent] is where a black
    node is missing then, [child2] the node that took its place. *)
Definition unlink_successor (fuel : nat) (node child1 : Z) : RB (Z * Z * Z) :=
  tmp ← get_child SLeft child1;
  if negb (c_true tmp) then
    let successor := child1 in
    child2 ← get_child SRight successor;
    mret (successor, successor, child2)
  else
    r ← successor_loop fuel child1 tmp;
    let '(parent, successor) := (r : Z * Z) in
    child2 ← get_child SRight successor;
    set_child SLeft parent child2 ;;
    set_child SRight successor child1 ;;
    rb_set_parent child1 successor ;;
    mret (parent, successor, child2).

(** The successor takes the place of [node]. *)
Definition relink_successor (node parent successor child2 : Z) : RB Z :=
  tmp ← get_child SLeft node;
  set_child SLeft successor tmp ;;
  rb_set_parent tmp successor ;;
  pc ← get_pc node;
  __rb_change_child node successor (__rb_parent pc) ;;
  if c_true child2 then
    set_pc successor pc ;;
    rb_set_parent_color child2 parent RB_BLACK ;;
    mret 0
  else
    pc2 ← get_pc successor;
    set_pc successor pc ;;
    mret (if __rb_is_black pc2 then parent else 0).

Definition __rb_erase_augmented (fuel : nat) (node : Z) : RB Z :=
  child1 ← get_child SRight node;
  tmp ← get_child SLeft node;
  if negb (c_true tmp) then
    pc ← get_pc node;
    let parent := __rb_parent pc in
    __rb_change_child node child1 parent ;;
    if c_true child1 then set_pc child1 pc ;; mret 0
    else mret (if __rb_is_black pc then parent else 0)
  else if negb (c_true child1) then
    pc ← get_pc node;
    set_pc tmp pc ;;
    let parent := __rb_parent pc in
    __rb_change_child node tmp parent ;;
    mret 0
  else
    r ← unlink_successor fuel node child1;
    let '(parent, successor, child2) := (r : Z * Z * Z) in
    relink_successor node parent successor child2.

Definition rb_erase (fuel : nat) (node : Z) : RB unit :=
  rebalance ← __rb_erase_augmented fuel node;
  rb_when (c_true rebalance) (____rb_erase_color fuel rebalance).

(** ** Traversals *)

(** The loops [while (n->rb_left) n = n->rb_left] and its mirror image. *)
Fixpoint go_down (fuel : nat) (d : side) (n : Z) : RB Z :=
  match fuel with
  | O => rb_spin
  | S fuel' =>
      c ← get_child d n;
      if c_true c then go_down fuel' d c else mret n
  end.

Definition rb_end (d : side) (fuel : nat) : RB Z := fun m =>
  if c_true (rb_root m) then go_down fuel d (rb_root m) m else Ok (0, m).
Definition rb_first : nat -> RB Z := rb_end SLeft.
Definition rb_last : nat -> RB Z := rb_end SRight.

(** Up as long as [node] is the child of its parent on side [d]. *)
Fixpoint go_up (fuel : nat) (d : side) (node : Z) : RB Z :=
  match fuel with
  | O => rb_spin
  | S fuel' =>
      parent ← rb_parent node;
      if c_true parent then
        c ← get_child d parent;
        if node =? c then go_up fuel' d parent else mret parent
      else mret parent
  end.

(** [RB_EMPTY_NODE]: a node that is its own parent. *)
Definition rb_neighbour (d : side) (fuel : nat) (node : Z) : RB Z :=
  pc ← get_pc node;
  if pc =? node then mret 0
  else
    c ← get_child d node;
    if c_true c then go_down fuel (other d) c else go_up fuel d node.
Definition rb_next : nat -> Z -> RB Z := rb_neighbour SRight.
Definition rb_prev : nat -> Z -> RB Z := rb_neighbour SLeft.

Definition rb_replace_node (victim new : Z) : RB unit :=
  parent ← rb_parent victim;
  __rb_change_child victim new parent ;;
  l ← get_child SLeft victim;
  rb_when (c_true l) (rb_set_parent l new) ;;
  r ← get_child SRight victim;
  rb_when (c_true r) (rb_set_parent r new) ;;
  n ← node_at victim;
  _ ← node_at new;
  put_node new n.

Fixpoint rb_left_deepest_node (fuel : nat) (node : Z) : RB Z :=
  match fuel with
  | O => rb_spin
  | S fuel' =>
      l ← get_child SLeft node;
      if c_true l then rb_left_deepest_node fuel' l
      else
        r ← get_child SRight node;
        if c_true r then rb_left_deepest_node fuel' r else mret node
  end.

Definition rb_next_postorder (fuel : nat) (node : Z) : RB Z :=
  if negb (c_true node) then mret 0
  else
    parent ← rb_parent node;
    if negb (c_true parent) then mret parent
    else
      l ← get_child SLeft parent;
      r ← get_child SRight parent;
      if (node =? l) && c_true r then rb_left_deepest_node fuel r else mret parent.

Definition rb_first_postorder (fuel : nat) : RB Z := fun m =>
  if c_true (rb_root m) then rb_left_deepest_node fuel (rb_root m) m else Ok (0, m).
