(* ===== verification/RbRep.v ===== *)
(** * Trees in memory

    Which tree the nodes of utils/rbtree represent.  A position in a tree is a
    subtree and the path from it up to the root; the loops of the code walk
    along that path.  [zip m t k] says that the memory holds the tree with
    [t] at the end of the path [k]. *)

From S2P Require Import Prelude Rbtree.

Open Scope Z_scope.

Inductive rb_color := Red | Black.
Definition bit (c : rb_color) : Z := match c with Red => RB_RED | Black => RB_BLACK end.

Inductive rb_tree :=
| Leaf
| Node (c : rb_color) (l : rb_tree) (a : Z) (r : rb_tree).

Definition ptr (t : rb_tree) : Z := match t with Leaf => 0 | Node _ _ a _ => a end.

(** [x] is the subtree on side [d]. *)
Definition node_d (d : side) (c : rb_color) (x : rb_tree) (a : Z) (y : rb_tree) : rb_tree :=
  match d with SLeft => Node c x a y | SRight => Node c y a x end.

(** One step of a path: the hole is the child of [a] on side [d]. *)
Inductive frame := F (d : side) (c : rb_color) (a : Z) (s : rb_tree).

Fixpoint plug (t : rb_tree) (k : list frame) : rb_tree :=
  match k with
  | [] => t
  | F d c a s :: k' => plug (node_d d c t a s) k'
  end.

Definition top (k : list frame) : Z := match k with [] => 0 | F _ _ a _ :: _ => a end.

Fixpoint inorder (t : rb_tree) : list Z :=
  match t with
  | Leaf => []
  | Node _ l a r => inorder l ++ a :: inorder r
  end.

Fixpoint path_addrs (k : list frame) : list Z :=
  match k with
  | [] => []
  | F _ _ a s :: k' => a :: inorder s ++ path_addrs k'
  end.

(** ** Representation *)

Definition cell (d : side) (p : Z) (c : rb_color) (x y : Z) : rb_node :=
  match d with
  | SLeft => mk_rb_node (Z.lor p (bit c)) y x
  | SRight => mk_rb_node (Z.lor p (bit c)) x y
  end.

Fixpoint tree_at (h : gmap Z rb_node) (p : Z) (t : rb_tree) : Prop :=
  match t with
  | Leaf => True
  | Node c l a r =>
      h !! a = Some (cell SLeft p c (ptr l) (ptr r)) /\ tree_at h a l /\ tree_at h a r
  end.

Fixpoint path_at (m : rb_mem) (p : Z) (k : list frame) : Prop :=
  match k with
  | [] => rb_root m = p
  | F d c a s :: k' =>
      rb_nodes m !! a = Some (cell d (top k') c p (ptr s)) /\
      tree_at (rb_nodes m) a s /\ path_at m a k'
  end.

(** Addresses of nodes: the two lowest bits are free. *)
Definition ok_addr (a : Z) : Prop := a <> 0 /\ Z.land a 3 = 0.

Definition ok_tree (t : rb_tree) : Prop := NoDup (inorder t) /\ Forall ok_addr (inorder t).

Record zip (m : rb_mem) (t : rb_tree) (k : list frame) : Prop := {
  zip_tree : tree_at (rb_nodes m) (top k) t;
  zip_path : path_at m (ptr t) k;
  zip_ok : ok_tree (plug t k)
}.

Definition holds_tree (m : rb_mem) (t : rb_tree) : Prop := zip m t [].

(** ** Colours in the lowest bit *)

Lemma land_lor_bit p c : Z.land p 3 = 0 -> Z.land (Z.lor p (bit c)) 3 = bit c.
Proof. intros H. rewrite Z.land_lor_distr_l, H. by destruct c. Qed.

Lemma rb_parent_cell p c : Z.land p 3 = 0 -> __rb_parent (Z.lor p (bit c)) = p.
Proof.
  intros H. unfold __rb_parent. rewrite <- Z.ldiff_land. apply Z.bits_inj'. intros n Hn.
  rewrite Z.ldiff_spec, Z.lor_spec. pose proof (f_equal (fun x => Z.testbit x n) H) as Hb.
  cbv beta in Hb. rewrite Z.land_spec, Z.bits_0 in Hb.
  destruct (Z.testbit p n), (Z.testbit 3 n) eqn:H3; try done; cbn.
  - by rewrite andb_false_r.
  - rewrite andb_true_r. destruct c; [apply Z.bits_0|]. cbn.
    destruct (decide (n = 0)) as [->|Hne]; [done|]. by apply (Z.bits_above_log2 1); simpl; lia.
Qed.

Lemma rb_color_cell p c : Z.land p 3 = 0 -> __rb_color (Z.lor p (bit c)) = bit c.
Proof.
  intros H. unfold __rb_color. change 1 with (Z.land 3 1).
  rewrite Z.land_assoc, land_lor_bit by done. by destruct c.
Qed.

Lemma rb_is_black_cell p c :
  Z.land p 3 = 0 -> __rb_is_black (Z.lor p (bit c)) = match c with Red => false | Black => true end.
Proof. intros H. unfold __rb_is_black. rewrite rb_color_cell by done. by destruct c. Qed.

Lemma lor_bit_black p c : Z.lor (Z.lor p (bit c)) RB_BLACK = Z.lor p (bit Black).
Proof. rewrite <- Z.lor_assoc. by destruct c. Qed.

Lemma c_true_addr a : ok_addr a -> c_true a = true.
Proof. intros [H _]. by apply c_true_spec. Qed.

(** ** Lists of addresses *)

Definition apart (l1 l2 : list Z) : Prop := forall x, x ∈ l1 -> x ∉ l2.

Lemma nodup_app l1 l2 : NoDup (l1 ++ l2) <-> NoDup l1 /\ apart l1 l2 /\ NoDup l2.
Proof. apply NoDup_app. Qed.
Lemma apart_nil_l l : apart [] l <-> True.
Proof. split; [done|]. intros _ x Hx. by apply elem_of_nil in Hx. Qed.
Lemma apart_nil_r l : apart l [] <-> True.
Proof. split; [done|]. intros _ x _. apply not_elem_of_nil. Qed.
Lemma apart_cons_l a l1 l2 : apart (a :: l1) l2 <-> (a ∉ l2) /\ apart l1 l2.
Proof. unfold apart. setoid_rewrite elem_of_cons. firstorder congruence. Qed.
Lemma apart_cons_r a l1 l2 : apart l1 (a :: l2) <-> (a ∉ l1) /\ apart l1 l2.
Proof. unfold apart. setoid_rewrite elem_of_cons. firstorder congruence. Qed.
Lemma apart_app_l l l' l2 : apart (l ++ l') l2 <-> apart l l2 /\ apart l' l2.
Proof. unfold apart. setoid_rewrite elem_of_app. firstorder. Qed.
Lemma apart_app_r l1 l l' : apart l1 (l ++ l') <-> apart l1 l /\ apart l1 l'.
Proof. unfold apart. setoid_rewrite elem_of_app. firstorder. Qed.

Lemma inorder_node_d d c x a y : inorder (node_d d c x a y) ≡ₚ a :: inorder x ++ inorder y.
Proof. destruct d; simpl; solve_Permutation. Qed.

Lemma inorder_node c l a r : inorder (Node c l a r) ≡ₚ a :: inorder l ++ inorder r.
Proof. apply (inorder_node_d SLeft). Qed.

Lemma inorder_plug t k : inorder (plug t k) ≡ₚ inorder t ++ path_addrs k.
Proof.
  revert t. induction k as [|[d c a s] k IH]; intros t; simpl; [by rewrite app_nil_r|].
  rewrite IH, inorder_node_d. solve_Permutation.
Qed.

Lemma zip_sep m t k : zip m t k -> NoDup (inorder t ++ path_addrs k).
Proof. intros [_ _ [H _]]. by rewrite inorder_plug in H. Qed.

Lemma zip_addrs m t k : zip m t k -> Forall ok_addr (inorder t ++ path_addrs k).
Proof. intros [_ _ [_ H]]. by rewrite inorder_plug in H. Qed.

Create Rewrite HintDb seps.
#[export] Hint Rewrite nodup_app @NoDup_cons apart_nil_l apart_nil_r apart_cons_l apart_cons_r
  apart_app_l apart_app_r @not_elem_of_app @not_elem_of_cons @Forall_app @Forall_cons : seps.

(** Everything a list without duplicates says, as separate facts. *)
Ltac unpack H :=
  cbn [inorder path_addrs app] in H;
  repeat (rewrite inorder_node_d in H; cbn [inorder app] in H);
  autorewrite with seps in H.

(** ** Framing *)

Lemma tree_at_ext h h' p t :
  tree_at h p t -> (forall a, a ∈ inorder t -> h' !! a = h !! a) -> tree_at h' p t.
Proof.
  revert p. induction t as [|c l IHl a r IHr]; intros p; simpl; [done|].
  intros (H1 & H2 & H3) He. split_and!.
  - rewrite He; [done|]. set_solver.
  - apply IHl; [done|]. set_solver.
  - apply IHr; [done|]. set_solver.
Qed.

Lemma path_at_ext m m' p k :
  path_at m p k -> rb_root m' = rb_root m ->
  (forall a, a ∈ path_addrs k -> rb_nodes m' !! a = rb_nodes m !! a) -> path_at m' p k.
Proof.
  revert p. induction k as [|[d c a s] k IH]; intros p; simpl; [by intros <- ->|].
  intros (H1 & H2 & H3) Hr He. split_and!.
  - rewrite He; [done|]. set_solver.
  - eapply tree_at_ext; [done|]. set_solver.
  - apply IH; [done|done|]. set_solver.
Qed.

Lemma tree_at_node_d h p d c x a y :
  tree_at h p (node_d d c x a y) <->
  h !! a = Some (cell d p c (ptr x) (ptr y)) /\ tree_at h a x /\ tree_at h a y.
Proof. destruct d; simpl; [done|]. tauto. Qed.

Lemma ptr_node_d d c x a y : ptr (node_d d c x a y) = a.
Proof. by destruct d. Qed.

Lemma ptr_in t : ptr t <> 0 -> ptr t ∈ inorder t.
Proof. destruct t; simpl; [done|]. set_solver. Qed.

(** ** Moving in a tree *)

Lemma zip_up m d c t a s k : zip m t (F d c a s :: k) <-> zip m (node_d d c t a s) k.
Proof.
  split; intros [H1 H2 H3]; split; simpl in *; rewrite ?tree_at_node_d, ?ptr_node_d in *; tauto.
Qed.

Lemma zip_plug m t k : zip m t k <-> holds_tree m (plug t k).
Proof.
  revert t. induction k as [|[d c a s] k IH]; intros t; simpl; [done|]. by rewrite zip_up.
Qed.

(** The path from every node up to the root. *)
Lemma find_node t a : a ∈ inorder t -> exists c l r k, t = plug (Node c l a r) k.
Proof.
  induction t as [|c l IHl x r IHr]; simpl; [set_solver|].
  rewrite elem_of_app, elem_of_cons. intros [Hl|[->|Hr]].
  - destruct (IHl Hl) as (c' & l' & r' & k & ->). exists c', l', r', (k ++ [F SLeft c x r]).
    clear. generalize (Node c' l' a r'). induction k as [|[? ? ? ?] k IH]; intros t; simpl; auto.
  - by exists c, l, r, [].
  - destruct (IHr Hr) as (c' & l' & r' & k & ->). exists c', l', r', (k ++ [F SRight c x l]).
    clear. generalize (Node c' l' a r'). induction k as [|[? ? ? ?] k IH]; intros t; simpl; auto.
Qed.

(** ** Red-black trees *)

(** [rb n c t]: a red-black tree with root colour [c] and [n] black nodes on
    every way down. *)
Inductive rb : nat -> rb_color -> rb_tree -> Prop :=
| rb_leaf : rb 0 Black Leaf
| rb_red n l a r : rb n Black l -> rb n Black r -> rb n Red (Node Red l a r)
| rb_black n cl cr l a r : rb n cl l -> rb n cr r -> rb (S n) Black (Node Black l a r).

(** [path_rb n c k]: a tree with [n] black nodes on every way down and a root
    of colour [c] fits the hole at the end of [k]. *)
Inductive path_rb : nat -> rb_color -> list frame -> Prop :=
| path_nil n : path_rb n Black []
| path_red n d a s k : rb n Black s -> path_rb n Red k -> path_rb n Black (F d Red a s :: k)
| path_black n c cs d a s k : rb n cs s -> path_rb (S n) Black k -> path_rb n c (F d Black a s :: k).

Lemma rb_red_d n d x a y : rb n Black x -> rb n Black y -> rb n Red (node_d d Red x a y).
Proof. destruct d; intros; by constructor. Qed.

Lemma rb_black_d n d cx cy x a y :
  rb n cx x -> rb n cy y -> rb (S n) Black (node_d d Black x a y).
Proof. destruct d; intros; by econstructor. Qed.

Lemma path_rb_black n c k : path_rb n c k -> path_rb n Black k.
Proof. destruct 1; by econstructor. Qed.

Lemma plug_rb n c t k : rb n c t -> path_rb n c k -> exists n', rb n' Black (plug t k).
Proof.
  intros Ht Hk. revert t Ht. induction Hk; intros t Ht; simpl; [eauto|..]; apply IHHk.
  - by apply rb_red_d.
  - by eapply rb_black_d.
Qed.
