(* ===== verification/RbInsert.v ===== *)
(** * Insertion keeps a red-black tree

    The loop of [__rb_insert] walks up the path of the new node; at every
    turn the memory holds a tree with the same nodes in the same order, which
    is a red-black tree but for the red node that may have a red parent. *)

From S2P Require Import Prelude Rbtree RbRep.

Open Scope Z_scope.

(** ** Running the code *)

Definition rwp {A} (c : RB A) (Q : A -> rb_mem -> Prop) (m : rb_mem) : Prop :=
  match c m with Ok (a, m') => Q a m' | _ => False end.

Lemma rwp_bind {A B} (c : RB A) (k : A -> RB B) Q m :
  rwp c (fun a => rwp (k a) Q) m -> rwp (c ≫= k) Q m.
Proof. unfold rwp, mbind, rb_bind. by destruct (c m) as [[a m']| |]. Qed.

Lemma rwp_ret {A} (a : A) Q m : Q a m -> rwp (mret a) Q m.
Proof. done. Qed.

Lemma rwp_mono {A} (c : RB A) (P Q : A -> rb_mem -> Prop) m :
  rwp c P m -> (forall a m', P a m' -> Q a m') -> rwp c Q m.
Proof. unfold rwp. destruct (c m) as [[a m']| |]; auto. Qed.

Lemma rwp_node a n Q m : rb_nodes m !! a = Some n -> Q n m -> rwp (node_at a) Q m.
Proof. intros H. unfold rwp, node_at. by rewrite H. Qed.

Definition put (a : Z) (n : rb_node) (m : rb_mem) : rb_mem :=
  mk_rb_mem (rb_root m) (<[a := n]> (rb_nodes m)).

Lemma rwp_put a n Q m : Q tt (put a n m) -> rwp (put_node a n) Q m.
Proof. done. Qed.

Lemma rwp_get_child d a n Q m :
  rb_nodes m !! a = Some n -> Q (child d n) m -> rwp (get_child d a) Q m.
Proof. intros H HQ. by apply rwp_bind, (rwp_node _ _ _ _ H). Qed.

Lemma rwp_set_child d a v n Q m :
  rb_nodes m !! a = Some n -> Q tt (put a (with_child d v n) m) -> rwp (set_child d a v) Q m.
Proof. intros H HQ. by apply rwp_bind, (rwp_node _ _ _ _ H). Qed.

Lemma rwp_get_pc a n Q m :
  rb_nodes m !! a = Some n -> Q (rb_parent_color n) m -> rwp (get_pc a) Q m.
Proof. intros H HQ. by apply rwp_bind, (rwp_node _ _ _ _ H). Qed.

Lemma rwp_set_pc a v n Q m :
  rb_nodes m !! a = Some n -> Q tt (put a (with_pc v n) m) -> rwp (set_pc a v) Q m.
Proof. intros H HQ. by apply rwp_bind, (rwp_node _ _ _ _ H). Qed.

Lemma rwp_is_black a n Q m :
  rb_nodes m !! a = Some n -> Q (__rb_is_black (rb_parent_color n)) m -> rwp (rb_is_black a) Q m.
Proof. intros H HQ. by apply rwp_bind, (rwp_get_pc _ _ _ _ H). Qed.

Lemma rwp_is_red a n Q m :
  rb_nodes m !! a = Some n -> Q (negb (__rb_is_black (rb_parent_color n))) m ->
  rwp (rb_is_red a) Q m.
Proof. intros H HQ. by apply rwp_bind, (rwp_is_black _ _ _ _ H). Qed.

Lemma rwp_parent a n Q m :
  rb_nodes m !! a = Some n -> Q (__rb_parent (rb_parent_color n)) m -> rwp (rb_parent a) Q m.
Proof. intros H HQ. by apply rwp_bind, (rwp_get_pc _ _ _ _ H). Qed.

Lemma rwp_set_parent a p n Q m :
  rb_nodes m !! a = Some n ->
  Q tt (put a (with_pc (Z.lor (__rb_color (rb_parent_color n)) p) n) m) -> rwp (rb_set_parent a p) Q m.
Proof. intros H HQ. apply rwp_bind, (rwp_get_pc _ _ _ _ H). by apply (rwp_set_pc _ _ n). Qed.

Lemma rwp_set_parent_color a p c n Q m :
  rb_nodes m !! a = Some n -> Q tt (put a (with_pc (Z.lor p c) n) m) ->
  rwp (rb_set_parent_color a p c) Q m.
Proof. apply rwp_set_pc. Qed.

Lemma lookup_put a b n m :
  rb_nodes (put a n m) !! b = if decide (a = b) then Some n else rb_nodes m !! b.
Proof. apply lookup_insert. Qed.

Lemma child_cell d p c x y : child d (cell d p c x y) = x.
Proof. by destruct d. Qed.
Lemma other_child_cell d p c x y : child (other d) (cell d p c x y) = y.
Proof. by destruct d. Qed.
Lemma with_child_cell d p c x y v : with_child d v (cell d p c x y) = cell d p c v y.
Proof. by destruct d. Qed.
Lemma with_other_cell d p c x y v : with_child (other d) v (cell d p c x y) = cell d p c x v.
Proof. by destruct d. Qed.
Lemma pc_cell d p c x y : rb_parent_color (cell d p c x y) = Z.lor p (bit c).
Proof. by destruct d. Qed.
Lemma with_pc_cell d p c x y q b : with_pc (Z.lor q (bit b)) (cell d p c x y) = cell d q b x y.
Proof. by destruct d. Qed.
Lemma with_black_cell d p c x y q : with_pc (Z.lor q RB_BLACK) (cell d p c x y) = cell d q Black x y.
Proof. apply (with_pc_cell d p c x y q Black). Qed.
Lemma with_red_cell d p c x y q : with_pc (Z.lor q RB_RED) (cell d p c x y) = cell d q Red x y.
Proof. apply (with_pc_cell d p c x y q Red). Qed.
Lemma with_parent_cell d p c x y q :
  Z.land p 3 = 0 ->
  with_pc (Z.lor (__rb_color (Z.lor p (bit c))) q) (cell d p c x y) = cell d q c x y.
Proof. intros H. rewrite rb_color_cell, Z.lor_comm by done. apply with_pc_cell. Qed.
Lemma other_cell d p c x y : cell (other d) p c x y = cell d p c y x.
Proof. by destruct d. Qed.
Lemma other_other d : other (other d) = d.
Proof. by destruct d. Qed.

Create Rewrite HintDb cells.
#[export] Hint Rewrite child_cell other_child_cell with_child_cell with_other_cell pc_cell
  with_pc_cell with_black_cell with_red_cell other_cell other_other ptr_node_d tree_at_node_d : cells.

(** A node of a memory that was written a few times. *)
Ltac find_cell :=
  rewrite ?lookup_put;
  repeat first [rewrite decide_False by congruence | rewrite decide_True by congruence];
  first [reflexivity | eassumption | by autorewrite with cells].

(** An address cannot be in two separate parts. *)
Ltac clash :=
  solve [ assumption | congruence
        | let H := fresh in intros H; subst;
          match goal with Ha : apart ?x ?y, H1 : ?b ∈ ?x, H2 : ?b ∈ ?y |- _ => by destruct (Ha b H1 H2) end ].

(** ** Rotations *)

Lemma change_child_spec m k old new Q :
  path_at m old k -> NoDup (old :: path_addrs k) -> Forall ok_addr (old :: path_addrs k) ->
  (forall m', path_at m' new k ->
     (forall a, a ∉ path_addrs k -> rb_nodes m' !! a = rb_nodes m !! a) -> Q tt m') ->
  rwp (__rb_change_child old new (top k)) Q m.
Proof.
  intros Hp Hnd Hok HQ. destruct k as [|[d c a s] k]; [by apply HQ|].
  destruct Hp as (Ha & Hs & Hp). unpack Hnd. destruct_and!. unpack Hok. destruct_and!.
  unfold __rb_change_child. cbn [top]. rewrite c_true_addr by done.
  apply rwp_bind, (rwp_get_child _ _ _ _ _ Ha).
  assert (Hput : forall Q, (forall m', path_at m' new (F d c a s :: k) ->
       (forall b, b ∉ path_addrs (F d c a s :: k) -> rb_nodes m' !! b = rb_nodes m !! b) ->
       Q tt m') -> rwp (set_child d a new) Q m).
  { clear HQ Q. intros Q HQ. apply (rwp_set_child _ _ _ _ _ _ Ha). apply HQ; cbn [path_at].
    - rewrite with_child_cell, lookup_put, decide_True by done. split_and!; [done| |].
      + eapply tree_at_ext; [done|]. intros b Hb. rewrite lookup_put, decide_False; congruence.
      + eapply path_at_ext; [done..|]. intros b Hb. rewrite lookup_put, decide_False; congruence.
    - intros b Hb. rewrite lookup_put, decide_False; [done|]. set_solver. }
  destruct d; simpl; [by rewrite Z.eqb_refl; apply Hput|].
  rewrite (proj2 (Z.eqb_neq _ _)); [by apply Hput|]. intros Heq.
  destruct s; simpl in *; [unfold ok_addr in *; naive_solver|]. subst. set_solver.
Qed.

Lemma rotate_spec m k d old new c b xo yo p' c' xn yn Q :
  rb_nodes m !! old = Some (cell d (top k) c xo yo) ->
  rb_nodes m !! new = Some (cell d p' c' xn yn) ->
  path_at m old k -> NoDup (old :: new :: path_addrs k) ->
  Forall ok_addr (old :: path_addrs k) ->
  (forall m', rb_nodes m' !! old = Some (cell d new b xo yo) ->
     rb_nodes m' !! new = Some (cell d (top k) c xn yn) ->
     (forall a, a <> old -> a <> new -> a ∉ path_addrs k -> rb_nodes m' !! a = rb_nodes m !! a) ->
     path_at m' new k -> Q tt m') ->
  rwp (__rb_rotate_set_parents old new (bit b)) Q m.
Proof.
  intros Ho Hn Hp Hnd Hok HQ. pose proof Hnd as Hnd'. unpack Hnd. destruct_and!.
  assert (Htop : Z.land (top k) 3 = 0).
  { destruct k as [|[]]; [done|]. unpack Hok. unfold ok_addr in Hok. simpl. tauto. }
  apply rwp_bind, (rwp_parent _ _ _ _ Ho), rwp_bind, (rwp_get_pc _ _ _ _ Ho).
  apply rwp_bind, (rwp_set_pc _ _ _ _ _ Hn), rwp_bind.
  eapply rwp_set_parent_color; [find_cell|]. autorewrite with cells.
  rewrite rb_parent_cell by done. apply change_child_spec.
  - eapply path_at_ext; [done..|]. intros a Ha. rewrite !lookup_put, !decide_False; congruence.
  - by apply NoDup_cons.
  - done.
  - intros m' Hp' Hsame. apply HQ; [| |intros a Ho' Hn' Ha|done]; rewrite Hsame by done; find_cell.
Qed.

Definition color_of (t : rb_tree) : rb_color := match t with Leaf => Black | Node c _ _ _ => c end.

Lemma ok_plug t t' k : inorder t' = inorder t -> ok_tree (plug t k) -> ok_tree (plug t' k).
Proof.
  revert t t'. induction k as [|[d c a s] k IH]; intros t t' He; simpl.
  { unfold ok_tree. by rewrite He. }
  apply IH. destruct d; simpl; by rewrite He.
Qed.

Lemma aligned_path k : Forall ok_addr (path_addrs k) -> Z.land (top k) 3 = 0.
Proof. destruct k as [|[]]; [done|]. intros H. unpack H. unfold ok_addr in H. simpl. tauto. Qed.

Lemma aligned_top m t k : zip m t k -> Z.land (top k) 3 = 0.
Proof. intros H%zip_addrs. apply Forall_app in H as [_ H]. by apply aligned_path. Qed.

(** A part of the tree that was not written. *)
Ltac keep :=
  eapply tree_at_ext; [eassumption|];
  let b := fresh "b" in let Hb := fresh "Hb" in
  intros b Hb;
  repeat match goal with
  | H : forall a, a <> _ -> a <> _ -> a ∉ _ -> rb_nodes _ !! a = _ |- _ =>
      rewrite H by first [congruence | match goal with Ha : apart _ _ |- _ => by apply Ha end]; clear H
  end;
  rewrite ?lookup_put, ?decide_False by congruence; done.

Ltac same_cell :=
  repeat match goal with
  | H : forall a, a <> _ -> a <> _ -> a ∉ _ -> rb_nodes _ !! a = _ |- _ =>
      rewrite H by congruence; clear H
  end;
  find_cell.

(** All facts about the nodes a path mentions. *)
Ltac open_zip Hz :=
  let Hnd := fresh "Hnd" in let Hok := fresh "Hok" in
  pose proof (zip_sep _ _ _ Hz) as Hnd; unpack Hnd;
  pose proof (zip_addrs _ _ _ Hz) as Hok; unpack Hok;
  let Hztree := fresh in let Hzpath := fresh in let Hzok := fresh in
  destruct Hz as [Hztree Hzpath Hzok]; cbn [path_at tree_at top ptr] in Hztree, Hzpath; cbn [plug] in Hzok;
  autorewrite with cells in Hztree, Hzpath;
  cbn [tree_at ptr] in Hztree, Hzpath;
  destruct_and!.

(** One statement that reads or writes a node. *)
Ltac exec :=
  first
    [ match goal with |- rwp (_ ≫= _) _ _ => apply rwp_bind | |- rwp (mret _) _ _ => apply rwp_ret end
    | eapply rwp_get_child; [find_cell|] | eapply rwp_set_child; [find_cell|]
    | eapply rwp_get_pc; [find_cell|] | eapply rwp_set_pc; [find_cell|]
    | eapply rwp_is_black; [find_cell|] | eapply rwp_is_red; [find_cell|]
    | eapply rwp_set_parent_color; [find_cell|] | eapply rwp_set_parent; [find_cell|]
    | eapply rwp_parent; [find_cell|] ];
  autorewrite with cells; try rewrite with_parent_cell by (unfold ok_addr in *; tauto).

(** Tests of pointers to nodes. *)
Ltac tests :=
  repeat match goal with
  | |- context [c_true ?a] => rewrite (c_true_addr a) by assumption
  | |- context [?a =? ?b] =>
      first [rewrite (Z.eqb_refl a) | rewrite (proj2 (Z.eqb_neq a b)) by (unfold ok_addr in *; tauto || congruence)]
  end; cbn [rb_when c_true Z.eqb negb].

Ltac keep_path :=
  let b := fresh "b" in let Hb := fresh "Hb" in
  first [assumption | eapply path_at_ext; [eassumption|reflexivity|];
    intros b Hb; rewrite ?lookup_put, ?decide_False by congruence; done].

(** The rotation at the end of a case, and the tree it leaves. *)
Ltac rotate_at d c b :=
  eapply (rotate_spec _ _ d _ _ c b);
  [find_cell | find_cell | keep_path | autorewrite with seps; done
  | autorewrite with seps; done
  | intros ? ? ? ? ?; split;
    [ cbn [tree_at]; rewrite ?tree_at_node_d, ?ptr_node_d; cbn [tree_at ptr]; split_and?;
      first [done | same_cell | keep]
    | by rewrite ptr_node_d
    | eapply ok_plug; [|match goal with H : ok_tree _ |- _ => exact H end]; destruct d; simpl; by repeat (rewrite <- app_assoc; simpl) ] ].

Ltac run := repeat first [progress tests | exec]; cbn [ptr].

(** Case 3: the new node is on the outside. *)
Lemma rotate_outer m d ct tl n tr p s g u k :
  zip m (Node ct tl n tr) (F d Red p s :: F d Black g u :: k) -> color_of s = Black ->
  rwp (insert_rotate d n p g)
    (fun _ m' => zip m' (node_d d Black (Node ct tl n tr) p (node_d d Red s g u)) k) m.
Proof.
  intros Hz Hs. destruct s as [|[] sl s sr]; [|done|];
    open_zip Hz; unfold insert_rotate; cbn [ptr] in *; run; rotate_at d Black Red.
Qed.

(** Cases 2 and 3: it is on the inside. *)
Lemma rotate_inner m d x n y p s g u k :
  zip m (node_d d Red x n y) (F (other d) Red p s :: F d Black g u :: k) ->
  color_of x = Black -> color_of y = Black ->
  rwp (insert_rotate d n p g)
    (fun _ m' => zip m' (node_d d Black (node_d d Red s p x) n (node_d d Red y g u)) k) m.
Proof.
  intros Hz Hx Hy. destruct x as [|[] xl x xr]; [|done|]; (destruct y as [|[] yl y yr]; [|done|]);
    open_zip Hz; unfold insert_rotate; cbn [ptr] in *; run; rotate_at d Black Red.
Qed.

(** ** The loop *)

(** [T] is what a tree with the nodes of [t] is to become. *)
Definition rebuilt (t : rb_tree) (m : rb_mem) : Prop :=
  exists T n, holds_tree m T /\ inorder T = inorder t /\ rb n Black T.

Lemma inorder_plug_eq t t' k : inorder t = inorder t' -> inorder (plug t k) = inorder (plug t' k).
Proof.
  revert t t'. induction k as [|[d c a s] k IH]; intros t t' He; simpl; [done|].
  apply IH. destruct d; simpl; by rewrite He.
Qed.

Lemma rebuilt_eq t t' m : inorder t = inorder t' -> rebuilt t m -> rebuilt t' m.
Proof. intros He (T & n & H1 & H2 & H3). exists T, n. by rewrite <- He. Qed.

Lemma rebuilt_plug m t t' k n c :
  zip m t k -> rb n c t -> path_rb n c k -> inorder t = inorder t' -> rebuilt (plug t' k) m.
Proof.
  intros Hz%zip_plug Ht Hk He. destruct (plug_rb _ _ _ _ Ht Hk) as [n' Hn].
  exists (plug t k), n'. split_and!; [done| |done]. by apply inorder_plug_eq.
Qed.

Lemma ptr_ne a t : ok_addr a -> a ∉ inorder t -> a <> ptr t.
Proof. intros [Ha _] Hin ->. by apply Hin, ptr_in. Qed.

Lemma lor_red p : Z.lor p (bit Red) = p.
Proof. apply Z.lor_0_r. Qed.

Lemma rwp_child_is_red m q t Q :
  tree_at (rb_nodes m) q t -> Z.land q 3 = 0 -> Forall ok_addr (inorder t) ->
  Q (match color_of t with Red => true | Black => false end) m ->
  rwp (if c_true (ptr t) then rb_is_red (ptr t) else mret false) Q m.
Proof.
  intros Ht Hq Hok HQ. destruct t as [|c l a r]; [done|]. destruct Ht as [Ha _].
  unpack Hok. destruct_and!. cbn [ptr]. rewrite c_true_addr by done.
  apply (rwp_is_red _ _ _ _ Ha). rewrite pc_cell, rb_is_black_cell by done. by destruct c.
Qed.

(** The side of [p] at its parent is found by looking at the right child. *)
Lemma find_side d q c p u :
  p <> ptr u -> (if p =? child SRight (cell d q c p (ptr u)) then SRight else SLeft) = d.
Proof. intros H. destruct d; simpl; [|by rewrite Z.eqb_refl]. by rewrite (proj2 (Z.eqb_neq _ _)). Qed.

(** The tree after writes that changed no pointer of the path. *)
Ltac finish_zip :=
  split;
  [ cbn [tree_at]; rewrite ?tree_at_node_d, ?ptr_node_d; cbn [tree_at ptr]; split_and?;
    first [done | same_cell | keep]
  | rewrite ?ptr_node_d; keep_path
  | eapply ok_plug; [|match goal with H : ok_tree _ |- _ => exact H end]; simpl;
    by repeat match goal with d : side |- _ => destruct d end ].

(** Case 1. *)
Lemma recolor_spec {A} m t d p s dg g ul u ur k (K : Z -> RB A) Q :
  zip m t (F d Red p s :: F dg Black g (Node Red ul u ur) :: k) ->
  (forall m', zip m' (node_d dg Red (node_d d Black t p s) g (Node Black ul u ur)) k ->
     rwp (K (top k)) Q m') ->
  rwp (rb_set_parent_color u g RB_BLACK ;; rb_set_parent_color p g RB_BLACK ;;
       parent ← rb_parent g; rb_set_parent_color g parent RB_RED ;; K parent) Q m.
Proof.
  intros Hz HQ.
  assert (Htop : Z.land (top k) 3 = 0) by (rewrite !zip_up in Hz; by eapply aligned_top).
  open_zip Hz. do 6 exec. rewrite rb_parent_cell by done. do 2 exec. apply HQ. finish_zip.
Qed.

Lemma black_root n t : rb n Black t -> color_of t = Black.
Proof. by inversion 1. Qed.

Lemma rotate_case m d dg tl n tr p s g u k h :
  zip m (Node Red tl n tr) (F d Red p s :: F dg Black g u :: k) ->
  rb h Red (Node Red tl n tr) -> rb h Black s -> rb h Black u -> path_rb (S h) Black k ->
  rwp (insert_rotate dg n p g)
    (fun _ => rebuilt (plug (Node Red tl n tr) (F d Red p s :: F dg Black g u :: k))) m.
Proof.
  intros Hz Ht Hs Hu Hk. inversion Ht as [|? ? ? ? Hl Hr|]; subst.
  assert (d = dg \/ d = other dg) as [->| ->] by (destruct d, dg; auto).
  - eapply rwp_mono; [apply rotate_outer; eauto using black_root|]. intros ? m' Hz'.
    eapply (rebuilt_plug _ _ (node_d dg Black (node_d dg Red (Node Red tl n tr) p s) g u)); [exact Hz'| |exact Hk|].
    + eapply rb_black_d; [done|]. by apply rb_red_d.
    + destruct dg; simpl; by repeat (rewrite <- app_assoc; simpl).
  - set (x := match dg with SLeft => tl | SRight => tr end).
    set (y := match dg with SLeft => tr | SRight => tl end).
    assert (He : Node Red tl n tr = node_d dg Red x n y) by (by destruct dg). rewrite He in Hz |- *.
    assert (rb h Black x /\ rb h Black y) as [Hx Hy] by (by destruct dg).
    eapply rwp_mono; [apply rotate_inner; eauto using black_root|]. intros ? m' Hz'.
    eapply (rebuilt_plug _ _ (node_d dg Black (node_d (other dg) Red (node_d dg Red x n y) p s) g u));
      [exact Hz'| |exact Hk|].
    + eapply rb_black_d; by apply rb_red_d.
    + destruct dg; simpl; by repeat (rewrite <- app_assoc; simpl).
Qed.

(** The loop ends after at most one turn for every two steps of the path. *)
Lemma insert_loop_spec fuel : forall m tl n tr k h,
  zip m (Node Red tl n tr) k -> rb h Red (Node Red tl n tr) -> path_rb h Black k ->
  (length k < fuel)%nat ->
  rwp (insert_loop fuel n (top k)) (fun _ => rebuilt (plug (Node Red tl n tr) k)) m.
Proof.
  induction fuel as [|fuel IH]; intros m tl n tr k h Hz Ht Hk Hf; [lia|]. cbn [insert_loop].
  destruct Hk as [h|h d p s k Hs Hk|h c cs d p s k Hs Hk]; cbn [top].
  - inversion Ht; subst. open_zip Hz. run. eapply (rebuilt_plug _ (Node Black tl n tr) _ [] (S h)); [finish_zip| | |done].
    + by econstructor.
    + constructor.
  - inversion Hk as [| |? ? cu dg g u k' Hu Hk']; subst. pose proof Hz as Hz0.
    open_zip Hz0. tests. do 2 exec. rewrite rb_is_black_cell by (unfold ok_addr in *; tauto).
    cbn [negb]. do 2 exec. rewrite lor_red. do 2 exec.
    rewrite find_side by by apply ptr_ne. do 3 exec.
    eapply rwp_child_is_red; [done|unfold ok_addr in *; tauto|done|].
    destruct u as [|[] ul u ur]; cbn [color_of ptr] in *.
    + inversion Hu; subst. by eapply rotate_case.
    + eapply recolor_spec; [done|]. intros m' Hz'. inversion Hu; subst.
      set (t' := node_d dg Red _ g _) in Hz'.
      assert (exists l r, t' = Node Red l g r) as (l & r & He) by (destruct dg; eauto).
      assert (Ht' : rb (S h) Red t').
      { apply rb_red_d; [by eapply rb_black_d|by econstructor]. }
      rewrite He in *. eapply rwp_mono; [eapply IH; [done..|simpl in Hf; lia]|].
      intros ? m2 Hr. eapply rebuilt_eq; [|exact Hr]. cbn [plug]. apply inorder_plug_eq. rewrite <- He.
      unfold t'. by destruct d, dg.
    + inversion Hu; subst. by eapply rotate_case.
  - pose proof Hz as Hz0. open_zip Hz0. tests. do 2 exec.
    rewrite rb_is_black_cell by (by eapply aligned_top, zip_up). cbn [negb]. exec.
    eapply rebuilt_plug; [done..| |done]. by econstructor.
Qed.

Lemma rb_insert_color_spec fuel m n k h :
  zip m (Node Red Leaf n Leaf) k -> path_rb h Black k -> h = 0%nat -> (length k < fuel)%nat ->
  rwp (rb_insert_color fuel n) (fun _ => rebuilt (plug (Node Red Leaf n Leaf) k)) m.
Proof.
  intros Hz Hk -> Hf. pose proof Hz as Hz0. open_zip Hz0.
  unfold rb_insert_color, __rb_insert, rb_red_parent. do 2 exec. rewrite lor_red.
  eapply insert_loop_spec; [done| |done..]. repeat constructor.
Qed.
