(* ===== verification/RbErase.v ===== *)
(** * Removal keeps a red-black tree

    [__rb_erase_augmented] takes a node out; when a black node is missing on
    the ways through one side of a node then, the loop of
    [____rb_erase_color] moves the place where it is missing up the path
    until a red node can be made black. *)

From S2P Require Import Prelude Rbtree RbRep RbInsert.

Open Scope Z_scope.

(** ** The cases of [____rb_erase_color] *)

Lemma rwp_null_or_black m q t Q :
  tree_at (rb_nodes m) q t -> Z.land q 3 = 0 -> Forall ok_addr (inorder t) ->
  Q (match color_of t with Red => false | Black => true end) m ->
  rwp (null_or_black (ptr t)) Q m.
Proof.
  intros Ht Hq Hok HQ. unfold null_or_black. destruct t as [|c l a r]; [done|].
  destruct Ht as [Ha _]. unpack Hok. destruct_and!. cbn [ptr]. rewrite c_true_addr by done.
  apply (rwp_is_black _ _ _ _ Ha). rewrite pc_cell, rb_is_black_cell by done. by destruct c.
Qed.

(** Case 1. *)
Lemma red_sibling_spec m t d p ll l lr s sr k Q :
  zip m t (F d Black p (node_d d Red (Node Black ll l lr) s sr) :: k) ->
  (forall m', zip m' t (F d Red p (Node Black ll l lr) :: F d Black s sr :: k) -> Q l m') ->
  rwp (red_sibling d p s) Q m.
Proof.
  intros Hz HQ. open_zip Hz. unfold red_sibling. do 2 exec.
  rewrite rb_is_black_cell by (unfold ok_addr in *; tauto). cbn [negb]. run.
  eapply (rwp_mono _ (fun _ m' => zip m' _ k)); [|intros ? m' Hz'; exec; apply HQ; rewrite !zip_up; exact Hz'].
  rotate_at d Black Red.
Qed.

(** Case 2. *)
Lemma flip_sibling_spec m t d c p x s y k Q :
  zip m t (F d c p (node_d d Black x s y) :: k) ->
  (forall m', zip m' (node_d d Black t p (node_d d Red x s y)) k ->
     Q (if c_true (top k) && match c with Red => false | Black => true end
        then Some (p, top k) else None) m') ->
  rwp (flip_sibling p s) Q m.
Proof.
  intros Hz HQ. assert (Htop : Z.land (top k) 3 = 0) by (rewrite zip_up in Hz; by eapply aligned_top).
  open_zip Hz. unfold flip_sibling. do 4 exec.
  rewrite rb_is_black_cell by done. destruct c; cbn [negb].
  - unfold rb_set_black. do 4 exec. rewrite lor_red. run. rewrite andb_false_r in HQ. apply HQ. finish_zip.
  - do 2 exec. rewrite rb_parent_cell by done. run. rewrite andb_true_r in HQ. apply HQ. finish_zip.
Qed.

(** Case 4. *)
Lemma rotate_sibling_spec m t d c p x s yl y yr k Q :
  zip m t (F d c p (node_d d Black x s (Node Red yl y yr)) :: k) ->
  (forall m', zip m' (node_d d c (node_d d Black t p x) s (Node Black yl y yr)) k -> Q tt m') ->
  rwp (rotate_sibling d p s y) Q m.
Proof.
  intros Hz HQ. destruct x as [|cx xl x xr]; open_zip Hz; unfold rotate_sibling; run;
    (eapply (rwp_mono _ (fun _ m' => zip m' _ k)); [|intros [] m' Hz'; apply HQ, Hz']; rotate_at d c Black).
Qed.

(** Cases 3 and 4. *)
Lemma rotate_twice_spec {A} m t d c p xl x xr s y k (K : RB A) Q :
  zip m t (F d c p (node_d d Black (node_d d Red xl x xr) s y) :: k) -> color_of xr = Black ->
  (forall m', zip m' (node_d d c (node_d d Black t p xl) x (node_d d Black xr s y)) k -> rwp K Q m') ->
  rwp (tmp1 ← get_child (other d) x;
       set_child d s tmp1 ;; set_child (other d) x s ;; set_child (other d) p x ;;
       rb_when (c_true tmp1) (rb_set_parent_color tmp1 s RB_BLACK) ;;
       rotate_sibling d p x s ;; K) Q m.
Proof.
  intros Hz Hr HQ. destruct xr as [|[] rl r rr]; [|done|]; destruct xl as [|cl ll l lr];
    open_zip Hz; unfold rotate_sibling; run;
    (eapply (rwp_mono _ (fun _ m' => zip m' _ k)); [|intros ? m' Hz'; apply HQ, Hz']; rotate_at d c Black).
Qed.

(** Where the loop goes on: a tree that is one black node short, at the end of
    a path with less than [len] more steps. *)
Definition short (n len : nat) (t : rb_tree) (r : option (Z * Z)) (m : rb_mem) : Prop :=
  match r with
  | None => rebuilt t m
  | Some (node, parent) =>
      exists t' d c p s k, zip m t' (F d c p s :: k) /\ node = ptr t' /\ parent = p /\
        rb n Black t' /\ path_rb (S n) Black (F d c p s :: k) /\
        inorder (plug t' (F d c p s :: k)) = inorder t /\ (length k < len)%nat
  end.

(** A tree that closes the gap below a node of colour [c]. *)
Lemma close_gap m n d c x a y p s k t :
  zip m (node_d d c x a y) k -> rb (S n) Black x -> rb (S n) Black y ->
  path_rb (S n) Black (F d c p s :: k) -> inorder (node_d d c x a y) = inorder t ->
  rebuilt (plug t k) m.
Proof.
  intros Hz Hx Hy Hk He. inversion Hk; subst.
  - eapply rebuilt_plug; [done| |done..]. by apply rb_red_d.
  - eapply rebuilt_plug; [done| |done..]. by eapply rb_black_d.
Qed.

Ltac same_order d := destruct d; simpl; by repeat (rewrite <- app_assoc; simpl).

Definition tail_len (c : rb_color) (k : list frame) : nat :=
  match c with Red => 0 | Black => length k end.

Lemma flip_case m t d c p x s y k n :
  zip m t (F d c p (node_d d Black x s y) :: k) ->
  rb n Black t -> rb n Black x -> rb n Black y ->
  path_rb (S n) Black (F d c p (node_d d Black x s y) :: k) ->
  rwp (flip_sibling p s) (short (S n) (tail_len c k) (plug t (F d c p (node_d d Black x s y) :: k))) m.
Proof.
  intros Hz Ht Hx Hy Hk. pose proof (zip_addrs _ _ _ Hz) as Hok. unpack Hok. destruct_and!.
  eapply flip_sibling_spec; [done|]. intros m' Hz'.
  assert (Hrb : rb (S n) Black (node_d d Black t p (node_d d Red x s y))).
  { eapply rb_black_d; [done|]. by apply rb_red_d. }
  inversion Hk as [|? ? ? ? ? Hs Hk'|? ? ? ? ? ? ? Hs Hk']; subst.
  - rewrite andb_false_r. cbn [short plug].
    eapply rebuilt_plug; [exact Hz'|done|by eapply path_rb_black|same_order d].
  - rewrite andb_true_r. cbn [plug]. destruct k as [|[d' c' p' s'] k].
    + cbn [short plug]. eapply (rebuilt_plug _ _ _ []); [exact Hz'|done|constructor|same_order d].
    + unpack H4. destruct_and!. cbn [top]. rewrite c_true_addr by done.
      eexists _, _, _, _, _, _. split; [exact Hz'|]. rewrite ptr_node_d.
      split_and!; [done..| |simpl; lia]. apply inorder_plug_eq. same_order d.
Qed.

Lemma black_sibling_spec m t d c p x s y k n cx cy :
  zip m t (F d c p (node_d d Black x s y) :: k) ->
  rb n Black t -> rb n cx x -> rb n cy y -> path_rb (S n) Black (F d c p (node_d d Black x s y) :: k) ->
  rwp (black_sibling d p s) (short (S n) (tail_len c k) (plug t (F d c p (node_d d Black x s y) :: k))) m.
Proof.
  intros Hz Ht Hx Hy Hk. pose proof Hz as Hz0. open_zip Hz0. unfold black_sibling. do 3 exec.
  eapply rwp_null_or_black; [done|unfold ok_addr in *; tauto|done|].
  destruct cy.
  - inversion Hy; subst. cbn [color_of ptr]. exec.
    eapply rotate_sibling_spec; [done|]. intros m' Hz'. exec. cbn [short plug].
    eapply close_gap; [exact Hz'|by eapply rb_black_d|by econstructor|done|same_order d].
  - rewrite (black_root _ _ Hy). do 3 exec.
    eapply rwp_null_or_black; [done|unfold ok_addr in *; tauto|done|].
    destruct cx; [|rewrite (black_root _ _ Hx); by apply flip_case].
    assert (exists xl a xr, x = node_d d Red xl a xr /\ rb n Black xl /\ rb n Black xr)
      as (xl & a & xr & -> & Hxl & Hxr).
    { inversion Hx; subst. destruct d; [by eexists _, _, _|by eexists r, _, l]. }
    replace (color_of (node_d d Red xl a xr)) with Red by (by destruct d). rewrite ptr_node_d.
    eapply rotate_twice_spec; [done|by eapply black_root|]. intros m' Hz'. exec. cbn [short plug].
    eapply close_gap; [exact Hz'|by eapply rb_black_d|by eapply rb_black_d|done|same_order d].
Qed.

Lemma as_node_d d c t a l r : t = Node c l a r -> exists x y, t = node_d d c x a y.
Proof. intros ->. destruct d; [by exists l, r|by exists r, l]. Qed.

Lemma rb_node_d_inv n d c c' x a y :
  rb n c' (node_d d c x a y) ->
  c' = c /\ match c with
            | Red => rb n Black x /\ rb n Black y
            | Black => exists n' cx cy, n = S n' /\ rb n' cx x /\ rb n' cy y
            end.
Proof. destruct d; simpl; inversion 1; subst; eauto 10. Qed.

(** One turn of the loop. *)
Lemma erase_turn m t d c p s k n :
  zip m t (F d c p s :: k) -> rb n Black t -> path_rb (S n) Black (F d c p s :: k) ->
  rwp (sibling ← red_sibling d p (ptr s); black_sibling d p sibling)
    (short (S n) (tail_len c k) (plug t (F d c p s :: k))) m.
Proof.
  intros Hz Ht Hk. apply rwp_bind. destruct s as [|[] sl s sr]; [inversion Hk as [|? ? ? ? ? H|? ? ? ? ? ? ? H]; inversion H|..].
  - destruct (as_node_d d _ _ _ _ _ (eq_refl (Node Red sl s sr))) as (x & y & He).
    rewrite He in *. inversion Hk as [|? ? ? ? ? Hs Hk'|? ? ? ? ? ? ? Hs Hk']; subst;
      apply rb_node_d_inv in Hs as [Hc [Hx Hy]]; [done|].
    destruct x as [|[] ll l lr]; [by inversion Hx|by inversion Hx|].
    destruct (as_node_d d _ _ _ _ _ (eq_refl (Node Black ll l lr))) as (x & y' & He').
    rewrite ptr_node_d. eapply red_sibling_spec; [done|]. intros m' Hz'. cbn [plug].
    rewrite He' in *. pose proof Hx as Hx'. apply rb_node_d_inv in Hx' as [_ (n' & cx & cy & [= <-] & Hx1 & Hx2)].
    eapply rwp_mono; [eapply black_sibling_spec; [done..|]|].
    { constructor; [done|]. by econstructor. }
    intros [[]|] m2 Hs; cbn [short] in *.
    + destruct Hs as (? & ? & ? & ? & ? & ? & ? & ? & ? & ? & ? & ? & Hl). simpl in Hl. lia.
    + eapply rebuilt_eq; [|exact Hs]. cbn [plug]. apply inorder_plug_eq. same_order d.
  - destruct (as_node_d d _ _ _ _ _ (eq_refl (Node Black sl s sr))) as (x & y & He).
    rewrite He in *. assert (exists cs, rb (S n) cs (node_d d Black x s y)) as [cs Hs] by (inversion Hk; eauto).
    apply rb_node_d_inv in Hs as [-> (n' & cx & cy & [= <-] & Hx & Hy)]. rewrite ptr_node_d.
    pose proof Hz as Hz0. open_zip Hz0. unfold red_sibling. do 2 exec.
    rewrite rb_is_black_cell by (unfold ok_addr in *; tauto). cbn [negb]. exec.
    by eapply black_sibling_spec.
Qed.

(** The loop ends after at most one turn for every step of the path. *)
Lemma erase_loop_spec fuel : forall m t d c p s k n,
  zip m t (F d c p s :: k) -> rb n Black t -> path_rb (S n) Black (F d c p s :: k) ->
  (length k < fuel)%nat ->
  rwp (erase_loop fuel (ptr t) p) (fun _ => rebuilt (plug t (F d c p s :: k))) m.
Proof.
  induction fuel as [|fuel IH]; intros m t d c p s k n Hz Ht Hk Hf; [lia|]. cbn [erase_loop].
  assert (ptr t <> ptr s).
  { assert (exists cs, rb (S n) cs s) as [cs Hs] by (inversion Hk; eauto).
    pose proof (zip_sep _ _ _ Hz) as Hnd. pose proof (zip_addrs _ _ _ Hz) as Hok.
    destruct s; [by inversion Hs|]. cbn [ptr]. unpack Hnd. unpack Hok. destruct_and!.
    by apply not_eq_sym, ptr_ne. }
  pose proof Hz as Hz0. open_zip Hz0. do 2 exec. rewrite find_side by done. do 2 exec.
  pose proof (erase_turn _ _ _ _ _ _ _ _ Hz Ht Hk) as Hturn.
  unfold rwp, mbind, rb_bind in Hturn |- *.
  destruct (red_sibling d p (ptr s) m) as [[sb m1]| |]; try done.
  destruct (black_sibling d p sb m1) as [[[[node parent]|] m2]| |]; try done.
  destruct Hturn as (t' & d' & c' & p' & s' & k' & Hz' & -> & -> & Ht' & Hk' & He & Hl).
  eapply rwp_mono; [eapply IH; [done..|]|].
  - destruct c; simpl in *; lia.
  - intros ? m3 Hr. by eapply rebuilt_eq.
Qed.
