(* ===== verification/RbRemove.v ===== *)
(** * Taking a node out of a red-black tree

    [__rb_erase_augmented] and [rb_erase]: the tree loses exactly the given
    node, the others keep their order, and it is a red-black tree again. *)

From S2P Require Import Prelude Rbtree RbRep RbInsert RbErase.

Open Scope Z_scope.

(** ** The order of the nodes around a position *)

Fixpoint before (k : list frame) : list Z :=
  match k with
  | [] => []
  | F SLeft _ _ _ :: k' => before k'
  | F SRight _ a s :: k' => before k' ++ inorder s ++ [a]
  end.

Fixpoint after (k : list frame) : list Z :=
  match k with
  | [] => []
  | F SLeft _ a s :: k' => a :: inorder s ++ after k'
  | F SRight _ _ _ :: k' => after k'
  end.

Lemma inorder_around t k : inorder (plug t k) = before k ++ inorder t ++ after k.
Proof.
  revert t. induction k as [|[[] c a s] k IH]; intros t; simpl; [by rewrite app_nil_r|..];
    rewrite IH; simpl; by repeat (rewrite <- app_assoc; simpl).
Qed.

Lemma plug_app t k1 k2 : plug t (k1 ++ k2) = plug (plug t k1) k2.
Proof. revert t. induction k1 as [|[d c a s] k1 IH]; intros t; simpl; [done|]. apply IH. Qed.

Lemma ok_plug_sub t t' k :
  sublist (inorder t') (inorder t) -> ok_tree (plug t k) -> ok_tree (plug t' k).
Proof.
  intros Hs [Hn Hok]. unfold ok_tree. rewrite inorder_around in *.
  assert (Hsub : sublist (before k ++ inorder t' ++ after k) (before k ++ inorder t ++ after k)).
  { by apply sublist_app, sublist_app. }
  split; [by eapply sublist_NoDup|].
  rewrite Forall_forall in *. intros x Hx. apply Hok. eapply elem_of_submseteq; [done|].
  by apply sublist_submseteq.
Qed.

(** ** Parts of paths *)

Fixpoint bottom (p : Z) (k : list frame) : Z :=
  match k with [] => p | F _ _ a _ :: k' => bottom a k' end.

Definition top_or (k : list frame) (q : Z) : Z := match k with [] => q | F _ _ a _ :: _ => a end.

Fixpoint segment_at (h : gmap Z rb_node) (p : Z) (k : list frame) (q : Z) : Prop :=
  match k with
  | [] => True
  | F d c a s :: k' =>
      h !! a = Some (cell d (top_or k' q) c p (ptr s)) /\ tree_at h a s /\ segment_at h a k' q
  end.

Lemma path_addrs_app k1 k2 : path_addrs (k1 ++ k2) = path_addrs k1 ++ path_addrs k2.
Proof. induction k1 as [|[d c a s] k1 IH]; simpl; [done|]. by rewrite IH, app_assoc. Qed.

Lemma top_app k1 k2 : top (k1 ++ k2) = top_or k1 (top k2).
Proof. by destruct k1 as [|[]]. Qed.

Lemma path_at_app m p k1 k2 :
  path_at m p (k1 ++ k2) <->
  segment_at (rb_nodes m) p k1 (top k2) /\ path_at m (bottom p k1) k2.
Proof.
  revert p. induction k1 as [|[d c a s] k1 IH]; intros p; simpl; [tauto|].
  rewrite IH, top_app. tauto.
Qed.

Lemma segment_at_ext h h' p k q :
  segment_at h p k q -> (forall a, a ∈ path_addrs k -> h' !! a = h !! a) -> segment_at h' p k q.
Proof.
  revert p. induction k as [|[d c a s] k IH]; intros p; simpl; [done|].
  intros (H1 & H2 & H3) He. split_and!.
  - rewrite He; [done|]. set_solver.
  - eapply tree_at_ext; [done|]. set_solver.
  - apply IH; [done|]. set_solver.
Qed.

Lemma bottom_in p k : k <> [] -> bottom p k ∈ path_addrs k.
Proof.
  revert p. induction k as [|[d c a s] k IH]; intros p Hk; simpl; [done|].
  destruct k as [|f k]; [simpl; set_solver|]. specialize (IH a). set_solver.
Qed.

Lemma bottom_indep p p' k : k <> [] -> bottom p k = bottom p' k.
Proof. by destruct k as [|[]]. Qed.

(** The last node of the path gets another parent. *)
Lemma segment_move h p k q q' :
  segment_at h p k q -> k <> [] -> NoDup (path_addrs k) -> Forall ok_addr (path_addrs k) ->
  Z.land q 3 = 0 ->
  exists n, h !! bottom p k = Some n /\
    segment_at (<[bottom p k := with_pc (Z.lor (__rb_color (rb_parent_color n)) q') n]> h) p k q'.
Proof.
  revert p. induction k as [|[d c a s] k IH]; intros p; [done|].
  intros (H1 & H2 & H3) _ Hnd Hok Hq. cbn [bottom segment_at].
  pose proof Hnd as Hnd'. unpack Hnd'. pose proof Hok as Hok'. unpack Hok'. destruct_and!.
  destruct k as [|f k].
  - eexists. split; [exact H1|]. cbn [bottom segment_at top_or].
    rewrite pc_cell, with_parent_cell by done. rewrite lookup_insert_eq. split_and!; [done| |done].
    eapply tree_at_ext; [done|]. intros b Hb. rewrite lookup_insert_ne; congruence.
  - destruct (IH a) as (n & Hn & Hseg); [done..|]. exists n. split; [done|].
    assert (Hin : bottom a (f :: k) ∈ path_addrs (f :: k)) by (by apply bottom_in).
    assert (top_or (f :: k) q' = top_or (f :: k) q) as -> by (by destruct f).
    split_and!; [| |done].
    + rewrite lookup_insert_ne; [done|]. set_solver.
    + eapply tree_at_ext; [done|]. intros b Hb. rewrite lookup_insert_ne; [done|]. set_solver.
Qed.

(** ** The successor *)

Fixpoint height (t : rb_tree) : nat :=
  match t with Leaf => 0 | Node _ l _ r => S (Nat.max (height l) (height r)) end.

Lemma before_app k1 k2 : before (k1 ++ k2) = before k2 ++ before k1.
Proof.
  induction k1 as [|[[] c a s] k1 IH]; simpl; [by rewrite app_nil_r|done|].
  by rewrite IH, <- !app_assoc.
Qed.

Lemma after_app k1 k2 : after (k1 ++ k2) = after k1 ++ after k2.
Proof.
  induction k1 as [|[[] c a s] k1 IH]; simpl; [done| |done]. by rewrite IH, app_assoc.
Qed.

Lemma successor_loop_spec fuel : forall m q c l a r Q,
  tree_at (rb_nodes m) q (Node c l a r) -> l <> Leaf -> Forall ok_addr (inorder l) ->
  (height l <= fuel)%nat ->
  (forall cs s sr kk, Node c l a r = plug (Node cs Leaf s sr) kk -> kk <> [] -> before kk = [] ->
     Q (top kk, s) m) ->
  rwp (successor_loop fuel a (ptr l)) Q m.
Proof.
  induction fuel as [|fuel IH]; intros m q c l a r Q Ht Hl Hok Hf HQ;
    destruct l as [|cl ll la lr]; try done; [simpl in Hf; lia|]. cbn [successor_loop ptr].
  pose proof Ht as (_ & Hl' & _). pose proof Hl' as (Hla & _ & _).
  apply rwp_bind, (rwp_get_child _ _ _ _ _ Hla). cbn [child cell rb_left]. unpack Hok. destruct_and!.
  destruct ll as [|c' ll' la' lr'].
  - cbn [ptr]. apply rwp_ret. by apply (HQ cl la lr [F SLeft c a r]).
  - cbn [ptr]. rewrite c_true_addr by (unpack H; tauto).
    apply (IH m a cl (Node c' ll' la' lr') la lr); [done..|simpl in *; lia|].
    intros cs s sr kk He Hkk Hb. replace (top kk) with (top (kk ++ [F SLeft c a r])) by (by destruct kk as [|[]]).
    apply (HQ cs s sr).
    + by rewrite plug_app, <- He.
    + by destruct kk.
    + by rewrite before_app, Hb.
Qed.

(** The successor [s] of [n], with right subtree [sr], was at the end of the
    path [kk] under the right child of [n]; it is out of there, and has the
    right child of [n] as its right child. *)
Record unlinked (m : rb_mem) (c : rb_color) (l : rb_tree) (n s : Z) (cs : rb_color)
    (sr : rb_tree) (kk k : list frame) : Prop := {
  un_s : exists ps, Z.land ps 3 = 0 /\
    rb_nodes m !! s = Some (cell SRight ps cs (bottom (ptr sr) kk) 0);
  un_seg : segment_at (rb_nodes m) (ptr sr) kk s;
  un_sr : tree_at (rb_nodes m) s sr;
  un_n : exists x, rb_nodes m !! n = Some (cell SRight (top k) c x (ptr l));
  un_l : tree_at (rb_nodes m) n l;
  un_path : path_at m n k
}.

Lemma unlink_far m c l n s cs sr kk k Q :
  zip m (Node cs Leaf s sr) (kk ++ F SRight c n l :: k) -> kk <> [] -> before kk = [] ->
  (forall m', unlinked m' c l n s cs sr kk k -> Q (top kk, s, ptr sr) m') ->
  rwp (child2 ← get_child SRight s;
       set_child SLeft (top kk) child2 ;; set_child SRight s (bottom s kk) ;;
       rb_set_parent (bottom s kk) s ;; mret (top kk, s, child2)) Q m.
Proof.
  intros Hz Hkk Hb HQ. pose proof (zip_sep _ _ _ Hz) as Hnd. pose proof (zip_addrs _ _ _ Hz) as Hok.
  rewrite path_addrs_app in Hnd, Hok. unpack Hnd. unpack Hok. destruct_and!.
  destruct Hz as [(Hs & _ & Hsr) Hp _]. apply path_at_app in Hp as [Hseg (Hn & Hl & Hp)].
  destruct kk as [|[[] ck p sk] kk]; [done| |simpl in Hb; by destruct (before kk), (inorder sk)].
  cbn [top ptr app] in *. destruct Hseg as (Hpc & Hsk & Hseg).
  change (rb_nodes m !! s = Some (cell SRight p cs (ptr sr) 0)) in Hs.
  set (kk' := F SLeft ck p sk :: kk) in *. set (b := bottom s kk').
  assert (Hb' : b ∈ path_addrs kk') by (by apply bottom_in).
  assert (Hpk : p ∈ path_addrs kk') by (unfold kk'; simpl; set_solver).
  assert (Z.land n 3 = 0) by (unfold ok_addr in *; tauto).
  assert (Z.land p 3 = 0) by (unfold kk' in *; unpack H0; unfold ok_addr in *; tauto).
  assert (Hps : p <> s) by congruence.
  do 2 exec. do 4 exec. autorewrite with cells.
  set (m2 := put s _ _).
  assert (Hseg2 : segment_at (rb_nodes m2) (ptr sr) kk' n).
  { unfold kk' in *. cbn [segment_at]. unpack H15. unpack H4. destruct_and!. split_and!; [unfold m2; find_cell|unfold m2; keep|].
    eapply segment_at_ext; [exact Hseg|]. intros a Ha. unfold m2.
    rewrite !lookup_put, !decide_False; [done|congruence..]. }
  destruct (segment_move _ _ _ _ s Hseg2) as (nb & Hnb & Hseg3); [done..|].
  rewrite (bottom_indep _ s) in Hnb, Hseg3 by done. fold b in Hnb, Hseg3.
  exec. eapply rwp_set_parent; [exact Hnb|]. exec. apply HQ.
  set (m3 := put b _ m2).
  assert (Hsame : forall a, a ∉ path_addrs kk' -> a <> s -> rb_nodes m3 !! a = rb_nodes m !! a).
  { intros a Ha Has. unfold m3, m2. rewrite !lookup_put, !decide_False; [done|congruence..]. }
  split.
  - exists p. split; [done|]. unfold m3, m2. rewrite (bottom_indep _ s) by done. fold b.
    rewrite lookup_put, decide_False by congruence. find_cell.
  - exact Hseg3.
  - eapply tree_at_ext; [exact Hsr|]. intros a Ha. apply Hsame; clash.
  - eexists. rewrite Hsame by congruence. exact Hn.
  - eapply tree_at_ext; [exact Hl|]. intros a Ha. apply Hsame; clash.
  - eapply path_at_ext; [exact Hp|done|]. intros a Ha. apply Hsame; clash.
Qed.

(** ** The successor takes the place of the node *)

(** Addresses that were not written. *)
Ltac elsewhere H :=
  let b := fresh "b" in let Hb := fresh "Hb" in
  intros b Hb; rewrite ?lookup_put, ?decide_False by clash; first [done | by rewrite H by clash].

(** The part of the memory [m2] that does not depend on [sr]. *)
Lemma relinked m m2 c l n s cs sr kk k p :
  unlinked m c l n s cs sr kk k -> p = ptr sr ->
  rb_nodes m2 !! s = Some (cell SRight (top k) c (bottom p kk) (ptr l)) ->
  tree_at (rb_nodes m2) s l -> path_at m2 s k ->
  (forall a, a ∈ path_addrs kk -> rb_nodes m2 !! a = rb_nodes m !! a) ->
  path_at m2 p (kk ++ F SRight c s l :: k).
Proof.
  intros Hu -> Hs Hl Hp He. apply path_at_app. split; [|done].
  eapply segment_at_ext; [apply (un_seg _ _ _ _ _ _ _ _ _ Hu)|done].
Qed.

Lemma relink_spec m c cl ll l lr n s cs sr kk k Q :
  unlinked m c (Node cl ll l lr) n s cs sr kk k ->
  NoDup (s :: inorder sr ++ path_addrs kk ++ n :: inorder (Node cl ll l lr) ++ path_addrs k) ->
  Forall ok_addr (s :: inorder sr ++ path_addrs kk ++ n :: inorder (Node cl ll l lr) ++ path_addrs k) ->
  ok_tree (plug sr (kk ++ F SRight c s (Node cl ll l lr) :: k)) ->
  (forall m',
     match sr with
     | Leaf => zip m' Leaf (kk ++ F SRight c s (Node cl ll l lr) :: k) ->
         Q (match cs with Black => top_or kk s | Red => 0 end) m'
     | Node cr rl a rr => zip m' (Node Black rl a rr) (kk ++ F SRight c s (Node cl ll l lr) :: k) -> Q 0 m'
     end) ->
  rwp (relink_successor n (top_or kk s) s (ptr sr)) Q m.
Proof.
  intros Hu Hnd Hok Hzok HQ. pose proof Hu as [(ps & Hps & Hs) _ Hsr (x & Hn) (Hl & Hll & Hlr) Hp].
  assert (Htop : Z.land (top k) 3 = 0).
  { rewrite !Forall_cons, !Forall_app, !Forall_cons, !Forall_app in Hok. apply aligned_path; tauto. }
  destruct sr as [|cr rl a rr]; unpack Hnd; unpack Hok; destruct_and!; unfold relink_successor;
    do 2 exec; cbn [ptr child cell rb_left]; do 7 exec; rewrite rb_parent_cell by done;
    (eapply change_child_spec; [keep_path|by autorewrite with seps|by autorewrite with seps|]);
    intros m1 Hp1 Hsame;
    assert (Hother : forall a, a ∉ path_addrs k -> a <> s -> a <> l -> rb_nodes m1 !! a = rb_nodes m !! a)
      by (intros b ? ? ?; rewrite Hsame by done; by rewrite !lookup_put, !decide_False by done);
    assert (Hl1 : rb_nodes m1 !! l = Some (cell SLeft s cl (ptr ll) (ptr lr)))
      by (rewrite Hsame by done; find_cell);
    cbn [ptr] in *.
  - assert (Hs1 : rb_nodes m1 !! s = Some (cell SRight ps cs (bottom 0 kk) l))
      by (rewrite Hsame by done; find_cell).
    cbn [c_true Z.eqb negb]. do 5 exec. rewrite rb_is_black_cell by done.
    enough (zip (put s (cell SRight (top k) c (bottom 0 kk) l) m1) Leaf
      (kk ++ F SRight c s (Node cl ll l lr) :: k)) by (destruct cs; by apply HQ).
    split; [done| |done].
    eapply relinked; [exact Hu|done|find_cell| | |elsewhere Hother].
    + cbn [tree_at]; split_and!; [find_cell|eapply tree_at_ext; [done|elsewhere Hother]..].
    + eapply path_at_ext; [done|done|elsewhere Hother].
  - assert (Hs1 : rb_nodes m1 !! s = Some (cell SRight ps cs (bottom a kk) l))
      by (rewrite Hsame by done; find_cell).
    destruct Hsr as (Ha & Hrl & Hrr).
    assert (Ha1 : rb_nodes m1 !! a = Some (cell SLeft s cr (ptr rl) (ptr rr)))
      by (by rewrite Hother by congruence).
    rewrite c_true_addr by done. do 5 exec. apply HQ. split; [| |eapply ok_plug; [|exact Hzok]; done].
    + cbn [tree_at]. rewrite top_app. cbn [top].
      split_and!; [find_cell|eapply tree_at_ext; [done|elsewhere Hother]..].
    + eapply relinked; [exact Hu|done|find_cell| | |elsewhere Hother].
      * cbn [tree_at]; split_and!; [find_cell|eapply tree_at_ext; [done|elsewhere Hother]..].
      * eapply path_at_ext; [done|done|elsewhere Hother].
Qed.

(** ** [__rb_erase_augmented] *)

Lemma height_plug t k : (length k + height t <= height (plug t k))%nat.
Proof.
  revert t. induction k as [|[d c a s] k IH]; intros t; simpl; [lia|].
  specialize (IH (node_d d c t a s)). destruct d; simpl in *; lia.
Qed.

(** The tree [t] lost [n].  A result other than [0] is the node below which a
    black node is missing. *)
Definition erased (t : rb_tree) (n : Z) (r : Z) (m : rb_mem) : Prop :=
  exists t' k h c A B,
    zip m t' k /\ inorder t = A ++ n :: B /\ inorder (plug t' k) = A ++ B /\
    ((r = 0 /\ rb h c t' /\ path_rb h c k) \/
     (t' = Leaf /\ k <> [] /\ r = top k /\ path_rb 1 Black k /\ (length k < height t)%nat)).

Lemma erased_here c l n r k t' m h c' :
  zip m t' k -> inorder t' = inorder l ++ inorder r -> rb h c' t' -> path_rb h c' k ->
  erased (plug (Node c l n r) k) n 0 m.
Proof.
  intros Hz He Hr Hk. exists t', k, h, c', (before k ++ inorder l), (inorder r ++ after k).
  rewrite !inorder_around, He. simpl. repeat (rewrite <- app_assoc; simpl).
  split_and!; [done..|]. by left.
Qed.

Lemma rb_zero c t : rb 0 c t -> t = Leaf \/ exists a, c = Red /\ t = Node Red Leaf a Leaf.
Proof.
  inversion 1 as [|? l a r Hl Hr|]; subst; [by left|]. right. exists a.
  inversion Hl; inversion Hr; by subst.
Qed.

Lemma rb_one_leaf h d c n t :
  rb h c (node_d d c Leaf n t) ->
  t = Leaf \/ c = Black /\ h = 1%nat /\ exists a, t = Node Red Leaf a Leaf.
Proof.
  intros Ht. apply rb_node_d_inv in Ht as [_ Ht]. destruct c.
  - destruct Ht as [H1 H2]. inversion H1; subst. apply rb_zero in H2 as [->|(a & Hc & _)]; [by left|done].
  - destruct Ht as (n' & cx & cy & -> & H1 & H2). inversion H1; subst.
    apply rb_zero in H2 as [->|(a & _ & ->)]; [by left|eauto].
Qed.

(** A node without children. *)
Lemma erased_leaf m c n k h :
  zip m Leaf k -> rb h c (Node c Leaf n Leaf) -> path_rb h c k -> Forall ok_addr (path_addrs k) ->
  erased (plug (Node c Leaf n Leaf) k) n (match c with Red => 0 | Black => top k end) m.
Proof.
  intros Hz Ht Hk Hok. inversion Ht as [|? ? ? ? Hl Hr|? ? ? ? ? ? Hl Hr]; subst; inversion Hl; subst.
  - eapply erased_here; [done|done|constructor|by eapply path_rb_black].
  - destruct k as [|f k]; [eapply erased_here; [done|done|constructor..]|].
    exists Leaf, (f :: k), 0%nat, Black, (before (f :: k)), (after (f :: k)).
    rewrite !inorder_around. split_and!; [done..|]. right. split_and!; try done.
    pose proof (height_plug (Node Black Leaf n Leaf) (f :: k)) as Hh. simpl in Hh |- *. lia.
Qed.

Lemma erase_no_left m c n r k h Q :
  zip m (Node c Leaf n r) k -> rb h c (Node c Leaf n r) -> path_rb h c k ->
  (forall a m', erased (plug (Node c Leaf n r) k) n a m' -> Q a m') ->
  rwp (pc ← get_pc n;
       let parent := __rb_parent pc in
       __rb_change_child n (ptr r) parent ;;
       if c_true (ptr r) then set_pc (ptr r) pc ;; mret 0
       else mret (if __rb_is_black pc then parent else 0)) Q m.
Proof.
  intros Hz Ht Hk HQ. pose proof (aligned_top _ _ _ Hz) as Htop. pose proof (zip_ok _ _ _ Hz) as Hzok.
  destruct (rb_one_leaf h SLeft c n r Ht) as [->|(-> & -> & a & ->)];
    open_zip Hz; do 2 exec; rewrite rb_parent_cell by done; cbv zeta; exec;
    (eapply change_child_spec; [keep_path|by autorewrite with seps|by autorewrite with seps|]);
    intros m1 Hp1 Hsame; cbn [ptr] in *.
  - cbn [c_true Z.eqb negb]. exec. rewrite rb_is_black_cell by done.
    replace (if match c with Red => false | Black => true end then top k else 0)
      with (match c with Red => 0 | Black => top k end) by (by destruct c).
    apply HQ. eapply erased_leaf; [|done..]. split; [done..|]. eapply ok_plug_sub; [|exact Hzok].
    simpl. apply sublist_nil_l.
  - assert (Ha1 : rb_nodes m1 !! a = Some (cell SLeft n Red 0 0)) by (by rewrite Hsame by done).
    tests. do 3 exec. apply HQ. eapply (erased_here _ _ _ _ _ (Node Black Leaf a Leaf)); [|done| |done].
    + split; [split_and!; [find_cell|done..]|keep_path|]. eapply ok_plug_sub; [|exact Hzok].
      simpl. by do 2 constructor.
    + repeat econstructor.
Qed.

Lemma erase_no_right m c n l k h Q :
  zip m (Node c l n Leaf) k -> rb h c (Node c l n Leaf) -> path_rb h c k -> l <> Leaf ->
  (forall a m', erased (plug (Node c l n Leaf) k) n a m' -> Q a m') ->
  rwp (pc ← get_pc n;
       set_pc (ptr l) pc ;;
       let parent := __rb_parent pc in
       __rb_change_child n (ptr l) parent ;;
       mret 0) Q m.
Proof.
  intros Hz Ht Hk Hl HQ. pose proof (aligned_top _ _ _ Hz) as Htop. pose proof (zip_ok _ _ _ Hz) as Hzok.
  destruct (rb_one_leaf h SRight c n l Ht) as [->|(-> & -> & a & ->)]; [done|].
  open_zip Hz. do 4 exec. rewrite rb_parent_cell by done. cbv zeta. exec. cbn [ptr] in *.
  eapply change_child_spec; [keep_path|by autorewrite with seps|by autorewrite with seps|].
  intros m1 Hp1 Hsame. exec. apply HQ.
  eapply (erased_here _ _ _ _ _ (Node Black Leaf a Leaf)); [|done| |done].
  - split; [split_and!; [|done..]|done|].
    + rewrite Hsame by done. find_cell.
    + eapply ok_plug_sub; [|exact Hzok]. simpl. by do 2 constructor.
  - repeat econstructor.
Qed.

(** ** A node with two children *)

Lemma ptr_plug t k : ptr (plug t k) = bottom (ptr t) k.
Proof. revert t. induction k as [|[d c a s] k IH]; intros t; simpl; [done|]. by rewrite IH, ptr_node_d. Qed.

Lemma unplug_rb h c t kk k :
  rb h c (plug t kk) -> path_rb h c k -> exists h' c', rb h' c' t /\ path_rb h' c' (kk ++ k).
Proof.
  revert t. induction kk as [|[d ck a s] kk IH]; intros t Ht Hk; simpl in *; [eauto|].
  destruct (IH _ Ht Hk) as (h' & c' & Hn & Hp). apply rb_node_d_inv in Hn as [-> Hn]. destruct ck.
  - destruct Hn as [Hx Hy]. exists h', Black. split; [done|]. by constructor.
  - destruct Hn as (n' & cx & cy & -> & Hx & Hy). exists n', cx. split; [done|]. by econstructor.
Qed.

Lemma path_rb_rename h c kk d c0 n s l k :
  path_rb h c (kk ++ F d c0 n l :: k) -> path_rb h c (kk ++ F d c0 s l :: k).
Proof.
  revert h c. induction kk as [|[d' c' a x] kk IH]; intros h c; simpl;
    inversion 1; subst; econstructor; eauto.
Qed.

Lemma ok_remove t t' A n B :
  ok_tree t -> inorder t = A ++ n :: B -> inorder t' = A ++ B -> ok_tree t'.
Proof.
  intros Hok He He'. apply (ok_plug_sub t t' []); [|done]. rewrite He, He'.
  by apply sublist_app, sublist_cons.
Qed.

Lemma unlink_spec fuel m c l n r k Q :
  zip m (Node c l n r) k -> r <> Leaf -> (height r <= fuel)%nat ->
  (forall cs s sr kk m', r = plug (Node cs Leaf s sr) kk -> before kk = [] ->
     unlinked m' c l n s cs sr kk k -> Q (top_or kk s, s, ptr sr) m') ->
  rwp (unlink_successor fuel n (ptr r)) Q m.
Proof.
  intros Hz Hr Hf HQ. destruct r as [|cr rl a rr]; [done|]. cbn [ptr].
  pose proof Hz as Hz0. open_zip Hz0. unfold unlink_successor. do 2 exec.
  cbn [child cell rb_left]. destruct rl as [|cl' ll' l' lr']; cbn [ptr] in *.
  - cbn [c_true Z.eqb negb]. do 3 exec. cbn [child cell rb_right].
    apply (HQ cr a rr []); [done|done|]. split; cbn [bottom segment_at]; try done.
    + exists n. unfold ok_addr in *. split; [tauto|done].
    + by eexists.
  - rewrite c_true_addr by (unfold ok_addr in *; cbn [inorder] in *; autorewrite with seps in *; tauto).
    cbn [negb]. exec.
    eapply (successor_loop_spec fuel m n cr (Node cl' ll' l' lr') a rr); [done|done|done|simpl in *; lia|].
    intros cs s sr kk He Hkk Hb. rewrite (f_equal ptr He : a = _), ptr_plug. cbn [ptr].
    eapply unlink_far; [|done|done|].
    + apply zip_plug. rewrite plug_app, <- He. by apply zip_plug in Hz.
    + intros m' Hu. replace (top kk) with (top_or kk s) by (by destruct kk as [|[]]). by apply (HQ cs).
Qed.

Lemma inorder_old c l n cs s sr kk k :
  before kk = [] ->
  inorder (plug (Node c l n (plug (Node cs Leaf s sr) kk)) k)
  = (before k ++ inorder l) ++ n :: s :: inorder sr ++ after kk ++ after k.
Proof.
  intros Hb. rewrite inorder_around. cbn [inorder]. rewrite inorder_around, Hb. simpl.
  by repeat (rewrite <- app_assoc; simpl).
Qed.

Lemma inorder_new c l s t kk k :
  before kk = [] ->
  inorder (plug t (kk ++ F SRight c s l :: k))
  = (before k ++ inorder l) ++ s :: inorder t ++ after kk ++ after k.
Proof.
  intros Hb. rewrite inorder_around, before_app, after_app, Hb. simpl.
  rewrite app_nil_r. by repeat (rewrite <- app_assoc; simpl).
Qed.

Lemma erase_two fuel m c l n r k h :
  zip m (Node c l n r) k -> rb h c (Node c l n r) -> path_rb h c k ->
  l <> Leaf -> r <> Leaf -> (height r <= fuel)%nat ->
  rwp (r ← unlink_successor fuel n (ptr r);
       let '(parent, successor, child2) := (r : Z * Z * Z) in
       relink_successor n parent successor child2) (erased (plug (Node c l n r) k) n) m.
Proof.
  intros Hz Ht Hk Hl Hr Hf. exec. eapply unlink_spec; [done..|]. intros cs s sr kk m' -> Hb Hu.
  pose proof (zip_ok _ _ _ Hz) as Hzok.
  assert (Hz2 : zip m (Node cs Leaf s sr) (kk ++ F SRight c n l :: k)).
  { apply zip_plug. rewrite plug_app. by apply zip_plug in Hz. }
  destruct (unplug_rb h c (Node cs Leaf s sr) (kk ++ [F SRight c n l]) k) as (h' & c' & Hs & Hp);
    [by rewrite plug_app|done|]. rewrite <- app_assoc in Hp. apply (path_rb_rename _ _ _ _ _ _ s) in Hp.
  pose proof (zip_sep _ _ _ Hz2) as Hnd. pose proof (zip_addrs _ _ _ Hz2) as Hok.
  rewrite path_addrs_app in Hnd, Hok. destruct l as [|cl ll l lr]; [done|].
  assert (c' = cs) as -> by (by inversion Hs).
  eapply relink_spec; [exact Hu|exact Hnd|exact Hok| |].
  - eapply ok_remove; [exact Hzok|by apply inorder_old|by apply inorder_new].
  - intros m2. destruct (rb_one_leaf h' SLeft cs s sr Hs) as [->|(-> & -> & a & ->)]; intros Hz';
      (eexists _, _, _, _, _, _; split_and!; [exact Hz'|by apply inorder_old|rewrite inorder_new by done; reflexivity|]).
    + inversion Hs as [|? ? ? ? H1 H2|? ? ? ? ? ? H1 H2]; subst; inversion H1; subst.
      * left. split_and!; [done|constructor|by eapply path_rb_black].
      * right. rewrite top_app. split_and!; [done|by destruct kk|done|done|].
        pose proof (height_plug (Node Black Leaf s Leaf) (kk ++ F SRight c n (Node cl ll l lr) :: k)) as Hh.
        rewrite plug_app, !length_app in Hh. rewrite length_app. simpl in *. lia.
    + left. split_and!; [done| |exact Hp]. repeat econstructor.
  Unshelve. all: exact 0%nat || exact Black.
Qed.

Lemma erase_augmented_spec fuel m c l n r k h :
  zip m (Node c l n r) k -> rb h c (Node c l n r) -> path_rb h c k -> (height r <= fuel)%nat ->
  rwp (__rb_erase_augmented fuel n) (erased (plug (Node c l n r) k) n) m.
Proof.
  intros Hz Ht Hk Hf. pose proof Hz as Hz0. open_zip Hz0. unfold __rb_erase_augmented. do 4 exec.
  cbn [child cell rb_left rb_right]. destruct l as [|cl ll l lr].
  { cbn [ptr c_true Z.eqb negb]. by eapply erase_no_left. }
  cbn [ptr]. rewrite c_true_addr by (cbn [inorder] in *; autorewrite with seps in *; tauto). cbn [negb].
  destruct r as [|cr rl r rr].
  { cbn [ptr c_true Z.eqb negb]. change l with (ptr (Node cl ll l lr)). by eapply erase_no_right. }
  cbn [ptr]. rewrite c_true_addr by (cbn [inorder] in *; autorewrite with seps in *; tauto). cbn [negb].
  change r with (ptr (Node cr rl r rr)) at 1. by eapply erase_two.
Qed.

(** ** [rb_erase] *)

Definition removed (t : rb_tree) (n : Z) (m : rb_mem) : Prop :=
  exists T h A B, holds_tree m T /\ inorder t = A ++ n :: B /\ inorder T = A ++ B /\ rb h Black T.

Lemma rb_erase_spec fuel m t n h :
  holds_tree m t -> rb h Black t -> n ∈ inorder t -> (height t < fuel)%nat ->
  rwp (rb_erase fuel n) (fun _ => removed t n) m.
Proof.
  intros Ht0 Ht Hn Hf. destruct (find_node _ _ Hn) as (c & l & r & k & ->).
  assert (Hz : zip m (Node c l n r) k) by (by apply zip_plug). destruct (unplug_rb h Black _ k [] Ht) as (h' & c' & Hnd & Hk); [constructor|].
  rewrite app_nil_r in Hk. assert (c' = c) as -> by (by inversion Hnd).
  pose proof (height_plug (Node c l n r) k) as Hh. cbn [height] in Hh.
  unfold rb_erase. apply rwp_bind. eapply rwp_mono; [eapply erase_augmented_spec; [done..|lia]|].
  intros a m' (t' & k' & h2 & c2 & A & B & Hz' & He & He' & [(-> & Hr & Hp)|(-> & Hk' & -> & Hp & Hlen)]).
  - cbn [c_true Z.eqb negb rb_when]. exec. destruct (plug_rb _ _ _ _ Hr Hp) as [h3 H3]. exists (plug t' k'), h3, A, B.
    split_and!; [by apply (proj1 (zip_plug _ _ _))|done..].
  - destruct k' as [|[d c' p s] k']; [done|]. cbn [top].
    pose proof (zip_addrs _ _ _ Hz') as Hok. cbn [inorder path_addrs app] in Hok. apply Forall_cons in Hok as [Hok _].
    rewrite c_true_addr by done. cbn [rb_when]. unfold ____rb_erase_color.
    eapply rwp_mono; [eapply (erase_loop_spec fuel m' Leaf); [exact Hz'|constructor|exact Hp|]|].
    + simpl in Hlen. lia.
    + intros ? m2 (T & h4 & HT & Ho & Hrb). exists T, h4, A, B. rewrite Ho. done.
Qed.
