(* ===== verification/EpTree.v ===== *)
(** * The endpoint database on its red-black tree (dare_ep_db.c)

    The functions of the database as the code has them: they walk over the
    nodes of utils/rbtree.  A node is a part of its endpoint, so one address
    stands for both ([container_of]).  [EpTreeSpec] shows that they do what
    the functions of [EpDb] do to the list of endpoints, which the model of
    the server uses. *)

From S2P Require Import Prelude Words Config Log State EpDb Rbtree.

Open Scope Z_scope.

Record ep_mem := mk_ep_mem {
  ep_tree : rb_mem;
  ep_data : gmap Z dare_ep_t
}.

Definition ep_db_empty : ep_mem := mk_ep_mem RB_ROOT ∅.

Definition node_of (m : ep_mem) (a : Z) : outcome rb_node := or_undef (rb_nodes (ep_tree m) !! a).
Definition ep_of (m : ep_mem) (a : Z) : outcome dare_ep_t := or_undef (ep_data m !! a).

(** Run code of the tree. *)
Definition in_tree {A} (c : RB A) (m : ep_mem) : outcome (A * ep_mem) :=
  let! (a, t) := c (ep_tree m) in Ok (a, mk_ep_mem t (ep_data m)).

(** The loop of [ep_search]; the result [0] is [NULL]. *)
Fixpoint search_loop (fuel : nat) (m : ep_mem) (lid node : Z) : outcome Z :=
  match fuel with
  | O => Spin
  | S fuel' =>
      if node =? 0 then Ok 0
      else
        let! ep := ep_of m node in
        let! n := node_of m node in
        if lid <? ep_lid ep then search_loop fuel' m lid (rb_left n)
        else if ep_lid ep <? lid then search_loop fuel' m lid (rb_right n)
        else Ok node
  end.

Definition rb_ep_search (fuel : nat) (m : ep_mem) (lid : Z) : outcome Z :=
  search_loop fuel m lid (rb_root (ep_tree m)).

(** The loop of [ep_insert]: where the new node is linked; [None] when the LID
    is present.  [node] is [*new]. *)
Fixpoint link_loop (fuel : nat) (m : ep_mem) (lid parent : Z) (new : rb_link) (node : Z)
    : outcome (option (Z * rb_link)) :=
  match fuel with
  | O => Spin
  | S fuel' =>
      if node =? 0 then Ok (Some (parent, new))
      else
        let! this := ep_of m node in
        let! n := node_of m node in
        if lid <? ep_lid this then link_loop fuel' m lid node (LChild SLeft node) (rb_left n)
        else if ep_lid this <? lid then link_loop fuel' m lid node (LChild SRight node) (rb_right n)
        else Ok None
  end.

(** [ep] is what [malloc] returns, [junk] what the node holds then. *)
Definition rb_ep_insert (fuel : nat) (ep : Z) (junk : rb_node) (lid : Z) (m : ep_mem)
    : outcome (Z * ep_mem) :=
  let! r := link_loop fuel m lid 0 LRoot (rb_root (ep_tree m)) in
  match r with
  | None => Ok (0, m)
  | Some (parent, new) =>
      if ep =? 0 then Undef
      else
        let t := ep_tree m in
        let m := mk_ep_mem (mk_rb_mem (rb_root t) (<[ep := junk]> (rb_nodes t)))
                   (<[ep := ep_fresh lid]> (ep_data m)) in
        let! (_, m) := in_tree (rb_link_node ep parent new ;; rb_insert_color fuel ep) m in
        Ok (ep, m)
  end.

Definition free_ep (ep : Z) (m : ep_mem) : ep_mem :=
  mk_ep_mem (mk_rb_mem (rb_root (ep_tree m)) (delete ep (rb_nodes (ep_tree m))))
    (delete ep (ep_data m)).

Definition rb_ep_erase (fuel : nat) (lid : Z) (m : ep_mem) : outcome ep_mem :=
  let! ep := rb_ep_search fuel m lid in
  if ep =? 0 then Ok m
  else
    let! (_, m) := in_tree (rb_erase fuel ep) m in
    Ok (free_ep ep m).

(** [for (node = rb_first(root); node; node = rb_next(node))] with the
    assignment of [ep_dp_reset_wait_idx]; [n] bounds the number of nodes. *)
Fixpoint reset_loop (n fuel : nat) (node : Z) (m : ep_mem) : outcome ep_mem :=
  match n with
  | O => Spin
  | S n' =>
      if node =? 0 then Ok m
      else
        let! ep := ep_of m node in
        let m := mk_ep_mem (ep_tree m) (<[node := set_ep_wait_for_idx 0 ep]> (ep_data m)) in
        let! (node, m) := in_tree (rb_next fuel node) m in
        reset_loop n' fuel node m
  end.

Definition rb_ep_dp_reset_wait_idx (n fuel : nat) (m : ep_mem) : outcome ep_mem :=
  let! (node, m) := in_tree (rb_first fuel) m in
  reset_loop n fuel node m.

(** The loop of [ep_db_free]: the next node is found before this one is
    freed. *)
Fixpoint free_loop (n fuel : nat) (node : Z) (m : ep_mem) : outcome ep_mem :=
  match n with
  | O => Spin
  | S n' =>
      if node =? 0 then Ok m
      else
        let ep := node in
        let! (node, m) := in_tree (rb_next_postorder fuel node) m in
        let! _ := ep_of m ep in
        free_loop n' fuel node (free_ep ep m)
  end.

Definition rb_ep_db_free (n fuel : nat) (m : ep_mem) : outcome ep_mem :=
  let! (node, m) := in_tree (rb_first_postorder fuel) m in
  free_loop n fuel node m.

(** ** Uses of the database *)

Inductive ep_op :=
| OpInsert (lid : Z)
| OpSearch (lid : Z)
| OpErase (lid : Z)
| OpReset.

(** What a caller sees: whether there is a result, and the endpoint. *)
Definition ep_answer : Type := option dare_ep_t.

Section Run.
Variables (n fuel : nat) (malloc : gmap Z rb_node -> Z) (junk : rb_node).

Definition see (m : ep_mem) (a : Z) : outcome ep_answer :=
  if a =? 0 then Ok None else let! e := ep_of m a in Ok (Some e).

Definition ep_exec (op : ep_op) (m : ep_mem) : outcome (ep_answer * ep_mem) :=
  match op with
  | OpInsert lid =>
      let! (a, m) := rb_ep_insert fuel (malloc (rb_nodes (ep_tree m))) junk lid m in
      let! r := see m a in Ok (r, m)
  | OpSearch lid =>
      let! a := rb_ep_search fuel m lid in
      let! r := see m a in Ok (r, m)
  | OpErase lid => let! m := rb_ep_erase fuel lid m in Ok (None, m)
  | OpReset => let! m := rb_ep_dp_reset_wait_idx n fuel m in Ok (None, m)
  end.

Fixpoint ep_run (ops : list ep_op) (m : ep_mem) : outcome (list ep_answer * ep_mem) :=
  match ops with
  | [] => Ok ([], m)
  | op :: ops' =>
      let! (r, m) := ep_exec op m in
      let! (rs, m) := ep_run ops' m in
      Ok (r :: rs, m)
  end.
End Run.
