(* ===== verification/EpTreeSpec.v ===== *)
(** * The endpoint database refines its list

    The functions of dare_ep_db.c on the red-black tree give the answers that
    those of [EpDb] give on the list of endpoints in the order of their LIDs,
    for any sequence of calls, and end within a number of steps that does not
    depend on it.  [ep_db_free] frees every endpoint once and reads none that
    is freed. *)

From Stdlib Require Import Sorted.
From S2P Require Import Prelude Words Config Log State EpDb.
From S2P Require Import Rbtree RbRep RbInsert RbErase RbRemove RbWalk EpTree.

Open Scope Z_scope.

(** ** The list, split at an endpoint *)

Lemma db_ok_app d1 e d2 :
  db_ok (d1 ++ e :: d2) ->
  db_ok d1 /\ db_ok d2 /\ Forall (fun x => ep_lid x < ep_lid e) d1 /\
  Forall (fun x => ep_lid e < ep_lid x) d2.
Proof.
  induction d1 as [|x d1 IH]; cbn [app].
  - intros [H1 H2]%db_ok_cons. split_and!; [constructor|done|constructor|done].
  - intros [H1 H2]%db_ok_cons. apply Forall_app in H2 as [H2 H3]. apply Forall_cons in H3 as [H3 H4].
    destruct (IH H1) as (H5 & H6 & H7 & H8). split_and!; [by apply db_ok_cons|done|by constructor|done].
Qed.

Section Split.
Variables (d1 d2 : list dare_ep_t) (e : dare_ep_t) (lid : Z).
Hypothesis Hok : db_ok (d1 ++ e :: d2).

Lemma ep_search_split :
  ep_search (d1 ++ e :: d2) lid =
  if lid <? ep_lid e then ep_search d1 lid
  else if ep_lid e <? lid then ep_search d2 lid else Some e.
Proof using Hok.
  revert Hok. induction d1 as [|x d IH]; intros Hok'.
  - cbn [app ep_search]. by destruct (lid <? ep_lid e).
  - pose proof (db_ok_app (x :: d) e d2 Hok') as (_ & _ & Hx & _). apply Forall_cons in Hx as [Hx _].
    cbn [app] in Hok'. apply db_ok_cons in Hok' as [Hok' _].
    cbn [app ep_search]. rewrite IH by done. repeat zcase; try done; lia.
Qed.

Lemma ep_insert_split :
  ep_insert (d1 ++ e :: d2) lid =
  if lid <? ep_lid e then (fun l => l ++ e :: d2) <$> ep_insert d1 lid
  else if ep_lid e <? lid then (fun l => d1 ++ e :: l) <$> ep_insert d2 lid else None.
Proof using Hok.
  revert Hok. induction d1 as [|x d IH]; intros Hok'.
  - cbn [app ep_insert]. by destruct (lid <? ep_lid e).
  - pose proof (db_ok_app (x :: d) e d2 Hok') as (_ & _ & Hx & _). apply Forall_cons in Hx as [Hx _].
    cbn [app] in Hok'. apply db_ok_cons in Hok' as [Hok' _].
    cbn [app ep_insert]. rewrite IH by done. repeat zcase; try done; try lia.
    + by destruct (ep_insert d lid).
    + by destruct (ep_insert d2 lid).
Qed.

Lemma ep_erase_split : ep_lid e = lid -> ep_erase (d1 ++ e :: d2) lid = d1 ++ d2.
Proof using Hok.
  intros He. revert Hok. induction d1 as [|x d IH]; intros Hok'.
  - cbn [app ep_erase]. by rewrite He, Z.ltb_irrefl.
  - pose proof (db_ok_app (x :: d) e d2 Hok') as (_ & _ & Hx & _). apply Forall_cons in Hx as [Hx _].
    cbn [app] in Hok'. apply db_ok_cons in Hok' as [Hok' _].
    cbn [app ep_erase]. rewrite IH by done. repeat zcase; try done; lia.
Qed.
End Split.

(** ** Representation *)

Definition lid_ok (e : dare_ep_t) : Prop := 0 <= ep_lid e < 65536.

(** The endpoints at the addresses [l] are [db]. *)
Definition eps_at (D : gmap Z dare_ep_t) : list Z -> list dare_ep_t -> Prop :=
  Forall2 (fun a e => D !! a = Some e).

Record ep_rep (m : ep_mem) (t : rb_tree) (db : list dare_ep_t) : Prop := {
  er_tree : holds_tree (ep_tree m) t;
  er_rb : exists h, rb h Black t;
  er_eps : eps_at (ep_data m) (inorder t) db;
  er_ok : db_ok db;
  er_lids : Forall lid_ok db
}.

Lemma db_length db lo :
  db_ok db -> Forall lid_ok db -> Forall (fun e => lo <= ep_lid e) db -> lo <= 65536 ->
  Z.of_nat (length db) <= 65536 - lo.
Proof.
  revert lo. induction db as [|e db IH]; intros lo Hok Hl Hlo Hb; simpl; [lia|].
  apply db_ok_cons in Hok as [Hok He]. apply Forall_cons in Hl as [He' Hl].
  apply Forall_cons in Hlo as [Hlo _]. unfold lid_ok in He'.
  assert (Forall (fun x => ep_lid e + 1 <= ep_lid x) db) as Hlo'.
  { eapply Forall_impl; [exact He|]. simpl. lia. }
  specialize (IH (ep_lid e + 1) Hok Hl Hlo'). lia.
Qed.

(** LIDs have 16 bits, so no way down the tree is longer than 32 nodes. *)
Lemma ep_height m t db : ep_rep m t db -> (height t <= 32)%nat.
Proof.
  intros [_ [h Hrb] Heps Hok Hl]. pose proof (rb_height _ _ _ Hrb) as Hh. cbn iota in Hh. pose proof (rb_size _ _ _ Hrb) as Hs.
  rewrite (Forall2_length _ _ _ Heps) in Hs.
  assert (Z.of_nat (length db) <= 65536 - 0).
  { apply db_length; [done|done| |lia]. eapply Forall_impl; [exact Hl|]. unfold lid_ok. lia. }
  assert (h <= 16)%nat; [|lia]. apply Nat.nlt_ge. intros Hlt.
  assert (2 ^ 17 <= 2 ^ h)%nat by (apply Nat.pow_le_mono_r; lia).
  assert (Z.of_nat (2 ^ 17) = 131072) by (by vm_compute). lia.
Qed.

Lemma eps_app D l1 l2 db :
  eps_at D (l1 ++ l2) db <-> exists d1 d2, db = d1 ++ d2 /\ eps_at D l1 d1 /\ eps_at D l2 d2.
Proof.
  split.
  - intros H. apply Forall2_app_inv_l in H as (d1 & d2 & H1 & H2 & ->). eauto.
  - intros (d1 & d2 & -> & H1 & H2). by apply Forall2_app.
Qed.

Lemma eps_node D c l a r db :
  eps_at D (inorder (Node c l a r)) db <->
  exists d1 e d2, db = d1 ++ e :: d2 /\ eps_at D (inorder l) d1 /\ D !! a = Some e /\
    eps_at D (inorder r) d2.
Proof.
  cbn [inorder]. rewrite eps_app. split.
  - intros (d1 & d2 & -> & H1 & H2). inversion H2; subst. eauto 10.
  - intros (d1 & e & d2 & -> & H1 & H2 & H3). exists d1, (e :: d2). split_and!; [done..|]. by constructor.
Qed.

Lemma eps_ext D D' l db :
  eps_at D l db -> (forall a, a ∈ l -> D' !! a = D !! a) -> eps_at D' l db.
Proof.
  intros H. induction H as [|a e l db Ha H IH]; intros He; constructor.
  - rewrite He; [done|]. set_solver.
  - apply IH. set_solver.
Qed.

(** ** Search *)

Lemma search_loop_spec lid m : forall t fuel q db,
  tree_at (rb_nodes (ep_tree m)) q t -> Forall ok_addr (inorder t) ->
  eps_at (ep_data m) (inorder t) db -> db_ok db -> (height t < fuel)%nat ->
  exists a, search_loop fuel m lid (ptr t) = Ok a /\
    match ep_search db lid with
    | None => a = 0
    | Some e => a ∈ inorder t /\ ep_data m !! a = Some e /\ ep_lid e = lid
    end.
Proof.
  induction t as [|c l IHl n r IHr]; intros fuel q db Ht Hok Heps Hdb Hf;
    (destruct fuel as [|fuel]; [lia|]); cbn [search_loop ptr].
  { inversion Heps; subst. by exists 0. }
  destruct Ht as (Hn & Hl & Hr). apply eps_node in Heps as (d1 & e & d2 & -> & H1 & He & H2).
  unpack Hok. destruct_and!. rewrite (proj2 (Z.eqb_neq n 0)) by (unfold ok_addr in *; tauto).
  unfold ep_of, node_of. rewrite He, Hn. cbn [or_undef obind cell rb_left rb_right].
  rewrite ep_search_split by done. apply db_ok_app in Hdb as (Hd1 & Hd2 & _ & _). simpl in Hf.
  destruct (lid <? ep_lid e) eqn:E1.
  { destruct (IHl fuel n d1) as (a & Ha & HQ); [done..|lia|]. exists a. split; [done|].
    destruct (ep_search d1 lid); [|done]. simpl. set_solver. }
  destruct (ep_lid e <? lid) eqn:E2.
  { destruct (IHr fuel n d2) as (a & Ha & HQ); [done..|lia|]. exists a. split; [done|].
    destruct (ep_search d2 lid); [|done]. simpl. set_solver. }
  exists n. split; [done|]. zbool. split_and!; [simpl; set_solver|done|lia].
Qed.

Lemma rb_ep_search_spec m t db lid fuel :
  ep_rep m t db -> (32 < fuel)%nat ->
  exists a, rb_ep_search fuel m lid = Ok a /\
    match ep_search db lid with
    | None => a = 0
    | Some e => a ∈ inorder t /\ ep_data m !! a = Some e /\ ep_lid e = lid
    end.
Proof.
  intros Hrep Hf. pose proof (ep_height _ _ _ Hrep). destruct Hrep as [Ht _ Heps Hok _].
  pose proof (zip_addrs _ _ _ Ht) as Ha. rewrite app_nil_r in Ha. destruct Ht as [Ht Hr _].
  unfold rb_ep_search. simpl in Hr. rewrite Hr. eapply search_loop_spec; [done..|lia].
Qed.

(** ** Insertion *)

Definition link_of (k : list frame) : rb_link :=
  match k with [] => LRoot | F d _ a _ :: _ => LChild d a end.

(** The new node is linked where its LID belongs. *)
Lemma link_loop_spec lid m : forall t fuel k db b1 b2,
  zip (ep_tree m) t k -> eps_at (ep_data m) (inorder t) db -> db_ok db -> (height t < fuel)%nat ->
  eps_at (ep_data m) (before k) b1 -> eps_at (ep_data m) (after k) b2 ->
  exists r, link_loop fuel m lid (top k) (link_of k) (ptr t) = Ok r /\
    match ep_insert db lid with
    | None => r = None
    | Some db' => exists k' d1 d2, r = Some (top k', link_of k') /\ plug Leaf k' = plug t k /\
        db = d1 ++ d2 /\ db' = d1 ++ ep_fresh lid :: d2 /\
        eps_at (ep_data m) (before k') (b1 ++ d1) /\ eps_at (ep_data m) (after k') (d2 ++ b2)
    end.
Proof.
  induction t as [|c l IHl n r IHr]; intros fuel k db b1 b2 Hz Heps Hdb Hf Hb1 Hb2;
    (destruct fuel as [|fuel]; [lia|]); cbn [link_loop ptr].
  { inversion Heps; subst. eexists. split; [done|]. exists k, [], []. split_and!; rewrite ?app_nil_r; done. }
  apply eps_node in Heps as (d1 & e & d2 & -> & H1 & He & H2).
  pose proof (zip_addrs _ _ _ Hz) as Hok. unpack Hok. destruct_and!.
  rewrite (proj2 (Z.eqb_neq n 0)) by (unfold ok_addr in *; tauto).
  pose proof (zip_tree _ _ _ Hz) as (Hn & _). unfold ep_of, node_of. rewrite He, Hn.
  cbn [or_undef obind cell rb_left rb_right]. rewrite ep_insert_split by done.
  apply db_ok_app in Hdb as (Hd1 & Hd2 & _ & _). simpl in Hf.
  destruct (lid <? ep_lid e) eqn:E1.
  { destruct (IHl fuel (F SLeft c n r :: k) d1 b1 (e :: d2 ++ b2)) as (x & Hx & HQ);
      [by apply zip_up|done|done|lia|done|constructor; [done|by apply Forall2_app]|].
    exists x. split; [done|]. destruct (ep_insert d1 lid) as [d'|]; [|done]. cbn [fmap option_fmap option_map].
    destruct HQ as (k' & a & b & -> & Hk & -> & -> & HB & HA). exists k', a, (b ++ e :: d2).
    rewrite <- !app_assoc, Hk. by split_and!. }
  destruct (ep_lid e <? lid) eqn:E2; [|by exists None].
  destruct (IHr fuel (F SRight c n l :: k) d2 (b1 ++ d1 ++ [e]) b2) as (x & Hx & HQ);
    [by apply zip_up|done|done|lia|repeat apply Forall2_app; repeat constructor; done|done|].
  exists x. split; [done|]. destruct (ep_insert d2 lid) as [d'|]; [|done]. cbn [fmap option_fmap option_map].
  destruct HQ as (k' & a & b & -> & Hk & -> & -> & HB & HA). exists k', (d1 ++ e :: a), b.
  rewrite <- !app_assoc, Hk. rewrite <- !app_assoc in HB. by split_and!.
Qed.

Lemma link_node_spec m k ep junk :
  zip m Leaf k -> rb_nodes m !! ep = Some junk -> ep ∉ path_addrs k -> ok_addr ep ->
  rwp (rb_link_node ep (top k) (link_of k)) (fun _ m' => zip m' (Node Red Leaf ep Leaf) k) m.
Proof.
  intros Hz Hep Hnew Haddr. pose proof (zip_sep _ _ _ Hz) as Hnd.
  assert (Hzok : ok_tree (plug (Node Red Leaf ep Leaf) k)).
  { pose proof (zip_addrs _ _ _ Hz). unfold ok_tree.
    rewrite inorder_plug. cbn [inorder app] in *. rewrite NoDup_cons, Forall_cons. tauto. }
  destruct Hz as [_ Hp _]. unfold rb_link_node. do 6 exec. cbn [with_pc with_child rb_parent_color rb_right rb_left].
  destruct k as [|[d c a s] k]; cbn [link_of top path_at ptr] in *.
  - unfold rwp, set_root. split; [|done|done]. cbn [tree_at top ptr]. split_and!; [|done|done].
    cbn [rb_nodes]. find_cell.
  - destruct Hp as (Ha & Hs & Hp). unpack Hnew. unpack Hnd. destruct_and!. exec.
    replace (mk_rb_node a 0 0) with (cell SLeft a Red 0 0) by (unfold cell; by rewrite lor_red).
    split; cbn [tree_at path_at top ptr]; split_and?; [find_cell|done|done|find_cell|keep|keep_path|done].
Qed.

Lemma tree_alloc h p t a : tree_at h p t -> a ∈ inorder t -> is_Some (h !! a).
Proof.
  revert p. induction t as [|c l IHl n r IHr]; intros p; simpl; [set_solver|].
  intros (Hn & Hl & Hr). rewrite elem_of_app, elem_of_cons. intros [Ha|[->|Ha]]; eauto.
Qed.

Lemma rb_ep_insert_spec m t db lid fuel ep junk :
  ep_rep m t db -> (33 < fuel)%nat -> 0 <= lid < 65536 -> ok_addr ep ->
  rb_nodes (ep_tree m) !! ep = None ->
  exists a m', rb_ep_insert fuel ep junk lid m = Ok (a, m') /\
    match ep_insert db lid with
    | None => a = 0 /\ m' = m
    | Some db' => a = ep /\ ep_data m' !! ep = Some (ep_fresh lid) /\ exists t', ep_rep m' t' db'
    end.
Proof.
  intros Hrep Hf Hlid Hep Hnew. pose proof (ep_height _ _ _ Hrep) as Hh.
  pose proof Hrep as [Ht [h Hrb] Heps Hok Hl]. unfold rb_ep_insert.
  destruct (link_loop_spec lid m t fuel [] db [] []) as (r & Hr & HQ);
    [done|done|done|lia|constructor|constructor|].
  pose proof Ht as [_ Hroot _]. cbn [path_at] in Hroot. cbn [top link_of] in Hr. rewrite Hroot, Hr. cbn [obind].
  destruct (ep_insert db lid) as [db'|] eqn:Hins; [|subst r; by eexists _, _].
  destruct HQ as (k & d1 & d2 & -> & Hk & -> & -> & HB & HA). cbn [plug app] in Hk, HB, HA.
  rewrite app_nil_r in HA. rewrite (proj2 (Z.eqb_neq ep 0)) by apply Hep. rewrite <- Hk in *.
  destruct (unplug_rb h Black Leaf k [] Hrb) as (h' & c' & Hleaf & Hpath); [constructor|].
  inversion Hleaf; subst. rewrite app_nil_r in Hpath.
  set (m1 := mk_ep_mem _ _).
  assert (Hfresh : ep ∉ inorder (plug Leaf k)) by (intros Hin; destruct (tree_alloc _ _ _ _ (zip_tree _ _ _ Ht) Hin); congruence).
  assert (Hfree : ep ∉ path_addrs k) by (by rewrite inorder_plug in Hfresh).
  assert (Hz : zip (ep_tree m1) Leaf k).
  { destruct (proj2 (zip_plug _ Leaf k) Ht) as [_ Hp Hzok]. split; [done| |done].
    eapply path_at_ext; [exact Hp|by rewrite Hroot|]. intros a Ha. cbn [ep_tree rb_nodes m1].
    rewrite lookup_insert_ne; congruence. }
  assert (Hrun : rwp (rb_link_node ep (top k) (link_of k) ;; rb_insert_color fuel ep)
    (fun _ => rebuilt (plug (Node Red Leaf ep Leaf) k)) (ep_tree m1)).
  { exec. eapply rwp_mono; [eapply link_node_spec; [done|by apply lookup_insert_eq|done|done]|].
    intros ? m2 Hz2. eapply rb_insert_color_spec; [exact Hz2|done|done|].
      pose proof (height_plug Leaf k). lia. }
  unfold rwp in Hrun. unfold in_tree.
  destruct ((rb_link_node ep (top k) (link_of k) ;; rb_insert_color fuel ep) (ep_tree m1))
    as [[u m2]| |]; try done.
  destruct Hrun as (T & hT & HT & Hin & HrbT). cbn [obind].
  eexists _, _. split; [done|]. split; [done|]. cbn [ep_data m1].
  split; [apply lookup_insert_eq|]. exists T. split; cbn [ep_tree ep_data].
  - done.
  - eauto.
  - rewrite Hin, inorder_around. cbn [inorder app]. rewrite inorder_around in Hfresh. cbn [inorder app] in Hfresh.
    apply not_elem_of_app in Hfresh as [Hf1 Hf2].
    apply Forall2_app; [|constructor; [apply lookup_insert_eq|]].
    + eapply eps_ext; [exact HB|]. intros a Ha. rewrite lookup_insert_ne; congruence.
    + eapply eps_ext; [exact HA|]. intros a Ha. rewrite lookup_insert_ne; congruence.
  - by eapply db_ok_insert.
  - rewrite Forall_app, Forall_cons. rewrite Forall_app in Hl. unfold lid_ok at 2. tauto.
Qed.

(** ** Removal *)

Lemma db_ok_remove d1 e d2 : db_ok (d1 ++ e :: d2) -> db_ok (d1 ++ d2).
Proof.
  induction d1 as [|x d1 IH]; cbn [app]; rewrite !db_ok_cons; [tauto|].
  rewrite !Forall_app, Forall_cons. intros (H1 & H2 & _ & H3). auto.
Qed.

Lemma ep_erase_absent db lid : ep_search db lid = None -> ep_erase db lid = db.
Proof.
  induction db as [|e db IH]; simpl; [done|]. destruct (lid <? ep_lid e); [done|].
  destruct (ep_lid e <? lid); [|done]. intros H. by rewrite IH.
Qed.

Lemma rb_ep_erase_spec m t db lid fuel :
  ep_rep m t db -> (33 < fuel)%nat ->
  exists m' t', rb_ep_erase fuel lid m = Ok m' /\ ep_rep m' t' (ep_erase db lid).
Proof.
  intros Hrep Hf. pose proof (ep_height _ _ _ Hrep) as Hh.
  destruct (rb_ep_search_spec m t db lid fuel Hrep) as (a & Ha & HQ); [lia|].
  unfold rb_ep_erase. rewrite Ha. cbn [obind].
  destruct (ep_search db lid) as [e|] eqn:Hs; [|subst a; exists m, t; by rewrite ep_erase_absent].
  destruct HQ as (Hin & He & Hlid). pose proof Hrep as [Ht [h Hrb] Heps Hok Hl].
  pose proof (zip_addrs _ _ _ Ht) as Haddr. rewrite app_nil_r, Forall_forall in Haddr.
  rewrite (proj2 (Z.eqb_neq a 0)) by apply (Haddr a Hin).
  assert (Hrun : rwp (rb_erase fuel a) (fun _ => removed t a) (ep_tree m)) by (eapply rb_erase_spec; [done..|lia]).
  unfold rwp in Hrun. unfold in_tree. destruct (rb_erase fuel a (ep_tree m)) as [[u m2]| |]; try done.
  destruct Hrun as (T & hT & A & B & HT & HtAB & HTAB & HrbT). cbn [obind].
  assert (Hout : a ∉ A ++ B).
  { destruct Ht as [_ _ [Hnd _]]. cbn [plug] in Hnd. rewrite HtAB in Hnd.
    rewrite <- Permutation_middle in Hnd. by apply NoDup_cons in Hnd as [? _]. }
  rewrite HtAB in Heps. apply eps_app in Heps as (d1 & d2 & -> & H1 & H2).
  inversion H2 as [|? e' ? d2' He' H3]; subst. assert (e' = e) as -> by congruence.
  rewrite ep_erase_split by done. eexists _, T. split; [done|].
  assert (Hdel : forall (V : Type) (M : gmap Z V) b, b ∈ A ++ B -> delete a M !! b = M !! b).
  { intros V M b Hb. rewrite lookup_delete_ne; congruence. }
  split; cbn [ep_tree ep_data free_ep].
  - destruct HT as [HT Hroot HokT]. split; [|done|done].
    eapply tree_at_ext; [exact HT|]. intros b Hb. rewrite HTAB in Hb. by apply Hdel.
  - eauto.
  - rewrite HTAB. eapply eps_ext; [by apply Forall2_app|]. intros b Hb. by apply Hdel.
  - by eapply db_ok_remove.
  - rewrite Forall_app, Forall_cons in Hl. rewrite Forall_app. tauto.
Qed.

(** ** The traversal of [ep_dp_reset_wait_idx] *)

Lemma reset_loop_spec fuel t : forall B A n m d1 d2,
  holds_tree (ep_tree m) t -> inorder t = A ++ B -> (height t < fuel)%nat ->
  eps_at (ep_data m) A d1 -> eps_at (ep_data m) B d2 -> (length B < n)%nat ->
  exists m', reset_loop n fuel (first_of B) m = Ok m' /\ ep_tree m' = ep_tree m /\
    eps_at (ep_data m') (A ++ B) (d1 ++ ep_dp_reset_wait_idx d2).
Proof.
  induction B as [|b B IH]; intros A n m d1 d2 Ht He Hf H1 H2 Hn; (destruct n as [|n]; [simpl in Hn; lia|]).
  { inversion H2; subst. exists m. split_and!; [done|done|by apply Forall2_app]. }
  inversion H2 as [|? e ? d2' Hb H3]; subst. change (first_of (b :: B)) with b. cbn [reset_loop].
  pose proof (zip_addrs _ _ _ Ht) as Haddr. pose proof (zip_sep _ _ _ Ht) as Hnd.
  cbn [path_addrs] in Haddr, Hnd. rewrite app_nil_r, He in Haddr, Hnd. 
  rewrite Forall_app, Forall_cons in Haddr. rewrite <- Permutation_middle in Hnd. apply NoDup_cons in Hnd as [Hnd _].
  unfold ok_addr in Haddr. rewrite (proj2 (Z.eqb_neq b 0)) by tauto.
  unfold ep_of. rewrite Hb. cbn [or_undef obind].
  set (m1 := mk_ep_mem _ _).
  pose proof (rb_neighbour_spec fuel (ep_tree m1) SRight t A b B) as Hstep. cbn [other] in Hstep.
  rewrite nodes_from_left in Hstep. specialize (Hstep Ht He Hf).
  unfold rwp in Hstep. unfold in_tree, rb_next. destruct (rb_neighbour SRight fuel b (ep_tree m1)) as [[a m2]| |]; try done.
  destruct Hstep as [-> ->]. cbn [obind]. apply not_elem_of_app in Hnd as [HA HB].
  destruct (IH (A ++ [b]) n (mk_ep_mem (ep_tree m1) (ep_data m1)) (d1 ++ [set_ep_wait_for_idx 0 e]) d2')
    as (m' & Hrun & Htree & Heps).
  - done.
  - by rewrite <- app_assoc.
  - done.
  - apply Forall2_app.
    + eapply eps_ext; [exact H1|]. intros a Ha. unfold m1. cbn [ep_data]. rewrite lookup_insert_ne; congruence.
    + constructor; [|constructor]. apply lookup_insert_eq.
  - eapply eps_ext; [exact H3|]. intros a Ha. unfold m1. cbn [ep_data]. rewrite lookup_insert_ne; congruence.
  - simpl in Hn. lia.
  - exists m'. split_and!; [done|done|]. rewrite <- !app_assoc in Heps. exact Heps.
Qed.

Lemma reset_lids db : map ep_lid (ep_dp_reset_wait_idx db) = map ep_lid db.
Proof. unfold ep_dp_reset_wait_idx. rewrite map_map. by apply map_ext. Qed.

Lemma rb_ep_reset_spec m t db n fuel :
  ep_rep m t db -> (33 < fuel)%nat -> 65536 < Z.of_nat n ->
  exists m', rb_ep_dp_reset_wait_idx n fuel m = Ok m' /\ ep_rep m' t (ep_dp_reset_wait_idx db).
Proof.
  intros Hrep Hf Hn. pose proof (ep_height _ _ _ Hrep) as Hh. pose proof Hrep as [Ht Hrb Heps Hok Hl].
  assert (Hlen : (length (inorder t) < n)%nat).
  { rewrite (Forall2_length _ _ _ Heps). assert (Z.of_nat (length db) <= 65536 - 0); [|lia].
    apply db_length; [done|done| |lia]. eapply Forall_impl; [exact Hl|]. unfold lid_ok. lia. }
  unfold rb_ep_dp_reset_wait_idx, in_tree, rb_first.
  assert (Hend : rwp (rb_end SLeft fuel) (fun a m' => a = first_of (nodes_from SLeft t) /\ m' = ep_tree m) (ep_tree m))
    by (apply rb_end_spec; [done|lia]).
  unfold rwp in Hend. destruct (rb_end SLeft fuel (ep_tree m)) as [[a m2]| |]; try done.
  destruct Hend as [-> ->]. cbn [obind]. rewrite nodes_from_left.
  destruct (reset_loop_spec fuel t (inorder t) [] n (mk_ep_mem (ep_tree m) (ep_data m)) [] db)
    as (m' & Hrun & Htree & Heps'); [done|done|lia|constructor|done|done|].
  exists m'. split; [done|]. split.
  - rewrite Htree. done.
  - done.
  - done.
  - eapply db_ok_lids; [|exact Hok]. by rewrite reset_lids.
  - unfold ep_dp_reset_wait_idx. rewrite Forall_fmap. exact Hl.
Qed.

(** ** Any sequence of calls *)

Definition ep_spec (op : ep_op) (db : list dare_ep_t) : ep_answer * list dare_ep_t :=
  match op with
  | OpInsert lid =>
      match ep_insert db lid with
      | Some db' => (Some (ep_fresh lid), db')
      | None => (None, db)
      end
  | OpSearch lid => (ep_search db lid, db)
  | OpErase lid => (None, ep_erase db lid)
  | OpReset => (None, ep_dp_reset_wait_idx db)
  end.

Fixpoint ep_spec_run (ops : list ep_op) (db : list dare_ep_t) : list ep_answer * list dare_ep_t :=
  match ops with
  | [] => ([], db)
  | op :: ops' =>
      let '(r, db) := ep_spec op db in
      let '(rs, db) := ep_spec_run ops' db in
      (r :: rs, db)
  end.

Definition ep_op_ok (op : ep_op) : Prop :=
  match op with OpInsert lid => 0 <= lid < 65536 | _ => True end.

(** What the database relies on from [malloc]: memory that is not in use, at
    an aligned address that is not null. *)
Definition malloc_ok (malloc : gmap Z rb_node -> Z) : Prop :=
  forall h, h !! malloc h = None /\ ok_addr (malloc h).

Lemma ok_in m t db a : ep_rep m t db -> a ∈ inorder t -> ok_addr a.
Proof.
  intros [Ht _ _ _ _] Hin. pose proof (zip_addrs _ _ _ Ht) as Haddr.
  rewrite Forall_app, Forall_forall in Haddr. by apply Haddr.
Qed.

Section Refinement.
Variables (n fuel : nat) (malloc : gmap Z rb_node -> Z) (junk : rb_node).
Hypothesis Hmalloc : malloc_ok malloc.
Hypothesis Hfuel : (33 < fuel)%nat.
Hypothesis Hn : 65536 < Z.of_nat n.

Lemma see_found m a e : ok_addr a -> ep_data m !! a = Some e -> see m a = Ok (Some e).
Proof.
  intros [Ha _] He. unfold see, ep_of. rewrite (proj2 (Z.eqb_neq a 0)) by done. by rewrite He.
Qed.

Lemma ep_exec_refines op m t db :
  ep_rep m t db -> ep_op_ok op ->
  exists m' t', ep_exec n fuel malloc junk op m = Ok (fst (ep_spec op db), m') /\
    ep_rep m' t' (snd (ep_spec op db)).
Proof using Hmalloc Hfuel Hn.
  intros Hrep Hop. destruct op as [lid|lid|lid|]; cbn [ep_exec ep_spec].
  - destruct (Hmalloc (rb_nodes (ep_tree m))) as [Hnew Haddr].
    destruct (rb_ep_insert_spec m t db lid fuel (malloc (rb_nodes (ep_tree m))) junk Hrep Hfuel Hop Haddr Hnew)
      as (a & m' & Hrun & HQ). rewrite Hrun. cbn [obind].
    destruct (ep_insert db lid) as [db'|].
    + destruct HQ as (-> & He & t' & Hrep'). rewrite (see_found _ _ _ Haddr He). by exists m', t'.
    + destruct HQ as [-> ->]. by exists m, t.
  - destruct (rb_ep_search_spec m t db lid fuel Hrep) as (a & Ha & HQ); [lia|]. rewrite Ha. cbn [obind].
    exists m, t. split; [|done]. destruct (ep_search db lid) as [e|]; cbn [fst]; [|by subst].
    destruct HQ as (Hin & He & _). rewrite (see_found _ _ _ (ok_in m t db a Hrep Hin) He). done.
  - destruct (rb_ep_erase_spec m t db lid fuel Hrep Hfuel) as (m' & t' & Hrun & Hrep').
    rewrite Hrun. by exists m', t'.
  - destruct (rb_ep_reset_spec m t db n fuel Hrep Hfuel Hn) as (m' & Hrun & Hrep').
    rewrite Hrun. by exists m', t.
Qed.
Lemma ep_run_refines ops : forall m t db,
  ep_rep m t db -> Forall ep_op_ok ops ->
  exists m' t', ep_run n fuel malloc junk ops m = Ok (fst (ep_spec_run ops db), m') /\
    ep_rep m' t' (snd (ep_spec_run ops db)).
Proof using Hmalloc Hfuel Hn.
  induction ops as [|op ops IH]; intros m t db Hrep Hops; cbn [ep_run ep_spec_run]; [by exists m, t|].
  apply Forall_cons in Hops as [Hop Hops].
  destruct (ep_exec_refines op m t db Hrep Hop) as (m1 & t1 & Hrun & Hrep1). rewrite Hrun. cbn [obind].
  destruct (ep_spec op db) as [r db1]. cbn [fst snd] in *.
  destruct (IH m1 t1 db1 Hrep1 Hops) as (m2 & t2 & Hrun2 & Hrep2). rewrite Hrun2. cbn [obind].
  destruct (ep_spec_run ops db1) as [rs db2]. by exists m2, t2.
Qed.
End Refinement.

Lemma ep_rep_empty : ep_rep ep_db_empty Leaf [].
Proof.
  split; [split; [done..|]|exists 0%nat; constructor|constructor|constructor|constructor].
  split; constructor.
Qed.

(** C24. The endpoint database on its red-black tree is the list of endpoints
    ordered by LID.  For any sequence of insertions, searches, removals and
    resets with 16-bit LIDs, in which every allocation succeeds, the code returns within a fixed number of steps
    of each loop, never follows a bad pointer, and gives the answers of the
    list; at the end the tree is a red-black tree of height at most 32 that
    holds exactly the endpoints of the list, in order. *)
Theorem endpoints_refine_list n fuel malloc junk ops :
  malloc_ok malloc -> (33 < fuel)%nat -> 65536 < Z.of_nat n -> Forall ep_op_ok ops ->
  exists m t, ep_run n fuel malloc junk ops ep_db_empty = Ok (fst (ep_spec_run ops []), m) /\
    ep_rep m t (snd (ep_spec_run ops [])) /\ (height t <= 32)%nat.
Proof.
  intros Hm Hf Hn Hops.
  destruct (ep_run_refines n fuel malloc junk Hm Hf Hn ops _ _ _ ep_rep_empty Hops) as (m & t & Hrun & Hrep).
  exists m, t. split_and!; [done|done|by eapply ep_height].
Qed.

(** An allocator: the first address behind all nodes. *)
Definition demo_malloc (h : gmap Z rb_node) : Z := 8 * (1 + map_fold (fun k _ acc => Z.max k acc) 0 h).

Lemma demo_malloc_ok : malloc_ok demo_malloc.
Proof.
  intros h. assert (Hmax : forall k, is_Some (h !! k) -> k <= map_fold (fun k _ acc => Z.max k acc) 0 h).
  { apply (map_fold_weak_ind (fun r h => forall k, is_Some (h !! k) -> k <= r)).
    - intros k [x Hx]. by rewrite lookup_empty in Hx.
    - intros i x m r Hi IH k Hk. destruct (decide (k = i)) as [->|Hne]; [lia|].
      rewrite lookup_insert_ne in Hk by done. specialize (IH k Hk). lia. }
  assert (0 <= map_fold (fun k _ acc => Z.max k acc) 0 h).
  { apply (map_fold_weak_ind (fun r _ => 0 <= r)); [lia|]. intros. lia. }
  unfold demo_malloc. set (r := map_fold _ 0 h) in *. split.
  - destruct (h !! (8 * (1 + r))) eqn:He; [|done].
    assert (8 * (1 + r) <= r) by (apply Hmax; eauto). lia.
  - split; [lia|]. change 3 with (Z.ones 2). rewrite Z.land_ones by lia.
    replace (8 * (1 + r)) with (2 * (1 + r) * 2 ^ 2) by lia. by apply Z.mod_mul.
Qed.

Lemma endpoints_refine_list_witness :
  exists m t,
    ep_run (Z.to_nat 65537) 40 demo_malloc (mk_rb_node 1 2 3)
      [OpInsert 7; OpInsert 3; OpInsert 5; OpInsert 3; OpErase 7; OpSearch 7; OpSearch 5] ep_db_empty
    = Ok ([Some (ep_fresh 7); Some (ep_fresh 3); Some (ep_fresh 5); None; None; None; Some (ep_fresh 5)], m)
    /\ ep_rep m t [ep_fresh 3; ep_fresh 5] /\ (height t <= 32)%nat.
Proof.
  apply (endpoints_refine_list (Z.to_nat 65537) 40 demo_malloc (mk_rb_node 1 2 3)
    [OpInsert 7; OpInsert 3; OpInsert 5; OpInsert 3; OpErase 7; OpSearch 7; OpSearch 5]).
  - exact demo_malloc_ok.
  - lia.
  - rewrite Z2Nat.id by lia. lia.
  - repeat constructor; simpl; lia.
Defined.
