(* ===== verification/EpFree.v ===== *)
(** * Freeing the endpoint database (dare_ep_db.c, [ep_db_free])

    The postorder of utils/rbtree visits the children of a node before the
    node, so freeing each node after the next one is found never reads memory
    that was freed, although parents still point to their freed children. *)

From S2P Require Import Prelude Words Config Log State EpDb.
From S2P Require Import Rbtree RbRep RbInsert RbErase RbRemove RbWalk EpTree EpTreeSpec.

Open Scope Z_scope.

(** ** Postorder *)

(** The first node of a tree in postorder. *)
Fixpoint deepest (t : rb_tree) : Z :=
  match t with
  | Leaf => 0
  | Node _ l a r =>
      match l, r with
      | Leaf, Leaf => a
      | Leaf, _ => deepest r
      | _, _ => deepest l
      end
  end.

Lemma left_deepest_spec fuel : forall m q t,
  tree_at (rb_nodes m) q t -> t <> Leaf -> Forall ok_addr (inorder t) -> (height t <= fuel)%nat ->
  rwp (rb_left_deepest_node fuel (ptr t)) (fun a m' => a = deepest t /\ m' = m) m.
Proof.
  induction fuel as [|fuel IH]; intros m q t Ht Hl Hok Hf; destruct t as [|c l a r]; try done;
    [simpl in Hf; lia|]. cbn [rb_left_deepest_node ptr]. destruct Ht as (Ha & Htl & Htr).
  unpack Hok. destruct_and!. simpl in Hf. do 2 exec. cbn [child cell rb_left].
  destruct l as [|cl ll l lr].
  - cbn [ptr c_true Z.eqb negb]. do 2 exec. cbn [child cell rb_right]. destruct r as [|cr rl r rr].
    + cbn [ptr c_true Z.eqb negb]. by exec.
    + rewrite c_true_addr by (by apply ok_ptr). apply (IH m a (Node cr rl r rr)); [done..|lia].
  - rewrite c_true_addr by (by apply ok_ptr). apply (IH m a (Node cl ll l lr)); [done..|lia].
Qed.

(** The path from a node whose subtree is done: left siblings are freed. *)
Fixpoint post_path (m : rb_mem) (p : Z) (k : list frame) : Prop :=
  match k with
  | [] => True
  | F d c a s :: k' =>
      rb_nodes m !! a = Some (cell d (top k') c p (ptr s)) /\
      (d = SLeft -> tree_at (rb_nodes m) a s) /\ post_path m a k'
  end.

Definition next_after (k : list frame) : Z :=
  match k with
  | F SLeft _ p (Node _ _ _ _ as s) :: _ => deepest s
  | _ => top k
  end.

Lemma next_postorder_spec fuel m n x y c k :
  rb_nodes m !! n = Some (cell SLeft (top k) c x y) -> post_path m n k ->
  NoDup (n :: path_addrs k) -> Forall ok_addr (n :: path_addrs k) ->
  (forall d c' p s k', k = F d c' p s :: k' -> (height s <= fuel)%nat) ->
  rwp (rb_next_postorder fuel n) (fun a m' => a = next_after k /\ m' = m) m.
Proof.
  intros Hn Hp Hnd Hok Hf. unfold rb_next_postorder. unpack Hok. destruct Hok as [Hok Hokp].
  rewrite c_true_addr by done. cbn [negb]. do 2 exec.
  rewrite rb_parent_cell by (by apply aligned_path). destruct k as [|[d c' p s] k].
  { cbn [top c_true Z.eqb negb]. by exec. }
  destruct Hp as (Hpc & Hs & Hp). unpack Hnd. unpack Hokp. destruct_and!. cbn [top].
  rewrite c_true_addr by done. cbn [negb]. do 4 exec. specialize (Hf _ _ _ _ _ eq_refl).
  destruct d; cbn [child cell rb_left rb_right].
  - rewrite Z.eqb_refl. destruct s as [|cs sl s sr].
    { cbn [ptr c_true Z.eqb negb andb]. by exec. }
    rewrite c_true_addr by (by apply ok_ptr). cbn [andb]. apply (left_deepest_spec fuel m p (Node cs sl s sr)); auto.
  - rewrite (proj2 (Z.eqb_neq _ _)) by (by apply ptr_ne). cbn [andb]. by exec.
Qed.

(** ** Freeing *)

(** The endpoints at [l] are freed, everything else is as it was. *)
Definition eps_freed (l : list Z) (m m' : ep_mem) : Prop :=
  forall a,
    (a ∈ l -> rb_nodes (ep_tree m') !! a = None /\ ep_data m' !! a = None) /\
    (a ∉ l -> rb_nodes (ep_tree m') !! a = rb_nodes (ep_tree m) !! a /\ ep_data m' !! a = ep_data m !! a).

Lemma freed_nil m : eps_freed [] m m.
Proof. intros a. split; [set_solver|done]. Qed.

Lemma freed_trans l1 l2 m1 m2 m3 : eps_freed l1 m1 m2 -> eps_freed l2 m2 m3 -> eps_freed (l1 ++ l2) m1 m3.
Proof.
  intros H1 H2 a. destruct (H1 a) as [H1a H1b], (H2 a) as [H2a H2b].
  rewrite elem_of_app. split.
  - intros Ha. destruct (decide (a ∈ l2)) as [Hin|Hin]; [auto|].
    destruct Ha as [Ha|Ha]; [|done]. destruct (H2b Hin) as [-> ->]. auto.
  - intros Ha. destruct H2b as [-> ->]; [tauto|]. apply H1b. tauto.
Qed.

Lemma freed_perm l l' m m' : l ≡ₚ l' -> eps_freed l' m m' -> eps_freed l m m'.
Proof. intros Hl H a. rewrite Hl. apply H. Qed.

Lemma freed_one a m : eps_freed [a] m (free_ep a m).
Proof.
  intros b. unfold free_ep. cbn [ep_tree ep_data rb_nodes]. rewrite list_elem_of_singleton. split.
  - intros ->. by rewrite !lookup_delete_eq.
  - intros Hb. by rewrite !lookup_delete_ne.
Qed.

Lemma post_path_ext m m' p k :
  post_path m p k -> (forall a, a ∈ path_addrs k -> rb_nodes m' !! a = rb_nodes m !! a) ->
  post_path m' p k.
Proof.
  revert p. induction k as [|[d c a s] k IH]; intros p; simpl; [done|].
  intros (H1 & H2 & H3) He. split_and!.
  - rewrite He; [done|]. set_solver.
  - intros Hd. eapply tree_at_ext; [by apply H2|]. set_solver.
  - apply IH; [done|]. set_solver.
Qed.

(** One turn of the loop: the node itself, after its children. *)
Lemma free_node fuel N m c x y n k :
  rb_nodes (ep_tree m) !! n = Some (cell SLeft (top k) c x y) -> post_path (ep_tree m) n k ->
  NoDup (n :: path_addrs k) -> Forall ok_addr (n :: path_addrs k) ->
  (forall d c' p s k', k = F d c' p s :: k' -> (height s <= fuel)%nat) -> is_Some (ep_data m !! n) ->
  free_loop (S N) fuel n m = free_loop N fuel (next_after k) (free_ep n m).
Proof.
  intros Hn Hp Hnd Hok Hf [e He]. pose proof (next_postorder_spec fuel _ n x y c k Hn Hp Hnd Hok Hf) as Hrun.
  cbn [free_loop]. rewrite (proj2 (Z.eqb_neq n 0)) by (apply Forall_cons in Hok as [[] _]; done).
  unfold rwp in Hrun. unfold in_tree. destruct (rb_next_postorder fuel n (ep_tree m)) as [[a t]| |]; try done.
  destruct Hrun as [-> ->]. cbn [obind]. unfold ep_of. cbn [ep_data]. rewrite He. cbn [or_undef obind].
  by destruct m.
Qed.

(** A subtree whose nodes come next is freed, and then what follows it. *)
Lemma free_tree fuel : forall t k N m,
  tree_at (rb_nodes (ep_tree m)) (top k) t -> post_path (ep_tree m) (ptr t) k -> t <> Leaf ->
  NoDup (inorder t ++ path_addrs k) -> Forall ok_addr (inorder t ++ path_addrs k) ->
  (height (plug t k) <= fuel)%nat -> (forall a, a ∈ inorder t -> is_Some (ep_data m !! a)) ->
  exists m', free_loop (length (inorder t) + N) fuel (deepest t) m = free_loop N fuel (next_after k) m' /\
    eps_freed (inorder t) m m'.
Proof.
  induction t as [|c l IHl n r IHr]; intros k N m Ht Hp Hne Hnd Hok Hf Hdata; [done|].
  destruct Ht as (Hn & Hl & Hr). cbn [inorder ptr] in *. rewrite <- app_assoc in Hnd, Hok. cbn [app] in Hnd, Hok.
  assert (Hnd' : NoDup (inorder r ++ n :: inorder l ++ path_addrs k)).
  { eapply NoDup_Permutation_proper; [|exact Hnd]. solve_Permutation. }
  assert (Hok' : Forall ok_addr (inorder r ++ n :: inorder l ++ path_addrs k)).
  { rewrite !Forall_app, !Forall_cons, !Forall_app in *. tauto. }
  pose proof Hnd as Hsep. unpack Hsep. destruct_and!.
  (* the left subtree *)
  assert (exists m1, free_loop (length (inorder l) + (length (inorder r) + S N)) fuel (deepest (Node c l n r)) m
      = free_loop (length (inorder r) + S N) fuel (next_after (F SLeft c n r :: k)) m1 /\
      eps_freed (inorder l) m m1) as (m1 & Hrun1 & Hfree1).
  { destruct l as [|cl ll l lr]; [exists m; split; [by destruct r|apply freed_nil]|].
    apply (IHl (F SLeft c n r :: k)); [done..|]. intros a Ha. apply Hdata. set_solver. }
  assert (Hsame1 : forall a, a ∉ inorder l -> rb_nodes (ep_tree m1) !! a = rb_nodes (ep_tree m) !! a /\
    ep_data m1 !! a = ep_data m !! a) by (intros a; apply Hfree1).
  (* the right subtree *)
  assert (exists m2, free_loop (length (inorder r) + S N) fuel (next_after (F SLeft c n r :: k)) m1
      = free_loop (S N) fuel n m2 /\ eps_freed (inorder r) m1 m2) as (m2 & Hrun2 & Hfree2).
  { destruct r as [|cr rl r rr]; [exists m1; split; [done|apply freed_nil]|].
    apply (IHr (F SRight c n l :: k)).
    - eapply tree_at_ext; [exact Hr|]. intros a Ha. apply Hsame1. clash.
    - split_and!; [|done|].
      + destruct (Hsame1 n) as [-> _]; [done|]. exact Hn.
      + eapply post_path_ext; [exact Hp|]. intros a Ha. apply Hsame1. clash.
    - done.
    - done.
    - done.
    - done.
    - intros a Ha. destruct (Hsame1 a) as [_ ->]; [clash|]. apply Hdata. set_solver. }
  assert (Hsame2 : forall a, a ∉ inorder l -> a ∉ inorder r ->
    rb_nodes (ep_tree m2) !! a = rb_nodes (ep_tree m) !! a /\ ep_data m2 !! a = ep_data m !! a).
  { intros a Ha Hb. destruct (Hfree2 a) as [_ Hout]. destruct (Hout Hb) as [-> ->]. by apply Hsame1. }
  exists (free_ep n m2). split.
  - rewrite length_app. cbn [length].
    replace (length (inorder l) + S (length (inorder r)) + N)%nat
      with (length (inorder l) + (length (inorder r) + S N))%nat by lia.
    rewrite Hrun1, Hrun2. eapply free_node.
    + destruct (Hsame2 n) as [-> _]; [done|done|]. exact Hn.
    + eapply post_path_ext; [exact Hp|]. intros a Ha. apply Hsame2; clash.
    + by autorewrite with seps.
    + rewrite !Forall_app, !Forall_cons, !Forall_app in Hok. rewrite Forall_cons. tauto.
    + intros d c' p s k' ->. pose proof (height_plug (node_d d c' (Node c l n r) p s) k') as Hh.
      cbn [plug] in Hf. assert (height s < height (node_d d c' (Node c l n r) p s))%nat by (destruct d; simpl; lia). lia.
    + destruct (Hsame2 n) as [_ ->]; [done|done|]. apply Hdata. set_solver.
  - eapply (freed_perm _ (inorder l ++ inorder r ++ [n])); [solve_Permutation|].
    eapply freed_trans; [done|]. eapply freed_trans; [done|]. apply freed_one.
Qed.

(** C25. [ep_db_free] returns, has freed every endpoint of the tree and
    nothing else, and never reads a node or an endpoint that is freed: such a
    read would be undefined behaviour. *)
Theorem free_reads_no_freed_memory m t db n fuel :
  ep_rep m t db -> (33 < fuel)%nat -> (length db < n)%nat ->
  exists m', rb_ep_db_free n fuel m = Ok m' /\ eps_freed (inorder t) m m'.
Proof.
  intros Hrep Hf Hn. pose proof (ep_height _ _ _ Hrep) as Hh. pose proof Hrep as [Ht _ Heps _ _].
  pose proof (zip_sep _ _ _ Ht) as Hnd. pose proof (zip_addrs _ _ _ Ht) as Hok.
  pose proof Ht as [Htree Hroot _]. cbn [path_at] in Hroot.
  pose proof (Forall2_length _ _ _ Heps) as Hlen.
  unfold rb_ep_db_free, in_tree, rb_first_postorder. rewrite Hroot. destruct n as [|n]; [lia|].
  destruct (decide (ptr t = 0)) as [Hz|Hz].
  - destruct t as [|c l a r]; [|cbn [ptr inorder path_addrs app] in *; unpack Hok; unfold ok_addr in Hok; tauto].
    exists m. split; [by destruct m|apply freed_nil].
  - rewrite (proj2 (c_true_spec _) Hz). assert (Hne : t <> Leaf) by (by intros ->).
    assert (Hfirst : rwp (rb_left_deepest_node fuel (ptr t)) (fun a m' => a = deepest t /\ m' = ep_tree m) (ep_tree m)).
    { eapply left_deepest_spec; [exact Htree|done| |lia]. cbn [path_addrs] in Hok. by rewrite app_nil_r in Hok. }
    unfold rwp in Hfirst. destruct (rb_left_deepest_node fuel (ptr t) (ep_tree m)) as [[a t']| |]; try done.
    destruct Hfirst as [-> ->]. cbn [obind].
    destruct (free_tree fuel t [] (S n - length (inorder t))%nat (mk_ep_mem (ep_tree m) (ep_data m)))
      as (m' & Hrun & Hfree); [exact Htree|done|done|exact Hnd|exact Hok|simpl; lia| |].
    + intros a Ha. cbn [ep_data]. apply list_elem_of_lookup in Ha as [i Hi].
      destruct (Forall2_lookup_l _ _ _ _ _ Heps Hi) as (e & _ & He). eauto.
    + replace (length (inorder t) + (S n - length (inorder t)))%nat with (S n) in Hrun by lia.
      exists m'. split; [|by destruct m]. etrans; [exact Hrun|].
      destruct (S n - length (inorder t))%nat eqn:E; [lia|done].
Qed.

(** Two endpoints, the one with the smaller LID under the other. *)
Definition two_endpoints : ep_mem :=
  mk_ep_mem
    (mk_rb_mem 8 (<[8 := mk_rb_node 1 0 16]> (<[16 := mk_rb_node 8 0 0]> ∅)))
    (<[8 := ep_fresh 7]> (<[16 := ep_fresh 3]> ∅)).
Definition two_nodes : rb_tree := Node Black (Node Red Leaf 16 Leaf) 8 Leaf.

Lemma two_endpoints_rep : ep_rep two_endpoints two_nodes [ep_fresh 3; ep_fresh 7].
Proof.
  split.
  - split; [by repeat split|done|]. cbn. unfold ok_tree. cbn.
    split; repeat constructor; set_solver.
  - exists 1%nat. repeat econstructor.
  - repeat constructor.
  - repeat constructor; simpl; lia.
  - repeat constructor; simpl; lia.
Qed.

Lemma free_reads_no_freed_memory_witness :
  exists m', rb_ep_db_free 3 34 two_endpoints = Ok m' /\ eps_freed [16; 8] two_endpoints m'.
Proof.
  apply (free_reads_no_freed_memory two_endpoints two_nodes [ep_fresh 3; ep_fresh 7]);
    [exact two_endpoints_rep|lia|simpl; lia].
Defined.
